(* ===== verification/_CoqProject ===== *)
-Q . S2P
Prelude.v
Bitops.v
LinkedList.v
AllocPage.v
AllocPageInv.v
AllocPageSpec.v
AllocPageInit.v
AllocPageThm.v
AllocPageReach.v
AllocPageProps.v
CMem.v
CString.v
CStringSpec.v
CStringMem.v
CStringNum.v
CStringGlob.v
CStringProps.v
Printf.v
PrintfOut.v
PrintfFmt.v
PrintfProps.v
Report.v
ReportProps.v
Argv.v
ArgvProps.v
ArgvEnv.v
Ldiv32.v
Memregions.v
AllocPhys.v
AllocPhysProps.v
Alloc.v
Cpumask.v
CpumaskProps.v
OnCpus.v
OnCpusProps.v
PageMem.v
X86Vm.v
X86VmProps.v
X86VmSplit.v
X86VmThms.v
Vmalloc.v
VmallocProps.v
SetupVmProps.v
RiscvMmu.v
RiscvMmuProps.v
RiscvMmuThms.v
Rand.v
RandProps.v
Fdt.v
FdtRo.v
FdtProps.v
FdtTree.v
FdtWalk.v
FdtPath.v
FdtThms.v
FdtSearch.v
DeviceTree.v
DtProps.v
DtExample.v
DtThms.v
DtFind.v
DtChosen.v
RiscvSetup.v
RiscvSetupProps.v
RiscvSetupThms.v
Virtio.v
VirtioProps.v
VirtioMmio.v
VirtioBind.v
Sieve.v
