(* ===== verification/Prelude.v ===== *)
(** * kvm-unit-tests: verification of the guest library

    kvm-unit-tests is a collection of small guest programs that test a
    hypervisor.  All of them are linked with the library under src/lib, which
    brings the guest up and gives it memory, strings, formatted output,
    reports, arguments and processors.  This development models that library
    as executable functions and proves that its parts do what their callers
    rely on.

    ** How the model reads

    A C function becomes a Rocq function of the same name.  State that the
    code keeps in static variables is a record that is passed through; a call
    returns an outcome of type [res] (below): a value, a failed assertion, an
    access outside of the objects the code owns, or a call that never returns.
    Integers are kept in [Z] and truncated where C truncates them.  Loops that
    are not structural carry fuel; the fuel is computed from the arguments or
    the size of the data and is proved to be enough, since running out of it
    is [Hang], which the statements about results exclude.

    Three kinds of memory appear: the free pages that hold the list nodes of
    the page allocator ([LinkedList]), bytes ([CMem]: strings, buffers and
    device trees), and 64-bit words of physical memory ([PageMem]: page tables
    and data behind them).

    ** The parts and their files

    - Generic: [Prelude] (outcomes, loops, integers, tactics), [Bitops]
      (lib/bitops.h and the alignment macros of lib/libcflat.h).
    - Page allocator, lib/alloc_page.c: [LinkedList] (lib/list.h), [AllocPage]
      (the code), [AllocPageInv] (the invariant), [AllocPageSpec]
      (specifications of the operations on one area), [AllocPageInit]
      (initialisation), [AllocPageThm] (requests and releases),
      [AllocPageReach] (reachable states), [AllocPageProps] (theorems).
    - Early allocator and interface, lib/alloc_phys.c and lib/alloc.c:
      [AllocPhys], [AllocPhysProps], [Alloc].  [Alloc] states the interface of
      an implementation of memalign and free as a class and shows that the
      page allocator and the early allocator keep it; malloc, calloc and free
      are proved against the class.
    - Pages for page tables: [PageMem] (memory of words, the class [page_laws]
      of page allocators with the page allocator as its instance, and budgets:
      the number of pages that a call asks for at most).
    - x86 page tables, lib/x86/vm.c: [X86Vm] (the code), [X86VmProps] (the page
      walk of the processor as a definition of its own, the invariant of the
      tables, installing entries), [X86VmSplit] (searching and splitting),
      [X86VmThms] (theorems).  The tables are proved against [page_laws].
    - RISC-V page tables, lib/riscv/mmu.c: [RiscvMmu], [RiscvMmuProps] (the
      Sv39 walk of the processor, the invariant, installing ranges),
      [RiscvMmuThms] (theorems), against [page_laws] as well.
    - Virtual allocation, lib/vmalloc.c: [Vmalloc], [VmallocProps];
      bringing it up, __setup_vm of lib/vmalloc.c and find_highmem of
      lib/x86/setup.c: [SetupVmProps], which composes the early allocator, the
      page allocator, the page tables and the virtual allocator.
    - Memory on RISC-V, mem_init of lib/riscv/setup.c and __setup_vm:
      [RiscvSetup], [RiscvSetupProps], [RiscvSetupThms], which compose the
      device tree, the memory regions, the allocators and the page tables.
    - Processors, lib/cpumask.h and lib/on-cpus.c: [Cpumask], [CpumaskProps],
      [OnCpus] (a step function for processors that call and serve requests),
      [OnCpusProps] (invariant over all interleavings).
    - Strings, lib/string.c: [CMem], [CString], [CStringSpec], [CStringMem],
      [CStringNum], [CStringGlob], [CStringProps].
    - Formatted output, lib/printf.c: [Printf], [PrintfOut], [PrintfFmt],
      [PrintfProps].
    - Reports, lib/report.c: [Report], [ReportProps].
    - Arguments and environment, lib/argv.c: [Argv], [ArgvProps], [ArgvEnv].
    - 64-bit division on 32-bit machines, lib/ldiv32.c: [Ldiv32].
    - Memory regions, lib/memregions.c: [Memregions].
    - Random numbers, lib/rand.c: [Rand], [RandProps].
    - A test program, common/sieve.c: [Sieve].
    - Device trees, lib/libfdt/fdt.c and fdt_ro.c: [Fdt] and [FdtRo] (the
      code on a blob in byte memory), [FdtProps] (safety on untrusted blobs),
      [FdtTree] (the tree a blob holds), [FdtWalk] (iteration and lookups),
      [FdtPath] (paths and aliases), [FdtThms] (theorems), [FdtSearch]
      (parents and searches, and the class [fdt_tree]: what libfdt promises to
      its clients on a blob that holds a tree).
    - Accessors of the device tree, lib/devicetree.c: [DeviceTree],
      [DtProps] (proved against [fdt_tree]), [DtExample] (a concrete
      machine), [DtThms] (memory and processors), [DtFind] (devices),
      [DtChosen] (boot information).
    - Virtio, lib/virtio.c: [Virtio], [VirtioProps] (driver and device as a
      step relation, parametrised by when the driver asks for a used buffer,
      and the invariant over all interleavings); lib/virtio-mmio.c
      and lib/chr-testdev.c: [VirtioMmio], with the registers of the device
      as a class, and [VirtioBind], which composes the device tree, the
      queues and formatted output.

    ** What the theorems show

    - Memory: the page allocator refines an abstract allocator of disjoint
      aligned blocks, in every reachable state; the early allocator and the
      virtual allocator hand out disjoint blocks as well; malloc and its
      siblings inherit this through their interface.
    - Translation: the page tables stay well formed and translate as asked;
      large pages are split without a change of any translation or of the
      rights that the levels of the walk give together; a virtual block is
      backed by fresh pages, and releasing it returns exactly these, so that
      only page tables the processor goes through stay.
      A call that needs page tables succeeds unless the page allocator runs
      out of pages within the budget of the call.  On RISC-V the memory that
      the device tree describes ends up mapped to itself, the code executable
      and the rest writable.
    - Concurrency: under every interleaving a request to another processor is
      executed once and in order, and two moves of that processor are enough.
    - Text: the string functions agree with functions on lists, formatting
      agrees with a reference rendering, printing and reading a number is the
      identity, prefixes of reports form a stack, the exit code counts the
      failures, command line and environment are split into their words.
    - Arithmetic: division, orders, masks, SHA-256 equal their definitions; the
      sieve marks and counts the prime numbers.
    - Device trees: on any blob with a checked header reading a tag is memory
      safe, and the iterations come to an end when no property length wraps
      around; on a blob that holds a tree, iteration over subnodes, lookups
      of properties and paths return what the tree has, and the accessors
      find the memory and the processors it describes.
    - Devices: under every interleaving a virtio queue stays well typed, no
      index leaves its array, and the rings fit into their pages; for a driver
      that asks for a used buffer only when there is one, which the code does
      not check, the device takes the buffers in the order in which they were
      added, with their contents; a device is found by its registers, and the
      exit code reaches it as text, cut off when it is longer than the buffer.
    - What the code does not do: theorems that exhibit inputs for which the
      code does not do what its comments say (blocks that never merge, pages
      handed out twice, buffers that overflow); the manifest lists them as
      findings.

    ** Bounds

    Fuel: the loops over strings run for the length of the memory block, the
    ones over formats for the length of the format, the ones over blocks for
    the number of frames of an area, a page walk for its four levels
    (three on RISC-V), the release of a virtual block for its pages plus one,
    mapping a range for its pages plus two.  The page allocator is
    modelled with the memory areas of x86 and frames below 2^52, and RISC-V,
    which has one area, uses area 0 of them only; processors
    with the 256 of RISC-V; strings and buffers must not wrap around the
    address space.

    ** Not modelled

    Code that talks to devices, firmware or the hypervisor (interrupt
    controllers, PCI devices, ACPI and EFI tables, hypercalls), inline
    assembly and most boot code, since their behaviour is defined by hardware;
    the test programs apart from the sieve, which observe a hypervisor; the
    shell scripts.  Translation lookaside buffers, caches and weak memory
    order are not modelled; code under CONFIG_EFI and the 32-bit variants of
    the x86 page tables are left out. *)

From Stdlib Require Export ZArith Lia.
From stdpp Require Export base tactics option numbers list functions sets gmap.

#[global] Set Default Goal Selector "!".
#[global] Set Warnings "-clear-no-such-hyp".
#[global] Open Scope Z_scope.

(** ** Outcomes of C code

    [Ret a]: the call returns [a].  [Abort]: a failing [assert] or an explicit
    [abort()] (libcflat.h).  [Fault]: an access outside the object the code
    owns (a null dereference, an index outside an array).  [Hang]: the code
    never gets past this point (a spinlock that is already held by the caller,
    a loop that runs out of the iterations the model allows). *)

Inductive res (A : Type) : Type :=
| Ret (a : A)
| Abort
| Fault
| Hang.
Arguments Ret {A} a.
Arguments Abort {A}.
Arguments Fault {A}.
Arguments Hang {A}.

#[global] Instance res_eq_dec `{EqDecision A} : EqDecision (res A).
Proof. solve_decision. Defined.

(** Sequencing: the continuation runs only after a normal return. *)
Definition bind {A B} (r : res A) (f : A → res B) : res B :=
  match r with
  | Ret a => f a
  | Abort => Abort
  | Fault => Fault
  | Hang => Hang
  end.

Declare Scope c_scope.
Delimit Scope c_scope with C.
#[global] Open Scope c_scope.

Notation "'let*' x ':=' c 'in' k" := (bind c (λ x, k))
  (at level 10, x name, c at level 100, k at level 200,
   format "'[' 'let*'  x  ':='  c  'in' ']' '/' k") : c_scope.
Notation "'let*' ' p ':=' c 'in' k" := (bind c (λ x, match x with p => k end))
  (at level 10, p pattern, c at level 100, k at level 200,
   only parsing) : c_scope.

(** [assert(b)] of libcflat.h, followed by the rest of the function. *)
Notation "'assert!' b ; k" := (if b then k else Abort)
  (at level 20, b at level 19, k at level 200, only parsing) : c_scope.
(** An access that is defined only when [b] holds. *)
Notation "'valid!' b ; k" := (if b then k else Fault)
  (at level 20, b at level 19, k at level 200, only parsing) : c_scope.

(** ** Total-correctness triples

    [post r Q]: the computation returns, and its result satisfies [Q]. *)
Definition post {A} (r : res A) (Q : A → Prop) : Prop :=
  match r with Ret a => Q a | _ => False end.

Lemma post_bind {A B} (r : res A) (f : A → res B) (Q : B → Prop) :
  post (bind r f) Q ↔ post r (λ a, post (f a) Q).
Proof. by destruct r. Qed.

Lemma post_mono {A} (r : res A) (P Q : A → Prop) :
  post r P → (∀ a, P a → Q a) → post r Q.
Proof. destruct r; simpl; auto. Qed.

Lemma post_inv {A} (r : res A) (Q : A → Prop) :
  post r Q ↔ ∃ a, r = Ret a ∧ Q a.
Proof. destruct r; simpl; split; naive_solver. Qed.

Lemma post_ret {A} (a : A) (r : res A) : post r (λ x, x = a) → r = Ret a.
Proof. intros (x & -> & ->)%post_inv. done. Qed.

Lemma bind_ret_inv {A B} (r : res A) (f : A → res B) (b : B) :
  bind r f = Ret b ↔ ∃ a, r = Ret a ∧ f a = Ret b.
Proof. destruct r; simpl; split; naive_solver. Qed.

Lemma bind_assoc {A B C} (r : res A) (f : A → res B) (g : B → res C) :
  bind (bind r f) g = bind r (λ a, bind (f a) g).
Proof. by destruct r. Qed.

(** The value of a computation that returns. *)
Definition ret_or {A} (d : A) (r : res A) : A := match r with Ret a => a | _ => d end.
Definition is_ret {A} (r : res A) : bool := match r with Ret _ => true | _ => false end.

Lemma ret_or_eq {A} (d : A) (r : res A) : is_ret r = true → r = Ret (ret_or d r).
Proof. by destruct r. Qed.

(** Drive a triple through a bind whose head is specified by [H]. *)
Ltac post_with H :=
  apply post_bind; eapply post_mono; [eapply H|].

(** ** Loops *)

(** [for (i = lo; i < lo + n; i++) body(i)] over a threaded state. *)
Fixpoint for_ {S} (n : nat) (i : Z) (body : Z → S → res S) (s : S) : res S :=
  match n with
  | O => Ret s
  | Datatypes.S n' => let* s' := body i s in for_ n' (i + 1) body s'
  end.

Lemma for_inv {S} (I : Z → S → Prop) (n : nat) (lo : Z) (body : Z → S → res S) (s : S) :
  I lo s →
  (∀ (i : Z) (s : S), lo ≤ i < lo + Z.of_nat n → I i s → post (body i s) (I (i + 1))) →
  post (for_ n lo body s) (I (lo + Z.of_nat n)).
Proof.
  revert lo s. induction n as [|n IH]; intros lo s H0 Hstep; cbn [for_].
  - simpl. by rewrite Z.add_0_r.
  - apply post_bind. eapply post_mono; [apply Hstep; [lia|done]|].
    intros s' Hs'. replace (lo + Z.of_nat (Datatypes.S n)) with (lo + 1 + Z.of_nat n) by lia.
    apply IH; [done|]. intros i s1 Hi. apply Hstep. lia.
Qed.

(** [while (cond) body], at most [fuel] iterations.  [cond] may itself read
    memory, hence it returns a [res bool]. *)
Fixpoint while_ {S} (fuel : nat) (cond : S → res bool) (body : S → res S) (s : S) : res S :=
  match fuel with
  | O => Hang
  | Datatypes.S fuel' =>
      let* b := cond s in
      if b then let* s' := body s in while_ fuel' cond body s' else Ret s
  end.

(** A while loop whose variant [m] decreases terminates within [fuel > m]
    iterations and establishes its invariant together with the negated
    condition. *)
Lemma while_inv {S} (I : S → Prop) (m : S → nat) (fuel : nat)
    (cond : S → res bool) (body : S → res S) (s : S) :
  I s → (m s < fuel)%nat →
  (∀ s : S, I s → ∃ b, cond s = Ret b ∧
     (b = true → post (body s) (λ s', I s' ∧ (m s' < m s)%nat))) →
  post (while_ fuel cond body s) (λ s', I s' ∧ cond s' = Ret false).
Proof.
  revert s. induction fuel as [|fuel IH]; intros s HI Hm Hstep; [lia|].
  cbn [while_]. destruct (Hstep s HI) as (b & Hc & Hb). rewrite Hc. simpl.
  destruct b; [|simpl; auto].
  apply post_bind. eapply post_mono; [apply Hb; done|].
  intros s' [HI' Hm']. apply IH; [done|lia|done].
Qed.

(** ** Machine integers

    Values are kept in [Z]; every operation that C performs at a width is
    followed by the truncation to that width. *)
Definition u8 (x : Z) : Z := x mod 2 ^ 8.
Definition u16 (x : Z) : Z := x mod 2 ^ 16.
Definition u32 (x : Z) : Z := x mod 2 ^ 32.
Definition u64 (x : Z) : Z := x mod 2 ^ 64.

(** Two's complement reading of a [w]-bit pattern. *)
Definition sgn (w x : Z) : Z := (x + 2 ^ (w - 1)) mod 2 ^ w - 2 ^ (w - 1).
Definition s8 (x : Z) : Z := sgn 8 x.
Definition s32 (x : Z) : Z := sgn 32 x.
Definition s64 (x : Z) : Z := sgn 64 x.

Lemma u8_range x : 0 ≤ u8 x < 2 ^ 8.
Proof. apply Z.mod_pos_bound. lia. Qed.
Lemma u16_range x : 0 ≤ u16 x < 2 ^ 16.
Proof. apply Z.mod_pos_bound. lia. Qed.
Lemma u32_range x : 0 ≤ u32 x < 2 ^ 32.
Proof. apply Z.mod_pos_bound. lia. Qed.
Lemma u64_range x : 0 ≤ u64 x < 2 ^ 64.
Proof. apply Z.mod_pos_bound. lia. Qed.

Lemma u8_small x : 0 ≤ x < 2 ^ 8 → u8 x = x.
Proof. apply Z.mod_small. Qed.
Lemma u16_small x : 0 ≤ x < 2 ^ 16 → u16 x = x.
Proof. apply Z.mod_small. Qed.
Lemma u32_small x : 0 ≤ x < 2 ^ 32 → u32 x = x.
Proof. apply Z.mod_small. Qed.
Lemma u64_small x : 0 ≤ x < 2 ^ 64 → u64 x = x.
Proof. apply Z.mod_small. Qed.

Lemma sgn_range w x : 0 < w → - 2 ^ (w - 1) ≤ sgn w x < 2 ^ (w - 1).
Proof.
  intros Hw. unfold sgn.
  assert (H2 : 2 ^ w = 2 * 2 ^ (w - 1)).
  { replace w with (1 + (w - 1)) at 1 by lia. rewrite Z.pow_add_r by lia. lia. }
  pose proof (Z.mod_pos_bound (x + 2 ^ (w - 1)) (2 ^ w)). lia.
Qed.

Lemma sgn_small w x : 0 < w → - 2 ^ (w - 1) ≤ x < 2 ^ (w - 1) → sgn w x = x.
Proof.
  intros Hw Hx. unfold sgn.
  assert (H2 : 2 ^ w = 2 * 2 ^ (w - 1)).
  { replace w with (1 + (w - 1)) at 1 by lia. rewrite Z.pow_add_r by lia. lia. }
  rewrite Z.mod_small by lia. lia.
Qed.
Lemma s32_small x : - 2 ^ 31 ≤ x < 2 ^ 31 → s32 x = x.
Proof. intros. by apply sgn_small. Qed.

Create HintDb cint.
Create Rewrite HintDb cint.
#[export] Hint Resolve u8_range u16_range u32_range u64_range : cint.
#[export] Hint Rewrite u8_small u16_small u32_small u64_small using lia : cint.

(** Decide a boolean comparison of integers and continue with the
    proposition. *)
Ltac zcase :=
  match goal with
  | |- context [Z.eqb ?a ?b] => destruct (Z.eqb_spec a b)
  | |- context [Z.ltb ?a ?b] => destruct (Z.ltb_spec a b)
  | |- context [Z.leb ?a ?b] => destruct (Z.leb_spec a b)
  end.

(** Turn boolean integer tests in the context into propositions. *)
Ltac zbool :=
  repeat match goal with
  | H : (_ =? _) = true |- _ => apply Z.eqb_eq in H
  | H : (_ =? _) = false |- _ => apply Z.eqb_neq in H
  | H : (_ <? _) = true |- _ => apply Z.ltb_lt in H
  | H : (_ <? _) = false |- _ => apply Z.ltb_ge in H
  | H : (_ <=? _) = true |- _ => apply Z.leb_le in H
  | H : (_ <=? _) = false |- _ => apply Z.leb_gt in H
  | H : andb _ _ = true |- _ => apply andb_true_iff in H; destruct H
  | H : orb _ _ = false |- _ => apply orb_false_iff in H; destruct H
  | H : negb _ = true |- _ => apply negb_true_iff in H
  | H : negb _ = false |- _ => apply negb_false_iff in H
  end.

(** Accesses to an array by an index that may be out of range. *)
Definition arr_get {A} (l : list A) (i : Z) : res A :=
  if i <? 0 then Fault else match l !! Z.to_nat i with Some x => Ret x | None => Fault end.
Definition arr_set {A} (l : list A) (i : Z) (x : A) : res (list A) :=
  if (0 <=? i) && (i <? Z.of_nat (length l)) then Ret (<[Z.to_nat i := x]> l) else Fault.

Lemma arr_get_ok {A} (l : list A) i x : 0 ≤ i → l !! Z.to_nat i = Some x → arr_get l i = Ret x.
Proof. intros Hi E. unfold arr_get. by rewrite (proj2 (Z.ltb_ge _ _)), E. Qed.

Lemma arr_set_ok {A} (l : list A) i x : 0 ≤ i < Z.of_nat (length l) → arr_set l i x = Ret (<[Z.to_nat i := x]> l).
Proof. intros Hi. unfold arr_set. by rewrite (proj2 (Z.leb_le _ _)), (proj2 (Z.ltb_lt _ _)) by lia. Qed.
