(* ===== verification/Bitops.v ===== *)
(** * lib/bitops.h and the alignment macros of lib/libcflat.h

    The bit-level arithmetic every allocator and page-table walker of the
    library is written with: [BIT], [GENMASK_ULL], [ALIGN], [IS_ALIGNED],
    [fls], [is_power_of_2], [get_order], at the widths of an LP64 target
    ([unsigned long] is 64 bits). *)

From S2P Require Import Prelude.

Definition BITS_PER_LONG : Z := 64.
Definition BITS_PER_LONG_LONG : Z := 64.
Definition ULONG_MAX : Z := 2 ^ 64 - 1.

Definition BIT (nr : Z) : Z := u64 (Z.shiftl 1 nr).
Definition BIT_ULL (nr : Z) : Z := u64 (Z.shiftl 1 nr).
Definition BIT_MASK (nr : Z) : Z := u64 (Z.shiftl 1 (nr mod BITS_PER_LONG)).
Definition BIT_WORD (nr : Z) : Z := nr / BITS_PER_LONG.

Definition GENMASK_ULL (h l : Z) : Z :=
  Z.land (u64 (Z.shiftl ULONG_MAX l))
         (Z.shiftr ULONG_MAX (BITS_PER_LONG_LONG - 1 - h)).

Definition ALIGN_MASK (x mask : Z) : Z :=
  Z.land (u64 (x + mask)) (u64 (Z.lnot mask)).
Definition ALIGN (x a : Z) : Z := ALIGN_MASK x (u64 (a - 1)).
Definition ALIGN_DOWN (x a : Z) : Z := ALIGN (u64 (x - (a - 1))) a.
Definition IS_ALIGNED (x a : Z) : bool := Z.land x (u64 (a - 1)) =? 0.

(** One halving step of [fls]: when none of the top [s] bits is set, skip
    them. *)
Definition fls_step (s : Z) (st : Z * Z) : Z * Z :=
  let '(num, word) := st in
  if Z.land word (u64 (Z.shiftl ULONG_MAX (BITS_PER_LONG - s))) =? 0
  then (num - s, u64 (Z.shiftl word s))
  else (num, word).

(** The generic [fls]: the last step of the source only decrements [num]. *)
Definition fls (word : Z) : Z :=
  let '(num, word) :=
    fls_step 2 (fls_step 4 (fls_step 8 (fls_step 16
      (fls_step 32 (BITS_PER_LONG - 1, word))))) in
  if Z.land word (u64 (Z.shiftl ULONG_MAX (BITS_PER_LONG - 1))) =? 0
  then num - 1 else num.

Definition is_power_of_2 (n : Z) : bool :=
  negb (n =? 0) && (Z.land n (u64 (n - 1)) =? 0).

Definition get_order (size : Z) : Z :=
  if size =? 0 then 0
  else fls size + (if is_power_of_2 size then 0 else 1).

(** ** Bit-level lemmas shared by the clients *)

Lemma land_pow2_minus1 x k : 0 ≤ k → Z.land x (2 ^ k - 1) = x mod 2 ^ k.
Proof. intros. rewrite <- Z.land_ones by done. by rewrite Z.ones_equiv, Z.sub_1_r. Qed.

Lemma BIT_pow2 k : 0 ≤ k < 64 → BIT k = 2 ^ k.
Proof.
  intros Hk. unfold BIT. rewrite Z.shiftl_1_l, u64_small; [done|].
  split; [lia|]. apply Z.pow_lt_mono_r; lia.
Qed.

Lemma BIT_ULL_pow2 k : 0 ≤ k < 64 → BIT_ULL k = 2 ^ k.
Proof. apply BIT_pow2. Qed.

Lemma pow2_u64_range k : 0 ≤ k < 64 → 0 < 2 ^ k < 2 ^ 64.
Proof. intros. split; [lia|]. apply Z.pow_lt_mono_r; lia. Qed.

Lemma IS_ALIGNED_pow2 x k : 0 ≤ k < 64 → IS_ALIGNED x (2 ^ k) = (x mod 2 ^ k =? 0).
Proof.
  intros Hk. unfold IS_ALIGNED. pose proof (pow2_u64_range k Hk).
  rewrite u64_small by lia. by rewrite land_pow2_minus1 by lia.
Qed.

(** [~mask] at 64 bits, for a mask of [k] low ones. *)
Lemma u64_lnot_ones k : 0 ≤ k ≤ 64 → u64 (Z.lnot (2 ^ k - 1)) = 2 ^ 64 - 2 ^ k.
Proof.
  intros Hk. unfold u64, Z.lnot.
  assert (2 ^ k ≤ 2 ^ 64) by (apply Z.pow_le_mono_r; lia).
  replace (Z.pred (- (2 ^ k - 1))) with (2 ^ 64 - 2 ^ k + (-1) * 2 ^ 64) by lia.
  rewrite Z.mod_add by lia. apply Z.mod_small. lia.
Qed.

(** Masking with the high ones of a 64-bit word clears the low [k] bits. *)
Lemma land_high_ones x k : 0 ≤ k ≤ 64 → 0 ≤ x < 2 ^ 64 →
  Z.land x (2 ^ 64 - 2 ^ k) = x - x mod 2 ^ k.
Proof.
  intros Hk Hx.
  assert (E : 2 ^ 64 - 2 ^ k = Z.shiftl (Z.ones (64 - k)) k).
  { rewrite Z.shiftl_mul_pow2, Z.ones_equiv by lia.
    replace (2 ^ 64) with (2 ^ (64 - k) * 2 ^ k) by (rewrite <- Z.pow_add_r by lia; f_equal; lia).
    lia. }
  transitivity (Z.ldiff x (Z.ones k)).
  - apply Z.bits_inj'. intros i Hi. rewrite Z.land_spec, Z.ldiff_spec, E.
    rewrite Z.shiftl_spec by lia.
    destruct (decide (i < k)).
    + rewrite (Z.testbit_neg_r _ (i - k)), Z.ones_spec_low by lia. by destruct (Z.testbit x i).
    + rewrite (Z.ones_spec_high k) by lia.
      destruct (decide (i < 64)).
      * rewrite Z.ones_spec_low by lia. done.
      * rewrite <- (Z.mod_small x (2 ^ 64)), Z.mod_pow2_bits_high by lia. done.
  - rewrite Z.ldiff_ones_r, Z.shiftr_div_pow2, Z.shiftl_mul_pow2 by lia.
    pose proof (Z.div_mod x (2 ^ k)). lia.
Qed.

(** [ALIGN] rounds up to the next multiple when the addition does not wrap. *)
Lemma ALIGN_pow2 x k :
  0 ≤ k < 64 → 0 ≤ x → x + (2 ^ k - 1) < 2 ^ 64 →
  ALIGN x (2 ^ k) = (x + (2 ^ k - 1)) - (x + (2 ^ k - 1)) mod 2 ^ k.
Proof.
  intros Hk Hx Hlt. pose proof (pow2_u64_range k Hk).
  unfold ALIGN, ALIGN_MASK. rewrite (u64_small (2 ^ k - 1)) by lia.
  rewrite (u64_small (x + _)), u64_lnot_ones, land_high_ones by lia. done.
Qed.

Lemma GENMASK_ULL_high k : 0 ≤ k < 64 → GENMASK_ULL 63 k = 2 ^ 64 - 2 ^ k.
Proof.
  intros Hk. unfold GENMASK_ULL, BITS_PER_LONG_LONG, ULONG_MAX.
  change (64 - 1 - 63) with 0. rewrite Z.shiftr_0_r.
  rewrite Z.shiftl_mul_pow2 by lia.
  rewrite <- (u64_lnot_ones k) at 1 by lia.
  unfold u64 at 1. replace ((2 ^ 64 - 1) * 2 ^ k) with (2 ^ 64 - 2 ^ k + (2 ^ k - 1) * 2 ^ 64) by ring.
  pose proof (pow2_u64_range k Hk).
  rewrite Z.mod_add, Z.mod_small by lia.
  rewrite land_pow2_minus1 by lia. rewrite Z.mod_small by lia.
  by rewrite u64_lnot_ones by lia.
Qed.

(** ** fls, is_power_of_2 and get_order *)

Definition fls_inv (w s : Z) (st : Z * Z) : Prop :=
  0 < st.2 < 2 ^ 64 ∧ 64 - s ≤ Z.log2 st.2 ∧ Z.log2 st.2 + st.1 = Z.log2 w + 63.

Lemma land_top_zero word s : 0 ≤ s ≤ 64 → 0 ≤ word < 2 ^ 64 →
  Z.land word (u64 (Z.shiftl ULONG_MAX (64 - s))) = 0 ↔ word < 2 ^ (64 - s).
Proof.
  intros Hs Hw.
  assert (E : u64 (Z.shiftl ULONG_MAX (64 - s)) = 2 ^ 64 - 2 ^ (64 - s)).
  { destruct (decide (s = 0)) as [->|]; [done|].
    rewrite <- GENMASK_ULL_high by lia. unfold GENMASK_ULL, ULONG_MAX.
    change (Z.shiftr (2 ^ 64 - 1) (BITS_PER_LONG_LONG - 1 - 63)) with (2 ^ 64 - 1).
    rewrite land_pow2_minus1 by lia. rewrite Z.mod_small; [done|]. apply u64_range. }
  rewrite E, land_high_ones by lia.
  pose proof (Z.mod_pos_bound word (2 ^ (64 - s))). split; intros.
  - lia.
  - rewrite Z.mod_small; lia.
Qed.

Lemma fls_step_inv w s st : 0 < s → 2 * s ≤ 64 →
  fls_inv w (2 * s) st → fls_inv w s (fls_step s st).
Proof.
  intros Hs Hs2 (Hr & Hlog & Heq). destruct st as [num word]; cbn [fst snd] in *.
  unfold fls_step, BITS_PER_LONG.
  destruct (Z.eqb_spec (Z.land word (u64 (Z.shiftl ULONG_MAX (64 - s)))) 0) as [E|E].
  - apply land_top_zero in E; [|lia..].
    assert (Hb : word * 2 ^ s < 2 ^ 64).
    { replace (2 ^ 64) with (2 ^ (64 - s) * 2 ^ s) by (rewrite <- Z.pow_add_r by lia; f_equal; lia).
      apply Z.mul_lt_mono_pos_r; lia. }
    assert (0 < word * 2 ^ s) by (apply Z.mul_pos_pos; lia).
    unfold fls_inv; cbn [fst snd]. rewrite Z.shiftl_mul_pow2, u64_small by lia.
    rewrite Z.log2_mul_pow2 by lia. lia.
  - rewrite land_top_zero in E by lia. unfold fls_inv; cbn [fst snd].
    assert (64 - s ≤ Z.log2 word) by (apply Z.log2_le_pow2; lia). lia.
Qed.

Lemma fls_log2 w : 0 < w < 2 ^ 64 → fls w = Z.log2 w.
Proof.
  intros Hw. unfold fls.
  assert (H64 : fls_inv w (2 * 32) (BITS_PER_LONG - 1, w)).
  { unfold fls_inv, BITS_PER_LONG; cbn [fst snd]. pose proof (Z.log2_nonneg w). lia. }
  apply fls_step_inv in H64; [|lia..]. apply (fls_step_inv w 16) in H64; [|lia..].
  apply (fls_step_inv w 8) in H64; [|lia..]. apply (fls_step_inv w 4) in H64; [|lia..].
  apply (fls_step_inv w 2) in H64; [|lia..].
  destruct (fls_step 2 _) as [num word]. destruct H64 as (Hr & Hlog & Heq); cbn [fst snd] in *.
  change (BITS_PER_LONG - 1) with (64 - 1).
  assert (Z.log2 word < 64) by (apply Z.log2_lt_pow2; lia).
  destruct (Z.eqb_spec (Z.land word (u64 (Z.shiftl ULONG_MAX (64 - 1)))) 0) as [E|E];
    rewrite land_top_zero in E by lia.
  - assert (Z.log2 word < 63) by (apply Z.log2_lt_pow2; lia). lia.
  - assert (63 ≤ Z.log2 word) by (apply Z.log2_le_pow2; lia). lia.
Qed.

Lemma is_power_of_2_spec n : 0 ≤ n < 2 ^ 64 →
  is_power_of_2 n = true ↔ n = 2 ^ Z.log2 n ∧ 0 < n.
Proof.
  intros Hn. unfold is_power_of_2. rewrite andb_true_iff, negb_true_iff, Z.eqb_neq, Z.eqb_eq.
  destruct (decide (n = 0)) as [->|Hn0]; [naive_solver lia|].
  rewrite u64_small by lia.
  pose proof (Z.log2_spec n ltac:(lia)) as [Hlo Hhi]. rewrite Z.pow_succ_r in Hhi by apply Z.log2_nonneg.
  set (k := Z.log2 n) in *. assert (0 ≤ k) by apply Z.log2_nonneg.
  split.
  - intros [_ E]. split; [|lia]. destruct (decide (n = 2 ^ k)) as [|Hne]; [done|exfalso].
    assert (Hb : Z.testbit (Z.land n (n - 1)) k = true).
    { rewrite Z.land_spec. apply andb_true_intro. split.
      - by apply Z.bit_log2; lia.
      - replace k with (Z.log2 (n - 1)); [apply Z.bit_log2; lia|].
        apply Z.log2_unique; [lia|]. rewrite Z.pow_succ_r by lia. lia. }
    rewrite E in Hb. by rewrite Z.testbit_0_l in Hb.
  - intros [E _]. split; [lia|]. rewrite E, land_pow2_minus1 by lia. apply Z.mod_same. lia.
Qed.

Lemma is_power_of_2_pow2 k : 0 ≤ k < 64 → is_power_of_2 (2 ^ k) = true.
Proof.
  intros Hk. pose proof (pow2_u64_range k Hk). apply is_power_of_2_spec; [lia|].
  rewrite Z.log2_pow2 by lia. lia.
Qed.

(** [get_order] is the base-2 logarithm, rounded up. *)
Lemma get_order_log2_up n : 0 < n < 2 ^ 64 → get_order n = Z.log2_up n.
Proof.
  intros Hn. unfold get_order. rewrite (proj2 (Z.eqb_neq n 0)) by lia.
  rewrite fls_log2 by lia. destruct (is_power_of_2 n) eqn:E.
  - apply is_power_of_2_spec in E as [E _]; [|lia].
    rewrite E, Z.log2_pow2, Z.log2_up_pow2 by apply Z.log2_nonneg. lia.
  - assert (Hne : n ≠ 2 ^ Z.log2 n).
    { intros H. assert (is_power_of_2 n = true) by (apply is_power_of_2_spec; auto with lia). congruence. }
    symmetry. apply Z.log2_up_unique; [pose proof (Z.log2_nonneg n); lia|].
    pose proof (Z.log2_spec n ltac:(lia)). rewrite Z.add_1_r, Z.pred_succ. lia.
Qed.

(** [get_order] returns the least order whose block holds [size] units,
    for every size an [unsigned long] can carry. *)
Theorem get_order_least size :
  0 < size < 2 ^ 64 →
  size ≤ 2 ^ get_order size ∧
  ∀ o, 0 ≤ o → size ≤ 2 ^ o → get_order size ≤ o.
Proof.
  intros Hs. rewrite get_order_log2_up by done.
  destruct (decide (size = 1)) as [->|].
  - change (Z.log2_up 1) with 0. split; [lia|]. lia.
  - pose proof (Z.log2_up_spec size ltac:(lia)). split; [lia|].
    intros o Ho Hle. apply Z.log2_up_le_pow2; lia.
Qed.

Lemma get_order_least_witness :
  5 ≤ 2 ^ get_order 5 ∧ ∀ o, 0 ≤ o → 5 ≤ 2 ^ o → get_order 5 ≤ o.
Proof. apply (get_order_least 5). lia. Defined.
