(* ===== verification/LinkedList.v ===== *)
(** * lib/list.h: the intrusive circular doubly-linked list

    The list nodes of the page allocator live in the first two words of the
    free pages themselves, the list heads in the [areas] array.  The store is
    a total map from node addresses to their two words: memory always holds
    something, initially anything.  [dll h hd l] says that the cycle through
    the head [hd] visits exactly the nodes [l], in order, in both directions. *)

From stdpp Require Import relations.
From S2P Require Import Prelude.

(** A node address: the null pointer, [&areas[n].freelists[o]], or the first
    bytes of the page frame [pfn]. *)
Inductive ptr : Type :=
| NULL
| Head (n o : Z)
| Page (pfn : Z).

#[export] Instance ptr_eq_dec : EqDecision ptr.
Proof. solve_decision. Defined.

Record linked_list : Type := mk_node { prev : ptr; next : ptr }.

Abbreviation heap := (ptr → linked_list).

Definition is_null (p : ptr) : bool := bool_decide (p = NULL).

(** [p->prev], [p->next] and the assignments to them. *)
Definition get_prev (h : heap) (p : ptr) : res ptr :=
  valid! (negb (is_null p)); Ret (prev (h p)).
Definition get_next (h : heap) (p : ptr) : res ptr :=
  valid! (negb (is_null p)); Ret (next (h p)).
Definition set_prev (h : heap) (p v : ptr) : res heap :=
  valid! (negb (is_null p)); Ret (<[p := mk_node v (next (h p))]> h).
Definition set_next (h : heap) (p v : ptr) : res heap :=
  valid! (negb (is_null p)); Ret (<[p := mk_node (prev (h p)) v]> h).

(** [!p->next || !p->prev || p == p->next || p == p->prev] *)
Definition is_list_empty (h : heap) (p : ptr) : res bool :=
  let* nx := get_next h p in
  let* pv := get_prev h p in
  Ret (is_null nx || is_null pv || bool_decide (p = nx) || bool_decide (p = pv)).

Definition list_remove (h : heap) (l : ptr) : res (ptr * heap) :=
  let* e := is_list_empty h l in
  if e then Ret (NULL, h) else
  let* lp := get_prev h l in
  let* ln := get_next h l in
  let* h := set_next h lp ln in
  let* ln := get_next h l in
  let* lp := get_prev h l in
  let* h := set_prev h ln lp in
  let* h := set_next h l NULL in
  let* h := set_prev h l NULL in
  Ret (l, h).

Definition list_add (h : heap) (head li : ptr) : res heap :=
  assert! (negb (is_null li));
  assert! (negb (is_null head));
  let* h := set_prev h li head in
  let* hn := get_next h head in
  let* h := set_next h li hn in
  let* hn := get_next h head in
  let* h := set_prev h hn li in
  set_next h head li.

Definition list_add_tail (h : heap) (head li : ptr) : res heap :=
  assert! (negb (is_null head));
  let* hp := get_prev h head in
  list_add h hp li.

(** ** Representation *)

(** [lseg h x l y]: following [next] from [x] visits [l] and then [y], and
    [prev] leads back. *)
Fixpoint lseg (h : heap) (x : ptr) (l : list ptr) (y : ptr) : Prop :=
  match l with
  | [] => next (h x) = y ∧ prev (h y) = x
  | p :: l' => next (h x) = p ∧ prev (h p) = x ∧ lseg h p l' y
  end.

Definition dll (h : heap) (hd : ptr) (l : list ptr) : Prop :=
  lseg h hd l hd ∧ NoDup (hd :: l) ∧ NULL ∉ hd :: l.

Lemma lseg_app h x l1 p l2 y :
  lseg h x (l1 ++ p :: l2) y ↔ lseg h x l1 p ∧ lseg h p l2 y.
Proof. revert x. induction l1 as [|q l1 IH]; intros x; simpl; [|rewrite IH]; tauto. Qed.

(** A segment reads [next] of [x] and of its interior, and [prev] of its
    interior and of [y]. *)
Lemma lseg_ext h h' x l y :
  (∀ q, q ∈ x :: l → next (h' q) = next (h q)) →
  (∀ q, q ∈ l ++ [y] → prev (h' q) = prev (h q)) →
  lseg h x l y → lseg h' x l y.
Proof.
  revert x. induction l as [|p l IH]; intros x Hn Hp; simpl.
  - intros [E1 E2]. split; [rewrite Hn|rewrite Hp]; set_solver.
  - intros (E1 & E2 & Hl). split_and!.
    + rewrite Hn; set_solver.
    + rewrite Hp; set_solver.
    + apply IH; [| |done]; intros q Hq; [apply Hn|apply Hp]; set_solver.
Qed.

Lemma dll_frame h h' hd l :
  (∀ q, q ∈ hd :: l → h' q = h q) → dll h hd l → dll h' hd l.
Proof.
  intros Hf (Hs & Hnd & Hnn). split_and!; [|done..].
  eapply lseg_ext; [| |exact Hs]; intros q Hq; f_equal; apply Hf; [done|set_solver].
Qed.

Lemma lseg_first h x l y : lseg h x l y → next (h x) = hd y l.
Proof. destruct l; simpl; tauto. Qed.

Lemma lseg_last h x l y : lseg h x l y → prev (h y) = default x (last l).
Proof.
  revert x. induction l as [|p l IH]; intros x; simpl; [tauto|].
  intros (_ & _ & H). rewrite (IH _ H), last_cons. by destruct (last l).
Qed.

Lemma is_null_false p : p ≠ NULL → is_null p = false.
Proof. intros. by apply bool_decide_eq_false. Qed.

(** Reads and writes of valid nodes, as rewriting rules. *)
Lemma get_prev_valid h p : p ≠ NULL → get_prev h p = Ret (prev (h p)).
Proof. intros. unfold get_prev. by rewrite is_null_false. Qed.
Lemma get_next_valid h p : p ≠ NULL → get_next h p = Ret (next (h p)).
Proof. intros. unfold get_next. by rewrite is_null_false. Qed.
Lemma set_prev_valid h p v : p ≠ NULL → set_prev h p v = Ret (<[p := mk_node v (next (h p))]> h).
Proof. intros. unfold set_prev. by rewrite is_null_false. Qed.
Lemma set_next_valid h p v : p ≠ NULL → set_next h p v = Ret (<[p := mk_node (prev (h p)) v]> h).
Proof. intros. unfold set_next. by rewrite is_null_false. Qed.

Create Rewrite HintDb node.
#[export] Hint Rewrite get_prev_valid get_next_valid set_prev_valid set_next_valid
  using done : node.

(** Decide the updates of the store at the node that is looked up. *)
Ltac heap_simpl :=
  repeat match goal with
  | |- context [<[?p := _]> _ ?q] =>
      first [ rewrite (fn_lookup_insert _ p) | rewrite (fn_lookup_insert_ne _ p q) by done ]
  end; cbn [prev next].

(** Execute the next access, using [H] for the contents of the store. *)
Ltac node_step H :=
  progress (autorewrite with node; cbn [bind]; heap_simpl; rewrite ?H; cbn [prev next]).

(** ** Effect of the operations on individual nodes *)

Section nodes.
Context (h : heap).

(** What [list_add head li] does when [head]'s successor is [y]. *)
Lemma list_add_node x y li :
  x ≠ NULL → li ≠ NULL → y ≠ NULL → next (h x) = y → li ≠ x → li ≠ y →
  ∃ h', list_add h x li = Ret h' ∧
    h' li = mk_node x y ∧ next (h' x) = li ∧ prev (h' y) = li ∧
    (∀ q, q ≠ x → q ≠ li → next (h' q) = next (h q)) ∧
    (∀ q, q ≠ y → q ≠ li → prev (h' q) = prev (h q)) ∧
    (∀ q, q ≠ x → q ≠ y → q ≠ li → h' q = h q).
Proof.
  intros Hx Hli Hy Hnx Hlx Hly. unfold list_add. rewrite !is_null_false by done.
  cbn [negb]. repeat node_step Hnx.
  eexists; split; [reflexivity|].
  destruct (decide (x = y)) as [->|Hxy]; heap_simpl; split_and!; try done; intros q **; heap_simpl; try done.
  - destruct (decide (q = y)) as [->|]; heap_simpl; done.
  - destruct (decide (q = x)) as [->|]; heap_simpl; done.
Qed.

(** What [list_remove p] does when [p] sits between [a] and [b]. *)
Lemma list_remove_node p a b :
  p ≠ NULL → a ≠ NULL → b ≠ NULL → h p = mk_node a b → p ≠ a → p ≠ b →
  ∃ h', list_remove h p = Ret (p, h') ∧
    h' p = mk_node NULL NULL ∧ next (h' a) = b ∧ prev (h' b) = a ∧
    (∀ q, q ≠ a → q ≠ p → next (h' q) = next (h q)) ∧
    (∀ q, q ≠ b → q ≠ p → prev (h' q) = prev (h q)) ∧
    (∀ q, q ≠ a → q ≠ b → q ≠ p → h' q = h q).
Proof.
  intros Hp Ha Hb Hnode Hpa Hpb. unfold list_remove, is_list_empty.
  repeat node_step Hnode.
  rewrite !is_null_false, !bool_decide_eq_false_2 by done. cbn [orb].
  repeat node_step Hnode.
  eexists; split; [reflexivity|].
  destruct (decide (a = b)) as [->|Hab]; heap_simpl; rewrite ?Hnode; split_and!; try done;
    intros q **; heap_simpl; try done.
  - destruct (decide (q = b)) as [->|]; heap_simpl; done.
  - destruct (decide (q = a)) as [->|]; heap_simpl; done.
Qed.
End nodes.

Lemma lseg_next_in h x l y : lseg h x l y → next (h x) ∈ l ++ [y].
Proof. destruct l; simpl; intros (-> & _); set_solver. Qed.

(** The node before the position that follows [l1] in the list of [d]. *)
Lemma last_split {A} (d : A) (l1 : list A) :
  (l1 = [] ∧ default d (last l1) = d) ∨
  (∃ l0 x, l1 = l0 ++ [x] ∧ default d (last l1) = x).
Proof.
  destruct (last l1) as [x|] eqn:E.
  - right. apply last_Some in E as [l0 ->]. eauto.
  - left. by apply last_None in E.
Qed.

(** Splicing [li] in front of the rest [l2] of a segment. *)
Lemma lseg_insert h h' x li l2 z :
  h' li = mk_node x (List.hd z l2) → next (h' x) = li → prev (h' (List.hd z l2)) = li →
  (∀ q, q ≠ x → q ≠ li → next (h' q) = next (h q)) →
  (∀ q, q ≠ List.hd z l2 → q ≠ li → prev (h' q) = prev (h q)) →
  x ∉ l2 → z ∉ l2 → NoDup l2 → li ∉ l2 → li ≠ z →
  lseg h x l2 z → lseg h' x (li :: l2) z.
Proof.
  intros Hli Hx Hy Hn Hp Hxl Hzl Hnd Hlil Hliz Hs. cbn [lseg].
  rewrite Hli. split_and!; [done|done|].
  destruct l2 as [|y l2]; cbn [List.hd lseg] in *; rewrite Hli; cbn [next].
  - done.
  - destruct Hs as (_ & _ & Hs). split_and!; [done..|].
    apply NoDup_cons in Hnd as [Hyl Hnd].
    eapply lseg_ext; [| |exact Hs]; intros q Hq; [apply Hn|apply Hp]; set_solver.
Qed.

(** Unlinking [p] from the front of a segment. *)
Lemma lseg_unlink h h' x p l2 z :
  next (h' x) = List.hd z l2 → prev (h' (List.hd z l2)) = x →
  (∀ q, q ≠ x → q ≠ p → next (h' q) = next (h q)) →
  (∀ q, q ≠ List.hd z l2 → q ≠ p → prev (h' q) = prev (h q)) →
  x ∉ l2 → z ∉ l2 → NoDup l2 → p ∉ l2 → p ≠ z →
  lseg h x (p :: l2) z → lseg h' x l2 z.
Proof.
  intros Hx Hy Hn Hp Hxl Hzl Hnd Hpl Hpz (_ & _ & Hs).
  destruct l2 as [|y l2]; cbn [List.hd lseg] in *; [done|].
  destruct Hs as (_ & _ & Hs). split_and!; [done..|].
  apply NoDup_cons in Hnd as [Hyl Hnd].
  eapply lseg_ext; [| |exact Hs]; intros q Hq; [apply Hn|apply Hp]; set_solver.
Qed.

(** The part of the cycle in front of the insertion point is not read at the
    nodes an insertion or a removal writes. *)
Lemma lseg_before h h' hd l0 x l2 li :
  (∀ q, q ≠ x → q ≠ li → next (h' q) = next (h q)) →
  (∀ q, q ≠ List.hd hd l2 → q ≠ li → prev (h' q) = prev (h q)) →
  NoDup (hd :: (l0 ++ [x]) ++ l2) → li ∉ hd :: l0 ++ [x] →
  lseg h hd l0 x → lseg h' hd l0 x.
Proof.
  intros Hn Hp Hnd Hli Hs.
  apply NoDup_cons in Hnd as [Hhd Hnd]. apply NoDup_app in Hnd as (Hnd1 & Hdisj & Hnd2).
  apply NoDup_app in Hnd1 as (Hnd0 & Hx & _).
  eapply lseg_ext; [| |exact Hs]; intros q Hq.
  - apply Hn; set_solver.
  - apply Hp; [|set_solver]. destruct l2; set_solver.
Qed.

Lemma lseg_cut h hd l0 x l2 :
  lseg h hd ((l0 ++ [x]) ++ l2) hd ↔ lseg h hd l0 x ∧ lseg h x l2 hd.
Proof. rewrite <- app_assoc. apply lseg_app. Qed.

Lemma dll_next_last h hd l1 l2 :
  dll h hd (l1 ++ l2) → next (h (default hd (last l1))) = List.hd hd l2.
Proof.
  intros (Hs & _). destruct (last_split hd l1) as [[-> ->]|(l0 & x & -> & ->)].
  - by apply lseg_first in Hs.
  - apply lseg_cut in Hs as [_ Hs]. by apply lseg_first in Hs.
Qed.

(** Two nodes differ because only one of them is on the list. *)
Ltac ne_solver :=
  repeat match goal with
  | x := _ : ptr |- _ => clearbody x
  | H : next _ = _ |- _ => clear H
  | H : _ = mk_node _ _ |- _ => clear H
  end; set_solver.

(** ** The operations on represented lists *)

Lemma dll_insert h hd l1 l2 li x :
  dll h hd (l1 ++ l2) → x = default hd (last l1) →
  li ∉ hd :: l1 ++ l2 → li ≠ NULL →
  post (list_add h x li) (λ h',
    dll h' hd (l1 ++ li :: l2) ∧
    ∀ q, q ∉ li :: hd :: l1 ++ l2 → h' q = h q).
Proof.
  intros Hd -> Hli Hlin. pose proof (dll_next_last _ _ _ _ Hd) as Hnx.
  destruct Hd as (Hs & Hnd & Hnn).
  set (x := default hd (last l1)) in *. set (y := List.hd hd l2) in *.
  assert (Hxin : x ∈ hd :: l1).
  { subst x. destruct (last_split hd l1) as [[-> ->]|(l0 & x & -> & ->)]; set_solver. }
  assert (Hyin : y ∈ hd :: l2) by (subst y; destruct l2; set_solver).
  destruct (list_add_node h x y li) as (h' & -> & H1 & H2 & H3 & H4 & H5 & H6);
    [ne_solver|done|ne_solver|done|ne_solver|ne_solver|].
  cbn [post]. split; [split_and!|].
  - subst x y. apply NoDup_cons in Hnd as [Hhd Hnd'].
    pose proof Hnd' as (Hnd1 & Hdisj & Hnd2)%NoDup_app.
    destruct (last_split hd l1) as [[-> E]|(l0 & x & -> & E)]; rewrite E in *.
    + cbn [app] in *. eapply (lseg_insert h); try done; set_solver.
    + apply lseg_cut in Hs as [Hs1 Hs2]. apply lseg_cut. split.
      * eapply (lseg_before h); try done; [apply NoDup_cons; done|set_solver].
      * eapply (lseg_insert h); try done; set_solver.
  - rewrite <- Permutation_middle. apply NoDup_cons in Hnd as [Hhd Hnd'].
    apply NoDup_cons. split; [set_solver|]. apply NoDup_cons. set_solver.
  - set_solver.
  - intros q Hq. apply H6; set_solver.
Qed.

Lemma list_add_spec h hd l li :
  dll h hd l → li ∉ hd :: l → li ≠ NULL →
  post (list_add h hd li) (λ h',
    dll h' hd (li :: l) ∧ ∀ q, q ∉ li :: hd :: l → h' q = h q).
Proof. intros. by apply (dll_insert h hd [] l li hd). Qed.

Lemma list_add_tail_spec h hd l li :
  dll h hd l → li ∉ hd :: l → li ≠ NULL →
  post (list_add_tail h hd li) (λ h',
    dll h' hd (l ++ [li]) ∧ ∀ q, q ∉ li :: hd :: l → h' q = h q).
Proof.
  intros Hd Hli Hn. unfold list_add_tail.
  assert (hd ≠ NULL) by (destruct Hd as (_ & _ & ?); set_solver).
  rewrite is_null_false, get_prev_valid by done. cbn [bind negb].
  pose proof (dll_insert h hd l [] li (prev (h hd))) as H'. rewrite app_nil_r in H'.
  apply H'; try done. destruct Hd as (Hs & _). by apply lseg_last in Hs.
Qed.

Lemma dll_between h hd l1 p l2 :
  dll h hd (l1 ++ p :: l2) →
  h p = mk_node (default hd (last l1)) (List.hd hd l2).
Proof.
  intros (Hs & _). apply lseg_app in Hs as [Hs1 Hs2].
  apply lseg_last in Hs1. apply lseg_first in Hs2.
  destruct (h p); simpl in *. by subst.
Qed.

Lemma list_remove_full h hd l1 p l2 :
  dll h hd (l1 ++ p :: l2) →
  post (list_remove h p) (λ '(r, h'),
    r = p ∧ h' p = mk_node NULL NULL ∧ dll h' hd (l1 ++ l2) ∧
    ∀ q, q ∉ hd :: l1 ++ p :: l2 → h' q = h q).
Proof.
  intros Hd. pose proof (dll_between _ _ _ _ _ Hd) as Hp.
  destruct Hd as (Hs & Hnd & Hnn).
  set (a := default hd (last l1)) in *. set (b := List.hd hd l2) in *.
  assert (Hain : a ∈ hd :: l1).
  { subst a. destruct (last_split hd l1) as [[-> ->]|(l0 & x & -> & ->)]; set_solver. }
  assert (Hbin : b ∈ hd :: l2) by (subst b; destruct l2; set_solver).
  pose proof Hnd as [Hhd Hnd']%NoDup_cons.
  pose proof Hnd' as (Hnd1 & Hdisj & [Hpl2 Hnd2]%NoDup_cons)%NoDup_app.
  destruct (list_remove_node h p a b) as (h' & -> & H1 & H2 & H3 & H4 & H5 & H6);
    [ne_solver|ne_solver|ne_solver|done|ne_solver|ne_solver|].
  cbn [post]. split_and!; [done|done| |].
  - split_and!.
    + subst a b. destruct (last_split hd l1) as [[-> E]|(l0 & x & -> & E)]; rewrite E in *.
      * cbn [app] in *. eapply (lseg_unlink h); try done; set_solver.
      * apply lseg_cut in Hs as [Hs1 Hs2]. apply lseg_cut. split.
        -- eapply (lseg_before h _ _ _ _ l2 p); try done; [|set_solver].
           apply NoDup_cons; split; [set_solver|]. apply NoDup_app; set_solver.
        -- eapply (lseg_unlink h); try done; set_solver.
    + apply NoDup_cons. split; [set_solver|]. apply NoDup_app. set_solver.
    + set_solver.
  - intros q Hq. apply H6; set_solver.
Qed.

Lemma list_remove_spec h hd l1 p l2 :
  dll h hd (l1 ++ p :: l2) →
  post (list_remove h p) (λ '(r, h'),
    r = p ∧ dll h' hd (l1 ++ l2) ∧
    ∀ q, q ∉ hd :: l1 ++ p :: l2 → h' q = h q).
Proof. intros Hd. eapply post_mono; [by apply list_remove_full|]. by intros [r h'] (? & _ & ? & ?). Qed.

(** A node without neighbours, or the head of an empty list, is not removed. *)
Lemma list_remove_empty h p : is_list_empty h p = Ret true → list_remove h p = Ret (NULL, h).
Proof. intros E. unfold list_remove. by rewrite E. Qed.

Lemma is_list_empty_null h p : p ≠ NULL → h p = mk_node NULL NULL → is_list_empty h p = Ret true.
Proof. intros Hp E. unfold is_list_empty. autorewrite with node; cbn [bind]. by rewrite E. Qed.

Lemma is_list_empty_spec h hd l :
  dll h hd l → is_list_empty h hd = Ret (bool_decide (l = [])).
Proof.
  intros (Hs & Hnd & Hnn). unfold is_list_empty.
  assert (hd ≠ NULL) by set_solver. autorewrite with node; cbn [bind].
  rewrite (lseg_first _ _ _ _ Hs), (lseg_last _ _ _ _ Hs). f_equal.
  apply NoDup_cons in Hnd as [Hhd _].
  destruct l as [|p l]; cbn [List.hd].
  - rewrite (bool_decide_eq_true_2 (hd = hd)), orb_true_r by done. done.
  - destruct (last_split hd (p :: l)) as [[? _]|(l0 & x & E & ->)]; [done|].
    assert (hd ≠ p ∧ p ≠ NULL) as [??] by set_solver.
    rewrite E in Hhd, Hnn. assert (hd ≠ x ∧ x ≠ NULL) as [??] by set_solver.
    by rewrite !is_null_false, !bool_decide_eq_false_2.
Qed.

(** A node that is on a list is not seen as an empty list. *)
Lemma is_list_empty_elem h hd l p :
  dll h hd l → p ∈ l → is_list_empty h p = Ret false.
Proof.
  intros Hd (l1 & l2 & ->)%list_elem_of_split.
  pose proof (dll_between _ _ _ _ _ Hd) as Hp. destruct Hd as (Hs & Hnd & Hnn).
  pose proof Hnd as [Hhd Hnd']%NoDup_cons.
  pose proof Hnd' as (Hnd1 & Hdisj & [Hpl2 Hnd2]%NoDup_cons)%NoDup_app.
  unfold is_list_empty. assert (p ≠ NULL) by set_solver.
  autorewrite with node; cbn [bind]. rewrite !Hp; cbn [prev next].
  assert (default hd (last l1) ∈ hd :: l1).
  { destruct (last_split hd l1) as [[-> ->]|(l0 & x & -> & ->)]; set_solver. }
  assert (List.hd hd l2 ∈ hd :: l2) by (destruct l2; set_solver).
  clear Hp. generalize dependent (default hd (last l1)). generalize dependent (List.hd hd l2).
  intros b Hb a Ha. rewrite !is_null_false, !bool_decide_eq_false_2; [done|ne_solver..].
Qed.

(** C28: the list operations refine operations on sequences of nodes.  On a
    list that holds [l], empty or not: [list_add] and [list_add_tail] of a node
    that is not on it put the node first or last, and [is_list_empty] tells
    whether [l] is empty.  [list_remove] of a member returns it, takes it off
    the list and clears both of its links, so that it is recognised as being on
    no list; of the head of an empty list, or of a node with cleared links, it
    returns null and changes nothing.  Members are recognised as being on a
    list, no operation touches any other node, and a null node or a null head
    is an error. *)
Theorem list_ops_refine h hd l :
  dll h hd l →
  is_list_empty h hd = Ret (bool_decide (l = [])) ∧
  (∀ li, li ∉ hd :: l → li ≠ NULL →
     post (list_add h hd li) (λ h', dll h' hd (li :: l) ∧ ∀ q, q ∉ li :: hd :: l → h' q = h q) ∧
     post (list_add_tail h hd li) (λ h', dll h' hd (l ++ [li]) ∧ ∀ q, q ∉ li :: hd :: l → h' q = h q)) ∧
  (∀ l1 p l2, l = l1 ++ p :: l2 →
     is_list_empty h p = Ret false ∧
     post (list_remove h p) (λ '(r, h'), r = p ∧ h' p = mk_node NULL NULL ∧ dll h' hd (l1 ++ l2) ∧
       (∀ q, q ∉ hd :: l → h' q = h q) ∧ is_list_empty h' p = Ret true ∧ list_remove h' p = Ret (NULL, h'))) ∧
  (l = [] → list_remove h hd = Ret (NULL, h)) ∧
  (∀ x, list_add h x NULL = Abort ∧ is_list_empty h NULL = Fault ∧ list_add_tail h NULL x = Abort ∧
     (x ≠ NULL → list_add h NULL x = Abort)).
Proof.
  intros Hd. split_and!.
  - by apply is_list_empty_spec.
  - intros li Hli Hn. split; [by apply list_add_spec|by apply list_add_tail_spec].
  - intros l1 p l2 ->. split; [apply (is_list_empty_elem _ _ _ _ Hd); set_solver|].
    eapply post_mono; [by apply list_remove_full|]. intros [r h'] (-> & Hp & Hd' & Hf).
    assert (Hpn : p ≠ NULL) by (destruct Hd as (_ & _ & ?); set_solver).
    pose proof (is_list_empty_null h' p Hpn Hp) as He. split_and!; try done. by apply list_remove_empty.
  - intros ->. apply list_remove_empty. by rewrite (is_list_empty_spec _ _ _ Hd).
  - intros x. split_and!; try done. intros Hx. unfold list_add. by rewrite is_null_false.
Qed.

(** The list with head [Head 0 0] and the one member [Page 5]. *)
Definition demo_heap : heap :=
  λ q, if decide (q = Page 5) then mk_node (Head 0 0) (Head 0 0) else mk_node (Page 5) (Page 5).

Lemma list_ops_refine_witness :
  is_list_empty demo_heap (Head 0 0) = Ret false ∧ is_list_empty demo_heap (Page 5) = Ret false ∧
  post (list_remove demo_heap (Page 5)) (λ '(r, h'), r = Page 5 ∧ h' (Page 5) = mk_node NULL NULL ∧ dll h' (Head 0 0) []) ∧
  post (list_add_tail demo_heap (Head 0 0) (Page 6)) (λ h', dll h' (Head 0 0) [Page 5; Page 6]) ∧
  (let h : heap := λ q, mk_node q q in is_list_empty h (Head 0 0) = Ret true ∧ list_remove h (Head 0 0) = Ret (NULL, h)).
Proof.
  assert (Hd : dll demo_heap (Head 0 0) [Page 5]).
  { split_and!; [done|apply NoDup_cons; split; [set_solver|apply NoDup_singleton]|set_solver]. }
  destruct (list_ops_refine demo_heap (Head 0 0) [Page 5] Hd) as (H1 & H2 & H3 & _).
  destruct (H3 [] (Page 5) [] eq_refl) as [H4 H5]. split_and!; [exact H1|exact H4| | |].
  - eapply post_mono; [exact H5|]. by intros [r h'] (? & ? & ? & _).
  - eapply post_mono; [apply (H2 (Page 6)); [set_solver|done]|]. by intros h' [? _].
  - destruct (list_ops_refine (λ q, mk_node q q) (Head 0 0) []) as (H6 & _ & _ & H7 & _).
    + split_and!; [done|apply NoDup_singleton|set_solver].
    + exact (conj H6 (H7 eq_refl)).
Defined.
