(* ===== verification/AllocPage.v ===== *)
(** * lib/alloc_page.c: the buddy page allocator

    State and operations, one definition per C function.  The proofs are in
    AllocPageInv.v and AllocPageSpec.v.  The constants are those of the x86-64
    build (lib/x86/asm/memory_areas.h, 4 KiB pages, 64-bit long). *)

From S2P Require Import Prelude.
From S2P Require Import Bitops.
From S2P Require Import LinkedList.

Definition PAGE_SHIFT : Z := 12.
Definition PAGE_SIZE : Z := 4096.

Definition NLISTS : Z := BITS_PER_LONG - PAGE_SHIFT.
Definition IS_ALIGNED_ORDER (x order : Z) : bool := IS_ALIGNED x (BIT_ULL order).

Definition ORDER_MASK : Z := 0x3f.
Definition STATUS_MASK : Z := 0xc0.
Definition STATUS_FRESH : Z := 0x00.
Definition STATUS_FREE : Z := 0x40.
Definition STATUS_ALLOCATED : Z := 0x80.
Definition STATUS_SPECIAL : Z := 0xc0.

Definition IS_FRESH (x : Z) : bool := Z.land x STATUS_MASK =? STATUS_FRESH.
Definition IS_FREE (x : Z) : bool := Z.land x STATUS_MASK =? STATUS_FREE.
Definition IS_ALLOCATED (x : Z) : bool := Z.land x STATUS_MASK =? STATUS_ALLOCATED.
Definition IS_SPECIAL (x : Z) : bool := Z.land x STATUS_MASK =? STATUS_SPECIAL.
Definition IS_USABLE (x : Z) : bool := IS_FREE x || IS_FRESH x.

(** lib/x86/asm/memory_areas.h *)
Definition AREA_NORMAL_PFN : Z := BIT (36 - 12).
Definition AREA_NORMAL_NUMBER : Z := 0.
Definition AREA_HIGH_PFN : Z := BIT (32 - 12).
Definition AREA_HIGH_NUMBER : Z := 1.
Definition AREA_LOW_PFN : Z := BIT (24 - 12).
Definition AREA_LOW_NUMBER : Z := 2.
Definition AREA_LOWEST_PFN : Z := 0.
Definition AREA_LOWEST_NUMBER : Z := 3.
Definition MAX_AREAS : Z := 4.

(** lib/alloc_page.h *)
Definition AREA_ANY_NUMBER : Z := 0xff.
Definition AREA_ANY : Z := 0.
Definition AREA_MASK : Z := 0x0ffff.
Definition FLAG_DONTZERO : Z := 0x10000.
Definition FLAG_FRESH : Z := 0x20000.

(** A memory area.  The metadata table starts at the frame [page_states];
    [states i] is the byte [a->page_states[i]].  The list heads live in the
    store, at [Head n o]. *)
Record mem_area : Type := mk_area {
  base : Z;
  top : Z;
  page_states : Z;
  states : Z → Z;
  max_order : Z;
}.

(** The static variables of alloc_page.c and the first words of every page. *)
Record page_alloc : Type := mk_pa {
  areas : Z → mem_area;
  areas_mask : Z;
  lock : bool;
  mem : heap;
}.

Definition set_states (f : Z → Z) (a : mem_area) : mem_area :=
  mk_area (base a) (top a) (page_states a) f (max_order a).
Definition set_max_order (o : Z) (a : mem_area) : mem_area :=
  mk_area (base a) (top a) (page_states a) (states a) o.
Definition set_area (n : Z) (a : mem_area) (s : page_alloc) : page_alloc :=
  mk_pa (<[n := a]> (areas s)) (areas_mask s) (lock s) (mem s).
Definition set_mask (m : Z) (s : page_alloc) : page_alloc :=
  mk_pa (areas s) m (lock s) (mem s).
Definition set_lock (b : bool) (s : page_alloc) : page_alloc :=
  mk_pa (areas s) (areas_mask s) b (mem s).
Definition set_mem (h : heap) (s : page_alloc) : page_alloc :=
  mk_pa (areas s) (areas_mask s) (lock s) h.

Definition spin_lock (s : page_alloc) : res page_alloc :=
  if lock s then Hang else Ret (set_lock true s).
Definition spin_unlock (s : page_alloc) : page_alloc := set_lock false s.

(** [pfn_to_virt] and [virt_to_pfn]: memory is mapped one to one; the address
    of frame 0 is the null pointer. *)
Definition pfn_to_virt (pfn : Z) : ptr := if pfn =? 0 then NULL else Page pfn.
Definition virt_to_pfn (p : ptr) : res Z :=
  match p with Page pfn => Ret pfn | NULL => Ret 0 | Head _ _ => Fault end.

(** The address held by a [void *] of the interface. *)
Definition vaddr (p : ptr) : Z :=
  match p with Page pfn => Z.shiftl pfn PAGE_SHIFT | _ => 0 end.

(** [&a->freelists[o]] *)
Definition freelist (n o : Z) : res ptr :=
  valid! ((0 <=? o) && (o <? NLISTS)); Ret (Head n o).

(** [a->page_states[i]]: the table ends where the usable frames begin. *)
Definition table_bytes (a : mem_area) : Z := (base a - page_states a) * PAGE_SIZE.
Definition get_state (a : mem_area) (i : Z) : res Z :=
  valid! ((0 <=? i) && (i <? table_bytes a)); Ret (states a i).
Definition set_state (a : mem_area) (i v : Z) : res mem_area :=
  valid! ((0 <=? i) && (i <? table_bytes a));
  Ret (set_states (<[i := u8 v]> (states a)) a).
(** [memset(a->page_states + i, v, n)] *)
Definition fill (f : Z → Z) (i n v : Z) : Z → Z :=
  λ j, if (i <=? j) && (j <? i + n) then v else f j.
Definition memset_states (a : mem_area) (i v n : Z) : res mem_area :=
  valid! ((n =? 0) || (0 <=? i) && (i + n <=? table_bytes a));
  Ret (set_states (fill (states a) i n (u8 v)) a).
(** [BIT(order)]: the shift is defined below the width of the type. *)
Definition bit (o : Z) : res Z := valid! ((0 <=? o) && (o <? 64)); Ret (BIT o).

Definition page_alloc_initialized (s : page_alloc) : bool := negb (areas_mask s =? 0).

Definition area_contains_pfn (a : mem_area) (pfn : Z) : bool :=
  (page_states a <=? pfn) && (pfn <? top a).
Definition usable_area_contains_pfn (a : mem_area) (pfn : Z) : bool :=
  (base a <=? pfn) && (pfn <? top a).

Definition split (n : Z) (addr : ptr) (s : page_alloc) : res page_alloc :=
  let* pfn := virt_to_pfn addr in
  let a := areas s n in
  assert! (usable_area_contains_pfn a pfn);
  let idx := u64 (pfn - base a) in
  let* metadata := get_state a idx in
  let order := Z.land metadata ORDER_MASK in
  assert! (IS_USABLE metadata && negb (order =? 0) && (order <? NLISTS));
  assert! (IS_ALIGNED_ORDER pfn order);
  assert! (usable_area_contains_pfn a (u64 (pfn + BIT order - 1)));
  let* '(_, h) := list_remove (mem s) addr in
  let* a := for_ (Z.to_nat (BIT order)) 0 (λ i a,
    let* st := get_state a (idx + i) in
    assert! (st =? metadata);
    set_state a (idx + i) (metadata - 1)) a in
  let* fl := freelist n order in
  let* empty := is_list_empty h fl in
  let a := if (order =? max_order a) && empty
           then set_max_order (u8 (max_order a - 1)) a else a in
  let order := u8 (order - 1) in
  let* fl := freelist n order in
  let other := pfn_to_virt (u64 (pfn + BIT order)) in
  let* h :=
    if IS_FRESH metadata then
      let* h := list_add_tail h fl addr in
      list_add_tail h fl other
    else
      let* h := list_add h fl addr in
      list_add h fl other in
  Ret (set_mem h (set_area n a s)).

(** The search loop of [page_memalign_order]: the order it breaks out at, the
    node and its index, or [None] when every list up to [max_order] was
    passed over. *)
Fixpoint find_block (fuel : nat) (n : Z) (fresh : bool) (s : page_alloc) (order : Z)
    : res (option (Z * ptr * Z)) :=
  match fuel with
  | O => Hang
  | S fuel =>
      let a := areas s n in
      if max_order a <? order then Ret None else
      let* fl := freelist n order in
      let* p := if fresh then get_prev (mem s) fl else get_next (mem s) fl in
      let* empty := is_list_empty (mem s) p in
      if empty then find_block fuel n fresh s (u8 (order + 1)) else
      let* pfn := virt_to_pfn p in
      let idx := u64 (pfn - base a) in
      let* st := get_state a idx in
      if fresh && negb (IS_FRESH st) then find_block fuel n fresh s (u8 (order + 1))
      else Ret (Some (order, p, idx))
  end.

Definition page_memalign_order (n al sz : Z) (fresh : bool) (s : page_alloc)
    : res (ptr * page_alloc) :=
  assert! ((al <? NLISTS) && (sz <? NLISTS));
  let order := if al <? sz then sz else al in
  let order := u8 (order + if fresh then 1 else 0) in
  let* found := find_block 257 n fresh s order in
  match found with
  | None => Ret (NULL, s)
  | Some (order, p, idx) =>
      let* s := for_ (Z.to_nat (order - sz)) 0 (λ _ s, split n p s) s in
      let order := if sz <? order then sz else order in
      let* '(_, h) := list_remove (mem s) p in
      let s := set_mem h s in
      let* '(p, idx, order, s) :=
        if fresh then
          let order := u8 (order - 1) in
          let* sz' := bit order in
          let* a := memset_states (areas s n) idx (Z.lor STATUS_FRESH order) sz' in
          let* fl := freelist n order in
          let* h := list_add_tail (mem s) fl p in
          let idx := u64 (idx + sz') in
          Ret (pfn_to_virt (u64 (base a + idx)), idx, order, set_mem h (set_area n a s))
        else Ret (p, idx, order, s) in
      let* sz' := bit order in
      let* a := memset_states (areas s n) idx (Z.lor STATUS_ALLOCATED order) sz' in
      Ret (p, set_area n a s)
  end.

(** [get_area]: the index of the first initialised area that holds [pfn]. *)
Definition get_area (s : page_alloc) (pfn : Z) : option Z :=
  List.find (λ i, negb (Z.land (areas_mask s) (BIT i) =? 0) &&
                  usable_area_contains_pfn (areas s i) pfn) [0; 1; 2; 3].

Definition coalesce (n order pfn pfn2 : Z) (s : page_alloc) : res (bool * page_alloc) :=
  assert! (IS_ALIGNED_ORDER pfn order && IS_ALIGNED_ORDER pfn2 order);
  assert! (pfn2 =? u64 (pfn + BIT order));
  let a := areas s n in
  if negb (usable_area_contains_pfn a pfn) ||
     negb (usable_area_contains_pfn a (u64 (pfn2 + BIT order - 1)))
  then Ret (false, s) else
  let first := u64 (pfn - base a) in
  let second := u64 (pfn2 - base a) in
  let* st1 := get_state a first in
  let* st2 := get_state a second in
  if negb (st1 =? order) || negb (st2 =? order) then Ret (false, s) else
  let* '(_, h) := list_remove (mem s) (pfn_to_virt pfn2) in
  let* '(_, h) := list_remove h (pfn_to_virt pfn) in
  let* a := for_ (Z.to_nat (u64 (Z.shiftl 2 order))) 0 (λ i a,
    let* st := get_state a (first + i) in
    assert! (st =? order);
    set_state a (first + i) (order + 1)) a in
  let* fl := freelist n (order + 1) in
  let* h := list_add h fl (pfn_to_virt pfn) in
  let a := if max_order a <? order + 1 then set_max_order (u8 (order + 1)) a else a in
  Ret (true, set_mem h (set_area n a s)).

(** The do-while loop at the end of [_free_pages]; each round that coalesces
    raises the order of the block, so 64 rounds are enough. *)
Fixpoint coalesce_loop (fuel : nat) (n p pfn : Z) (s : page_alloc) : res page_alloc :=
  match fuel with
  | O => Hang
  | S fuel =>
      let* st := get_state (areas s n) p in
      let order := Z.land st ORDER_MASK in
      let pfn := if IS_ALIGNED_ORDER pfn (order + 1) then pfn else u64 (pfn - BIT order) in
      let pfn2 := u64 (pfn + BIT order) in
      let* '(again, s) := coalesce n order pfn pfn2 s in
      if again then coalesce_loop fuel n p pfn s else Ret s
  end.

Definition _free_pages (m : Z) (s : page_alloc) : res page_alloc :=
  let pfn := Z.shiftr m PAGE_SHIFT in
  if m =? 0 then Ret s else
  assert! (IS_ALIGNED m PAGE_SIZE);
  match get_area s pfn with
  | None => Abort
  | Some n =>
      let a := areas s n in
      let p := u64 (pfn - base a) in
      let* st := get_state a p in
      let order := Z.land st ORDER_MASK in
      assert! (IS_ALLOCATED st);
      assert! (order <? NLISTS);
      assert! (IS_ALIGNED_ORDER pfn order);
      assert! (usable_area_contains_pfn a (u64 (pfn + BIT order - 1)));
      let* a := for_ (Z.to_nat (BIT order)) 0 (λ i a,
        let* st := get_state a (p + i) in
        assert! (st =? Z.lor STATUS_ALLOCATED order);
        set_state a (p + i) (Z.lor STATUS_FREE order)) a in
      let* fl := freelist n order in
      let* h := list_add (mem s) fl (pfn_to_virt pfn) in
      coalesce_loop 65 n p pfn (set_mem h (set_area n a s))
  end.

Definition free_pages (m : Z) (s : page_alloc) : res page_alloc :=
  let* s := spin_lock s in
  let* s := _free_pages m s in
  Ret (spin_unlock s).

(** The loop of [_reserve_one_page]: [GENMASK_ULL(63, l)] shifts by [l], which
    is defined for [l < 64] only. *)
Fixpoint reserve_split (fuel : nat) (n i pfn : Z) (s : page_alloc) : res page_alloc :=
  match fuel with
  | O => Hang
  | S fuel =>
      let* st := get_state (areas s n) i in
      if st =? 0 then Ret s else
      valid! (st <? 64);
      let mask := GENMASK_ULL 63 st in
      let* s := split n (pfn_to_virt (Z.land pfn mask)) s in
      reserve_split fuel n i pfn s
  end.

Definition _reserve_one_page (pfn : Z) (s : page_alloc) : res (Z * page_alloc) :=
  match get_area s pfn with
  | None => Ret (-1, s)
  | Some n =>
      let i := u64 (pfn - base (areas s n)) in
      let* st := get_state (areas s n) i in
      if negb (IS_USABLE st) then Ret (-1, s) else
      let* s := reserve_split 65 n i pfn s in
      let* a := set_state (areas s n) i STATUS_SPECIAL in
      Ret (0, set_area n a s)
  end.

Definition _unreserve_one_page (pfn : Z) (s : page_alloc) : res page_alloc :=
  match get_area s pfn with
  | None => Abort
  | Some n =>
      let i := u64 (pfn - base (areas s n)) in
      let* st := get_state (areas s n) i in
      assert! (st =? STATUS_SPECIAL);
      let* a := set_state (areas s n) i STATUS_ALLOCATED in
      _free_pages (vaddr (pfn_to_virt pfn)) (set_area n a s)
  end.

(** The first loop of [reserve_pages]: how many pages were reserved. *)
Fixpoint reserve_loop (n : nat) (pfn i : Z) (s : page_alloc) : res (Z * page_alloc) :=
  match n with
  | O => Ret (i, s)
  | S n =>
      let* '(r, s) := _reserve_one_page (u64 (pfn + i)) s in
      if r =? 0 then reserve_loop n pfn (i + 1) s else Ret (i, s)
  end.

Definition reserve_pages (addr n : Z) (s : page_alloc) : res (Z * page_alloc) :=
  assert! (IS_ALIGNED addr PAGE_SIZE);
  let pfn := Z.shiftr addr PAGE_SHIFT in
  let* s := spin_lock s in
  let* '(i, s) := reserve_loop (Z.to_nat n) pfn 0 s in
  let* '(n, s) :=
    if i <? n then
      let* s := for_ (Z.to_nat i) 0 (λ k s, _unreserve_one_page (u64 (pfn + k)) s) s in
      Ret (0, s)
    else Ret (n, s) in
  Ret (if n =? 0 then -1 else 0, spin_unlock s).

Definition unreserve_pages (addr n : Z) (s : page_alloc) : res page_alloc :=
  assert! (IS_ALIGNED addr PAGE_SIZE);
  let pfn := Z.shiftr addr PAGE_SHIFT in
  let* s := spin_lock s in
  let* s := for_ (Z.to_nat n) 0 (λ i s, _unreserve_one_page (u64 (pfn + i)) s) s in
  Ret (spin_unlock s).

(** [memset(res, 0, BIT(ord) * PAGE_SIZE)], as far as the first words of the
    pages are concerned. *)
Definition zero_pages (h : heap) (pfn cnt : Z) : heap := λ q,
  match q with
  | Page f => if (pfn <=? f) && (f <? pfn + cnt) then mk_node NULL NULL else h q
  | _ => h q
  end.

(** The loop over the areas: the first area that yields a block. *)
Fixpoint try_areas (idxs : list Z) (al ord area : Z) (fresh : bool) (s : page_alloc)
    : res (ptr * page_alloc) :=
  match idxs with
  | [] => Ret (NULL, s)
  | i :: idxs =>
      if Z.land area (BIT i) =? 0 then try_areas idxs al ord area fresh s else
      let* '(p, s) := page_memalign_order i al ord fresh s in
      if is_null p then try_areas idxs al ord area fresh s else Ret (p, s)
  end.

Definition page_memalign_order_flags (al ord flags : Z) (s : page_alloc)
    : res (Z * page_alloc) :=
  let fresh := negb (Z.land flags FLAG_FRESH =? 0) in
  let* s := spin_lock s in
  let area := if Z.land flags AREA_MASK =? 0 then areas_mask s
              else Z.land flags (areas_mask s) in
  let* '(p, s) := try_areas [0; 1; 2; 3] al ord area fresh s in
  let s := spin_unlock s in
  if negb (is_null p) && (Z.land flags FLAG_DONTZERO =? 0) then
    let* cnt := bit ord in
    let* pfn := virt_to_pfn p in
    Ret (vaddr p, set_mem (zero_pages (mem s) pfn cnt) s)
  else Ret (vaddr p, s).

Definition alloc_pages_flags (order flags : Z) (s : page_alloc) : res (Z * page_alloc) :=
  page_memalign_order_flags (u8 order) (u8 order) flags s.

Definition PAGE_ALIGN (addr : Z) : Z := ALIGN addr PAGE_SIZE.

Definition memalign_pages_flags (alignment size flags : Z) (s : page_alloc)
    : res (Z * page_alloc) :=
  assert! (is_power_of_2 alignment);
  let alignment := get_order (Z.shiftr (PAGE_ALIGN alignment) PAGE_SHIFT) in
  let size := get_order (Z.shiftr (PAGE_ALIGN size) PAGE_SHIFT) in
  assert! (alignment <? NLISTS);
  assert! (size <? NLISTS);
  page_memalign_order_flags (u8 alignment) (u8 size) flags s.

(** lib/alloc_page.h *)
Definition memalign_pages (alignment size : Z) (s : page_alloc) : res (Z * page_alloc) :=
  memalign_pages_flags alignment size AREA_ANY s.
Definition alloc_pages (order : Z) (s : page_alloc) : res (Z * page_alloc) :=
  alloc_pages_flags order AREA_ANY s.
Definition alloc_page (s : page_alloc) : res (Z * page_alloc) := alloc_pages 0 s.
Definition free_page (m : Z) (s : page_alloc) : res page_alloc := free_pages m s.

(** ** Initialisation *)

(** [while (i + BIT(order) > a->top) { assert(order); order--; }] *)
Fixpoint shrink_order (fuel : nat) (i topv order : Z) : res Z :=
  match fuel with
  | O => Hang
  | S fuel =>
      if topv <? u64 (i + BIT order) then
        assert! (negb (order =? 0)); shrink_order fuel i topv (u8 (order - 1))
      else Ret order
  end.

(** [while (IS_ALIGNED_ORDER(i, order + 1) && (i + BIT(order + 1) <= a->top)) order++;] *)
Fixpoint grow_order (fuel : nat) (i topv order : Z) : res Z :=
  match fuel with
  | O => Hang
  | S fuel =>
      if IS_ALIGNED_ORDER i (order + 1) && (u64 (i + BIT (order + 1)) <=? topv)
      then grow_order fuel i topv (u8 (order + 1))
      else Ret order
  end.

(** The loop that cuts the usable frames into blocks. *)
Fixpoint init_blocks (fuel : nat) (n i order : Z) (s : page_alloc) : res page_alloc :=
  match fuel with
  | O => Hang
  | S fuel =>
      let a := areas s n in
      if top a <=? i then Ret s else
      let* order := shrink_order 256 i (top a) order in
      let* order := grow_order 64 i (top a) order in
      assert! (order <? NLISTS);
      let* a := memset_states a (i - base a) (Z.lor STATUS_FRESH order) (BIT order) in
      let* fl := freelist n order in
      let* h := list_add (mem s) fl (pfn_to_virt i) in
      let a := if max_order a <? order then set_max_order order a else a in
      init_blocks fuel n (u64 (i + BIT order)) order (set_mem h (set_area n a s))
  end.

Definition no_overlap (n start_pfn top_pfn : Z) (s : page_alloc) : bool :=
  forallb (λ i, (Z.land (areas_mask s) (BIT i) =? 0) ||
    negb (area_contains_pfn (areas s i) start_pfn) &&
    negb (area_contains_pfn (areas s i) (u64 (top_pfn - 1))) &&
    negb (area_contains_pfn (areas s n) (page_states (areas s i))) &&
    negb (area_contains_pfn (areas s n) (u64 (top (areas s i) - 1)))) [0; 1; 2; 3].

Definition init_freelists (n : Z) (h : heap) : heap := λ q,
  match q with
  | Head m o => if (m =? n) && (0 <=? o) && (o <? NLISTS) then mk_node q q else h q
  | _ => h q
  end.

Definition _page_alloc_init_area (n start_pfn top_pfn : Z) (s : page_alloc) : res page_alloc :=
  assert! (n <? MAX_AREAS);
  assert! (Z.land (areas_mask s) (BIT n) =? 0);
  assert! (start_pfn <? top_pfn);
  assert! (4 <? u64 (top_pfn - start_pfn));
  assert! (top_pfn <? BIT_ULL (8 * 8 - PAGE_SHIFT));
  let table_size := u64 (top_pfn - start_pfn + PAGE_SIZE) / (PAGE_SIZE + 1) in
  let b := u64 (start_pfn + table_size) in
  let s := set_area n (mk_area b top_pfn start_pfn (states (areas s n)) 0) s in
  let npages := u64 (top_pfn - b) in
  assert! (npages <=? u64 (u64 (b - start_pfn) * PAGE_SIZE));
  assert! (no_overlap n start_pfn top_pfn s);
  let s := set_mem (init_freelists n (mem s)) s in
  let* s := init_blocks (S (Z.to_nat npages)) n b 0 s in
  Ret (set_mask (Z.lor (areas_mask s) (BIT n)) s).

(** Returns the updated [*top_pfn]. *)
Definition __page_alloc_init_area (n cutoff base_pfn top_pfn : Z) (s : page_alloc)
    : res (Z * page_alloc) :=
  if cutoff <? top_pfn then
    let* s := spin_lock s in
    if cutoff <=? base_pfn then
      let* s := _page_alloc_init_area n base_pfn top_pfn s in
      Ret (0, spin_unlock s)
    else
      let* s := _page_alloc_init_area n cutoff top_pfn s in
      Ret (cutoff, spin_unlock s)
  else Ret (top_pfn, s).

Definition page_alloc_init_area (n base_pfn top_pfn : Z) (s : page_alloc) : res page_alloc :=
  if negb (n =? AREA_ANY_NUMBER) then
    let* '(_, s) := __page_alloc_init_area n 0 base_pfn top_pfn s in Ret s
  else
    let* '(top_pfn, s) := __page_alloc_init_area AREA_HIGH_NUMBER AREA_HIGH_PFN base_pfn top_pfn s in
    let* '(top_pfn, s) := __page_alloc_init_area AREA_NORMAL_NUMBER AREA_NORMAL_PFN base_pfn top_pfn s in
    let* '(top_pfn, s) := __page_alloc_init_area AREA_LOW_NUMBER AREA_LOW_PFN base_pfn top_pfn s in
    let* '(_, s) := __page_alloc_init_area AREA_LOWEST_NUMBER AREA_LOWEST_PFN base_pfn top_pfn s in
    Ret s.
