(* ===== verification/AllocPageInv.v ===== *)
(** * The invariant of the page allocator

    An area is described by its metadata bytes alone: every usable frame lies
    in the aligned block its byte's order announces, all frames of a block
    carry the same byte, and the free list of order [o] holds exactly the
    first frames of the usable blocks of order [o]. *)

From S2P Require Import Prelude.
From S2P Require Import Bitops.
From S2P Require Import LinkedList.
From S2P Require Import AllocPage.

(** ** Metadata bytes *)

Definition order_of (m : Z) : Z := m mod 64.
Definition usable (m : Z) : Prop := m < 128.
Definition allocated (m : Z) : Prop := 128 ≤ m < 192.

Lemma land_order m : Z.land m ORDER_MASK = order_of m.
Proof. apply (land_pow2_minus1 m 6). lia. Qed.

Lemma land_status m : 0 ≤ m < 256 → Z.land m STATUS_MASK = 64 * (m / 64).
Proof.
  intros Hm. change STATUS_MASK with (Z.land (2 ^ 64 - 2 ^ 6) (2 ^ 8 - 1)).
  rewrite Z.land_assoc, (land_high_ones m 6), land_pow2_minus1 by lia.
  pose proof (Z.div_mod m 64). change (2 ^ 6) with 64. rewrite Z.mod_small; [lia|].
  pose proof (Z.mod_pos_bound m 64). lia.
Qed.

Section status.
Context (m : Z) (Hm : 0 ≤ m < 256).

Lemma IS_FRESH_spec : IS_FRESH m = (m <? 64).
Proof using Hm.
  unfold IS_FRESH, STATUS_FRESH. rewrite land_status by done.
  destruct (Z.ltb_spec m 64); [apply Z.eqb_eq|apply Z.eqb_neq]; Z.div_mod_to_equations; lia.
Qed.

Lemma IS_ALLOCATED_spec : IS_ALLOCATED m = (128 <=? m) && (m <? 192).
Proof using Hm.
  unfold IS_ALLOCATED, STATUS_ALLOCATED. rewrite land_status by done.
  destruct (Z.leb_spec 128 m), (Z.ltb_spec m 192); cbn [andb];
    first [apply Z.eqb_eq|apply Z.eqb_neq]; Z.div_mod_to_equations; lia.
Qed.

Lemma IS_USABLE_spec : IS_USABLE m = (m <? 128).
Proof using Hm.
  unfold IS_USABLE, IS_FREE, STATUS_FREE. rewrite IS_FRESH_spec, land_status by done.
  destruct (Z.ltb_spec m 128), (Z.ltb_spec m 64);
    rewrite ?orb_true_r, ?orb_false_r; try done; try lia;
    first [apply Z.eqb_eq|apply Z.eqb_neq]; Z.div_mod_to_equations; lia.
Qed.
End status.

Lemma order_range m : 0 ≤ order_of m < 64.
Proof. apply Z.mod_pos_bound. lia. Qed.

Lemma lor_status k o : 0 ≤ k < 4 → 0 ≤ o < 64 → Z.lor (64 * k) o = 64 * k + o.
Proof.
  intros Hk Ho. rewrite (Z.mul_comm 64 k). change 64 with (2 ^ 6).
  rewrite <- Z.shiftl_mul_pow2, Z.lor_comm by lia. rewrite Z.add_comm.
  symmetry. rewrite <- Z.lxor_lor, <- Z.add_nocarry_lxor; try done.
  all: apply Z.bits_inj'; intros i Hi; rewrite Z.land_spec, Z.shiftl_spec, Z.testbit_0_l by lia;
    destruct (decide (i < 6)); [rewrite (Z.testbit_neg_r k) by lia; apply andb_false_r|];
    rewrite <- (Z.mod_small o (2 ^ 6)), Z.mod_pow2_bits_high by lia; done.
Qed.

Lemma lor_fresh o : 0 ≤ o < 64 → Z.lor STATUS_FRESH o = o.
Proof. intros. by apply (lor_status 0). Qed.
Lemma lor_free o : 0 ≤ o < 64 → Z.lor STATUS_FREE o = 64 + o.
Proof. intros. by apply (lor_status 1). Qed.
Lemma lor_allocated o : 0 ≤ o < 64 → Z.lor STATUS_ALLOCATED o = 128 + o.
Proof. intros. by apply (lor_status 2). Qed.

Lemma order_of_add k o : 0 ≤ o < 64 → order_of (64 * k + o) = o.
Proof. intros. unfold order_of. rewrite Z.add_comm, Z.mul_comm, Z.mod_add, Z.mod_small; lia. Qed.

(** ** Aligned blocks *)

(** First frame of the aligned block of order [o] that contains [p]. *)
Definition bstart (p o : Z) : Z := p - p mod 2 ^ o.
Definition in_block (b o q : Z) : Prop := b ≤ q < b + 2 ^ o.

Lemma bstart_bounds p o : 0 ≤ o → in_block (bstart p o) o p.
Proof. intros. unfold in_block, bstart. pose proof (Z.mod_pos_bound p (2 ^ o)). lia. Qed.

Lemma bstart_aligned p o : 0 ≤ o → bstart p o mod 2 ^ o = 0.
Proof.
  intros. unfold bstart. rewrite <- (Z.mod_small 0 (2 ^ o)) by lia.
  rewrite Zminus_mod, Z.mod_mod, Z.sub_diag by lia. rewrite !Z.mod_small; lia.
Qed.

Lemma bstart_unique b o q : 0 ≤ o → b mod 2 ^ o = 0 → in_block b o q → bstart q o = b.
Proof.
  unfold in_block, bstart. intros Ho Hb Hq.
  assert (E : q mod 2 ^ o = q - b); [|lia].
  apply Z.mod_divide in Hb as [k ->]; [|lia].
  replace q with (q - k * 2 ^ o + k * 2 ^ o) at 1 by lia.
  rewrite Z.mod_add, Z.mod_small; lia.
Qed.

Lemma mod_pow2_le b k o : 0 ≤ k ≤ o → b mod 2 ^ o = 0 → b mod 2 ^ k = 0.
Proof.
  intros Hk Hb. apply Z.mod_divide in Hb as [c ->]; [|lia].
  replace (2 ^ o) with (2 ^ (o - k) * 2 ^ k) by (rewrite <- Z.pow_add_r by lia; f_equal; lia).
  rewrite Z.mul_assoc. apply Z.mod_mul. lia.
Qed.

(** Inside an aligned block, smaller aligned blocks do not straddle its ends. *)
Lemma bstart_inside b o k q :
  0 ≤ k ≤ o → b mod 2 ^ o = 0 → in_block b o q →
  b ≤ bstart q k ∧ bstart q k + 2 ^ k ≤ b + 2 ^ o.
Proof.
  unfold in_block. intros Hk Hb Hq.
  pose proof (mod_pow2_le b k o Hk Hb) as Hbk.
  pose proof (bstart_bounds q k ltac:(lia)) as Hs. pose proof (bstart_aligned q k ltac:(lia)) as Ha.
  unfold in_block in Hs.
  assert (H2 : (b + 2 ^ o) mod 2 ^ k = 0).
  { rewrite <- Zplus_mod_idemp_l, Hbk, Z.add_0_l. apply (mod_pow2_le (2 ^ o) k o Hk), Z.mod_same. lia. }
  apply Z.mod_divide in Hbk as [c1 Hc1]; [|lia]. apply Z.mod_divide in Ha as [c2 Hc2]; [|lia].
  apply Z.mod_divide in H2 as [c3 Hc3]; [|lia].
  assert (HK : 0 < 2 ^ k) by lia. revert HK Hc1 Hc2 Hc3 Hs Hq.
  generalize (2 ^ k) (2 ^ o) (bstart q k). intros K L s HK -> -> Hc3 Hs Hq.
  assert (c1 < c2 + 1) by nia. assert (c2 < c3) by nia. split; nia.
Qed.

(** ** The invariant of one area *)

(** The metadata byte of frame [p]. *)
Definition st (a : mem_area) (p : Z) : Z := states a (p - base a).
Definition usable_frame (a : mem_area) (p : Z) : Prop := base a ≤ p < top a.

(** All frames of an area, the metadata table included. *)
Definition owned_frame (a : mem_area) (p : Z) : Prop := page_states a ≤ p < top a.

Definition wf_area (a : mem_area) : Prop :=
  0 ≤ page_states a < base a ∧ base a ≤ top a < 2 ^ 52 ∧ top a - base a ≤ table_bytes a.

Definition blocks_ok (a : mem_area) : Prop := ∀ p, usable_frame a p →
  0 ≤ st a p < 256 ∧ order_of (st a p) < NLISTS ∧
  base a ≤ bstart p (order_of (st a p)) ∧
  bstart p (order_of (st a p)) + 2 ^ order_of (st a p) ≤ top a ∧
  ∀ q, in_block (bstart p (order_of (st a p))) (order_of (st a p)) q → st a q = st a p.

(** [p] is the first frame of a usable block of order [o]. *)
Definition free_head (a : mem_area) (o p : Z) : Prop :=
  usable_frame a p ∧ usable (st a p) ∧ order_of (st a p) = o ∧ p mod 2 ^ o = 0.

(** [max_order] is an index of the free lists.  (It does not bound the orders
    of the usable blocks: [_free_pages] may put back a larger one.) *)
Definition max_ok (a : mem_area) : Prop := 0 ≤ max_order a < NLISTS.

(** The free lists of area [n], as lists of frames: [fl o] is the list of
    order [o], front first. *)
Definition lists (h : heap) (n : Z) (fl : Z → list Z) : Prop :=
  (∀ o, 0 ≤ o < NLISTS → dll h (Head n o) (Page <$> fl o)) ∧
  (∀ o o' p, 0 ≤ o < NLISTS → 0 ≤ o' < NLISTS → p ∈ fl o → p ∈ fl o' → o = o').

Definition heads_ok (a : mem_area) (fl : Z → list Z) : Prop :=
  ∀ o p, 0 ≤ o < NLISTS → p ∈ fl o ↔ free_head a o p.

Definition area_ok (n : Z) (a : mem_area) (h : heap) : Prop :=
  wf_area a ∧ blocks_ok a ∧ max_ok a ∧ ∃ fl, lists h n fl ∧ heads_ok a fl.

(** ** Blocks under a change of the metadata *)

Lemma blocks_disjoint a p q :
  blocks_ok a → usable_frame a p → usable_frame a q →
  in_block (bstart p (order_of (st a p))) (order_of (st a p)) q →
  order_of (st a q) = order_of (st a p) ∧
  bstart q (order_of (st a q)) = bstart p (order_of (st a p)).
Proof.
  intros Hb Hp Hq Hin. destruct (Hb p Hp) as (_ & _ & _ & _ & Hu).
  rewrite (Hu q Hin). split; [done|]. pose proof (order_range (st a p)).
  apply bstart_unique; [lia|apply bstart_aligned; lia|done].
Qed.

(** A block [b, b + 2^o) of the area, uniformly marked [m]. *)
Definition is_block (a : mem_area) (b o m : Z) : Prop :=
  order_of m = o ∧ b mod 2 ^ o = 0 ∧ base a ≤ b ∧ b + 2 ^ o ≤ top a ∧
  0 ≤ m < 256 ∧ o < NLISTS ∧ ∀ q, in_block b o q → st a q = m.

Lemma is_block_of a p :
  blocks_ok a → usable_frame a p →
  is_block a (bstart p (order_of (st a p))) (order_of (st a p)) (st a p).
Proof.
  intros Hb Hp. destruct (Hb p Hp) as (H1 & H2 & H3 & H4 & H5).
  split_and!; try done; try lia. apply bstart_aligned. pose proof (order_range (st a p)); lia.
Qed.

Lemma head_is_block a b :
  blocks_ok a → usable_frame a b → b mod 2 ^ order_of (st a b) = 0 →
  is_block a b (order_of (st a b)) (st a b).
Proof.
  intros Hb Hu Hal. pose proof (is_block_of a b Hb Hu) as H.
  rewrite (bstart_unique b (order_of (st a b)) b) in H; [done| |done|].
  - pose proof (order_range (st a b)); lia.
  - unfold in_block. pose proof (order_range (st a b)). lia.
Qed.

(** The area after [memset(page_states + (b - base), v, 2^o)]. *)
Definition refill (a : mem_area) (b o v : Z) : mem_area :=
  set_states (fill (states a) (b - base a) (2 ^ o) v) a.

Lemma st_refill a b o v q :
  st (refill a b o v) q = if decide (in_block b o q) then v else st a q.
Proof.
  unfold st, refill, fill, in_block; cbn [states base set_states].
  destruct (decide _) as [H|H].
  - by rewrite (proj2 (Z.leb_le _ _)), (proj2 (Z.ltb_lt _ _)) by lia.
  - destruct (Z.leb_spec (b - base a) (q - base a)), (Z.ltb_spec (q - base a) (b - base a + 2 ^ o));
      cbn [andb]; try done. lia.
Qed.

(** Re-marking a whole block with an order that is not larger keeps the block
    structure. *)
Lemma blocks_refill a b o m v :
  blocks_ok a → is_block a b o m → 0 ≤ v < 256 → order_of v ≤ o →
  blocks_ok (refill a b o v).
Proof.
  intros Hb (Ho & Hal & Hlo & Hhi & Hm & HoN & Hu) Hv Hle p Hp.
  change (usable_frame (refill a b o v) p) with (usable_frame a p) in Hp.
  change (base (refill a b o v)) with (base a). change (top (refill a b o v)) with (top a).
  pose proof (order_range m). pose proof (order_range v).
  destruct (decide (in_block b o p)) as [Hin|Hout].
  - rewrite (st_refill _ _ _ _ p), decide_True by done.
    destruct (bstart_inside b o (order_of v) p) as [H1 H2]; [lia|done|done|].
    split_and!; [lia|lia|lia|lia|lia|].
    intros q Hq. rewrite st_refill, decide_True; [done|]. unfold in_block in *. lia.
  - rewrite (st_refill _ _ _ _ p), decide_False by done.
    destruct (Hb p Hp) as (H1 & H2 & H3 & H4 & H5).
    split_and!; [lia|lia|lia|lia|lia|].
    intros q Hq. rewrite st_refill, decide_False; [by apply H5|].
    intros Hqb. apply Hout.
    pose proof (order_range (st a p)).
    assert (Hsq : st a q = st a p) by (by apply H5). assert (Hsb : st a q = m) by (by apply Hu).
    assert (Hop : order_of (st a p) = o) by congruence. rewrite Hop in Hq.
    assert (E : bstart p o = b); [|rewrite <- E; apply bstart_bounds; lia].
    assert (Hal' : bstart p o mod 2 ^ o = 0) by (apply bstart_aligned; lia).
    rewrite <- (bstart_unique _ o q ltac:(lia) Hal' Hq). apply bstart_unique; [lia|done|done].
Qed.

Lemma wf_refill a b o v : wf_area a → wf_area (refill a b o v).
Proof. done. Qed.

(** The usable blocks after re-marking. *)
Lemma free_head_refill a b o v k p :
  base a ≤ b → b + 2 ^ o ≤ top a →
  free_head (refill a b o v) k p ↔
  (in_block b o p ∧ usable v ∧ order_of v = k ∧ p mod 2 ^ k = 0) ∨
  (¬ in_block b o p ∧ free_head a k p).
Proof.
  intros Hlo Hhi. unfold free_head. rewrite st_refill.
  change (usable_frame (refill a b o v) p) with (usable_frame a p).
  destruct (decide (in_block b o p)) as [Hin|Hout]; [|tauto].
  assert (usable_frame a p) by (unfold usable_frame, in_block in *; lia). tauto.
Qed.

(** ** The free lists under list.h's operations *)

(** Nodes that an operation on area [n] may touch, given the frames [P] it
    owns. *)
Definition touches (n : Z) (P : Z → Prop) (q : ptr) : Prop :=
  match q with Head m _ => m = n | Page p => P p | NULL => False end.
Definition hframe (n : Z) (P : Z → Prop) (h h' : heap) : Prop :=
  ∀ q, ¬ touches n P q → h' q = h q.

Lemma hframe_refl n P h : hframe n P h h.
Proof. done. Qed.
Lemma hframe_trans n P h1 h2 h3 : hframe n P h1 h2 → hframe n P h2 h3 → hframe n P h1 h3.
Proof. intros H1 H2 q Hq. by rewrite H2, H1. Qed.

Create HintDb palloc.
#[export] Hint Resolve hframe_refl : palloc.

Section free_lists.
Context (h : heap) (n : Z) (fl : Z → list Z) (P : Z → Prop).
Hypothesis Hls : lists h n fl.
Hypothesis HP : ∀ o p, 0 ≤ o < NLISTS → p ∈ fl o → P p.

Lemma other_list_untouched o o' q :
  0 ≤ o < NLISTS → 0 ≤ o' < NLISTS → o ≠ o' →
  q ∈ Head n o' :: (Page <$> fl o') → q ∉ Head n o :: (Page <$> fl o).
Proof using Hls.
  intros Ho Ho' Hne Hq Hq'. destruct Hls as [_ Hdisj].
  rewrite elem_of_cons, list_elem_of_fmap in Hq, Hq'.
  destruct Hq as [->|(x & -> & Hx)], Hq' as [Hq'|(y & Hy & Hy')]; simplify_eq.
  by pose proof (Hdisj _ _ _ Ho Ho' Hy' Hx).
Qed.

(** Updating the list of one order, its nodes apart from the others'. *)
Lemma lists_update h' o l :
  0 ≤ o < NLISTS → dll h' (Head n o) (Page <$> l) →
  (∀ q, q ∉ Head n o :: (Page <$> fl o) → (∀ p, q = Page p → p ∉ l) → h' q = h q) →
  (∀ p o', p ∈ l → 0 ≤ o' < NLISTS → o' ≠ o → p ∉ fl o') →
  lists h' n (<[o := l]> fl).
Proof using Hls.
  intros Ho Hd Hf Hfresh. pose proof Hls as [Hdl Hdisj]. split.
  - intros o' Ho'. destruct (decide (o' = o)) as [->|Hne].
    + by rewrite fn_lookup_insert.
    + rewrite fn_lookup_insert_ne by done. eapply dll_frame; [|by apply Hdl].
      intros q Hq. apply Hf; [by eapply other_list_untouched|].
      intros p -> Hp. apply elem_of_cons in Hq as [|Hq]; [done|].
      apply list_elem_of_fmap in Hq as (p' & [= <-] & Hp'). by eapply Hfresh.
  - intros o1 o2 p H1 H2. 
    destruct (decide (o1 = o)) as [->|N1], (decide (o2 = o)) as [->|N2];
      rewrite ?fn_lookup_insert, ?fn_lookup_insert_ne by done; try done.
    + intros Hp Hp2. by destruct (Hfresh _ _ Hp H2 N2).
    + intros Hp Hp2. by destruct (Hfresh _ _ Hp2 H1 N1).
    + intros Hp Hp2. by eapply Hdisj.
Qed.

Lemma lists_frame_touches o q :
  0 ≤ o < NLISTS → q ∈ Head n o :: (Page <$> fl o) → touches n P q.
Proof using HP.
  intros Ho [->|(p & -> & Hp)%list_elem_of_fmap]%elem_of_cons; cbn [touches]; eauto.
Qed.

(** Membership after an update of one list. *)
Lemma elem_of_update o o' l p : p ∈ <[o := l]> fl o' ↔ (o' = o ∧ p ∈ l) ∨ (o' ≠ o ∧ p ∈ fl o').
Proof using Type.
  destruct (decide (o' = o)) as [->|];
    [rewrite fn_lookup_insert|rewrite fn_lookup_insert_ne by done]; tauto.
Qed.

Lemma lists_remove o p :
  0 ≤ o < NLISTS → p ∈ fl o →
  post (list_remove h (Page p)) (λ '(_, h'),
    ∃ fl', lists h' n fl' ∧ hframe n P h h' ∧
      ∀ o' p', 0 ≤ o' < NLISTS → p' ∈ fl' o' ↔ p' ≠ p ∧ p' ∈ fl o').
Proof using Hls HP.
  intros Ho (l1 & l2 & Hfl)%list_elem_of_split. pose proof Hls as [Hdl Hdisj]. pose proof (Hdl o Ho) as Hd. pose proof Hd as Hd0.
  rewrite Hfl, fmap_app, fmap_cons in Hd.
  eapply post_mono; [by eapply list_remove_spec|]. intros [r h'] (_ & Hd' & Hf).
  rewrite <- fmap_app in Hd'. exists (<[o := l1 ++ l2]> fl). split_and!.
  - apply lists_update; [done|done| |].
    + intros q Hq _. apply Hf. rewrite Hfl, fmap_app, fmap_cons in Hq. done.
    + intros p' o' Hp' Ho' Hne Hin. apply Hne. symmetry.
      eapply Hdisj; [done..| |done]. rewrite Hfl. set_solver.
  - intros q Hq. apply Hf. intros Hin. apply Hq, (lists_frame_touches o); [done|].
    rewrite Hfl, fmap_app, fmap_cons. done.
  - intros o' p' Ho'. rewrite elem_of_update.
    destruct Hd0 as (_ & [_ Hnd]%NoDup_cons & _). apply (NoDup_fmap_1 Page) in Hnd.
    rewrite Hfl in Hnd. apply NoDup_app in Hnd as (_ & Hx & [Hy _]%NoDup_cons).
    destruct (decide (o' = o)) as [->|Hne]; [rewrite Hfl; set_solver|].
    split; [|set_solver]. intros [[? _]|[_ Hp']]; [done|]. split; [|done]. intros ->.
    apply Hne. eapply Hdisj; [done|done|exact Hp'|]. rewrite Hfl. set_solver.
Qed.

Lemma lists_insert h' o p l :
  0 ≤ o < NLISTS → (∀ o', 0 ≤ o' < NLISTS → p ∉ fl o') → P p →
  p ∈ l → (∀ p', p' ∈ l → p' = p ∨ p' ∈ fl o) →
  dll h' (Head n o) (Page <$> l) →
  (∀ q, q ∉ Page p :: Head n o :: (Page <$> fl o) → h' q = h q) →
  lists h' n (<[o := l]> fl) ∧ hframe n P h h'.
Proof using Hls HP.
  intros Ho Hp HPp Hpl Hl Hd Hf. pose proof Hls as [_ Hdisj]. split.
  - apply lists_update; [done|done| |].
    + intros q Hq Hq'. apply Hf. apply not_elem_of_cons. split; [|done].
      intros ->. by eapply Hq'.
    + intros p' o' Hp' Ho' Hne Hin. destruct (Hl _ Hp') as [->|Hp''].
      * by eapply Hp.
      * apply Hne. symmetry. by eapply Hdisj.
  - intros q Hq. apply Hf. intros [->|Hin]%elem_of_cons; [done|].
    by apply Hq, (lists_frame_touches o).
Qed.

Lemma page_not_in o p :
  p ∉ fl o → Page p ∉ Head n o :: (Page <$> fl o).
Proof using Type.
  intros Hp [?|(p' & [= <-] & ?)%list_elem_of_fmap]%elem_of_cons; done.
Qed.

Definition added (o p : Z) (fl' : Z → list Z) : Prop :=
  ∀ o' p', 0 ≤ o' < NLISTS → p' ∈ fl' o' ↔ (o' = o ∧ p' = p) ∨ p' ∈ fl o'.

Lemma lists_add o p :
  0 ≤ o < NLISTS → (∀ o', 0 ≤ o' < NLISTS → p ∉ fl o') → P p →
  post (list_add h (Head n o) (Page p)) (λ h',
    ∃ fl', lists h' n fl' ∧ hframe n P h h' ∧ added o p fl').
Proof using Hls HP.
  intros Ho Hp HPp. destruct Hls as [Hdl _].
  eapply post_mono; [apply list_add_spec; [by apply Hdl| |done]|].
  - apply page_not_in, Hp. done.
  - intros h' [Hd Hf]. exists (<[o := p :: fl o]> fl).
    assert (lists h' n (<[o := p :: fl o]> fl) ∧ hframe n P h h') as [??]
      by (eapply lists_insert; try done; set_solver).
    split_and!; [done..|]. intros o' p' Ho'. rewrite elem_of_update.
    destruct (decide (o' = o)) as [->|]; set_solver.
Qed.

Lemma lists_add_tail o p :
  0 ≤ o < NLISTS → (∀ o', 0 ≤ o' < NLISTS → p ∉ fl o') → P p →
  post (list_add_tail h (Head n o) (Page p)) (λ h',
    ∃ fl', lists h' n fl' ∧ hframe n P h h' ∧ added o p fl').
Proof using Hls HP.
  intros Ho Hp HPp. destruct Hls as [Hdl _].
  eapply post_mono; [apply list_add_tail_spec; [by apply Hdl| |done]|].
  - apply page_not_in, Hp. done.
  - intros h' [Hd Hf]. exists (<[o := fl o ++ [p]]> fl).
    assert (lists h' n (<[o := fl o ++ [p]]> fl) ∧ hframe n P h h') as [??].
    { eapply lists_insert; try done; [set_solver..|]. by rewrite fmap_app. }
    split_and!; [done..|]. intros o' p' Ho'. rewrite elem_of_update.
    destruct (decide (o' = o)) as [->|]; set_solver.
Qed.
End free_lists.


(** Adding two nodes, at the front (dirty blocks) or at the back (fresh
    ones), as [split] does. *)
Lemma lists_add_two h n fl P o p1 p2 (fresh : bool) :
  lists h n fl → (∀ o p, 0 ≤ o < NLISTS → p ∈ fl o → P p) →
  0 ≤ o < NLISTS → p1 ≠ p2 → P p1 → P p2 →
  (∀ o', 0 ≤ o' < NLISTS → p1 ∉ fl o') → (∀ o', 0 ≤ o' < NLISTS → p2 ∉ fl o') →
  post (if fresh then
          let* h := list_add_tail h (Head n o) (Page p1) in
          list_add_tail h (Head n o) (Page p2)
        else
          let* h := list_add h (Head n o) (Page p1) in
          list_add h (Head n o) (Page p2))
    (λ h', ∃ fl', lists h' n fl' ∧ hframe n P h h' ∧
      ∀ o' p, 0 ≤ o' < NLISTS → p ∈ fl' o' ↔ (o' = o ∧ (p = p1 ∨ p = p2)) ∨ p ∈ fl o').
Proof.
  intros Hls HP Ho Hne HP1 HP2 Hf1 Hf2.
  assert (Hsecond : ∀ h1, (∃ fl', lists h1 n fl' ∧ hframe n P h h1 ∧ added fl o p1 fl') →
    ∀ add, (∀ h fl, lists h n fl → (∀ o p, 0 ≤ o < NLISTS → p ∈ fl o → P p) →
       (∀ o', 0 ≤ o' < NLISTS → p2 ∉ fl o') →
       post (add h) (λ h', ∃ fl', lists h' n fl' ∧ hframe n P h h' ∧ added fl o p2 fl')) →
    post (add h1) (λ h', ∃ fl', lists h' n fl' ∧ hframe n P h h' ∧
      ∀ o' p, 0 ≤ o' < NLISTS → p ∈ fl' o' ↔ (o' = o ∧ (p = p1 ∨ p = p2)) ∨ p ∈ fl o')).
  { intros h1 (fl1 & Hls1 & Hfr1 & Hin1) add Hadd.
    eapply post_mono; [apply (Hadd h1 fl1 Hls1)|].
    - intros o' p Ho' [[-> ->]|?]%Hin1; eauto.
    - intros o' Ho' [[_ ?]|?]%Hin1; [by simplify_eq|by eapply Hf2|done].
    - intros h2 (fl2 & Hls2 & Hfr2 & Hin2). exists fl2. split_and!; [done|by eapply hframe_trans|].
      intros o' p Ho'. rewrite (Hin2 o' p Ho'), (Hin1 o' p Ho'). tauto. }
  destruct fresh; apply post_bind.
  - eapply post_mono; [by apply (lists_add_tail h n fl P)|]. intros h1 H1.
    apply (Hsecond h1 H1 (λ h, list_add_tail h (Head n o) (Page p2))).
    intros. by apply lists_add_tail.
  - eapply post_mono; [by apply (lists_add h n fl P)|]. intros h1 H1.
    apply (Hsecond h1 H1 (λ h, list_add h (Head n o) (Page p2))).
    intros. by apply lists_add.
Qed.
