(* ===== verification/AllocPageSpec.v ===== *)
(** * Specifications of the page allocator's operations

    Total-correctness triples for [split], [page_memalign_order],
    [_free_pages] and their callers, over the invariant of AllocPageInv.v. *)

From S2P Require Import Prelude.
From S2P Require Import Bitops.
From S2P Require Import LinkedList.
From S2P Require Import AllocPage.
From S2P Require Import AllocPageInv.

(** ** Areas up to the contents of the metadata table

    Two areas are equivalent when they agree on every field, the metadata
    table being compared entry by entry. *)

#[export] Instance mem_area_equiv : Equiv mem_area := λ a a',
  base a = base a' ∧ top a = top a' ∧ page_states a = page_states a' ∧
  max_order a = max_order a' ∧ ∀ i, states a i = states a' i.

#[export] Instance mem_area_equivalence : Equivalence (≡@{mem_area}).
Proof.
  split; unfold equiv, mem_area_equiv.
  - intros a. done.
  - intros a b (-> & -> & -> & -> & H). done.
  - intros a b c (-> & -> & -> & -> & H) (-> & -> & -> & -> & H'). split_and!; try done.
    intros i. by rewrite H.
Qed.

Lemma st_equiv a a' p : a ≡ a' → st a p = st a' p.
Proof. intros (Hb & _ & _ & _ & H). unfold st. by rewrite Hb, H. Qed.

Lemma usable_frame_equiv a a' p : a ≡ a' → usable_frame a p ↔ usable_frame a' p.
Proof. intros (Hb & Ht & _). unfold usable_frame. by rewrite Hb, Ht. Qed.

#[export] Instance wf_area_proper : Proper ((≡@{mem_area}) ==> iff) wf_area.
Proof. intros a a' (H1 & H2 & H3 & _). unfold wf_area, table_bytes. by rewrite H1, H2, H3. Qed.

#[export] Instance free_head_proper : Proper ((≡@{mem_area}) ==> (=) ==> (=) ==> iff) free_head.
Proof.
  intros a a' H o ? <- p ? <-. unfold free_head.
  by rewrite (usable_frame_equiv a a' p H), (st_equiv a a' p H).
Qed.

#[export] Instance heads_ok_proper : Proper ((≡@{mem_area}) ==> (=) ==> iff) heads_ok.
Proof. intros a a' H fl ? <-. unfold heads_ok. by setoid_rewrite H. Qed.

#[export] Instance max_ok_proper : Proper ((≡@{mem_area}) ==> iff) max_ok.
Proof. intros a a' (_ & _ & _ & H & _). unfold max_ok. by rewrite H. Qed.

#[export] Instance blocks_ok_proper : Proper ((≡@{mem_area}) ==> iff) blocks_ok.
Proof.
  intros a a' H. unfold blocks_ok. pose proof H as (Hb & Ht & _).
  setoid_rewrite (usable_frame_equiv a a' _ H). setoid_rewrite (st_equiv a a' _ H).
  by rewrite Hb, Ht.
Qed.

(** ** Primitive accesses inside a well-formed area *)

Section primitives.
Context (a : mem_area) (Hwf : wf_area a).

Lemma idx_u64 p : usable_frame a p → u64 (p - base a) = p - base a.
Proof using Hwf. intros Hp. apply u64_small. destruct Hwf as (? & ? & ?). unfold usable_frame in Hp. lia. Qed.

Lemma frame_u64 p : 0 ≤ p ≤ top a → u64 p = p.
Proof using Hwf. intros Hp. apply u64_small. destruct Hwf as (? & ? & ?). lia. Qed.

Lemma table_index p : usable_frame a p →
  (0 <=? p - base a) && (p - base a <? table_bytes a) = true.
Proof using Hwf.
  destruct Hwf as (? & ? & ?). unfold usable_frame. intros.
  rewrite (proj2 (Z.leb_le _ _)), (proj2 (Z.ltb_lt _ _)) by lia. done.
Qed.

Lemma get_state_ok p : usable_frame a p → get_state a (p - base a) = Ret (st a p).
Proof using Hwf. intros. unfold get_state. by rewrite table_index. Qed.

Lemma usable_pfn p : usable_frame a p → usable_area_contains_pfn a p = true.
Proof using Type.
  unfold usable_frame, usable_area_contains_pfn. intros.
  by rewrite (proj2 (Z.leb_le _ _)), (proj2 (Z.ltb_lt _ _)) by lia.
Qed.

Lemma unusable_pfn p : ¬ usable_frame a p → usable_area_contains_pfn a p = false.
Proof using Type.
  unfold usable_frame, usable_area_contains_pfn. intros.
  apply andb_false_iff. rewrite Z.leb_gt, Z.ltb_ge. lia.
Qed.

Lemma pfn_to_virt_page p : usable_frame a p → pfn_to_virt p = Page p.
Proof using Hwf.
  destruct Hwf as (? & ? & ?). unfold usable_frame, pfn_to_virt. intros.
  by rewrite (proj2 (Z.eqb_neq _ _)) by lia.
Qed.
End primitives.

Lemma aligned_order p o : 0 ≤ o < 64 → IS_ALIGNED_ORDER p o = (p mod 2 ^ o =? 0).
Proof. intros. unfold IS_ALIGNED_ORDER. by rewrite BIT_ULL_pow2, IS_ALIGNED_pow2. Qed.

Lemma freelist_ok n o : 0 ≤ o < NLISTS → freelist n o = Ret (Head n o).
Proof.
  intros. unfold freelist. by rewrite (proj2 (Z.leb_le _ _)), (proj2 (Z.ltb_lt _ _)) by lia.
Qed.

Lemma bit_ok o : 0 ≤ o < 64 → bit o = Ret (2 ^ o).
Proof.
  intros. unfold bit. by rewrite (proj2 (Z.leb_le _ _)), (proj2 (Z.ltb_lt _ _)), BIT_pow2 by lia.
Qed.

(** A loop that checks that every frame of a block carries [m] and re-marks
    it with [v] succeeds, and is a [memset]. *)
Lemma remark_loop a b o m v idx :
  wf_area a → is_block a b o m → 0 ≤ v < 256 → idx = b - base a →
  post (for_ (Z.to_nat (2 ^ o)) 0 (λ i a,
          let* st := get_state a (idx + i) in
          assert! (st =? m); set_state a (idx + i) v) a)
       (λ a', a' ≡ refill a b o v).
Proof.
  intros Hwf (Ho & Hal & Hlo & Hhi & Hm & HoN & Hu) Hv ->.
  pose proof (order_range m).
  eapply post_mono.
  - apply (for_inv (λ i a', a' ≡ set_states (fill (states a) (b - base a) i v) a)).
    + unfold equiv, mem_area_equiv; cbn. split_and!; try done. intros j. unfold fill.
      destruct (Z.leb_spec (b - base a) j), (Z.ltb_spec j (b - base a + 0)); simpl; try done; lia.
    + intros i a' Hi Ha'. rewrite Z2Nat.id in Hi by lia.
      pose proof Ha' as (Hb & Ht & Hp & Hmx & Hst). cbn in Hb, Ht, Hp, Hmx, Hst.
      assert (Hwf' : wf_area a') by (rewrite Ha'; done).
      assert (Huf : usable_frame a' (b + i)) by (unfold usable_frame; lia).
      replace (b - base a + i) with (b + i - base a') by lia.
      rewrite get_state_ok by done. cbn [bind].
      assert (E : st a' (b + i) = m).
      { unfold st. rewrite Hst, Hb. unfold fill.
        rewrite (proj2 (Z.ltb_ge _ _)), andb_false_r by lia. apply (Hu (b + i)). unfold in_block. lia. }
      rewrite E, Z.eqb_refl. unfold set_state. rewrite table_index by done. cbn [post].
      unfold equiv, mem_area_equiv; cbn. split_and!; [done..|].
      intros j. destruct (decide (j = b + i - base a')) as [->|Hne].
      * rewrite fn_lookup_insert, u8_small by lia. unfold fill.
        rewrite (proj2 (Z.leb_le _ _)), (proj2 (Z.ltb_lt _ _)) by lia. done.
      * rewrite fn_lookup_insert_ne, Hst by done. unfold fill.
        destruct (Z.leb_spec (b - base a) j), (Z.ltb_spec j (b - base a + i)),
          (Z.ltb_spec j (b - base a + (i + 1))); simpl; try done; lia.
  - intros a'. rewrite Z2Nat.id, Z.add_0_l by lia. done.
Qed.

(** ** Steps that only concern one area *)

Definition same_layout (a a' : mem_area) : Prop :=
  base a' = base a ∧ top a' = top a ∧ page_states a' = page_states a.

Definition area_step (n : Z) (s s' : page_alloc) : Prop :=
  (∀ k, k ≠ n → areas s' k = areas s k) ∧ areas_mask s' = areas_mask s ∧
  lock s' = lock s ∧ same_layout (areas s n) (areas s' n) ∧
  hframe n (usable_frame (areas s n)) (mem s) (mem s').

Lemma area_step_refl n s : area_step n s s.
Proof. done. Qed.

Lemma same_layout_frame a a' p : same_layout a a' → usable_frame a' p ↔ usable_frame a p.
Proof. intros (Hb & Ht & _). unfold usable_frame. by rewrite Hb, Ht. Qed.

Lemma area_step_trans n s1 s2 s3 : area_step n s1 s2 → area_step n s2 s3 → area_step n s1 s3.
Proof.
  intros (A1 & A2 & A3 & A4 & A5) (B1 & B2 & B3 & B4 & B5).
  split_and!; try congruence.
  - intros k Hk. by rewrite B1, A1.
  - destruct A4 as (?&?&?), B4 as (?&?&?). split_and!; congruence.
  - intros q Hq. rewrite B5, A5; [done|done|]. destruct q; try done. cbn [touches] in *.
    by rewrite same_layout_frame.
Qed.

#[export] Hint Resolve area_step_refl : palloc.

(** ** split *)

(** The free-list heads after a usable block was halved. *)
Lemma heads_split a b o m (fl fl1 fl2 : Z → list Z) :
  blocks_ok a → is_block a b o m → usable m → 0 < o → heads_ok a fl →
  (∀ o' p, 0 ≤ o' < NLISTS → p ∈ fl1 o' ↔ p ≠ b ∧ p ∈ fl o') →
  (∀ o' p, 0 ≤ o' < NLISTS →
     p ∈ fl2 o' ↔ (o' = o - 1 ∧ (p = b ∨ p = b + 2 ^ (o - 1))) ∨ p ∈ fl1 o') →
  heads_ok (refill a b o (m - 1)) fl2.
Proof.
  intros Hbl Hblk Hus Ho Hh H1 H2 o' p Ho'.
  pose proof Hblk as (Hom & Hal & Hlo & Hhi & Hm & HoN & Hu).
  rewrite H2, H1, (Hh o' p Ho'), free_head_refill by done.
  assert (E2 : 2 ^ o = 2 * 2 ^ (o - 1)).
  { replace o with (1 + (o - 1)) at 1 by lia. rewrite Z.pow_add_r by lia. lia. }
  assert (Hom' : order_of (m - 1) = o - 1).
  { unfold order_of in *. Z.div_mod_to_equations. lia. }
  assert (Halh : b mod 2 ^ (o - 1) = 0) by (eapply (mod_pow2_le b (o - 1) o); [lia|done]).
  rewrite Hom'. split.
  - intros [[-> Hp]|[Hne Hfh]].
    + left. unfold in_block, usable in *. split_and!; try lia.
      destruct Hp as [->| ->]; [done|]. rewrite <- Zplus_mod_idemp_l, Halh, Z.add_0_l, Z.mod_same; lia.
    + right. split; [|done]. intros Hin. apply Hne. destruct Hfh as (_ & _ & Hfo & Hfa).
      rewrite (Hu _ Hin) in Hfo. rewrite <- (bstart_unique b o p) by (done || lia).
      symmetry. apply bstart_unique; [lia| |unfold in_block; lia]. by rewrite <- Hom, Hfo.
  - intros [(Hin & _ & <- & Hpa)|[Hnin Hfh]].
    + left. split; [done|]. unfold in_block in Hin.
      apply Z.mod_divide in Hpa as [c Hc]; [|lia]. apply Z.mod_divide in Halh as [d Hd]; [|lia].
      assert (0 < 2 ^ (o - 1)) by lia. assert (c = d ∨ c = d + 1) by nia. nia.
    + right. split; [|done]. intros ->. apply Hnin. unfold in_block. lia.
Qed.

(** [split] on the first frame of a usable block of order [o > 0]: it returns,
    the invariant holds again, and the block's frames are marked with the next
    smaller order; nothing else changes. *)
Lemma split_spec n s b o m :
  area_ok n (areas s n) (mem s) → is_block (areas s n) b o m → usable m → 0 < o →
  post (split n (Page b) s) (λ s',
    area_step n s s' ∧ area_ok n (areas s' n) (mem s') ∧
    ∀ q, st (areas s' n) q = st (refill (areas s n) b o (m - 1)) q).
Proof.
  intros (Hwf & Hbl & Hmx & fl & Hls & Hh) Hblk Hus Ho.
  pose proof Hblk as (Hom & Hal & Hlo & Hhi & Hm & HoN & Hu).
  set (a := areas s n) in *. assert (HN : NLISTS = 52) by done.
  assert (Hb : usable_frame a b) by (unfold usable_frame; lia).
  assert (Hstb : st a b = m) by (apply Hu; unfold in_block; lia).
  unfold split; cbn [virt_to_pfn bind]. fold a.
  rewrite usable_pfn, idx_u64, get_state_ok by done. cbn [bind].
  rewrite Hstb, land_order, Hom, IS_USABLE_spec by lia.
  rewrite (proj2 (Z.ltb_lt m 128)), (proj2 (Z.eqb_neq o 0)), (proj2 (Z.ltb_lt o _)) by (unfold usable in *; lia).
  cbn [negb andb]. rewrite aligned_order, Hal, BIT_pow2, Z.eqb_refl by lia.
  assert (HU : ∀ p, b ≤ p ≤ b + 2 ^ o → u64 p = p).
  { intros p Hp. apply (frame_u64 a Hwf). destruct Hwf as (? & ? & ?). lia. }
  rewrite HU, usable_pfn by (unfold usable_frame in *; lia).
  assert (Hbfl : b ∈ fl o).
  { apply Hh; [lia|]. split_and!; [done| |congruence|done]. by rewrite Hstb. }
  apply post_bind. eapply post_mono.
  { apply (lists_remove _ _ fl (usable_frame a) Hls) with (o := o); [|lia|done].
    intros o' p Ho' Hp. apply Hh in Hp as [? _]; done. }
  intros [r h1] (fl1 & Hls1 & Hfr1 & Hin1).
  apply post_bind. eapply post_mono; [apply (remark_loop a b o m (m - 1)); [done|done| |done]|].
  { pose proof (Z.mod_pos_bound m 64). unfold order_of in *. Z.div_mod_to_equations. lia. }
  intros a1 Ha1. rewrite freelist_ok by lia. cbn [bind].
  rewrite (is_list_empty_spec h1 (Head n o) (Page <$> fl1 o)) by (apply Hls1; lia). cbn [bind].
  rewrite (u8_small (o - 1)), freelist_ok by lia. cbn [bind].
  assert (E2 : 2 ^ o = 2 * 2 ^ (o - 1)).
  { replace o with (1 + (o - 1)) at 1 by lia. rewrite Z.pow_add_r by lia. lia. }
  rewrite BIT_pow2 by lia. rewrite (HU (b + _)) by lia.
  assert (Hb2 : usable_frame a (b + 2 ^ (o - 1))) by (unfold usable_frame; lia).
  rewrite (pfn_to_virt_page a Hwf) by done.
  assert (Hblk2 : ∀ o', 0 ≤ o' < NLISTS → b + 2 ^ (o - 1) ∉ fl1 o').
  { intros o' Ho' Hp. apply Hin1 in Hp as [_ Hp]; [|done]. apply Hh in Hp as (_ & _ & Hp1 & Hp2); [|done].
    assert (Hib : in_block b o (b + 2 ^ (o - 1))) by (unfold in_block; lia).
    rewrite (Hu _ Hib), Hom in Hp1. subst o'. rewrite <- Zplus_mod_idemp_l, Hal, Z.add_0_l, Z.mod_small in Hp2; lia. }
  apply post_bind. eapply post_mono.
  { apply (lists_add_two h1 n fl1 (usable_frame a) (o - 1) b (b + 2 ^ (o - 1)) (IS_FRESH m));
      [done| |lia|lia|done|done| |done].
    - intros o' p Ho' Hp. apply Hin1 in Hp as [_ Hp]; [|done]. apply Hh in Hp as [? _]; done.
    - intros o' Ho' Hp. by apply Hin1 in Hp as [? _]. }
  intros h2 (fl2 & Hls2 & Hfr2 & Hin2). cbn [post].
  set (e := bool_decide (Page <$> fl1 o = [])).
  assert (Hmxa : max_order a1 = max_order a) by (destruct Ha1 as (_ & _ & _ & ? & _); done).
  assert (Haeq : (if (o =? max_order a1) && e then set_max_order (u8 (max_order a1 - 1)) a1 else a1) ≡
                 (if (o =? max_order a) && e then set_max_order (u8 (max_order a - 1)) (refill a b o (m - 1))
                  else refill a b o (m - 1))).
  { rewrite Hmxa. destruct ((o =? max_order a) && e); [|done].
    destruct Ha1 as (?&?&?&?&?). split_and!; done. }
  revert Haeq. generalize (if (o =? max_order a1) && e then set_max_order (u8 (max_order a1 - 1)) a1 else a1).
  intros a2 Ha2.
  assert (Hmid : ∀ P : mem_area → Prop, (∀ x k, P x → P (set_max_order k x)) → P (refill a b o (m - 1)) →
    P (if (o =? max_order a) && e then set_max_order (u8 (max_order a - 1)) (refill a b o (m - 1))
       else refill a b o (m - 1))).
  { intros P HP H. destruct (_ && e); auto. }
  assert (Hm1 : 0 ≤ m - 1 < 256 ∧ order_of (m - 1) ≤ o).
  { unfold order_of in *. Z.div_mod_to_equations. lia. }
  split_and!.
  - split_and!; cbn [areas areas_mask lock mem set_mem set_area]; try done.
    + intros k Hk. by rewrite fn_lookup_insert_ne.
    + rewrite fn_lookup_insert. destruct Ha2 as (E1 & E3 & E4 & _).
      split_and!; rewrite ?E1, ?E3, ?E4; by destruct (_ && e).
    + by eapply hframe_trans.
  - cbn [areas mem set_mem set_area]. rewrite fn_lookup_insert. split_and!.
    + rewrite Ha2. apply Hmid; done.
    + rewrite Ha2. apply (Hmid blocks_ok); [done|]. apply (blocks_refill a b o m); try done; lia.
    + rewrite Ha2. destruct (Z.eqb_spec o (max_order a)) as [Eo|], e; try done.
      unfold max_ok in *. cbn [andb max_order set_max_order]. rewrite u8_small; lia.
    + exists fl2. split; [done|]. rewrite Ha2. apply (Hmid (λ x, heads_ok x fl2)); [done|].
      by apply (heads_split a b o m fl fl1 fl2).
  - intros q. cbn [areas set_mem set_area]. rewrite fn_lookup_insert.
    rewrite (st_equiv _ _ q Ha2). by destruct (_ && e).
Qed.

(** ** page_memalign_order *)

(** Every usable frame's block is on the list of its order. *)
Lemma usable_block_head a fl p :
  blocks_ok a → heads_ok a fl → usable_frame a p → usable (st a p) →
  bstart p (order_of (st a p)) ∈ fl (order_of (st a p)).
Proof.
  intros Hbl Hh Hp Hup. destruct (Hbl p Hp) as (_ & HoN & Hb1 & Hb2 & Hbu).
  pose proof (order_range (st a p)). set (o := order_of (st a p)) in *.
  apply Hh; [lia|].
  assert (E : st a (bstart p o) = st a p) by (apply Hbu; unfold in_block; lia).
  split_and!; [unfold usable_frame; lia|by rewrite E|by rewrite E|apply bstart_aligned; lia].
Qed.

Lemma heads_block a fl o b :
  blocks_ok a → heads_ok a fl → 0 ≤ o < NLISTS → b ∈ fl o →
  usable_frame a b ∧ usable (st a b) ∧ is_block a b o (st a b).
Proof.
  intros Hbl Hh Ho (Hu & Hus & Hoo & Hal)%Hh; [|done].
  split_and!; [done..|]. subst o. by apply head_is_block.
Qed.

Lemma find_block_spec fuel n s order :
  area_ok n (areas s n) (mem s) → 0 ≤ order < 64 → (64 - order < Z.of_nat fuel) →
  post (find_block fuel n false s order) (λ r,
    match r with
    | None => ∀ p, usable_frame (areas s n) p → usable (st (areas s n) p) →
                   order_of (st (areas s n) p) < order ∨
                   max_order (areas s n) < order_of (st (areas s n) p)
    | Some (o, p, idx) => ∃ b, p = Page b ∧ idx = b - base (areas s n) ∧ order ≤ o < NLISTS ∧
        usable (st (areas s n) b) ∧ is_block (areas s n) b o (st (areas s n) b)
    end).
Proof.
  intros (Hwf & Hbl & Hmx & fl & Hls & Hh).
  revert order. induction fuel as [|fuel IH]; intros order Ho Hfuel; [lia|].
  cbn [find_block]. set (a := areas s n) in *. unfold max_ok in Hmx.
  destruct (Z.ltb_spec (max_order a) order) as [Hlt|Hge].
  { cbn [post]. intros p Hp Hup. lia. }
  assert (HN : NLISTS = 52) by done.
  rewrite freelist_ok by lia. cbn [bind].
  pose proof (proj1 Hls order ltac:(lia)) as Hd.
  rewrite get_next_valid by done. cbn [bind].
  rewrite (lseg_first _ _ _ _ (proj1 Hd)).
  destruct (fl order) as [|b l] eqn:Efl; cbn [fmap list_fmap List.hd].
  - rewrite (is_list_empty_spec _ _ [] Hd). cbn [bind]. rewrite bool_decide_true by done.
    rewrite u8_small by lia. eapply post_mono; [apply IH; lia|].
    intros [[[o p] idx]|].
    + intros (b & ? & ? & [??] & ?). exists b. split; [done|]. split; [done|]. split; [lia|done].
    + intros Hall p Hp Hup. pose proof (Hall p Hp Hup).
      pose proof (usable_block_head a fl p Hbl Hh Hp Hup) as Hin.
      destruct (decide (order_of (st a p) = order)) as [E|]; [|lia].
      rewrite E, Efl in Hin. by apply not_elem_of_nil in Hin.
  - rewrite (is_list_empty_elem _ _ _ (Page b) Hd) by set_solver. cbn [bind virt_to_pfn].
    destruct (heads_block a fl order b Hbl Hh) as (Hbu & Hus & Hblk); [lia|rewrite Efl; set_solver|].
    rewrite idx_u64, get_state_ok by done. cbn [bind andb post].
    exists b. split; [done|]. split; [done|]. split; [lia|done].
Qed.

(** Halving the block at [b] down to order [sz] keeps everything outside it. *)
Lemma split_down_spec n s b o sz :
  area_ok n (areas s n) (mem s) → is_block (areas s n) b o (st (areas s n) b) →
  usable (st (areas s n) b) → 0 ≤ sz ≤ o →
  post (for_ (Z.to_nat (o - sz)) 0 (λ _ s, split n (Page b) s) s) (λ s',
    area_step n s s' ∧ area_ok n (areas s' n) (mem s') ∧
    usable (st (areas s' n) b) ∧ is_block (areas s' n) b sz (st (areas s' n) b) ∧
    (∀ q, ¬ in_block b o q → st (areas s' n) q = st (areas s n) q) ∧
    (∀ q, in_block b o q → usable (st (areas s' n) q))).
Proof.
  intros Hok Hblk Hus Hsz. pose proof Hblk as (Hom & Hal & Hlo & Hhi & Hm & HoN & Hu).
  eapply post_mono.
  - apply (for_inv (λ i s', area_step n s s' ∧ area_ok n (areas s' n) (mem s') ∧
      usable (st (areas s' n) b) ∧ is_block (areas s' n) b (o - i) (st (areas s' n) b) ∧
      (∀ q, ¬ in_block b o q → st (areas s' n) q = st (areas s n) q) ∧
      (∀ q, in_block b o q → usable (st (areas s' n) q)))).
    + rewrite Z.sub_0_r. split_and!; auto with palloc. intros q Hq. by rewrite (Hu q Hq).
    + intros i s' Hi (Hst & Hok' & Hus' & Hblk' & Hout & Hin).
      rewrite Z2Nat.id in Hi by lia.
      eapply post_mono; [apply (split_spec n s' b (o - i) _ Hok' Hblk' Hus'); lia|].
      intros s2 (Hst2 & Hok2 & Hq2). destruct Hblk' as (Hom' & Hal' & Hlo' & Hhi' & Hm' & HoN' & Hu').
      set (m := st (areas s' n) b) in *.
      assert (Hp2 : 2 ^ (o - i) = 2 * 2 ^ (o - (i + 1))).
      { replace (o - i) with (1 + (o - (i + 1))) by lia. rewrite Z.pow_add_r by lia. lia. }
      assert (Hle : 2 ^ (o - i) ≤ 2 ^ o) by (apply Z.pow_le_mono_r; lia).
      assert (E : st (areas s2 n) b = m - 1).
      { rewrite Hq2, st_refill, decide_True; [done|]. unfold in_block. lia. }
      assert (Hrm : order_of (m - 1) = o - (i + 1) ∧ 0 ≤ m - 1).
      { unfold order_of in *. Z.div_mod_to_equations. lia. }
      destruct Hst2 as (? & ? & ? & Hlay & ?). pose proof Hlay as (Hba & Hto & _).
      split_and!.
      * by eapply area_step_trans.
      * done.
      * rewrite E. unfold usable in *. lia.
      * rewrite E. split_and!; try lia.
        -- apply (mod_pow2_le b (o - (i + 1)) (o - i)); [lia|done].
        -- intros q Hq. rewrite Hq2, st_refill, decide_True; [done|]. unfold in_block in *. lia.
      * intros q Hq. rewrite Hq2, st_refill, decide_False; [by apply Hout|]. unfold in_block in *. lia.
      * intros q Hq. rewrite Hq2, st_refill. destruct (decide _); [unfold usable in *; lia|by apply Hin].
  - intros s' H'. rewrite Z2Nat.id, Z.add_0_l in H' by lia.
    replace (o - (o - sz)) with sz in H' by lia. done.
Qed.

(** Unlinking a usable block and marking it allocated. *)
Lemma take_block_spec n a h b o :
  area_ok n a h → is_block a b o (st a b) → usable (st a b) →
  post (list_remove h (Page b)) (λ '(_, h'),
    hframe n (usable_frame a) h h' ∧ area_ok n (refill a b o (128 + o)) h').
Proof.
  intros (Hwf & Hbl & Hmx & fl & Hls & Hh) Hblk Hus.
  pose proof Hblk as (Hom & Hal & Hlo & Hhi & Hm & HoN & Hu).
  pose proof (order_range (st a b)). assert (HN : NLISTS = 52) by done.
  assert (Hord : order_of (128 + o) = o) by (apply (order_of_add 2); lia).
  eapply post_mono.
  { apply (lists_remove _ _ fl (usable_frame a) Hls) with (o := o); [|lia|].
    - intros o' p Ho' Hp. apply Hh in Hp as [? _]; done.
    - apply Hh; [lia|]. split_and!; [unfold usable_frame; lia|done|done|done]. }
  intros [r h1] (fl1 & Hls1 & Hfr1 & Hin1). split; [done|].
  split_and!.
  - done.
  - apply (blocks_refill a b o (st a b)); try done; lia.
  - done.
  - exists fl1. split; [done|]. intros o' p Ho'.
    rewrite Hin1, (Hh o' p), free_head_refill by done. split.
    + intros [Hne Hfh]. right. split; [|done]. intros Hin. apply Hne.
      destruct Hfh as (_ & _ & Hfo & Hfa). rewrite (Hu _ Hin), Hom in Hfo. subst o'.
      rewrite <- (bstart_unique b o p) by (done || lia).
      symmetry. apply bstart_unique; [lia|done|unfold in_block; lia].
    + intros [(_ & ? & _)|[Hnin Hfh]]; [unfold usable in *; lia|]. split; [|done].
      intros ->. apply Hnin. unfold in_block. lia.
Qed.

Lemma memset_states_ok a b o v :
  wf_area a → base a ≤ b → b + 2 ^ o ≤ top a → 0 ≤ o → 0 ≤ v < 256 →
  memset_states a (b - base a) v (2 ^ o) = Ret (refill a b o v).
Proof.
  intros (H1 & H2 & H3) Hlo Hhi Ho Hv. unfold memset_states, refill.
  rewrite (proj2 (Z.leb_le 0 _)), (proj2 (Z.leb_le _ (table_bytes a))), orb_true_r by lia.
  by rewrite u8_small by lia.
Qed.

(** What an operation that owns the frames [P] may change about the others:
    usable frames stay usable (a larger block may have been halved), the bytes
    of all other frames are untouched. *)
Definition same_busy (a a' : mem_area) (P : Z → Prop) : Prop :=
  ∀ q, usable_frame a q → ¬ P q →
    (usable (st a q) ∧ usable (st a' q)) ∨ (¬ usable (st a q) ∧ st a' q = st a q).

Definition alloc_post (n al sz : Z) (s : page_alloc) (p : ptr) (s' : page_alloc) : Prop :=
  (p = NULL ∧ s' = s ∧
   ∀ f, usable_frame (areas s n) f → usable (st (areas s n) f) →
        order_of (st (areas s n) f) < Z.max al sz ∨
        max_order (areas s n) < order_of (st (areas s n) f)) ∨
  (∃ b, p = Page b ∧ area_step n s s' ∧ area_ok n (areas s' n) (mem s') ∧
    b mod 2 ^ Z.max al sz = 0 ∧
    (∀ q, in_block b sz q → usable_frame (areas s n) q ∧ usable (st (areas s n) q)) ∧
    is_block (areas s' n) b sz (128 + sz) ∧
    same_busy (areas s n) (areas s' n) (in_block b sz)).

Lemma page_memalign_order_spec n al sz s :
  area_ok n (areas s n) (mem s) → 0 ≤ al < NLISTS → 0 ≤ sz < NLISTS →
  post (page_memalign_order n al sz false s) (λ '(p, s'), alloc_post n al sz s p s').
Proof.
  intros Hok Hal Hsz. assert (HN : NLISTS = 52) by done. unfold page_memalign_order.
  rewrite !(proj2 (Z.ltb_lt _ NLISTS)) by lia. cbn [andb].
  assert (E : (if al <? sz then sz else al) = Z.max al sz) by (destruct (Z.ltb_spec al sz); lia).
  rewrite E, Z.add_0_r, u8_small by lia.
  apply post_bind. eapply post_mono; [apply find_block_spec; [done|lia|lia]|].
  intros [[[o p] idx]|]; [|intros Hnone; left; done].
  intros (b & -> & -> & Ho & Hus & Hblk).
  apply post_bind. eapply post_mono; [apply (split_down_spec n s b o sz); try done; lia|].
  intros s1 (Hst1 & Hok1 & Hus1 & Hblk1 & Hout1 & Hin1).
  replace (if sz <? o then sz else o) with sz by (destruct (Z.ltb_spec sz o); lia).
  apply post_bind. eapply post_mono; [by apply (take_block_spec n (areas s1 n) _ b sz)|].
  intros [r h] [Hfr Hok2]. cbn [bind].
  pose proof Hst1 as (Hoth1 & Hmsk1 & Hlk1 & (Hb1 & Ht1 & Hp1) & Hf1).
  rewrite bit_ok by lia. cbn [bind areas set_mem]. rewrite lor_allocated by lia.
  pose proof Hblk1 as (_ & _ & Hlo1 & Hhi1 & _).
  rewrite <- Hb1, memset_states_ok; [|apply Hok1|lia..]. cbn [bind post].
  pose proof Hblk as (_ & Halb & Hlo & Hhi & _ & _ & Hu).
  assert (Hle : 2 ^ sz ≤ 2 ^ o) by (apply Z.pow_le_mono_r; lia).
  right. exists b. split_and!.
  - done.
  - eapply area_step_trans; [exact Hst1|]. split_and!; try done; cbn [areas mem set_mem set_area].
    + intros k Hk. by rewrite fn_lookup_insert_ne.
    + by rewrite fn_lookup_insert.
  - cbn [areas mem set_mem set_area]. by rewrite fn_lookup_insert.
  - apply (mod_pow2_le b (Z.max al sz) o); [lia|done].
  - intros q Hq. assert (Hq' : in_block b o q) by (unfold in_block in *; lia).
    rewrite (Hu q Hq'). unfold usable_frame, in_block in *. split; [lia|done].
  - cbn [areas set_mem set_area]. rewrite fn_lookup_insert. destruct Hblk1 as (_ & Ha1 & _).
    split_and!; cbn [base top refill set_states]; try done; try lia.
    + apply (order_of_add 2). lia.
    + intros q Hq. by rewrite st_refill, decide_True.
  - intros q Hq Hnin. cbn [areas set_mem set_area]. rewrite fn_lookup_insert, st_refill, decide_False by done.
    destruct (decide (in_block b o q)) as [Hi|Hni].
    + left. rewrite (Hu q Hi). auto.
    + rewrite (Hout1 q Hni). destruct (decide (st (areas s n) q < 128)); [left|right]; done.
Qed.

(** ** The whole allocator *)

Definition active (s : page_alloc) (n : Z) : Prop :=
  0 ≤ n < MAX_AREAS ∧ Z.land (areas_mask s) (BIT n) ≠ 0.

Lemma land_BIT m i : 0 ≤ i < 64 → (Z.land m (BIT i) =? 0) = negb (Z.testbit m i).
Proof.
  intros Hi. rewrite BIT_pow2 by done. destruct (Z.testbit m i) eqn:E; cbn [negb].
  - apply Z.eqb_neq. intros H. assert (Z.testbit (Z.land m (2 ^ i)) i = true); [|by rewrite H, Z.testbit_0_l in *].
    rewrite Z.land_spec, E, Z.pow2_bits_true by lia. done.
  - apply Z.eqb_eq, Z.bits_inj'. intros j Hj. rewrite Z.land_spec, Z.testbit_0_l.
    destruct (decide (j = i)) as [->|]; [by rewrite E|].
    rewrite Z.pow2_bits_false by done. apply andb_false_r.
Qed.

Lemma active_testbit s n : active s n ↔ 0 ≤ n < MAX_AREAS ∧ Z.testbit (areas_mask s) n = true.
Proof.
  unfold active, MAX_AREAS. split; intros [Hn H]; (split; [done|]).
  - apply Z.eqb_neq in H. rewrite land_BIT in H by lia. by apply negb_false_iff.
  - apply Z.eqb_neq. rewrite land_BIT, H by lia. done.
Qed.

(** Every initialised area satisfies its invariant, and no frame belongs to
    two of them. *)
Definition pa_ok (s : page_alloc) : Prop :=
  (∀ n, active s n → area_ok n (areas s n) (mem s)) ∧
  (∀ n k p, active s n → active s k →
     owned_frame (areas s n) p → owned_frame (areas s k) p → n = k).

Lemma pa_disjoint s n k p :
  pa_ok s → active s n → active s k →
  usable_frame (areas s n) p → usable_frame (areas s k) p → n = k.
Proof.
  intros [Hok Hd] Hn Hk Hpn Hpk. apply (Hd n k p); try done.
  - destruct (Hok n Hn) as ((? & ? & ?) & _). unfold owned_frame, usable_frame in *. lia.
  - destruct (Hok k Hk) as ((? & ? & ?) & _). unfold owned_frame, usable_frame in *. lia.
Qed.

Lemma active_step n k s s' : area_step n s s' → active s' k ↔ active s k.
Proof. intros (_ & Hm & _). unfold active. by rewrite Hm. Qed.

Lemma step_layout n k s s' : area_step n s s' → same_layout (areas s k) (areas s' k).
Proof.
  intros (Ho & _ & _ & Hl & _). destruct (decide (k = n)) as [->|Hne]; [done|].
  by rewrite (Ho k Hne).
Qed.

(** An area is untouched by what happens in another one. *)
(** An area is insensitive to writes that touch another area's free lists
    and frames that are not its own. *)
Lemma area_ok_hframe n k P a h h' :
  area_ok k a h → k ≠ n → (∀ p, usable_frame a p → ¬ P p) → hframe n P h h' →
  area_ok k a h'.
Proof.
  intros (Hwf & Hbl & Hmx & fl & [Hls Hu] & Hh) Hne HP Hf.
  split_and!; [done..|]. exists fl. split; [|done]. split; [|done].
  intros o Hoo. eapply dll_frame; [|by apply Hls]. intros q Hq. apply Hf.
  apply elem_of_cons in Hq as [->|(p & -> & Hp)%list_elem_of_fmap]; cbn [touches]; [done|].
  apply HP. by apply Hh in Hp as [? _].
Qed.

Lemma area_ok_frame n k s s' :
  pa_ok s → active s n → active s k → k ≠ n → area_step n s s' →
  area_ok k (areas s' k) (mem s').
Proof.
  intros Hpa Hn Hk Hne (Ho & _ & _ & _ & Hf). rewrite (Ho k Hne).
  eapply area_ok_hframe; [by apply Hpa|done| |done].
  intros p Hp Hp'. apply Hne. by apply (pa_disjoint s k n p).
Qed.

Lemma pa_ok_step n s s' :
  pa_ok s → active s n → area_step n s s' → area_ok n (areas s' n) (mem s') → pa_ok s'.
Proof.
  intros Hpa Hn Hst Hok. split.
  - intros k Hk. apply (active_step n k _ _ Hst) in Hk.
    destruct (decide (k = n)) as [->|Hne]; [done|].
    by apply (area_ok_frame n k s s').
  - intros i j p Hi Hj Hpi Hpj. apply (active_step _ _ _ _ Hst) in Hi, Hj.
    destruct (step_layout n i _ _ Hst) as (_ & Et & Ep). destruct (step_layout n j _ _ Hst) as (_ & Et' & Ep').
    unfold owned_frame in Hpi, Hpj. rewrite Et, Ep in Hpi. rewrite Et', Ep' in Hpj.
    by apply (proj2 Hpa i j p).
Qed.

Lemma get_area_Some s p n :
  pa_ok s → active s n → usable_frame (areas s n) p → get_area s p = Some n.
Proof.
  intros Hpa Hn Hp. unfold get_area.
  destruct (List.find _ _) as [k|] eqn:E.
  - apply List.find_some in E as [Hin Hk]. zbool. f_equal. apply (pa_disjoint s k n p); try done.
    + split; [|done]. unfold MAX_AREAS. cbn in Hin. lia.
    + unfold usable_frame, usable_area_contains_pfn in *. zbool. lia.
  - destruct Hn as [Hr Hn]. apply Z.eqb_neq in Hn.
    assert (Hin : List.In n [0; 1; 2; 3]) by (unfold MAX_AREAS in Hr; cbn; lia).
    pose proof (List.find_none _ _ E n Hin) as E'. cbn beta in E'.
    by rewrite Hn, (usable_pfn _ _ Hp) in E'.
Qed.

Lemma get_area_inv s p n : get_area s p = Some n → active s n ∧ usable_frame (areas s n) p.
Proof.
  unfold get_area. intros [Hin Hk]%List.find_some. zbool.
  unfold active, MAX_AREAS, usable_frame, usable_area_contains_pfn in *. zbool.
  cbn in Hin. split_and!; try done; lia.
Qed.

(** ** Freeing *)

(** A block that was just marked [STATUS_FREE] never coalesces: [coalesce]
    compares the metadata with the bare order. *)
Lemma coalesce_loop_free fuel n s b o :
  wf_area (areas s n) → is_block (areas s n) b o (64 + o) →
  coalesce_loop (S fuel) n (b - base (areas s n)) b s = Ret s.
Proof.
  intros Hwf (Hom & Hal & Hlo & Hhi & Hm & HoN & Hu). set (a := areas s n) in *.
  assert (HN : NLISTS = 52) by done. pose proof (order_range (64 + o)).
  assert (Hb : usable_frame a b) by (unfold usable_frame; lia).
  assert (Hstb : st a b = 64 + o) by (apply Hu; unfold in_block; lia).
  cbn [coalesce_loop]. fold a. rewrite get_state_ok, Hstb by done. cbn [bind].
  rewrite land_order, Hom, BIT_pow2 by lia.
  set (pfn := if IS_ALIGNED_ORDER b (o + 1) then b else u64 (b - 2 ^ o)).
  assert (Hpos : 2 ^ o ≤ b).
  { apply Z.mod_divide in Hal as [c Hc]; [|lia]. destruct Hwf as (? & ? & ?).
    assert (0 < 2 ^ o) by lia. assert (0 < c) by nia. nia. }
  assert (Hpfn : (pfn = b ∨ pfn = b - 2 ^ o) ∧ pfn mod 2 ^ o = 0 ∧ (pfn + 2 ^ o) mod 2 ^ o = 0 ∧
                 0 ≤ pfn ∧ pfn + 2 * 2 ^ o < 2 ^ 64).
  { assert (2 ^ o ≤ 2 ^ 51) by (apply Z.pow_le_mono_r; lia).
    assert (Hb52 : b < 2 ^ 52) by (destruct Hwf as (? & ? & ?); lia).
    assert (Hpo : pfn = b ∨ pfn = b - 2 ^ o).
    { unfold pfn. rewrite u64_small by lia. destruct (IS_ALIGNED_ORDER b (o + 1)); lia. }
    assert (pfn mod 2 ^ o = 0).
    { destruct Hpo as [-> | ->]; [done|]. rewrite Zminus_mod, Hal, Z.mod_same by lia. done. }
    split_and!; try done; try lia. rewrite <- Zplus_mod_idemp_l.
    replace (pfn mod 2 ^ o) with 0 by lia. rewrite Z.add_0_l, Z.mod_same; lia. }
  clearbody pfn. destruct Hpfn as (Hpo & Ha1 & Ha2 & Hp0 & Hp2).
  unfold coalesce. rewrite !aligned_order by lia. rewrite BIT_pow2, !(u64_small (pfn + 2 ^ o)) by lia.
  rewrite Ha1, Ha2, !Z.eqb_refl. cbn [andb]. fold a.
  rewrite (u64_small (pfn + 2 ^ o + 2 ^ o - 1)) by lia.
  destruct (usable_area_contains_pfn a pfn) eqn:E1; [|done].
  destruct (usable_area_contains_pfn a (pfn + 2 ^ o + 2 ^ o - 1)) eqn:E2; [|done]. cbn [negb orb].
  unfold usable_area_contains_pfn in E1, E2. zbool.
  assert (Hu1 : usable_frame a pfn) by (unfold usable_frame; lia).
  assert (Hu2 : usable_frame a (pfn + 2 ^ o)) by (unfold usable_frame; lia).
  rewrite !idx_u64, !get_state_ok by done. cbn [bind].
  destruct Hpo as [-> | ->].
  - rewrite Hstb, (proj2 (Z.eqb_neq (64 + o) o)) by lia. done.
  - replace (b - 2 ^ o + 2 ^ o) with b by lia.
    rewrite Hstb, (proj2 (Z.eqb_neq (64 + o) o)), orb_true_r by lia. done.
Qed.

Lemma vaddr_page b : 0 ≤ b → Z.shiftr (vaddr (Page b)) PAGE_SHIFT = b.
Proof.
  intros. unfold vaddr, PAGE_SHIFT. rewrite Z.shiftr_shiftl_r by lia. apply Z.shiftr_0_r.
Qed.

(** The free lists after an allocated block was marked [STATUS_FREE]. *)
Lemma give_block_spec n a h b o :
  area_ok n a h → is_block a b o (128 + o) →
  post (list_add h (Head n o) (Page b)) (λ h',
    hframe n (usable_frame a) h h' ∧ area_ok n (refill a b o (64 + o)) h').
Proof.
  intros (Hwf & Hbl & Hmx & fl & Hls & Hh) Hblk.
  pose proof Hblk as (Hom & Hal & Hlo & Hhi & Hm & HoN & Hu).
  pose proof (order_range (128 + o)). assert (HN : NLISTS = 52) by done.
  assert (Hord : order_of (64 + o) = o) by (apply (order_of_add 1); lia).
  assert (Hnot : ∀ o' p, 0 ≤ o' < NLISTS → in_block b o p → p ∉ fl o').
  { intros o' p Ho' Hin (_ & Hus & _)%Hh; [|done]. rewrite (Hu p Hin) in Hus. unfold usable in *. lia. }
  assert (Hbb : in_block b o b) by (unfold in_block; lia).
  eapply post_mono.
  { apply (lists_add _ _ fl (usable_frame a) Hls) with (o := o); [|lia| |].
    - intros o' p Ho' Hp. apply Hh in Hp as [? _]; done.
    - intros o' Ho'. by apply Hnot.
    - unfold usable_frame. lia. }
  intros h1 (fl1 & Hls1 & Hfr1 & Hin1). split; [done|].
  split_and!.
  - done.
  - apply (blocks_refill a b o (128 + o)); try done; lia.
  - done.
  - exists fl1. split; [done|]. intros o' p Ho'.
    rewrite (Hin1 o' p Ho'), (Hh o' p), free_head_refill by done. split.
    + intros [[-> ->]|Hfh].
      * left. split_and!; try done. unfold usable. lia.
      * right. split; [|done]. intros Hin. apply (Hnot o' p Ho' Hin). by apply Hh.
    + intros [(Hin & _ & <- & Hpa)|[_ Hfh]]; [|by right]. left. rewrite Hord in *. split; [done|].
      rewrite <- (bstart_unique b o p) by (done || lia).
      symmetry. apply bstart_unique; [lia|done|unfold in_block; lia].
Qed.

(** [_free_pages] on the first frame of an allocated block. *)
Lemma free_block_full n s b o :
  pa_ok s → active s n → is_block (areas s n) b o (128 + o) →
  post (_free_pages (vaddr (Page b)) s) (λ s',
    area_step n s s' ∧ area_ok n (areas s' n) (mem s') ∧
    max_order (areas s' n) = max_order (areas s n) ∧
    ∀ q, st (areas s' n) q = st (refill (areas s n) b o (64 + o)) q).
Proof.
  intros Hpa Hn Hblk. pose proof Hblk as (Hom & Hal & Hlo & Hhi & Hm & HoN & Hu).
  pose proof (proj1 Hpa n Hn) as Hok. pose proof Hok as (Hwf & _).
  pose proof (order_range (128 + o)). assert (HN : NLISTS = 52) by done.
  set (a := areas s n) in *.
  assert (Hb : usable_frame a b) by (unfold usable_frame; lia).
  assert (Hstb : st a b = 128 + o) by (apply Hu; unfold in_block; lia).
  assert (H0b : 0 < b < 2 ^ 52) by (destruct Hwf as (? & ? & ?); unfold usable_frame in *; lia).
  unfold _free_pages. rewrite vaddr_page by lia.
  assert (Hva : vaddr (Page b) = b * 2 ^ 12) by (unfold vaddr; apply Z.shiftl_mul_pow2; done).
  rewrite Hva, (proj2 (Z.eqb_neq _ 0)) by lia.
  change PAGE_SIZE with (2 ^ 12). rewrite IS_ALIGNED_pow2, Z.mod_mul, Z.eqb_refl by lia.
  rewrite (get_area_Some s b n) by done. fold a.
  rewrite idx_u64, get_state_ok, Hstb by done. cbn [bind].
  rewrite land_order, Hom, IS_ALLOCATED_spec by lia.
  rewrite (proj2 (Z.leb_le _ _)), (proj2 (Z.ltb_lt _ 192)), (proj2 (Z.ltb_lt o _)) by lia.
  cbn [andb]. rewrite aligned_order, Hal, Z.eqb_refl, BIT_pow2 by lia.
  rewrite (frame_u64 a Hwf), usable_pfn by (unfold usable_frame in *; lia).
  rewrite lor_allocated, lor_free by lia.
  apply post_bind. eapply post_mono; [apply (remark_loop a b o (128 + o) (64 + o)); done || lia|].
  intros a1 Ha1. rewrite freelist_ok by lia. cbn [bind].
  rewrite (pfn_to_virt_page a Hwf) by done.
  apply post_bind. eapply post_mono; [by apply (give_block_spec n a _ b o)|].
  intros h1 [Hfr Hok1]. set (s1 := set_mem h1 (set_area n a1 s)).
  assert (Es : areas s1 n = a1) by (unfold s1; cbn; by rewrite fn_lookup_insert).
  assert (Hok2 : area_ok n a1 h1).
  { destruct Hok1 as (? & ? & ? & fl & ? & ?). split_and!; [by rewrite Ha1..|].
    exists fl. split; [done|]. by rewrite Ha1. }
  pose proof Ha1 as (Eb & Et & Ep & Emx & _). cbn in Eb, Et, Ep, Emx.
  replace (b - base a) with (b - base (areas s1 n)) by (rewrite Es; lia).
  rewrite coalesce_loop_free with (o := o).
  - cbn [post]. rewrite Es. split_and!; [|done|done|].
    + split; [|split; [done|split; [done|split; [|done]]]].
      * intros k Hk. unfold s1; cbn. by rewrite fn_lookup_insert_ne.
      * by rewrite Es.
    + intros q. by apply st_equiv.
  - rewrite Es. apply Hok2.
  - rewrite Es. split_and!; try lia; try done; [by apply (order_of_add 1); lia|].
    intros q Hq. by rewrite (st_equiv _ _ q Ha1), st_refill, decide_True.
Qed.

Lemma free_block_spec n s b o :
  pa_ok s → active s n → is_block (areas s n) b o (128 + o) →
  post (_free_pages (vaddr (Page b)) s) (λ s',
    area_step n s s' ∧ area_ok n (areas s' n) (mem s') ∧
    ∀ q, st (areas s' n) q = st (refill (areas s n) b o (64 + o)) q).
Proof.
  intros. eapply post_mono; [by apply (free_block_full n s b o)|].
  by intros s' (? & ? & _ & ?).
Qed.

Lemma free_block_max n s b o :
  pa_ok s → active s n → is_block (areas s n) b o (128 + o) →
  post (_free_pages (vaddr (Page b)) s) (λ s',
    area_step n s s' ∧ max_order (areas s' n) = max_order (areas s n) ∧
    ∀ q, st (areas s' n) q = st (refill (areas s n) b o (64 + o)) q).
Proof.
  intros. eapply post_mono; [by apply (free_block_full n s b o)|].
  by intros s' (? & _ & ? & ?).
Qed.

(** [_free_pages] stops the program on every address that is not the first
    frame of an allocated block. *)
Lemma free_invalid_aborts s m :
  pa_ok s → 0 < m →
  (∀ n b o, active s n → is_block (areas s n) b o (128 + o) → m ≠ vaddr (Page b)) →
  _free_pages m s = Abort.
Proof.
  intros Hpa Hm Hno. unfold _free_pages. rewrite (proj2 (Z.eqb_neq m 0)) by lia.
  change PAGE_SIZE with (2 ^ 12). rewrite IS_ALIGNED_pow2 by lia.
  destruct (Z.eqb_spec (m mod 2 ^ 12) 0) as [Hal|]; [|done].
  set (b := Z.shiftr m PAGE_SHIFT).
  assert (Hmb : m = vaddr (Page b)).
  { unfold vaddr, b, PAGE_SHIFT. rewrite Z.shiftl_mul_pow2, Z.shiftr_div_pow2 by lia.
    pose proof (Z.div_mod m (2 ^ 12)). lia. }
  destruct (get_area s b) as [n|] eqn:Ea; [|done].
  apply get_area_inv in Ea as [Hn Hb]. pose proof (proj1 Hpa n Hn) as (Hwf & Hbl & _).
  set (a := areas s n) in *. destruct (Hbl b Hb) as (Hr & HoN & _).
  assert (HN : NLISTS = 52) by done. pose proof (order_range (st a b)).
  rewrite idx_u64, get_state_ok by done. cbn [bind].
  rewrite land_order, IS_ALLOCATED_spec by lia.
  destruct (Z.leb_spec 128 (st a b)), (Z.ltb_spec (st a b) 192); cbn [andb]; try done.
  rewrite (proj2 (Z.ltb_lt _ NLISTS)), aligned_order by lia.
  destruct (Z.eqb_spec (b mod 2 ^ order_of (st a b)) 0) as [Hba|]; [|done].
  exfalso. apply (Hno n b (order_of (st a b)) Hn); [|done].
  replace (128 + order_of (st a b)) with (st a b); [by apply head_is_block|].
  unfold order_of in *. Z.div_mod_to_equations. lia.
Qed.
