(* ===== verification/AllocPageInit.v ===== *)
(** * Initialisation of a memory area

    [_page_alloc_init_area] cuts the usable frames greedily into naturally
    aligned blocks.  The loop is verified by extending the area block by
    block: after the frames below [i] have been handed out, the area cut at
    [i] satisfies the invariant. *)

From S2P Require Import Prelude.
From S2P Require Import Bitops.
From S2P Require Import LinkedList.
From S2P Require Import AllocPage.
From S2P Require Import AllocPageInv.
From S2P Require Import AllocPageSpec.

(** The area whose usable frames end at [i]. *)
Definition cut (i : Z) (a : mem_area) : mem_area :=
  mk_area (base a) i (page_states a) (states a) (max_order a).

Lemma st_cut i a p : st (cut i a) p = st a p.
Proof. done. Qed.

(** ** The two inner loops *)

Lemma shrink_order_spec fuel i topv order :
  0 ≤ i < topv → topv < 2 ^ 52 → 0 ≤ order < 52 → (order < Z.of_nat fuel) →
  post (shrink_order fuel i topv order) (λ o, 0 ≤ o ≤ order ∧ i + 2 ^ o ≤ topv).
Proof.
  intros Hi Ht. revert order. induction fuel as [|fuel IH]; intros order Ho Hf; [lia|].
  cbn [shrink_order]. rewrite BIT_pow2 by lia.
  assert (2 ^ order ≤ 2 ^ 51) by (apply Z.pow_le_mono_r; lia).
  rewrite u64_small by lia. destruct (Z.ltb_spec topv (i + 2 ^ order)) as [Hlt|]; [|simpl; lia].
  destruct (Z.eqb_spec order 0) as [->|Hne]; [simpl in *; lia|]. cbn [negb].
  rewrite u8_small by lia. eapply post_mono; [apply IH; lia|]. simpl. lia.
Qed.

Lemma grow_order_spec fuel i topv order :
  0 ≤ i → topv < 2 ^ 52 → 0 ≤ order < 52 → (52 - order < Z.of_nat fuel) →
  i mod 2 ^ order = 0 → i + 2 ^ order ≤ topv →
  post (grow_order fuel i topv order) (λ o, order ≤ o < 52 ∧ i mod 2 ^ o = 0 ∧ i + 2 ^ o ≤ topv).
Proof.
  intros Hi Ht. revert order. induction fuel as [|fuel IH]; intros order Ho Hf Hal Hle; [lia|].
  cbn [grow_order]. rewrite aligned_order, BIT_pow2 by lia.
  assert (2 ^ (order + 1) ≤ 2 ^ 52) by (apply Z.pow_le_mono_r; lia).
  assert (i < 2 ^ 52) by (pose proof (Z.pow_pos_nonneg 2 order); lia).
  rewrite u64_small by lia.
  destruct (Z.eqb_spec (i mod 2 ^ (order + 1)) 0) as [Ha|]; cbn [andb]; [|simpl; lia].
  destruct (Z.leb_spec (i + 2 ^ (order + 1)) topv) as [Hl|]; [|simpl; lia].
  assert (order + 1 < 52) by (apply (Z.pow_lt_mono_r_iff 2); lia).
  rewrite u8_small by lia. eapply post_mono; [apply IH; try done; lia|]. simpl. lia.
Qed.

(** ** Adding one block *)

Section extend.
Context (n : Z) (a : mem_area) (h : heap) (i o : Z).
Hypothesis Hok : area_ok n (cut i a) h.
Hypothesis Ho : 0 ≤ o < NLISTS.
Hypothesis Hal : i mod 2 ^ o = 0.
Hypothesis Hlo : base a ≤ i.
Hypothesis Hhi : i + 2 ^ o ≤ top a.
Hypothesis Hwf : wf_area a.

Let a' := refill a i o o.

Lemma order_of_fresh : order_of o = o.
Proof using Ho. unfold order_of. apply Z.mod_small. assert (NLISTS = 52) by done. lia. Qed.

Lemma st_extend p : usable_frame (cut (i + 2 ^ o) a') p →
  (usable_frame (cut i a) p ∧ ¬ in_block i o p ∧ st a' p = st (cut i a) p) ∨
  (in_block i o p ∧ st a' p = o).
Proof using Type.
  intros Hp. unfold a'. rewrite st_refill. unfold usable_frame, in_block in *. cbn in Hp |- *.
  destruct (decide (i ≤ p < i + 2 ^ o)); [by right|]. left. split_and!; [lia..|done].
Qed.

Lemma blocks_extend : blocks_ok (cut (i + 2 ^ o) a').
Proof using Hok Ho Hal Hlo.
  destruct Hok as (_ & Hbl & _). intros p Hp. rewrite !st_cut.
  assert (HN : NLISTS = 52) by done. cbn [base top cut].
  destruct (st_extend p Hp) as [(Hold & Hnin & E)|[Hin E]]; rewrite !E.
  - destruct (Hbl p Hold) as (H1 & H2 & H3 & H4 & H5). cbn [base top cut] in H3, H4.
    split; [done|]. split; [done|]. split; [done|]. split; [lia|]. intros q Hq.
    assert (Hq' : ¬ in_block i o q) by (unfold in_block in *; lia).
    change (st (cut (i + 2 ^ o) a') q) with (st a' q). unfold a'. rewrite st_refill, decide_False by done.
    by apply H5.
  - rewrite order_of_fresh. rewrite (bstart_unique i o p) by (done || lia).
    change (base a') with (base a). split; [lia|]. split; [lia|]. split; [lia|]. split; [lia|].
    intros q Hq. change (st (cut (i + 2 ^ o) a') q) with (st a' q).
    unfold a'. by rewrite st_refill, decide_True.
Qed.

Lemma extend_spec :
  post (list_add h (Head n o) (Page i)) (λ h',
    hframe n (usable_frame a) h h' ∧
    ∃ fl, lists h' n fl ∧ heads_ok (cut (i + 2 ^ o) a') fl).
Proof using Hok Ho Hal Hlo Hhi.
  destruct Hok as (_ & Hbl & _ & fl & Hls & Hh).
  assert (Hfr : ∀ o' p, 0 ≤ o' < NLISTS → p ∈ fl o' → usable_frame (cut i a) p).
  { intros o' p Ho' Hp. by apply Hh in Hp as [? _]. }
  eapply post_mono.
  { apply (lists_add _ _ fl (usable_frame a) Hls) with (o := o); [|done| |].
    - intros o' p Ho' Hp. pose proof (Hfr o' p Ho' Hp) as Hu. unfold usable_frame in *. cbn in *. lia.
    - intros o' Ho' Hp. pose proof (Hfr o' i Ho' Hp) as Hu. unfold usable_frame in *. cbn in *. lia.
    - unfold usable_frame. lia. }
  intros h' (fl' & Hls' & Hf & Hin). split; [done|]. exists fl'. split; [done|].
  intros o' p Ho'. rewrite (Hin o' p Ho'), (Hh o' p Ho'). split.
  - intros [[-> ->]|(Hu & Hus & Hoo & Hpa)].
    + assert (Hui : usable_frame (cut (i + 2 ^ o) a') i) by (unfold usable_frame; cbn; lia).
      unfold free_head. rewrite st_cut.
      destruct (st_extend i Hui) as [(? & Hn & _)|[_ E]]; [exfalso; apply Hn; unfold in_block; lia|].
      rewrite E, order_of_fresh. unfold usable. assert (NLISTS = 52) by done. split_and!; done || lia.
    + assert (Hup : usable_frame (cut (i + 2 ^ o) a') p) by (unfold usable_frame in *; cbn in *; lia).
      unfold free_head. rewrite st_cut.
      destruct (st_extend p Hup) as [(_ & _ & E)|[Hb _]]; [by rewrite E|].
      unfold usable_frame, in_block in *. cbn in *. lia.
  - intros (Hu & Hus & Hoo & Hpa). rewrite st_cut in *.
    destruct (st_extend p Hu) as [(? & _ & E)|[Hb E]]; rewrite E in *; [by right; split_and!|].
    left. rewrite order_of_fresh in Hoo. subst o'. split; [done|].
    rewrite <- (bstart_unique i o p) by (done || lia).
    symmetry. apply bstart_unique; [lia|done|unfold in_block; lia].
Qed.
End extend.

(** ** The block loop *)

Lemma init_blocks_spec fuel n i order s :
  area_ok n (cut i (areas s n)) (mem s) → wf_area (areas s n) →
  base (areas s n) ≤ i ≤ top (areas s n) → 0 ≤ order < NLISTS → i mod 2 ^ order = 0 →
  (∀ p, base (areas s n) ≤ p < i → st (areas s n) p < 64) →
  (top (areas s n) - i < Z.of_nat fuel) →
  post (init_blocks fuel n i order s) (λ s',
    area_step n s s' ∧ area_ok n (areas s' n) (mem s') ∧
    ∀ p, usable_frame (areas s' n) p → st (areas s' n) p < 64).
Proof.
  assert (HN : NLISTS = 52) by done.
  revert i order s. induction fuel as [|fuel IH]; intros i order s Hok Hwf Hi Ho Hal Hfresh Hfuel; [lia|].
  cbn [init_blocks]. set (a := areas s n) in *. pose proof Hwf as (Hw1 & Hw2 & Hw3).
  destruct (Z.leb_spec (top a) i) as [Hge|Hlt].
  { cbn [post]. assert (i = top a) as -> by lia. split_and!; [done| |done].
    destruct Hok as (? & ? & ? & ?). split_and!; done. }
  apply post_bind. eapply post_mono; [apply shrink_order_spec; lia|]. intros o1 [Ho1 Hle1].
  apply post_bind. eapply post_mono.
  { apply grow_order_spec; try lia. by apply (mod_pow2_le i o1 order). }
  intros o (Hoo & Halo & Hle). rewrite (proj2 (Z.ltb_lt o NLISTS)) by lia.
  rewrite BIT_pow2, lor_fresh, (memset_states_ok a i o o) by (done || lia). cbn [bind].
  rewrite freelist_ok by lia. cbn [bind].
  rewrite (pfn_to_virt_page a Hwf i) by (unfold usable_frame; lia).
  apply post_bind. eapply post_mono; [apply (extend_spec n a _ i o Hok); try done; lia|].
  intros h' [Hf (fl & Hls & Hh)]. pose proof (pow2_u64_range o ltac:(lia)).
  rewrite u64_small by lia.
  set (a' := refill a i o o). change (max_order a') with (max_order a).
  set (a2 := if max_order a <? o then set_max_order o a' else a').
  set (s1 := set_mem h' (set_area n a2 s)).
  assert (Es : areas s1 n = a2) by (unfold s1; cbn; by rewrite fn_lookup_insert).
  assert (Hst : ∀ q, st a2 q = st a' q) by (intros; unfold a2; by destruct (_ <? _)).
  assert (Hlay : same_layout a a2) by (unfold a2; by destruct (_ <? _)).
  pose proof Hlay as (Eb & Et & Ep).
  assert (Hstep : area_step n s s1).
  { split; [|split; [done|split; [done|split; [by rewrite Es|done]]]].
    intros k Hk. unfold s1; cbn. by rewrite fn_lookup_insert_ne. }
  eapply post_mono; [apply (IH (i + 2 ^ o) o s1)|].
  - rewrite Es. pose proof Hok as ((Hc1 & Hc2 & Hc3) & Hbl & Hmx & _). split_and!.
    + unfold wf_area, table_bytes in *; cbn [base top page_states cut] in *. rewrite Eb, Ep. lia.
    + pose proof (blocks_extend n a (mem s) i o Hok ltac:(lia) Halo ltac:(lia)) as Hbx.
      unfold a2. by destruct (_ <? _).
    + unfold max_ok in *. unfold a2. destruct (Z.ltb_spec (max_order a) o); cbn in *; lia.
    + exists fl. split; [done|]. unfold a2. by destruct (_ <? _).
  - rewrite Es. unfold wf_area, table_bytes in *. rewrite Eb, Et, Ep. lia.
  - rewrite Es, Eb, Et. lia.
  - lia.
  - rewrite <- Zplus_mod_idemp_l, Halo, Z.add_0_l, Z.mod_same; lia.
  - rewrite Es, Eb. intros p Hp. rewrite Hst. unfold a'. rewrite st_refill.
    destruct (decide _) as [|Hnin]; [lia|]. apply Hfresh. unfold in_block in Hnin. lia.
  - rewrite Es, Et. lia.
  - intros s' (Hs' & Hok' & Hfr'). split_and!; try done. by eapply area_step_trans.
Qed.

(** ** The whole initialisation *)

Lemma table_size_ok N : 4 < N → N < 2 ^ 52 →
  let ts := (N + PAGE_SIZE) / (PAGE_SIZE + 1) in
  1 ≤ ts ≤ N ∧ N - ts ≤ ts * PAGE_SIZE.
Proof. unfold PAGE_SIZE. intros. Z.div_mod_to_equations. lia. Qed.

(** The four containment tests together say that the areas are disjoint. *)
Lemma no_overlap_ok n start topv s :
  pa_ok s → ¬ active s n → 0 ≤ start < topv → topv < 2 ^ 52 →
  (∀ k, active s k → topv ≤ page_states (areas s k) ∨ top (areas s k) ≤ start) →
  ∀ a, page_states a = start → top a = topv →
  no_overlap n start topv (set_area n a s) = true.
Proof.
  intros Hpa Hna Hr Ht Hdisj a Ep Et. unfold no_overlap. apply forallb_forall.
  intros k Hk. cbn [areas_mask set_area areas].
  destruct (Z.eqb_spec (Z.land (areas_mask s) (BIT k)) 0) as [|Hb]; [done|]. cbn [orb].
  assert (Hact : active s k) by (split; [unfold MAX_AREAS; cbn in Hk; lia|done]).
  assert (k ≠ n) by (by intros ->).
  rewrite fn_lookup_insert, fn_lookup_insert_ne by done.
  destruct (proj1 Hpa k Hact) as ((? & ? & ?) & _). pose proof (Hdisj k Hact).
  unfold area_contains_pfn. rewrite !u64_small by lia. rewrite Ep, Et.
  repeat (apply andb_true_iff; split); apply negb_true_iff, andb_false_iff;
    rewrite Z.leb_gt, Z.ltb_ge; lia.
Qed.

Lemma init_freelists_ok n h a :
  wf_area a → max_ok a → area_ok n (cut (base a) a) (init_freelists n h).
Proof.
  intros (Hw1 & Hw2 & Hw3) Hmx. split_and!.
  - unfold wf_area, table_bytes in *; cbn. lia.
  - intros p Hp. unfold usable_frame in Hp. cbn in Hp. lia.
  - done.
  - exists (λ _, []). split.
    + split.
      * intros o Ho. cbn. unfold dll, lseg. cbn [init_freelists].
        rewrite Z.eqb_refl, (proj2 (Z.leb_le _ _)), (proj2 (Z.ltb_lt _ _)) by lia. cbn.
        split_and!; [done|done|apply NoDup_singleton|set_solver].
      * intros o o' p _ _ Hp. by apply not_elem_of_nil in Hp.
    + intros o p Ho. split; [intros Hp; by apply not_elem_of_nil in Hp|].
      intros (Hu & _). unfold usable_frame in Hu. cbn in Hu. lia.
Qed.

Lemma init_freelists_frame n h P : hframe n P h (init_freelists n h).
Proof.
  intros q Hq. destruct q as [|m o|p]; cbn in *; try done.
  by rewrite (proj2 (Z.eqb_neq m n)) by done.
Qed.

(** Frames [start, topv) are not part of any initialised area. *)
Definition vacant (start topv : Z) (s : page_alloc) : Prop :=
  ∀ k, active s k → topv ≤ page_states (areas s k) ∨ top (areas s k) ≤ start.

(** What [_page_alloc_init_area] computes before it fills the lists: the
    geometry of the area, with the frame table at its start. *)
Definition new_area (start topv : Z) (f : Z → Z) : mem_area :=
  mk_area (start + (topv - start + PAGE_SIZE) / (PAGE_SIZE + 1)) topv start f 0.

Lemma new_area_wf start topv f :
  0 ≤ start → start + 4 < topv → topv < 2 ^ 52 → wf_area (new_area start topv f).
Proof.
  intros. destruct (table_size_ok (topv - start)); [lia..|].
  unfold wf_area, table_bytes, new_area, PAGE_SIZE in *; cbn in *. lia.
Qed.

Lemma init_area_unfold n start topv s :
  pa_ok s → 0 ≤ n < MAX_AREAS → ¬ active s n →
  0 ≤ start → start + 4 < topv → topv < 2 ^ 52 → vacant start topv s →
  let a := new_area start topv (states (areas s n)) in
  _page_alloc_init_area n start topv s =
    let* s' := init_blocks (S (Z.to_nat (top a - base a))) n (base a) 0
                 (set_mem (init_freelists n (mem s)) (set_area n a s)) in
    Ret (set_mask (Z.lor (areas_mask s') (BIT n)) s').
Proof.
  intros Hpa Hn Hna Hs0 Hst Ht Hdisj a. unfold _page_alloc_init_area.
  rewrite (proj2 (Z.ltb_lt n _)) by lia.
  assert (Hbit0 : Z.land (areas_mask s) (BIT n) = 0).
  { destruct (decide (Z.land (areas_mask s) (BIT n) = 0)); [done|]. by destruct Hna. }
  rewrite Hbit0, Z.eqb_refl, (proj2 (Z.ltb_lt start _)) by lia.
  rewrite (u64_small (topv - start)), (proj2 (Z.ltb_lt 4 _)) by lia.
  change (BIT_ULL (8 * 8 - PAGE_SHIFT)) with (2 ^ 52). rewrite (proj2 (Z.ltb_lt topv _)) by lia.
  rewrite (u64_small (topv - start + PAGE_SIZE)) by (unfold PAGE_SIZE; lia).
  destruct (table_size_ok (topv - start)) as [Hts1 Hts2]; [lia..|].
  unfold a, new_area. set (ts := (topv - start + PAGE_SIZE) / (PAGE_SIZE + 1)) in *.
  rewrite (u64_small (start + ts)), (u64_small (topv - (start + ts))),
    (u64_small (start + ts - start)) by lia.
  replace (start + ts - start) with ts by lia.
  rewrite (u64_small (ts * PAGE_SIZE)), (proj2 (Z.leb_le _ (ts * PAGE_SIZE)))
    by (unfold PAGE_SIZE in *; lia).
  rewrite (no_overlap_ok n start topv s Hpa Hna) by (done || lia). reflexivity.
Qed.

Lemma active_set_mask s n k :
  0 ≤ n < MAX_AREAS →
  active (set_mask (Z.lor (areas_mask s) (BIT n)) s) k ↔ k = n ∨ active s k.
Proof.
  intros Hn. rewrite !active_testbit; cbn [areas_mask set_mask].
  rewrite Z.lor_spec, BIT_pow2 by (unfold MAX_AREAS in *; lia).
  destruct (decide (k = n)) as [->|Hne].
  - rewrite Z.pow2_bits_true, orb_true_r by lia. tauto.
  - rewrite Z.pow2_bits_false, orb_false_r by done. tauto.
Qed.

(** Adding an area beside the others keeps them all well formed. *)
Lemma pa_ok_add n a s s1 s2 :
  pa_ok s → 0 ≤ n < MAX_AREAS → ¬ active s n → wf_area a →
  vacant (page_states a) (top a) s →
  s1 = set_mem (init_freelists n (mem s)) (set_area n a s) → area_step n s1 s2 →
  area_ok n (areas s2 n) (mem s2) → pa_ok (set_mask (Z.lor (areas_mask s2) (BIT n)) s2).
Proof.
  intros Hpa Hn Hna Hwf Hv -> (Ho2 & Hm2 & Hl2 & Hlay & Hf2) Hok2.
  cbn [areas set_mem set_area mem areas_mask] in *. rewrite fn_lookup_insert in Hlay, Hf2.
  assert (Ho1 : ∀ k, k ≠ n → areas s2 k = areas s k).
  { intros k Hk. rewrite Ho2 by done. by rewrite fn_lookup_insert_ne. }
  assert (Hact : ∀ k, active (set_mask (Z.lor (areas_mask s2) (BIT n)) s2) k → k = n ∨ active s k).
  { intros k Hk%active_set_mask; [|done]. unfold active in *. by rewrite Hm2 in Hk. }
  destruct Hlay as (Eb & Et & Ep).
  assert (Hdisj2 : ∀ k p, k ≠ n → active s k →
    owned_frame (areas s2 n) p → owned_frame (areas s2 k) p → False).
  { intros k p Hk Hak Hpn Hpk. rewrite (Ho1 k Hk) in Hpk. unfold owned_frame in *.
    rewrite Et, Ep in Hpn. destruct (Hv k Hak); lia. }
  split; cbn [areas mem set_mask].
  - intros k [->|Hk]%Hact; [done|]. assert (k ≠ n) by (by intros ->). rewrite Ho1 by done.
    pose proof (proj1 Hpa k Hk) as Hok. eapply area_ok_hframe; [|done| |exact Hf2].
    + eapply (area_ok_hframe n k (λ _, False)); [exact Hok|done|intros ?? []|apply init_freelists_frame].
    + intros p Hp Hp'. destruct Hok as ((? & ? & ?) & _). unfold usable_frame in *.
      destruct Hwf as (?&?&?). destruct (Hv k Hk); lia.
  - intros k1 k2 p H1%Hact H2%Hact.
    destruct (decide (k1 = n)) as [->|N1], (decide (k2 = n)) as [->|N2]; try done;
      destruct H1 as [|H1], H2 as [|H2]; try done; intros Hp1 Hp2.
    + by destruct (Hdisj2 k2 p N2 H2 Hp1 Hp2).
    + by destruct (Hdisj2 k1 p N1 H1 Hp2 Hp1).
    + rewrite Ho1 in Hp1, Hp2 by done. by apply (proj2 Hpa k1 k2 p).
Qed.

Lemma init_area_spec n start topv s :
  pa_ok s → 0 ≤ n < MAX_AREAS → ¬ active s n →
  0 ≤ start → start + 4 < topv → topv < 2 ^ 52 → vacant start topv s →
  post (_page_alloc_init_area n start topv s) (λ s',
    pa_ok s' ∧ (∀ k, active s' k ↔ k = n ∨ active s k) ∧ lock s' = lock s ∧
    (∀ k, k ≠ n → areas s' k = areas s k) ∧
    same_layout (new_area start topv (states (areas s n))) (areas s' n) ∧
    ∀ p, usable_frame (areas s' n) p → st (areas s' n) p < 64).
Proof.
  intros Hpa Hn Hna Hs0 Hst Ht Hdisj. rewrite init_area_unfold by done.
  set (a := new_area start topv (states (areas s n))).
  assert (Hwf : wf_area a) by by apply new_area_wf.
  set (s1 := set_mem (init_freelists n (mem s)) (set_area n a s)).
  assert (Es : areas s1 n = a) by (unfold s1; cbn; by rewrite fn_lookup_insert).
  apply post_bind. eapply post_mono.
  { apply (init_blocks_spec _ n (base a) 0 s1); rewrite ?Es; try done.
    - by apply (init_freelists_ok n (mem s) a Hwf).
    - destruct Hwf as (?&?&?). lia.
    - apply Z.mod_1_r.
    - lia.
    - destruct Hwf as (?&?&?). cbn in *. lia. }
  intros s2 (Hstep & Hok2 & Hfr2). cbn [post]. pose proof Hstep as (Ho2 & Hm2 & Hl2 & Hlay & Hf2).
  rewrite Es in Hlay. split_and!; try done.
  - by apply (pa_ok_add n a s s1 s2).
  - intros k. rewrite active_set_mask by done. unfold active. by rewrite Hm2.
  - intros k Hk. cbn [areas set_mask]. rewrite Ho2 by done. unfold s1; cbn. by rewrite fn_lookup_insert_ne.
Qed.
