(* ===== verification/AllocPageThm.v ===== *)
(** * What the page allocator promises to its clients

    The refinement of an abstract allocator (a map from the first frame of
    every outstanding block to its order) by the operations of
    lib/alloc_page.c, and the behaviours of the code that fall short of its
    comments. *)

From S2P Require Import Prelude.
From S2P Require Import Bitops.
From S2P Require Import LinkedList.
From S2P Require Import AllocPage.
From S2P Require Import AllocPageInv.
From S2P Require Import AllocPageSpec.

(** The areas a request may be served from. *)
Definition allowed (flags : Z) (n : Z) : Prop :=
  Z.land flags AREA_MASK = 0 ∨ Z.testbit flags n = true.

(** ** The loop over the areas *)

Lemma try_areas_spec idxs al ord area s :
  pa_ok s → 0 ≤ al < NLISTS → 0 ≤ ord < NLISTS →
  (∀ i, i ∈ idxs → 0 ≤ i < MAX_AREAS) →
  (∀ i, i ∈ idxs → Z.testbit area i = true → active s i) →
  post (try_areas idxs al ord area false s) (λ '(p, s'),
    (p = NULL ∧ s' = s ∧
     ∀ i f, i ∈ idxs → Z.testbit area i = true → usable_frame (areas s i) f →
       usable (st (areas s i) f) →
       order_of (st (areas s i) f) < Z.max al ord ∨ max_order (areas s i) < order_of (st (areas s i) f)) ∨
    (∃ n, n ∈ idxs ∧ Z.testbit area n = true ∧ p ≠ NULL ∧ alloc_post n al ord s p s')).
Proof.
  intros Hpa Hal Hord. induction idxs as [|i idxs IH]; intros Hr Hact; cbn [try_areas].
  { left. split_and!; [done|done|]. intros i f Hi. by apply not_elem_of_nil in Hi. }
  assert (Hri : 0 ≤ i < MAX_AREAS) by (apply Hr; set_solver).
  assert (HIH : post (try_areas idxs al ord area false s) _) by (apply IH; intros; [apply Hr|apply Hact]; set_solver).
  rewrite land_BIT by (unfold MAX_AREAS in *; lia).
  destruct (Z.testbit area i) eqn:Ei; cbn [negb].
  - apply post_bind. eapply post_mono.
    { apply page_memalign_order_spec; [|done|done]. apply Hpa, Hact; set_solver. }
    intros [p s1] Hp. destruct Hp as [(-> & -> & Hnone)|Hsome].
    + change (is_null NULL) with true. cbv iota.
      eapply post_mono; [exact HIH|]. intros [p s2] [(-> & -> & Hn2)|(n & Hn & ?)].
      * left. split_and!; [done|done|]. intros k f [->|Hk]%elem_of_cons; eauto.
      * right. exists n. split; [set_solver|done].
    + pose proof Hsome as (b & -> & _). rewrite is_null_false by done.
      cbn [post]. right. exists i. split_and!; [set_solver|done|done|by right].
  - eapply post_mono; [exact HIH|]. intros [p s2] [(-> & -> & Hn2)|(n & Hn & ?)].
    + left. split_and!; [done|done|]. intros k f [->|Hk]%elem_of_cons; [congruence|eauto].
    + right. exists n. split; [set_solver|done].
Qed.

(** Zeroing the pages of an allocated block does not disturb the free lists. *)
Lemma zero_pages_ok s n b o :
  pa_ok s → active s n → is_block (areas s n) b o (128 + o) →
  pa_ok (set_mem (zero_pages (mem s) b (2 ^ o)) s).
Proof.
  intros Hpa Hn (_ & _ & Hlo & Hhi & _ & _ & Hu). pose proof Hpa as [Hok Hdisj]. split; [|done].
  intros k Hk. cbn [areas mem set_mem].
  destruct (Hok k Hk) as (Hwf & Hbl & Hmx & fl & [Hls Hun] & Hh).
  split_and!; [done..|]. exists fl. split; [|done]. split; [|done].
  intros i Hi. eapply dll_frame; [|by apply Hls]. intros q Hq.
  apply elem_of_cons in Hq as [->|(p & -> & Hp)%list_elem_of_fmap]; cbn [zero_pages]; [done|].
  apply Hh in Hp as (Hpf & Hus & _); [|done].
  destruct ((b <=? p) && (p <? b + 2 ^ o)) eqn:E; [exfalso|done]. zbool.
  assert (k = n) as -> by (apply (pa_disjoint s k n p); try done; unfold usable_frame; lia).
  rewrite (Hu p) in Hus by (unfold in_block; lia). unfold usable in Hus.
  assert (0 ≤ o); [|lia]. destruct (decide (o < 0)); [|lia]. rewrite Z.pow_neg_r in * by lia. lia.
Qed.

(** ** The abstract allocator *)

(** [alloc_block s b o]: the frames [b, b + 2^o) are one outstanding block. *)
Definition alloc_block (s : page_alloc) (b o : Z) : Prop :=
  ∃ n, active s n ∧ is_block (areas s n) b o (128 + o).

(** The abstract state: first frame of every outstanding block, with its
    order. *)
Definition related (s : page_alloc) (A : gmap Z Z) : Prop :=
  ∀ b o, A !! b = Some o ↔ alloc_block s b o.

Inductive request : Type :=
| Alloc (al sz flags : Z)
| Free (m : Z).

Definition run_request (r : request) (s : page_alloc) : res (Z * page_alloc) :=
  match r with
  | Alloc al sz flags => page_memalign_order_flags al sz flags s
  | Free m => let* s := free_pages m s in Ret (0, s)
  end.

(** The specification: an allocation fails, or returns an aligned block that
    overlaps no outstanding one; freeing an outstanding block forgets it. *)
Inductive spec_step : request → gmap Z Z → Z → gmap Z Z → Prop :=
| spec_fail al sz flags A : spec_step (Alloc al sz flags) A 0 A
| spec_alloc al sz flags A b :
    0 < b → b mod 2 ^ Z.max al sz = 0 →
    (∀ b' o' q, A !! b' = Some o' → in_block b' o' q → ¬ in_block b sz q) →
    spec_step (Alloc al sz flags) A (vaddr (Page b)) (<[b := sz]> A)
| spec_free A b o :
    A !! b = Some o → spec_step (Free (vaddr (Page b))) A 0 (delete b A)
| spec_free_null A : spec_step (Free 0) A 0 A.

(** The requests a well-behaved client issues: orders the allocator knows, no
    [FLAG_FRESH], and only outstanding blocks (or null) are freed. *)
Definition client_ok (A : gmap Z Z) (r : request) : Prop :=
  match r with
  | Alloc al sz flags => 0 ≤ al < NLISTS ∧ 0 ≤ sz < NLISTS ∧ Z.land flags FLAG_FRESH = 0
  | Free m => m = 0 ∨ ∃ b o, m = vaddr (Page b) ∧ A !! b = Some o
  end.

(** Two uniformly marked blocks of the same order that share a frame are the
    same block. *)
Lemma block_eq b b' o q :
  0 ≤ o → b mod 2 ^ o = 0 → b' mod 2 ^ o = 0 → in_block b o q → in_block b' o q → b = b'.
Proof. intros Ho H1 H2 Hq Hq'. rewrite <- (bstart_unique b o q), <- (bstart_unique b' o q); done. Qed.

Lemma is_block_order_nonneg a b o m : is_block a b o m → 0 ≤ o < 64.
Proof. intros (<- & _). apply order_range. Qed.

Lemma alloc_block_step n s s' b sz :
  pa_ok s → active s n → area_step n s s' →
  (∀ q, in_block b sz q → usable_frame (areas s n) q ∧ usable (st (areas s n) q)) →
  is_block (areas s' n) b sz (128 + sz) →
  same_busy (areas s n) (areas s' n) (in_block b sz) →
  ∀ b' o', alloc_block s' b' o' ↔ (b' = b ∧ o' = sz) ∨ alloc_block s b' o'.
Proof.
  intros Hpa Hn Hst Hwas Hblk Hbusy b' o'.
  pose proof (is_block_order_nonneg _ _ _ _ Hblk) as Hsz.
  pose proof Hblk as (_ & Hal & _ & _ & _ & _ & Hu).
  pose proof Hst as (Hoth & _ & _ & (Hba & Hto & _) & _).
  split.
  - intros (k & Hk & Hb'). apply (active_step _ _ _ _ Hst) in Hk.
    pose proof (is_block_order_nonneg _ _ _ _ Hb') as Ho'.
    destruct (decide (k = n)) as [->|Hne]; [|right; exists k; rewrite Hoth in Hb' by done; done].
    pose proof Hb' as (Ho2 & Hal' & Hlo' & Hhi' & ? & ? & Hu').
    destruct (decide (o' = sz ∧ b' = b)) as [[-> ->]|Hdiff]; [by left|].
    right. exists n. split; [done|]. split_and!; try done; try lia.
    intros q Hq.
    assert (Hnin : ¬ in_block b sz q).
    { intros Hin. apply Hdiff. assert (128 + o' = 128 + sz) by (rewrite <- (Hu' q Hq); by apply Hu).
      assert (o' = sz) by lia. split; [done|]. subst o'. apply (block_eq b' b sz q); done || lia. }
    destruct (Hbusy q) as [[_ Hus]|[_ E]]; [unfold usable_frame, in_block in *; lia|done| |].
    + rewrite (Hu' q Hq) in Hus. unfold usable in *. lia.
    + by rewrite <- E, Hu'.
  - intros [[-> ->]|(k & Hk & Hb')].
    + exists n. split; [by apply (active_step _ _ _ _ Hst)|done].
    + exists k. split; [by apply (active_step _ _ _ _ Hst)|].
      destruct (decide (k = n)) as [->|Hne]; [|by rewrite Hoth].
      pose proof (is_block_order_nonneg _ _ _ _ Hb') as Ho'.
      pose proof Hb' as (Ho2 & Hal' & Hlo' & Hhi' & ? & ? & Hu').
      split_and!; try done; try lia. intros q Hq.
      assert (Hnu : ¬ usable (st (areas s n) q)) by (rewrite (Hu' q Hq); unfold usable; lia).
      destruct (Hbusy q) as [[? _]|[_ E]]; [unfold usable_frame, in_block in *; lia| |done|].
      * intros Hin. by destruct (Hwas q Hin).
      * by rewrite E, Hu'.
Qed.

(** Outstanding blocks never overlap. *)
Lemma alloc_block_unique s b o b' o' q :
  pa_ok s → alloc_block s b o → alloc_block s b' o' →
  in_block b o q → in_block b' o' q → b = b' ∧ o = o'.
Proof.
  intros Hpa (n & Hn & H) (k & Hk & H') Hq Hq'.
  pose proof (is_block_order_nonneg _ _ _ _ H) as Ho.
  pose proof H as (_ & Hal & Hlo & Hhi & _ & _ & Hu). pose proof H' as (_ & Hal' & Hlo' & Hhi' & _ & _ & Hu').
  assert (n = k) as <- by (apply (pa_disjoint s n k q); try done; unfold usable_frame, in_block in *; lia).
  assert (o = o') as <- by (pose proof (Hu' q Hq') as E; rewrite (Hu q Hq) in E; lia).
  split; [|done]. apply (block_eq b b' o q); done || lia.
Qed.

(** A usable frame lies in no outstanding block. *)
Lemma usable_not_busy s n b o q :
  pa_ok s → active s n → usable_frame (areas s n) q → usable (st (areas s n) q) →
  alloc_block s b o → ¬ in_block b o q.
Proof.
  intros Hpa Hn Hqf Hqu (k & Hk & Hold) Hq.
  pose proof (is_block_order_nonneg _ _ _ _ Hold).
  pose proof Hold as (_ & _ & Hlo & Hhi & _ & _ & Hu).
  assert (k = n) as -> by (apply (pa_disjoint s k n q); try done; unfold usable_frame, in_block in *; lia).
  rewrite (Hu q Hq) in Hqu. unfold usable in Hqu. lia.
Qed.

Section allocated.
Context (n : Z) (s s' : page_alloc) (al b sz : Z) (A : gmap Z Z).
Context (Hpa : pa_ok s) (Hn : active s n) (Hrel : related s A) (Hsz : 0 ≤ sz).
Context (Hst : area_step n s s') (Halb : b mod 2 ^ Z.max al sz = 0).
Context (Hwas : ∀ q, in_block b sz q → usable_frame (areas s n) q ∧ usable (st (areas s n) q)).

Lemma alloc_head : in_block b sz b.
Proof. unfold in_block. lia. Qed.

Lemma alloc_related :
  is_block (areas s' n) b sz (128 + sz) → same_busy (areas s n) (areas s' n) (in_block b sz) →
  related s' (<[b := sz]> A).
Proof.
  intros Hblk Hbusy b' o'. rewrite (alloc_block_step n s s' b sz), <- (Hrel b' o') by done.
  destruct (decide (b' = b)) as [->|Hnb]; [|rewrite lookup_insert_ne by done; naive_solver].
  rewrite lookup_insert_eq. split; [intros [= <-]; by left|]. intros [[_ ->]|Hold]; [done|].
  apply Hrel in Hold. destruct (Hwas b alloc_head) as [Hbf Hbu].
  destruct (usable_not_busy s n b o' b Hpa Hn Hbf Hbu Hold).
  destruct Hold as (k & _ & ?%is_block_order_nonneg). unfold in_block. lia.
Qed.

Lemma alloc_positive : 0 < b.
Proof.
  destruct (Hwas b alloc_head) as [Hbf _].
  destruct (proj1 Hpa n Hn) as ((? & ? & ?) & _). unfold usable_frame in Hbf. lia.
Qed.

Lemma alloc_spec_step flags :
  spec_step (Alloc al sz flags) A (vaddr (Page b)) (<[b := sz]> A).
Proof.
  constructor; [apply alloc_positive|done|].
  - intros b' o' q Hl Hq Hq2. apply Hrel in Hl. destruct (Hwas q Hq2).
    by apply (usable_not_busy s n b' o' q).
Qed.
End allocated.

(** The mask [page_memalign_order_flags] computes selects the initialised
    areas the flags allow. *)
Lemma area_mask_spec flags s i :
  0 ≤ i < MAX_AREAS →
  Z.testbit (if Z.land flags AREA_MASK =? 0 then areas_mask s else Z.land flags (areas_mask s)) i = true
  ↔ active s i ∧ allowed flags i.
Proof.
  intros Hi. rewrite active_testbit. unfold allowed.
  destruct (Z.eqb_spec (Z.land flags AREA_MASK) 0) as [|Hne]; [tauto|].
  rewrite Z.land_spec, andb_true_iff. tauto.
Qed.

(** No allowed area has a usable block that is large enough and within the
    orders the allocator searches. *)
Definition exhausted (al sz flags : Z) (s : page_alloc) : Prop :=
  ∀ i f, active s i → allowed flags i → usable_frame (areas s i) f →
    usable (st (areas s i) f) →
    order_of (st (areas s i) f) < Z.max al sz ∨
    max_order (areas s i) < order_of (st (areas s i) f).

(** What an allocation of order [sz] yields: null, only when no block fits
    and with the state untouched; or a block of an allowed area. *)
Definition alloc_result (al sz flags : Z) (s : page_alloc) (r : Z) (s' : page_alloc) : Prop :=
  (r = 0 ∧ s' = s ∧ exhausted al sz flags s) ∨
  (∃ n b, r = vaddr (Page b) ∧ 0 < b ∧ active s n ∧ allowed flags n ∧
     is_block (areas s' n) b sz (128 + sz)).

(** The areas and their layout stay. *)
Definition same_areas (s s' : page_alloc) : Prop :=
  ∀ k, (active s' k ↔ active s k) ∧ same_layout (areas s k) (areas s' k).

Lemma step_same_areas n s s' : area_step n s s' → same_areas s s'.
Proof. intros H k. split; [by eapply active_step|by eapply step_layout]. Qed.

Lemma memalign_flags_spec al sz flags s A :
  pa_ok s → lock s = false → related s A → client_ok A (Alloc al sz flags) →
  post (page_memalign_order_flags al sz flags s) (λ '(r, s'),
    ∃ A', spec_step (Alloc al sz flags) A r A' ∧ pa_ok s' ∧ lock s' = false ∧ related s' A' ∧
    same_areas s s' ∧ alloc_result al sz flags s r s').
Proof.
  intros Hpa Hlk Hrel (Hal & Hsz & Hfr). assert (HN : NLISTS = 52) by done.
  unfold page_memalign_order_flags, spin_lock. rewrite Hlk, Hfr. cbn [bind Z.eqb negb].
  set (s0 := set_lock true s). set (area := if Z.land flags AREA_MASK =? 0 then _ else _).
  assert (Hr : ∀ i, i ∈ [0; 1; 2; 3] ↔ 0 ≤ i < MAX_AREAS) by (unfold MAX_AREAS; set_solver by lia).
  apply post_bind. eapply post_mono.
  { apply (try_areas_spec [0; 1; 2; 3] al sz area s0); [done|done|done|apply Hr|].
    intros i Hi Hb. apply (area_mask_spec flags s0 i) in Hb; [tauto|by apply Hr]. }
  intros [p s1] [(-> & -> & Hnone)|(n & Hn & Hbit & Hne & [(-> & _)|Hsome])]; [|done|].
  - change (is_null NULL) with true. cbn [negb andb post vaddr].
    exists A. split_and!; [constructor|done|done|done|done|]. left. split_and!; [done|by destruct s; cbn in Hlk; subst|].
    intros i f Hi Hall. assert (0 ≤ i < MAX_AREAS) by apply Hi.
    apply Hnone; [by apply Hr|]. by apply area_mask_spec.
  - destruct Hsome as (b & -> & Hst & Hok & Halb & Hwas & Hblk & Hbusy).
    apply (area_mask_spec flags s0 n) in Hbit as [Hact Hallow]; [|by apply Hr].
    assert (Hpa1 : pa_ok s1) by (by apply (pa_ok_step n s0 s1)).
    assert (Hact1 : active s1 n) by (by apply (active_step n n s0 s1)).
    assert (Hrel1 : related s1 (<[b := sz]> A)) by (apply (alloc_related n s0 s1); done || lia).
    assert (Hspec : spec_step (Alloc al sz flags) A (vaddr (Page b)) (<[b := sz]> A))
      by (apply (alloc_spec_step n s0); done || lia).
    assert (Hb0 : 0 < b) by (eapply (alloc_positive n s0) with (sz := sz); done || lia).
    pose proof (step_same_areas n s0 s1 Hst) as Hsame.
    rewrite is_null_false by done. cbn [negb andb].
    destruct (Z.land flags FLAG_DONTZERO =? 0).
    + rewrite bit_ok by lia. cbn [bind virt_to_pfn post]. exists (<[b := sz]> A).
      split_and!; [done| |done|done|exact Hsame|right; by exists n, b].
      by apply (zero_pages_ok (spin_unlock s1) n b sz).
    + cbn [post]. exists (<[b := sz]> A). split_and!; [done|done|done|done|exact Hsame|right; by exists n, b].
Qed.

(** A block other than the freed one is the same before and after. *)
Lemma free_block_other n s s' b o b' o' k :
  pa_ok s → active s n → active s k → is_block (areas s n) b o (128 + o) → area_step n s s' →
  (∀ q, st (areas s' n) q = st (refill (areas s n) b o (64 + o)) q) →
  b' ≠ b → is_block (areas s k) b' o' (128 + o') → is_block (areas s' k) b' o' (128 + o').
Proof.
  intros Hpa Hn Hk Hblk (Hoth & _ & _ & (Hba & Hto & _) & _) Hq Hne Hold.
  destruct (decide (k = n)) as [->|Hkn]; [|by rewrite Hoth].
  pose proof Hold as (Ho2 & Hal' & Hlo' & Hhi' & ? & ? & Hu').
  split_and!; try done; try lia. intros q Hin. rewrite Hq, st_refill, decide_False; [by apply Hu'|].
  intros Hin2. destruct (alloc_block_unique s b o b' o' q); try done; by exists n.
Qed.

Lemma free_block_back n s s' b o b' o' k :
  pa_ok s → active s n → active s k → is_block (areas s n) b o (128 + o) → area_step n s s' →
  (∀ q, st (areas s' n) q = st (refill (areas s n) b o (64 + o)) q) →
  is_block (areas s' k) b' o' (128 + o') → b' ≠ b ∧ is_block (areas s k) b' o' (128 + o').
Proof.
  intros Hpa Hn Hk Hblk (Hoth & _ & _ & (Hba & Hto & _) & _) Hq Hnew.
  pose proof (is_block_order_nonneg _ _ _ _ Hblk) as Ho.
  pose proof (is_block_order_nonneg _ _ _ _ Hnew) as Ho'.
  pose proof Hblk as (_ & Hal & Hlo & Hhi & _ & _ & Hu).
  pose proof Hnew as (Ho2 & Hal' & Hlo' & Hhi' & ? & ? & Hu').
  destruct (decide (k = n)) as [->|Hkn].
  - assert (Hnin : ∀ q, in_block b' o' q → ¬ in_block b o q).
    { intros q Hin Hin2. pose proof (Hu' q Hin) as E. rewrite Hq, st_refill, decide_True in E by done. lia. }
    split; [intros ->; apply (Hnin b); unfold in_block; lia|].
    split_and!; try done; try lia.
    intros q Hin. rewrite <- (Hu' q Hin), Hq, st_refill, decide_False by auto. done.
  - rewrite Hoth in Hnew, Hlo', Hhi' by done. split; [|done]. intros ->. apply Hkn.
    apply (pa_disjoint s k n b); try done; unfold usable_frame; lia.
Qed.

Lemma free_pages_spec m s A :
  pa_ok s → lock s = false → related s A → client_ok A (Free m) →
  post (free_pages m s) (λ s',
    ∃ A', spec_step (Free m) A 0 A' ∧ pa_ok s' ∧ lock s' = false ∧ related s' A' ∧ same_areas s s').
Proof.
  intros Hpa Hlk Hrel Hcl. unfold free_pages, spin_lock. rewrite Hlk. cbn [bind].
  set (s0 := set_lock true s).
  destruct Hcl as [->|(b & o & -> & HA)].
  { cbn [_free_pages Z.eqb bind post]. exists A. split_and!; [constructor|done|done|done|done]. }
  pose proof HA as (n & Hn & Hblk)%Hrel.
  apply post_bind. eapply post_mono; [by apply (free_block_spec n s0 b o)|].
  intros s1 (Hst & Hok & Hq). cbn [post].
  assert (Hpa1 : pa_ok s1) by (by apply (pa_ok_step n s0 s1)).
  exists (delete b A). split_and!; [by econstructor|done|done| |exact (step_same_areas n s0 s1 Hst)].
  intros b' o'. rewrite lookup_delete_Some, (Hrel b' o'). split.
  - intros [Hne (k & Hk & Hold)]. exists k. split; [by apply (active_step n k s0 s1)|].
    by apply (free_block_other n s0 s1 b o).
  - intros (k & Hk & Hnew). apply (active_step n k s0 s1 Hst) in Hk.
    destruct (free_block_back n s0 s1 b o b' o' k) as [??]; try done. split; [done|]. by exists k.
Qed.

Lemma run_request_spec r s A :
  pa_ok s → lock s = false → related s A → client_ok A r →
  post (run_request r s) (λ '(v, s'),
    ∃ A', spec_step r A v A' ∧ pa_ok s' ∧ lock s' = false ∧ related s' A').
Proof.
  intros Hpa Hlk Hrel Hcl. destruct r as [al sz flags|m]; cbn [run_request].
  - eapply post_mono; [by apply memalign_flags_spec|]. intros [v s'] (A' & ? & ? & ? & ? & _). by exists A'.
  - apply post_bind. eapply post_mono; [by apply free_pages_spec|]. intros s' (A' & ? & ? & ? & ? & _). by exists A'.
Qed.
