(* ===== verification/AllocPageReach.v ===== *)
(** * The page allocator over its whole life

    Which initialisations lib/alloc_page.c accepts, the states it reaches from
    boot through any sequence of initialisations and well-behaved requests,
    and the byte-level interface [memalign_pages_flags]. *)

From S2P Require Import Prelude.
From S2P Require Import Bitops.
From S2P Require Import LinkedList.
From S2P Require Import AllocPage.
From S2P Require Import AllocPageInv.
From S2P Require Import AllocPageSpec.
From S2P Require Import AllocPageInit.
From S2P Require Import AllocPageThm.

(** ** Initialisation accepts exactly the areas that fit *)

(** The conditions [_page_alloc_init_area] asserts. *)
Definition init_guards (n start topv : Z) (s : page_alloc) : Prop :=
  n < MAX_AREAS ∧ ¬ active s n ∧ start + 4 < topv ∧ topv < 2 ^ 52 ∧ vacant start topv s.

Lemma no_overlap_vacant n start topv s a :
  pa_ok s → 0 ≤ start < topv → topv < 2 ^ 52 → ¬ active s n →
  page_states a = start → top a = topv →
  no_overlap n start topv (set_area n a s) = true → vacant start topv s.
Proof.
  intros Hpa Hr Ht Hna Ep Et Hno k Hk. unfold no_overlap in Hno.
  rewrite forallb_forall in Hno.
  assert (Hin : List.In k [0; 1; 2; 3]) by (destruct Hk as [? _]; unfold MAX_AREAS in *; cbn; lia).
  specialize (Hno k Hin). cbn [areas_mask set_area areas] in Hno.
  assert (k ≠ n) by (by intros ->).
  rewrite fn_lookup_insert, fn_lookup_insert_ne in Hno by done.
  rewrite (proj2 (Z.eqb_neq _ 0) (proj2 Hk)) in Hno. cbn [orb] in Hno.
  destruct (proj1 Hpa k Hk) as ((? & ? & ?) & _).
  unfold area_contains_pfn in Hno. rewrite !u64_small in Hno by lia. rewrite Ep, Et in Hno.
  rewrite !andb_true_iff, !negb_true_iff, !andb_false_iff, !Z.leb_gt, !Z.ltb_ge in Hno. lia.
Qed.

Lemma init_area_guards n start topv s :
  pa_ok s → 0 ≤ n → 0 ≤ start →
  init_guards n start topv s ∨ _page_alloc_init_area n start topv s = Abort.
Proof.
  intros Hpa Hn Hs. unfold _page_alloc_init_area.
  destruct (Z.ltb_spec n MAX_AREAS) as [Hn4|]; [|by right].
  destruct (Z.eqb_spec (Z.land (areas_mask s) (BIT n)) 0) as [Hb|]; [|by right].
  destruct (Z.ltb_spec start topv) as [Hlt|]; [|by right].
  destruct (Z.ltb_spec 4 (u64 (topv - start))) as [H4|]; [|by right].
  change (BIT_ULL (8 * 8 - PAGE_SHIFT)) with (2 ^ 52).
  destruct (Z.ltb_spec topv (2 ^ 52)) as [H52|]; [|by right].
  rewrite u64_small in H4 by lia. cbv zeta.
  destruct (_ <=? _); [|by right].
  destruct (no_overlap _ _ _ _) eqn:E; [left|by right].
  assert (Hna : ¬ active s n) by (by intros [_ ?]).
  split_and!; [done|done|lia|done|]. eapply no_overlap_vacant; [..|exact E]; done || lia.
Qed.

(** ** Reachable states *)

Definition inv (s : page_alloc) (A : gmap Z Z) : Prop :=
  pa_ok s ∧ lock s = false ∧ related s A.

Lemma init_related n s s' A :
  related s A → ¬ active s n →
  (∀ k, active s' k ↔ k = n ∨ active s k) → (∀ k, k ≠ n → areas s' k = areas s k) →
  (∀ p, usable_frame (areas s' n) p → st (areas s' n) p < 64) → related s' A.
Proof.
  intros Hrel Hna Hact Ho Hfr b o. rewrite (Hrel b o). split.
  - intros (k & Hk & Hb). exists k. rewrite Hact, Ho; [by auto|by intros ->].
  - intros (k & [->|Hk]%Hact & Hb).
    + pose proof (is_block_order_nonneg _ _ _ _ Hb). destruct Hb as (_ & _ & ? & ? & _ & _ & Hu).
      pose proof (Hu b ltac:(unfold in_block; lia)). pose proof (Hfr b ltac:(unfold usable_frame; lia)). lia.
    + exists k. rewrite <- Ho; [done|by intros ->].
Qed.

Lemma init_area_inv n start topv s A :
  inv s A → 0 ≤ n → 0 ≤ start → init_guards n start topv s →
  post (_page_alloc_init_area n start topv s) (λ s', inv s' A ∧ active s' n ∧
    same_layout (new_area start topv (states (areas s n))) (areas s' n)).
Proof.
  intros (Hpa & Hlk & Hrel) Hn Hs (Hn4 & Hna & ? & ? & Hv).
  eapply post_mono; [by apply init_area_spec|].
  intros s' (Hpa' & Hact & Hl & Ho & Hlay & Hfr). split; [split_and!|split].
  - done.
  - congruence.
  - by apply (init_related n s).
  - apply Hact. by left.
  - done.
Qed.

(** What one step of the initialisation leaves alone. *)
Definition same_area (k : Z) (s s' : page_alloc) : Prop :=
  areas s' k = areas s k ∧ (active s' k ↔ active s k).

Lemma init_area_locked n start t s A s' :
  inv s A → 0 ≤ n → 0 ≤ start →
  _page_alloc_init_area n start t (set_lock true s) = Ret s' →
  inv (spin_unlock s') A ∧ ∀ k, k ≠ n → same_area k s (spin_unlock s').
Proof.
  intros (Hpa & Hlk & Hrel) Hn Hst E. assert (Hpa0 : pa_ok (set_lock true s)) by exact Hpa.
  destruct (init_area_guards n start t (set_lock true s) Hpa0 Hn Hst) as [(?&Hna&?&?&Hv)|E'];
    [|congruence].
  pose proof (init_area_spec n start t (set_lock true s)) as Hs1. rewrite E in Hs1. cbn [post] in Hs1.
  destruct Hs1 as (? & Hact & _ & Ho & _ & Hfr); [done || lia..|]. split.
  - split_and!; [done|done|]. by apply (init_related n (set_lock true s)).
  - intros k Hk. split; [by apply Ho|]. pose proof (Hact k) as Ha. unfold active in *. cbn in *. tauto.
Qed.

Lemma __init_area_inv n cutoff b t s A t' s' :
  inv s A → 0 ≤ n → 0 ≤ cutoff → 0 ≤ b → 0 ≤ t →
  __page_alloc_init_area n cutoff b t s = Ret (t', s') →
  inv s' A ∧ 0 ≤ t' ≤ cutoff ∧ ∀ k, k ≠ n → same_area k s s'.
Proof.
  intros Hinv Hn Hc Hb Ht. pose proof Hinv as (_ & Hlk & _).
  unfold __page_alloc_init_area, spin_lock. rewrite Hlk.
  destruct (Z.ltb_spec cutoff t); [|intros [= <- <-]; split; [done|split; [lia|done]]]. cbn [bind].
  destruct (Z.leb_spec cutoff b); intros (s1 & E & [= <- <-])%bind_ret_inv;
    apply init_area_locked with (A := A) in E as [? ?]; try done; (split; [done|split; [lia|done]]).
Qed.

(** The four areas in turn; the second step finds nothing left to do. *)
Lemma init_any_inv b t s A s' :
  inv s A → 0 ≤ b → 0 ≤ t → page_alloc_init_area AREA_ANY_NUMBER b t s = Ret s' →
  inv s' A ∧ same_area AREA_NORMAL_NUMBER s s'.
Proof.
  intros Hinv Hb Ht. unfold page_alloc_init_area. cbn [negb Z.eqb].
  intros ([t1 s1] & E1 & ([t2 s2] & E2 & ([t3 s3] & E3 & ([t4 s4] & E4 & [= <-])%bind_ret_inv)%bind_ret_inv)%bind_ret_inv)%bind_ret_inv.
  apply __init_area_inv with (A := A) in E1 as (I1 & Ht1 & F1); try done.
  assert (Hsmall : t1 ≤ AREA_NORMAL_PFN) by (change AREA_NORMAL_PFN with (2 ^ 24); change AREA_HIGH_PFN with (2 ^ 20) in Ht1; lia).
  unfold __page_alloc_init_area in E2. rewrite (proj2 (Z.ltb_ge _ _) Hsmall) in E2. injection E2 as <- <-.
  apply __init_area_inv with (A := A) in E3 as (I3 & Ht3 & F3); try done; try lia.
  apply __init_area_inv with (A := A) in E4 as (I4 & Ht4 & F4); try done; try lia.
  split; [done|].
  destruct (F1 AREA_NORMAL_NUMBER), (F3 AREA_NORMAL_NUMBER), (F4 AREA_NORMAL_NUMBER); try done.
  split; [congruence|tauto].
Qed.

Lemma page_alloc_init_inv n b t s A s' :
  inv s A → 0 ≤ n → 0 ≤ b → 0 ≤ t → page_alloc_init_area n b t s = Ret s' → inv s' A.
Proof.
  intros Hinv Hn Hb Ht E. destruct (decide (n = AREA_ANY_NUMBER)) as [->|Hne].
  - by apply init_any_inv with (A := A) in E as [? _].
  - unfold page_alloc_init_area in E. rewrite (proj2 (Z.eqb_neq _ _) Hne) in E. cbn [negb] in E.
    apply bind_ret_inv in E as ([t1 s1] & E & [= <-]).
    by apply __init_area_inv with (A := A) in E as [? _].
Qed.

(** What the client holds after a request that returned [v]. *)
Definition track (A : gmap Z Z) (r : request) (v : Z) : gmap Z Z :=
  match r with
  | Alloc _ sz _ => if v =? 0 then A else <[Z.shiftr v PAGE_SHIFT := sz]> A
  | Free m => if m =? 0 then A else delete (Z.shiftr m PAGE_SHIFT) A
  end.

Lemma vaddr_page_0 b : vaddr (Page b) = 0 ↔ b = 0.
Proof. unfold vaddr, PAGE_SHIFT. rewrite Z.shiftl_mul_pow2 by lia. lia. Qed.

Lemma related_pos s A b o : pa_ok s → related s A → A !! b = Some o → 0 < b.
Proof.
  intros Hpa Hrel (n & Hn & Hb)%Hrel. destruct (proj1 Hpa n Hn) as ((? & ? & ?) & _).
  destruct Hb as (_ & _ & ? & _). lia.
Qed.

Lemma spec_step_track s A r v A' :
  pa_ok s → related s A → spec_step r A v A' → A' = track A r v.
Proof.
  intros Hpa Hrel Hs. destruct Hs as [| |? b o HA|]; cbn [track]; try done.
  - rewrite (proj2 (Z.eqb_neq _ 0)), vaddr_page; [done|lia|]. rewrite vaddr_page_0. lia.
  - pose proof (related_pos _ _ _ _ Hpa Hrel HA).
    rewrite (proj2 (Z.eqb_neq _ 0)), vaddr_page; [done|lia|]. rewrite vaddr_page_0. lia.
Qed.

(** The life of the allocator: boot, any initialisation that does not stop
    the program, and requests of a well-behaved client. *)
Inductive reach : page_alloc → gmap Z Z → Prop :=
| reach_boot s : areas_mask s = 0 → lock s = false → reach s ∅
| reach_init s A n b t s' :
    reach s A → 0 ≤ n → 0 ≤ b → 0 ≤ t → page_alloc_init_area n b t s = Ret s' → reach s' A
| reach_request s A r v s' :
    reach s A → client_ok A r → run_request r s = Ret (v, s') → reach s' (track A r v).

Lemma boot_inactive s n : areas_mask s = 0 → ¬ active s n.
Proof. intros E [_ Hb]. by rewrite E in Hb. Qed.

Lemma reach_inv s A : reach s A → inv s A.
Proof.
  induction 1 as [s E Hl|s A n b t s' _ IH Hn Hb Ht E|s A r v s' _ (Hpa & Hlk & Hrel) Hcl E].
  - pose proof (boot_inactive s) as Hno. split_and!; [|done|].
    + split; intros; exfalso; by eapply Hno.
    + intros b o. split; [done|]. intros (n & Hn & _). exfalso; by eapply Hno.
  - by apply (page_alloc_init_inv n b t s).
  - pose proof (run_request_spec r s A Hpa Hlk Hrel Hcl) as Hp. rewrite E in Hp.
    destruct Hp as (A' & Hs & Hpa' & Hlk' & Hrel'). by rewrite <- (spec_step_track s A r v A').
Qed.

(** ** The byte-level interface *)

Lemma page_align_shift x :
  0 ≤ x → x ≤ 2 ^ 63 → Z.shiftr (PAGE_ALIGN x) PAGE_SHIFT = (x + 4095) / 4096.
Proof.
  intros. unfold PAGE_ALIGN, PAGE_SHIFT. change PAGE_SIZE with (2 ^ 12). rewrite ALIGN_pow2 by lia.
  rewrite Z.shiftr_div_pow2 by lia. change (2 ^ 12) with 4096. Z.div_mod_to_equations. lia.
Qed.

(** The order of a request for [size] bytes. *)
Definition order_for (size : Z) : Z := get_order ((size + 4095) / 4096).

Lemma order_for_spec size : 0 ≤ size ≤ 2 ^ 63 →
  0 ≤ order_for size < NLISTS ∧ size ≤ 2 ^ order_for size * PAGE_SIZE ∧
  ∀ o, 0 ≤ o → size ≤ 2 ^ o * PAGE_SIZE → order_for size ≤ o.
Proof.
  intros Hs. unfold order_for, NLISTS, BITS_PER_LONG, PAGE_SHIFT, PAGE_SIZE.
  set (k := (size + 4095) / 4096). assert (Hk : 0 ≤ k ≤ 2 ^ 51 ∧ size ≤ k * 4096 ∧ (k - 1) * 4096 < size ∨ size = 0 ∧ k = 0)
    by (unfold k; Z.div_mod_to_equations; lia).
  destruct (decide (size = 0)) as [->|]; [change k with 0; cbn; split_and!; done || lia|].
  destruct Hk as [(Hk & Hup & Hdn)|]; [|lia]. rewrite get_order_log2_up by lia.
  assert (Hle : ∀ o, 0 ≤ o → size ≤ 2 ^ o * 4096 → Z.log2_up k ≤ o).
  { intros o Ho Hso. apply Z.log2_up_le_pow2; lia. }
  split_and!; [apply Z.log2_up_nonneg| |  |exact Hle].
  - pose proof (Hle 51). lia.
  - destruct (decide (k = 1)) as [->|]; [cbn; lia|].
    pose proof (Z.log2_up_spec k ltac:(lia)). nia.
Qed.

Lemma order_for_pow2 k : 0 ≤ k < 64 → order_for (2 ^ k) = Z.max 0 (k - 12).
Proof.
  intros Hk. destruct (order_for_spec (2 ^ k)) as (Hr & Hup & Hmin).
  { split; [lia|]. apply Z.pow_le_mono_r; lia. }
  change PAGE_SIZE with (2 ^ 12) in *. rewrite <- Z.pow_add_r in Hup by lia.
  apply Z.pow_le_mono_r_iff in Hup; [|lia..].
  enough (order_for (2 ^ k) ≤ Z.max 0 (k - 12)) by lia.
  apply Hmin; [lia|]. rewrite <- Z.pow_add_r by lia. apply Z.pow_le_mono_r; lia.
Qed.

Lemma vaddr_aligned b k j : 0 ≤ j → 0 ≤ k → k ≤ j + 12 → b mod 2 ^ j = 0 → vaddr (Page b) mod 2 ^ k = 0.
Proof.
  intros Hj Hk Hle Hb. unfold vaddr, PAGE_SHIFT. rewrite Z.shiftl_mul_pow2 by lia.
  apply Z.mod_divide in Hb as [c ->]; [|lia]. apply Z.mod_divide; [lia|].
  exists (c * 2 ^ (j + 12 - k)). rewrite <- !Z.mul_assoc, <- !Z.pow_add_r by lia. f_equal. f_equal. lia.
Qed.

Lemma memalign_pages_flags_unfold alignment size flags s k :
  alignment = 2 ^ k → 0 ≤ k < 64 → 0 ≤ size ≤ 2 ^ 63 →
  memalign_pages_flags alignment size flags s =
  page_memalign_order_flags (Z.max 0 (k - 12)) (order_for size) flags s.
Proof.
  intros -> Hk Hs. unfold memalign_pages_flags. rewrite is_power_of_2_pow2 by done.
  assert (2 ^ k ≤ 2 ^ 63) by (apply Z.pow_le_mono_r; lia).
  rewrite !page_align_shift by lia. fold (order_for (2 ^ k)) (order_for size).
  rewrite order_for_pow2 by done. destruct (order_for_spec size Hs) as [Hr _].
  assert (NLISTS = 52) by done.
  rewrite !(proj2 (Z.ltb_lt _ NLISTS)) by lia. by rewrite !u8_small by lia.
Qed.
