(* ===== verification/AllocPageProps.v ===== *)
(** * Properties of the page allocator

    The theorems about lib/alloc_page.c, each with the concrete area on which
    its hypotheses hold. *)

From S2P Require Import Prelude.
From S2P Require Import Bitops.
From S2P Require Import LinkedList.
From S2P Require Import AllocPage.
From S2P Require Import AllocPageInv.
From S2P Require Import AllocPageSpec.
From S2P Require Import AllocPageInit.
From S2P Require Import AllocPageThm.
From S2P Require Import AllocPageReach.

(** The allocator before any area was added. *)
Definition boot : page_alloc :=
  mk_pa (λ _, mk_area 0 0 0 (λ _, 0) 0) 0 false (λ _, mk_node NULL NULL).

(** Frames 15 to 47 as area 0: one frame of metadata, two blocks of 16. *)
Definition demo : page_alloc := ret_or boot (page_alloc_init_area 0 15 48 boot).
(** ... with one block of four pages handed out. *)
Definition demo2 : page_alloc := (ret_or (0, boot) (run_request (Alloc 2 2 0) demo)).2.

Lemma demo_reach : reach demo ∅.
Proof.
  apply (reach_init boot ∅ 0 15 48); [by apply reach_boot|lia..|].
  apply ret_or_eq. by vm_compute.
Qed.

Lemma demo2_reach : reach demo2 {[32 := 2]}.
Proof.
  apply (reach_request demo ∅ (Alloc 2 2 0) (32 * 4096)); [apply demo_reach|done|].
  assert (E : (ret_or (0, boot) (run_request (Alloc 2 2 0) demo)).1 = 32 * 4096) by by vm_compute.
  rewrite <- E. unfold demo2. rewrite <- surjective_pairing. apply ret_or_eq. by vm_compute.
Qed.

Lemma demo2_areas k : active demo2 k ↔ k = 0.
Proof.
  split.
  - intros [Hk Hb]. unfold MAX_AREAS in Hk.
    assert (k = 0 ∨ k = 1 ∨ k = 2 ∨ k = 3) as [->|[->|[->| ->]]] by lia; [done|..];
      destruct Hb; by vm_compute.
  - intros ->. split; [by vm_compute|]. vm_compute. discriminate.
Qed.

#[local] Opaque demo demo2.

(** ** Clients *)

(** C1: refinement.  In every state that satisfies the invariant, every
    request of a well-behaved client (an allocation of known orders without
    [FLAG_FRESH], or the release of null or of an outstanding block) returns,
    its result is one the abstract allocator allows, and the invariant and the
    abstraction hold again. *)
Theorem page_alloc_refines r s A :
  pa_ok s → lock s = false → related s A → client_ok A r →
  post (run_request r s) (λ '(v, s'),
    ∃ A', spec_step r A v A' ∧ pa_ok s' ∧ lock s' = false ∧ related s' A').
Proof. apply run_request_spec. Qed.

Lemma page_alloc_refines_witness :
  post (run_request (Free (32 * 4096)) demo2) (λ '(v, s'),
    ∃ A', spec_step (Free (32 * 4096)) {[32 := 2]} v A' ∧
      pa_ok s' ∧ lock s' = false ∧ related s' A').
Proof.
  destruct (reach_inv demo2 _ demo2_reach) as (Hpa & Hlk & Hrel).
  apply (page_alloc_refines (Free (32 * 4096)) demo2 {[32 := 2]} Hpa Hlk Hrel).
  right. exists 32, 2. split; [reflexivity|apply lookup_singleton_eq].
Defined.

(** C2: safety and progress over the whole life of the allocator.  After any
    sequence of initialisations and well-behaved requests, the blocks the
    client holds are aligned to their size, lie inside initialised areas and
    are pairwise disjoint; and every further well-behaved request returns: no
    assertion fails, no table or list is accessed out of bounds. *)
Theorem page_alloc_reach_safe s A :
  reach s A →
  (∀ b o, A !! b = Some o → 0 < b ∧ b mod 2 ^ o = 0 ∧
     ∃ n, active s n ∧ base (areas s n) ≤ b ∧ b + 2 ^ o ≤ top (areas s n)) ∧
  (∀ b o b' o' q, A !! b = Some o → A !! b' = Some o' →
     in_block b o q → in_block b' o' q → b = b') ∧
  (∀ r, client_ok A r → ∃ v s', run_request r s = Ret (v, s') ∧ reach s' (track A r v)).
Proof.
  intros Hreach. destruct (reach_inv s A Hreach) as (Hpa & Hlk & Hrel). split_and!.
  - intros b o HA. split; [by eapply related_pos|].
    apply Hrel in HA as (n & Hn & _ & Hal & Hlo & Hhi & _). split; [done|]. by exists n.
  - intros b o b' o' q H1%Hrel H2%Hrel Hq Hq'. by destruct (alloc_block_unique s b o b' o' q).
  - intros r Hcl. pose proof (run_request_spec r s A Hpa Hlk Hrel Hcl) as ([v s'] & E & _)%post_inv.
    exists v, s'. split; [done|]. by apply (reach_request s).
Qed.

Lemma page_alloc_reach_safe_witness :
  ∃ v s', run_request (Alloc 0 3 0) demo2 = Ret (v, s').
Proof.
  destruct (page_alloc_reach_safe demo2 {[32 := 2]} demo2_reach) as (_ & _ & Hp).
  destruct (Hp (Alloc 0 3 0)) as (v & s' & E & _); [done|]. by exists v, s'.
Defined.

(** An allocation returns null only when no allowed, initialised area has
    a usable block of a sufficient order among the orders up to the area's
    [max_order], and it leaves the state untouched; otherwise it returns a
    block of exactly the requested order in an allowed area. *)
Theorem alloc_null_only_when_exhausted al sz flags s A :
  reach s A → client_ok A (Alloc al sz flags) →
  post (page_memalign_order_flags al sz flags s) (λ '(r, s'), alloc_result al sz flags s r s').
Proof.
  intros (Hpa & Hlk & Hrel)%reach_inv Hcl.
  eapply post_mono; [by apply (memalign_flags_spec al sz flags s A)|].
  intros [r s'] (A' & _ & _ & _ & _ & _ & Hr). exact Hr.
Qed.

Lemma alloc_null_only_when_exhausted_witness :
  post (page_memalign_order_flags 5 0 0 demo) (λ '(r, s'), alloc_result 5 0 0 demo r s').
Proof. apply (alloc_null_only_when_exhausted 5 0 0 demo ∅ demo_reach). done. Defined.

(** The byte-level interface.  For a power-of-two alignment and a size up
    to 2^63, [memalign_pages_flags] returns null or an address that is a
    multiple of the alignment and starts an outstanding block of the least
    order that holds [size] bytes. *)
Theorem memalign_pages_flags_correct k size flags s A :
  reach s A → 0 ≤ k < 64 → 0 ≤ size ≤ 2 ^ 63 → Z.land flags FLAG_FRESH = 0 →
  post (memalign_pages_flags (2 ^ k) size flags s) (λ '(r, s'),
    pa_ok s' ∧ lock s' = false ∧
    (r = 0 ∨ ∃ b o, r = vaddr (Page b) ∧ r mod 2 ^ k = 0 ∧ alloc_block s' b o ∧
       size ≤ 2 ^ o * PAGE_SIZE ∧ ∀ o', 0 ≤ o' → size ≤ 2 ^ o' * PAGE_SIZE → o ≤ o')).
Proof.
  intros (Hpa & Hlk & Hrel)%reach_inv Hk Hs Hf.
  rewrite (memalign_pages_flags_unfold _ size flags s k) by done.
  destruct (order_for_spec size Hs) as (Ho & Hup & Hmin). assert (NLISTS = 52) by done.
  eapply post_mono; [apply (memalign_flags_spec _ _ flags s A); try done; cbn; lia|].
  intros [r s'] (A' & Hsp & Hpa' & Hlk' & Hrel' & _). split_and!; [done..|].
  inversion Hsp as [|? ? ? ? b Hb0 Hb Hd| |]; subst; [by left|right].
  exists b, (order_for size). split_and!; try done.
  - apply (vaddr_aligned b k (Z.max (Z.max 0 (k - 12)) (order_for size))); try done; lia.
  - apply Hrel'. apply lookup_insert_eq.
Qed.

Lemma memalign_pages_flags_correct_witness :
  post (memalign_pages_flags (2 ^ 14) 5000 0 demo2) (λ '(r, s'), pa_ok s').
Proof.
  eapply post_mono;
    [apply (memalign_pages_flags_correct 14 5000 0 demo2 {[32 := 2]} demo2_reach); done || lia|].
  by intros [r s'] [H _].
Defined.

(** ** Initialisation *)

Lemma page_alloc_init_area_unfold n b t s : lock s = false → n ≠ AREA_ANY_NUMBER → 0 ≤ b → 0 < t →
  page_alloc_init_area n b t s = let* s := _page_alloc_init_area n b t (set_lock true s) in Ret (spin_unlock s).
Proof.
  intros Hlk Hany Hb Ht. unfold page_alloc_init_area, __page_alloc_init_area, spin_lock.
  rewrite (proj2 (Z.eqb_neq n _)), Hlk, (proj2 (Z.ltb_lt 0 t)), (proj2 (Z.leb_le 0 b)) by done.
  cbn [negb bind]. by destruct (_page_alloc_init_area _ _ _ _).
Qed.

Lemma init_area_ret n b t s A :
  reach s A → 0 ≤ n → n ≠ AREA_ANY_NUMBER → 0 ≤ b → 0 < t → init_guards n b t s →
  post (page_alloc_init_area n b t s) (λ s', reach s' A ∧ (∀ k, active s' k ↔ k = n ∨ active s k) ∧ pa_ok s' ∧
    same_layout (new_area b t (states (areas s n))) (areas s' n)).
Proof.
  intros Hreach Hn Hany Hb Ht (Hn4 & Hna & Hlt & H52 & Hv). pose proof (reach_inv s A Hreach) as (Hpa & Hlk & Hrel).
  pose proof (page_alloc_init_area_unfold n b t s Hlk Hany Hb Ht) as E. pose proof (init_area_spec n b t (set_lock true s)) as Hs.
  destruct (_page_alloc_init_area _ _ _ _) as [s1| | |] eqn:E1; cbn [bind post] in *; try (destruct Hs; done || lia).
  destruct Hs as (? & Hact & _ & Ho & Hlay & Hfr); [done || lia..|].
  rewrite E. cbn [post]. split; [|split; [exact Hact|by split]]. apply (reach_init s A n b t); done || lia.
Qed.

(** C9: [page_alloc_init_area] for one area number accepts exactly the frame
    ranges its assertions describe (a free area number, more than four frames,
    frames below 2^52, no overlap with an initialised area, compared by their
    four end points): then it returns, the invariant holds, the area is
    initialised with the metadata table at its start and every frame usable;
    in all other cases it stops the program. *)
Theorem page_alloc_init_area_correct n b t s A :
  reach s A → 0 ≤ n → n ≠ AREA_ANY_NUMBER → 0 ≤ b → 0 < t →
  (init_guards n b t s →
     post (page_alloc_init_area n b t s) (λ s', reach s' A ∧ active s' n ∧ pa_ok s' ∧
       same_layout (new_area b t (states (areas s n))) (areas s' n))) ∧
  (¬ init_guards n b t s → page_alloc_init_area n b t s = Abort).
Proof.
  intros Hreach Hn Hany Hb Ht. pose proof (reach_inv s A Hreach) as (Hpa & Hlk & Hrel). split.
  - intros Hg. eapply post_mono; [by apply init_area_ret|]. intros s' (H1 & H2 & H3 & H4).
    split; [done|]. split; [apply H2; by left|done].
  - intros Hno. rewrite page_alloc_init_area_unfold by done.
    destruct (init_area_guards n b t (set_lock true s)) as [|E2]; try done. by rewrite E2.
Qed.

Lemma page_alloc_init_area_correct_witness :
  post (page_alloc_init_area 2 100 200 demo2) (λ s', reach s' {[32 := 2]}) ∧
  page_alloc_init_area 2 40 60 demo2 = Abort.
Proof.
  split.
  - destruct (page_alloc_init_area_correct 2 100 200 demo2 {[32 := 2]} demo2_reach) as [Hok _];
      [lia|unfold AREA_ANY_NUMBER; lia|lia|lia|].
    eapply post_mono; [apply Hok|by intros s' [? _]].
    split; [unfold MAX_AREAS; lia|]. split; [intros [_ Hb]; apply Hb; by vm_compute|].
    split; [lia|]. split; [lia|]. intros k ->%demo2_areas. right. by vm_compute.
  - destruct (page_alloc_init_area_correct 2 40 60 demo2 {[32 := 2]} demo2_reach) as [_ Hno];
      [lia|unfold AREA_ANY_NUMBER; lia|lia|lia|].
    apply Hno. intros (_ & _ & _ & _ & Hv).
    destruct (Hv 0) as [H|H]; [by apply demo2_areas|vm_compute in H; by apply H..].
Defined.

(** ** Freeing *)

(** Releasing anything but null or an outstanding block (a double free, an
    address inside a block, an unaligned or foreign address) stops the
    program. *)
Theorem free_pages_rejects m s A :
  reach s A → 0 < m → (∀ b o, A !! b = Some o → m ≠ vaddr (Page b)) → free_pages m s = Abort.
Proof.
  intros (Hpa & Hlk & Hrel)%reach_inv Hm Hno. unfold free_pages, spin_lock. rewrite Hlk. cbn [bind].
  rewrite free_invalid_aborts; [done|exact Hpa|done|].
  intros n b o Hn Hb. apply (Hno b o). apply Hrel. by exists n.
Qed.

Lemma free_pages_rejects_witness : free_pages (33 * 4096) demo2 = Abort.
Proof.
  apply (free_pages_rejects (33 * 4096) demo2 {[32 := 2]} demo2_reach); [lia|].
  intros b o [<- _]%lookup_singleton_Some. unfold vaddr, PAGE_SHIFT. rewrite Z.shiftl_mul_pow2; lia.
Defined.

(** What a release does to the page table, exactly.  The frames of the
    block are marked [STATUS_FREE] with the order they were allocated with and
    nothing else changes: the block never merges with its buddy, because
    [coalesce] compares the metadata with the bare order. *)
Theorem free_pages_never_coalesces s A b o :
  reach s A → A !! b = Some o →
  post (free_pages (vaddr (Page b)) s) (λ s', ∀ n q,
    active s n → usable_frame (areas s n) q →
    st (areas s' n) q = (if decide (in_block b o q) then 64 + o else st (areas s n) q) ∧
    max_order (areas s' n) = max_order (areas s n)).
Proof.
  intros (Hpa & Hlk & Hrel)%reach_inv HA. pose proof HA as (k & Hk & Hb)%Hrel.
  unfold free_pages, spin_lock. rewrite Hlk. cbn [bind]. set (s0 := set_lock true s).
  apply post_bind. eapply post_mono; [apply (free_block_max k s0 b o); done|].
  intros s1 (Hst & Hmx & Hq). cbn [post]. intros n q Hn Hqf.
  change (areas (spin_unlock s1)) with (areas s1). pose proof Hst as (Hoth & _).
  destruct (decide (n = k)) as [->|Hne].
  - rewrite (Hq q), st_refill. by destruct (decide (in_block b o q)).
  - rewrite Hoth by done. rewrite decide_False; [done|]. intros Hin. apply Hne.
    destruct Hb as (_ & _ & ? & ? & _).
    apply (pa_disjoint s n k q); try done. unfold usable_frame, in_block in *. lia.
Qed.

Lemma free_pages_never_coalesces_witness :
  post (free_pages (vaddr (Page 32)) demo2) (λ s', st (areas s' 0) 32 = 64 + 2).
Proof.
  eapply post_mono;
    [apply (free_pages_never_coalesces demo2 {[32 := 2]} 32 2 demo2_reach), lookup_singleton_eq|].
  intros s' H. destruct (H 0 32) as [E _]; [by apply demo2_areas|by vm_compute|].
  rewrite E. rewrite decide_True; [done|unfold in_block; lia].
Defined.

(** ** Where the code falls short of its comments *)

(** With [AREA_ANY_NUMBER] on x86 the area [AREA_NORMAL] is never
    initialised: [AREA_HIGH] is taken first and its cutoff (frame 2^20) lies
    below the cutoff of [AREA_NORMAL] (frame 2^24), so nothing is left above
    it. *)
Theorem normal_area_never_initialised b t s A :
  reach s A → 0 ≤ b → 0 ≤ t →
  ∀ s', page_alloc_init_area AREA_ANY_NUMBER b t s = Ret s' →
  areas s' AREA_NORMAL_NUMBER = areas s AREA_NORMAL_NUMBER ∧
  (active s' AREA_NORMAL_NUMBER ↔ active s AREA_NORMAL_NUMBER).
Proof. intros Hinv%reach_inv Hb Ht s' E. by apply init_any_inv with (A := A) in E as [_ ?]. Qed.

Lemma normal_area_never_initialised_witness :
  let init := page_alloc_init_area AREA_ANY_NUMBER (2 ^ 24 + 10) (2 ^ 24 + 20) boot in
  is_ret init = true ∧ ¬ active (ret_or boot init) AREA_NORMAL_NUMBER.
Proof.
  intros init. assert (E : is_ret init = true) by by vm_compute. split; [exact E|].
  destruct (normal_area_never_initialised (2 ^ 24 + 10) (2 ^ 24 + 20) boot ∅
    (reach_boot boot eq_refl eq_refl) ltac:(lia) ltac:(lia) _ (ret_or_eq boot init E)) as [_ Ha].
  rewrite Ha. by apply boot_inactive.
Defined.

(** With [FLAG_FRESH] a block of half the requested order is marked as
    allocated, and later requests are served from the other half: a fresh
    allocation of four pages returns frame 18, and the third allocation of the
    sequence returns frame 20, which lies inside the first one. *)
Theorem fresh_alloc_overlaps :
  ∃ v1 v2 v3 s1 s2 s3,
    page_memalign_order_flags 2 2 (Z.lor FLAG_FRESH FLAG_DONTZERO) demo = Ret (v1, s1) ∧
    page_memalign_order_flags 1 1 0 s1 = Ret (v2, s2) ∧
    page_memalign_order_flags 1 1 0 s2 = Ret (v3, s3) ∧
    v1 = 18 * PAGE_SIZE ∧ st (areas s1 0) 18 = 128 + 1 ∧
    v1 < v3 < v1 + 2 ^ 2 * PAGE_SIZE.
Proof.
  eexists _, _, _, _, _, _. split; [vm_compute; reflexivity|].
  split; [vm_compute; reflexivity|]. split; [vm_compute; reflexivity|].
  vm_compute. by split_and!.
Qed.

(** [reserve_pages] leaves the reserved page on its free list: after
    reserving frame 17 the second single-page allocation returns it. *)
Theorem reserved_page_handed_out :
  ∃ s1 v2 s2 s3,
    reserve_pages (17 * PAGE_SIZE) 1 demo = Ret (0, s1) ∧ st (areas s1 0) 17 = STATUS_SPECIAL ∧
    page_memalign_order_flags 0 0 0 s1 = Ret (v2, s2) ∧
    page_memalign_order_flags 0 0 0 s2 = Ret (17 * PAGE_SIZE, s3).
Proof.
  eexists _, _, _, _. split; [vm_compute; reflexivity|]. split; [vm_compute; reflexivity|].
  split; [vm_compute; reflexivity|]. vm_compute. reflexivity.
Qed.

(** [max_order] is lowered when a list runs empty and not raised when a
    block of a higher order is released, so memory is lost: on an area with
    one block of 16 frames, after an allocation of eight pages, one of a single
    page and the release of both, the block of eight is on its free list and a
    request for eight pages returns null. *)
Theorem max_order_leak :
  ∃ s0 v1 s1 v2 s2 s3 s4 s5,
    page_alloc_init_area 0 15 32 boot = Ret s0 ∧
    page_memalign_order_flags 3 3 0 s0 = Ret (v1, s1) ∧ v1 ≠ 0 ∧
    page_memalign_order_flags 0 0 0 s1 = Ret (v2, s2) ∧ v2 ≠ 0 ∧
    free_pages v2 s2 = Ret s3 ∧ free_pages v1 s3 = Ret s4 ∧
    st (areas s4 0) 16 = Z.lor STATUS_FREE 3 ∧
    page_memalign_order_flags 3 3 0 s4 = Ret (0, s5).
Proof.
  eexists _, _, _, _, _, _, _, _. split; [vm_compute; reflexivity|].
  split; [vm_compute; reflexivity|]. split; [done|]. split; [vm_compute; reflexivity|].
  split; [done|]. split; [vm_compute; reflexivity|]. split; [vm_compute; reflexivity|].
  split; vm_compute; reflexivity.
Qed.

(** [alloc_pages_flags(order, flags)] equals [memalign_pages_flags] with
    [PAGE_SIZE << order] for alignment and size, both of which count bytes;
    with [1 << order], as the comment in alloc_page.h has it, the request is
    for 2^12 times less. *)
Theorem alloc_pages_flags_is_memalign order flags s :
  0 ≤ order < NLISTS →
  alloc_pages_flags order flags s =
    memalign_pages_flags (2 ^ order * PAGE_SIZE) (2 ^ order * PAGE_SIZE) flags s ∧
  memalign_pages_flags (2 ^ order) (2 ^ order) flags s =
    page_memalign_order_flags (Z.max 0 (order - 12)) (Z.max 0 (order - 12)) flags s.
Proof.
  change NLISTS with 52. intros Ho.
  assert (H : ∀ k, 0 ≤ k < 64 → memalign_pages_flags (2 ^ k) (2 ^ k) flags s =
    page_memalign_order_flags (Z.max 0 (k - 12)) (Z.max 0 (k - 12)) flags s).
  { intros k Hk. assert (2 ^ k ≤ 2 ^ 63) by (apply Z.pow_le_mono_r; lia).
    rewrite (memalign_pages_flags_unfold _ _ flags s k) by lia. by rewrite order_for_pow2. }
  split; [|apply H; lia]. change PAGE_SIZE with (2 ^ 12). rewrite <- Z.pow_add_r by lia.
  rewrite H by lia. unfold alloc_pages_flags. rewrite u8_small by lia.
  replace (Z.max 0 (order + 12 - 12)) with order by lia. done.
Qed.

Lemma alloc_pages_flags_is_memalign_witness :
  memalign_pages_flags (2 ^ 3) (2 ^ 3) 0 demo = page_memalign_order_flags 0 0 0 demo.
Proof. apply (alloc_pages_flags_is_memalign 3 0 demo). change NLISTS with 52. lia. Defined.
