(* ===== verification/CMem.v ===== *)
(** * Byte memory and C strings

    The memory the string code works on: a finite map from addresses to
    bytes.  A load or store outside the mapped bytes is a [Fault]; the null
    page is never mapped.  [bytes m p l] says that the bytes [l] are stored
    from [p] on, [cstr m p s] that [p] is a terminated string with the
    characters [s]. *)

From S2P Require Import Prelude.

Abbreviation memory := (gmap Z Z).

Definition addr_ok (p : Z) : bool := (0 <? p) && (p <? 2 ^ 64).

(** [*p] of an [unsigned char *]. *)
Definition ldb (m : memory) (p : Z) : res Z :=
  valid! (addr_ok p);
  match m !! p with Some b => Ret b | None => Fault end.
(** [*p = v] *)
Definition stb (m : memory) (p v : Z) : res memory :=
  let* _ := ldb m p in Ret (<[p := u8 v]> m).
(** [*p] of a [char *], which is signed. *)
Definition ldc (m : memory) (p : Z) : res Z :=
  let* b := ldb m p in Ret (s8 b).

(** A loop that reads one new address per iteration either stops or runs into
    an unmapped byte within this many iterations. *)
Definition fuel (m : memory) : nat := S (size m).

(** A local array of [n] bytes at [p] (contents unspecified: zero). *)
Fixpoint alloca (m : memory) (p : Z) (n : nat) : memory :=
  match n with O => m | S n => <[p := 0]> (alloca m (p + 1) n) end.

(** The end of its lifetime. *)
Fixpoint dealloca (m : memory) (p : Z) (n : nat) : memory :=
  match n with O => m | S n => delete p (dealloca m (p + 1) n) end.

(** ** Representation *)

Fixpoint bytes (m : memory) (p : Z) (l : list Z) : Prop :=
  match l with
  | [] => True
  | b :: l => m !! p = Some b ∧ 0 ≤ b < 256 ∧ addr_ok p = true ∧ bytes m (p + 1) l
  end.

Definition chars (s : list Z) : Prop := Forall (λ c, 0 < c < 256) s.
Definition cstr (m : memory) (p : Z) (s : list Z) : Prop :=
  bytes m p (s ++ [0]) ∧ chars s.

(** [n] addresses from [p] on are mapped. *)
Definition mapped (m : memory) (p : Z) (n : Z) : Prop :=
  ∀ i, 0 ≤ i < n → addr_ok (p + i) = true ∧ is_Some (m !! (p + i)).

Lemma addr_ok_iff p : addr_ok p = true ↔ 0 < p < 2 ^ 64.
Proof. unfold addr_ok. rewrite andb_true_iff, Z.ltb_lt, Z.ltb_lt. done. Qed.

(** ** Loads and stores *)


Lemma ldb_bytes m p b l : bytes m p (b :: l) → ldb m p = Ret b.
Proof. intros (E & _ & Ho & _). unfold ldb. by rewrite Ho, E. Qed.

Lemma stb_mapped m p v : addr_ok p = true → is_Some (m !! p) → stb m p v = Ret (<[p := u8 v]> m).
Proof. intros Ho [b E]. unfold stb, ldb. by rewrite Ho, E. Qed.

Lemma bytes_app m p l1 l2 :
  bytes m p (l1 ++ l2) ↔ bytes m p l1 ∧ bytes m (p + Z.of_nat (length l1)) l2.
Proof.
  revert p. induction l1 as [|b l1 IH]; intros p; cbn [app bytes length].
  - rewrite Z.add_0_r. tauto.
  - rewrite IH. replace (p + 1 + Z.of_nat (length l1)) with (p + Z.of_nat (S (length l1))) by lia. tauto.
Qed.

Lemma bytes_lookup m p l i b :
  bytes m p l → l !! i = Some b →
  m !! (p + Z.of_nat i) = Some b ∧ 0 ≤ b < 256 ∧ addr_ok (p + Z.of_nat i) = true.
Proof.
  revert p i. induction l as [|c l IH]; intros p i; [done|]. intros (E & Hr & Ho & Hl).
  destruct i as [|i]; cbn [lookup list_lookup].
  - intros [= <-]. by rewrite Z.add_0_r.
  - intros Hi. destruct (IH _ _ Hl Hi) as (? & ? & ?).
    replace (p + Z.of_nat (S i)) with (p + 1 + Z.of_nat i) by lia. done.
Qed.

Lemma bytes_intro m p l :
  (∀ i b, l !! i = Some b →
     m !! (p + Z.of_nat i) = Some b ∧ 0 ≤ b < 256 ∧ addr_ok (p + Z.of_nat i) = true) →
  bytes m p l.
Proof.
  revert p. induction l as [|c l IH]; intros p H; [done|]. cbn [bytes].
  pose proof (H 0%nat c eq_refl) as H0. change (Z.of_nat 0) with 0 in H0. rewrite Z.add_0_r in H0.
  destruct H0 as (? & ? & ?). split; [done|]. split; [done|]. split; [done|]. apply IH. intros i b Hi. specialize (H (S i) b Hi).
  by replace (p + 1 + Z.of_nat i) with (p + Z.of_nat (S i)) by lia.
Qed.

Lemma bytes_mapped m p l : bytes m p l → mapped m p (Z.of_nat (length l)).
Proof.
  intros H i Hi. destruct (lookup_lt_is_Some_2 l (Z.to_nat i)) as [b Hb]; [lia|].
  destruct (bytes_lookup _ _ _ _ _ H Hb) as (E & _ & Ho). rewrite Z2Nat.id in * by lia. eauto.
Qed.

(** Only the bytes of the region matter. *)
Lemma bytes_ext m m' p l :
  bytes m p l → (∀ q, p ≤ q < p + Z.of_nat (length l) → m' !! q = m !! q) → bytes m' p l.
Proof.
  intros H Heq. apply bytes_intro. intros i b Hi. destruct (bytes_lookup _ _ _ _ _ H Hi) as (E & ? & ?).
  apply lookup_lt_Some in Hi. rewrite Heq by lia. done.
Qed.

Lemma bytes_unique m p l l' : bytes m p l → bytes m p l' → length l = length l' → l = l'.
Proof.
  revert p l'. induction l as [|b l IH]; intros p [|b' l']; try done.
  intros (E & _ & _ & Hl) (E' & _ & _ & Hl') [= Hlen]. rewrite E in E'. injection E' as <-.
  f_equal. by apply (IH (p + 1)).
Qed.

Lemma bytes_range m p l : bytes m p l → l ≠ [] → 0 < p ∧ p + Z.of_nat (length l) ≤ 2 ^ 64.
Proof.
  intros H Hne. pose proof (bytes_mapped _ _ _ H) as Hm.
  assert (Hlen : length l ≠ 0%nat) by (by destruct l).
  destruct (Hm 0) as [H0%addr_ok_iff _]; [lia|].
  destruct (Hm (Z.of_nat (length l) - 1)) as [H1%addr_ok_iff _]; [lia|]. lia.
Qed.

(** A memory has at least as many mapped bytes as a string is long. *)
Lemma mapped_size m p n : mapped m p (Z.of_nat n) → (n ≤ size m)%nat.
Proof.
  intros H. rewrite <- (size_dom m).
  transitivity (size (list_to_set (seqZ p (Z.of_nat n)) : gset Z)).
  - rewrite size_list_to_set by apply NoDup_seqZ. rewrite length_seqZ. lia.
  - apply subseteq_size. intros q Hq%elem_of_list_to_set%elem_of_seqZ. apply elem_of_dom.
    destruct (H (q - p)) as [_ ?]; [lia|]. by replace q with (p + (q - p)) by lia.
Qed.

Lemma bytes_fuel m p l : bytes m p l → (length l < fuel m)%nat.
Proof. intros H%bytes_mapped%mapped_size. unfold fuel. lia. Qed.

Lemma cstr_fuel m p s : cstr m p s → (length s < fuel m)%nat.
Proof. intros [H%bytes_fuel _]. rewrite length_app in H. cbn in H. lia. Qed.

(** ** Strings, one character at a time *)

Lemma cstr_nil m p : cstr m p [] → ldb m p = Ret 0.
Proof. intros [H _]. by eapply ldb_bytes. Qed.

Lemma cstr_cons m p c s :
  cstr m p (c :: s) → ldb m p = Ret c ∧ 0 < c < 256 ∧ cstr m (p + 1) s.
Proof.
  intros [H Hc]. apply Forall_cons in Hc as [? ?]. split; [by eapply ldb_bytes|].
  split; [done|]. split; [|done]. by destruct H as (_ & _ & _ & ?).
Qed.

Lemma cstr_app m p s1 s2 : cstr m p (s1 ++ s2) → cstr m (p + Z.of_nat (length s1)) s2.
Proof.
  intros [H Hc]. rewrite <- app_assoc in H. apply bytes_app in H as [_ H].
  apply Forall_app in Hc as [_ Hc]. by split.
Qed.

Lemma cstr_drop m p s i :
  cstr m p s → (i ≤ length s)%nat → cstr m (p + Z.of_nat i) (drop i s).
Proof.
  intros H Hi. rewrite <- (take_drop i s) in H. apply cstr_app in H.
  by rewrite length_take, Nat.min_l in H by done.
Qed.

Lemma cstr_unique m p s s' : cstr m p s → cstr m p s' → s = s'.
Proof.
  revert p s'. induction s as [|c s IH]; intros p [|c' s'] H H'; try done.
  - apply cstr_nil in H. apply cstr_cons in H' as (E & ? & _). assert (c' = 0) by congruence. lia.
  - apply cstr_nil in H'. apply cstr_cons in H as (E & ? & _). assert (c = 0) by congruence. lia.
  - apply cstr_cons in H as (E & ? & H). apply cstr_cons in H' as (E' & ? & H').
    assert (c' = c) by congruence. subst. f_equal. by apply (IH (p + 1)).
Qed.

Lemma cstr_range m p s : cstr m p s → 0 < p ∧ p + Z.of_nat (length s) < 2 ^ 64.
Proof.
  intros [H%bytes_range _]; [|by destruct s]. rewrite length_app in H. cbn in H. lia.
Qed.

Lemma cstr_ext m m' p s :
  cstr m p s → (∀ q, p ≤ q ≤ p + Z.of_nat (length s) → m' !! q = m !! q) → cstr m' p s.
Proof.
  intros [H Hc] Heq. split; [|done]. eapply bytes_ext; [done|]. intros q Hq. apply Heq.
  rewrite length_app in Hq. cbn in Hq. lia.
Qed.

(** Signed and unsigned reading of a character agree on being zero and on
    equality. *)
Lemma s8_inj a b : 0 ≤ a < 256 → 0 ≤ b < 256 → s8 a = s8 b → a = b.
Proof. unfold s8, sgn. intros. Z.div_mod_to_equations. lia. Qed.
Lemma s8_zero a : 0 ≤ a < 256 → (s8 a =? 0) = (a =? 0).
Proof.
  intros Ha. destruct (Z.eqb_spec a 0) as [->|Hne]; [done|]. apply Z.eqb_neq.
  intros E. apply Hne, s8_inj; done || lia.
Qed.
Lemma s8_ascii a : 0 ≤ a < 128 → s8 a = a.
Proof. intros. unfold s8, sgn. rewrite Z.mod_small; lia. Qed.
Lemma s8_high a : 128 ≤ a < 256 → s8 a = a - 256.
Proof.
  intros. unfold s8, sgn. change (2 ^ (8 - 1)) with 128. change (2 ^ 8) with 256.
  rewrite <- (Z_mod_plus_full _ (-1)), Z.mod_small; lia.
Qed.

Lemma ldc_ldb m p b : ldb m p = Ret b → ldc m p = Ret (s8 b).
Proof. intros E. unfold ldc. by rewrite E. Qed.
