(* ===== verification/CString.v ===== *)
(** * lib/string.c and lib/ctype.h

    One definition per C function, over the byte memory of CMem.v.  Pointers
    are addresses, the null pointer is 0; [char] is signed. *)

From S2P Require Import Prelude.
From S2P Require Import CMem.

(** ** Character constants *)

Abbreviation c_tab := 9.
Abbreviation c_lf := 10.
Abbreviation c_vt := 11.
Abbreviation c_ff := 12.
Abbreviation c_cr := 13.
Abbreviation c_space := 32.
Abbreviation c_star := 42.
Abbreviation c_plus := 43.
Abbreviation c_minus := 45.
Abbreviation c_0 := 48.
Abbreviation c_9 := 57.
Abbreviation c_eq := 61.
Abbreviation c_A := 65.
Abbreviation c_X := 88.
Abbreviation c_Z := 90.
Abbreviation c_a := 97.
Abbreviation c_x := 120.
Abbreviation c_z := 122.

(** ** lib/ctype.h *)

Definition isblank (c : Z) : bool := (c =? c_space) || (c =? c_tab).
Definition islower (c : Z) : bool := (c_a <=? c) && (c <=? c_z).
Definition isupper (c : Z) : bool := (c_A <=? c) && (c <=? c_Z).
Definition isalpha (c : Z) : bool := isupper c || islower c.
Definition isdigit (c : Z) : bool := (c_0 <=? c) && (c <=? c_9).
Definition isalnum (c : Z) : bool := isalpha c || isdigit c.
Definition isspace (c : Z) : bool :=
  (c =? c_space) || (c =? c_tab) || (c =? c_cr) || (c =? c_lf) || (c =? c_vt) || (c =? c_ff).
Definition toupper (c : Z) : Z := if islower c then c - c_a + c_A else c.
Definition tolower (c : Z) : Z := if isupper c then c - c_A + c_a else c.

(** ** Lengths, copies *)

Fixpoint strlen_loop (f : nat) (m : memory) (buf len : Z) : res Z :=
  match f with
  | O => Hang
  | S f =>
      let* c := ldb m buf in
      if c =? 0 then Ret len else strlen_loop f m (buf + 1) (u64 (len + 1))
  end.
Definition strlen (m : memory) (buf : Z) : res Z := strlen_loop (fuel m) m buf 0.

Fixpoint strnlen_loop (f : nat) (m : memory) (sc maxlen : Z) : res Z :=
  match f with
  | O => Hang
  | S f =>
      if maxlen =? 0 then Ret sc else
      let* c := ldb m sc in
      if c =? 0 then Ret sc else strnlen_loop f m (sc + 1) (maxlen - 1)
  end.
Definition strnlen (m : memory) (buf maxlen : Z) : res Z :=
  let* sc := strnlen_loop (fuel m) m buf maxlen in Ret (sc - buf).

(** [while ( *p ) ++p;] *)
Fixpoint scan_end (f : nat) (m : memory) (p : Z) : res Z :=
  match f with
  | O => Hang
  | S f => let* c := ldb m p in if c =? 0 then Ret p else scan_end f m (p + 1)
  end.
(** [while (( *p++ = *src++) != 0);] *)
Fixpoint copy_loop (f : nat) (m : memory) (p src : Z) : res memory :=
  match f with
  | O => Hang
  | S f =>
      let* c := ldb m src in
      let* m := stb m p c in
      if c =? 0 then Ret m else copy_loop f m (p + 1) (src + 1)
  end.
Definition strcat (m : memory) (dest src : Z) : res (Z * memory) :=
  let* p := scan_end (fuel m) m dest in
  let* m := copy_loop (fuel m) m p src in
  Ret (dest, m).
Definition strcpy (m : memory) (dest src : Z) : res (Z * memory) :=
  let* m := stb m dest 0 in strcat m dest src.

(** ** Comparisons *)

Fixpoint strncmp_loop (f : nat) (m : memory) (a b n : Z) : res Z :=
  match f with
  | O => Hang
  | S f =>
      if n =? 0 then Ret 0 else
      let* ca := ldc m a in
      let* cb := ldc m b in
      if negb (ca =? cb) || (ca =? 0) then Ret (ca - cb)
      else strncmp_loop f m (a + 1) (b + 1) (n - 1)
  end.
Definition strncmp (m : memory) (a b n : Z) : res Z := strncmp_loop (fuel m) m a b n.

Fixpoint strncasecmp_loop (f : nat) (m : memory) (a b n : Z) : res Z :=
  match f with
  | O => Hang
  | S f =>
      if n =? 0 then Ret 0 else
      let* ca := ldc m a in
      let* cb := ldc m b in
      if negb (tolower ca =? tolower cb) || (ca =? 0) then Ret (tolower ca - tolower cb)
      else strncasecmp_loop f m (a + 1) (b + 1) (n - 1)
  end.
Definition strncasecmp (m : memory) (a b n : Z) : res Z := strncasecmp_loop (fuel m) m a b n.

Definition SIZE_MAX : Z := 2 ^ 64 - 1.
Definition strcmp (m : memory) (a b : Z) : res Z := strncmp m a b SIZE_MAX.
Definition strcasecmp (m : memory) (a b : Z) : res Z := strncasecmp m a b SIZE_MAX.

Fixpoint memcmp_loop (n : nat) (m : memory) (a b : Z) : res Z :=
  match n with
  | O => Ret 0
  | S n =>
      let* ca := ldb m a in
      let* cb := ldb m b in
      if ca - cb =? 0 then memcmp_loop n m (a + 1) (b + 1) else Ret (ca - cb)
  end.
Definition memcmp (m : memory) (s1 s2 n : Z) : res Z := memcmp_loop (Z.to_nat n) m s1 s2.

(** ** Searches *)

Fixpoint strchr_loop (f : nat) (m : memory) (s c : Z) : res Z :=
  match f with
  | O => Hang
  | S f =>
      let* x := ldc m s in
      if x =? s8 c then Ret s else
      if x =? 0 then Ret 0 else strchr_loop f m (s + 1) c
  end.
Definition strchr (m : memory) (s c : Z) : res Z := strchr_loop (fuel m) m s c.

Fixpoint strrchr_loop (f : nat) (m : memory) (s c last : Z) : res Z :=
  match f with
  | O => Hang
  | S f =>
      let* x := ldc m s in
      let last := if x =? s8 c then s else last in
      if x =? 0 then Ret last else strrchr_loop f m (s + 1) c last
  end.
Definition strrchr (m : memory) (s c : Z) : res Z := strrchr_loop (fuel m) m s c 0.

Fixpoint strchrnul_loop (f : nat) (m : memory) (s c : Z) : res Z :=
  match f with
  | O => Hang
  | S f =>
      let* x := ldc m s in
      if (x =? 0) || (x =? s8 c) then Ret s else strchrnul_loop f m (s + 1) c
  end.
Definition strchrnul (m : memory) (s c : Z) : res Z := strchrnul_loop (fuel m) m s c.

(** [while (l1 >= l2) ...]: [l1] is unsigned, so it may wrap once it passes
    zero; [l2] is positive here, which ends the loop before that. *)
Fixpoint strstr_loop (f : nat) (m : memory) (s1 s2 l1 l2 : Z) : res Z :=
  match f with
  | O => Hang
  | S f =>
      if l2 <=? l1 then
        let* r := memcmp m s1 s2 l2 in
        if r =? 0 then Ret s1 else strstr_loop f m (s1 + 1) s2 (u64 (l1 - 1)) l2
      else Ret 0
  end.
Definition strstr (m : memory) (s1 s2 : Z) : res Z :=
  let* l2 := strlen m s2 in
  if l2 =? 0 then Ret s1 else
  let* l1 := strlen m s1 in
  strstr_loop (fuel m) m s1 s2 l1 l2.

Fixpoint memchr_loop (n : nat) (m : memory) (str chr : Z) : res Z :=
  match n with
  | O => Ret 0
  | S n => let* x := ldb m str in if x =? chr then Ret str else memchr_loop n m (str + 1) chr
  end.
Definition memchr (m : memory) (s c n : Z) : res Z := memchr_loop (Z.to_nat n) m s (u8 c).

(** ** Block operations *)

Definition memset (m : memory) (s c n : Z) : res (Z * memory) :=
  let* m := for_ (Z.to_nat n) 0 (λ i m, stb m (s + i) c) m in Ret (s, m).
Definition memcpy (m : memory) (dest src n : Z) : res (Z * memory) :=
  let* m := for_ (Z.to_nat n) 0 (λ i m, let* b := ldb m (src + i) in stb m (dest + i) b) m in
  Ret (dest, m).

Fixpoint move_up (n : nat) (m : memory) (d s : Z) : res memory :=
  match n with
  | O => Ret m
  | S n => let* b := ldb m s in let* m := stb m d b in move_up n m (d + 1) (s + 1)
  end.
Fixpoint move_down (n : nat) (m : memory) (d s : Z) : res memory :=
  match n with
  | O => Ret m
  | S n => let* b := ldb m (s - 1) in let* m := stb m (d - 1) b in move_down n m (d - 1) (s - 1)
  end.
Definition memmove (m : memory) (dest src n : Z) : res (Z * memory) :=
  let* m := if dest <=? src then move_up (Z.to_nat n) m dest src
            else move_down (Z.to_nat n) m (dest + n) (src + n) in
  Ret (dest, m).

(** ** Numbers *)

Definition fits_s64 (x : Z) : bool := (- 2 ^ 63 <=? x) && (x <? 2 ^ 63).
Definition fits_u64 (x : Z) : bool := (0 <=? x) && (x <? 2 ^ 64).

(** The assertions on [ull * base + c]; [long] and [long long] are both
    64 bits wide. *)
Definition step_ok (is_signed is_longlong : bool) (ull base c : Z) : bool :=
  if negb is_longlong then
    if is_signed then
      let sl := s64 ull in fits_s64 (sl * base) && fits_s64 (sl * base + c)
    else
      let ul := u64 ull in fits_u64 (ul * base) && fits_u64 (ul * base + c)
  else
    if is_signed then
      let sll := s64 ull in fits_s64 (sll * base) && fits_s64 (sll * base + c)
    else
      fits_u64 (ull * base) && fits_u64 (ull * base + c).

Fixpoint skip_spaces (f : nat) (m : memory) (s : Z) : res Z :=
  match f with
  | O => Hang
  | S f => let* x := ldc m s in if isspace x then skip_spaces f m (s + 1) else Ret s
  end.

(** The value of a digit in [base], if the character is one. *)
Definition digit_of (x base : Z) : option Z :=
  if (c_0 <=? x) && (x <? c_0 + base) && (x <=? c_9) then Some (x - c_0)
  else if (c_a <=? x) && (x <? c_a + base - 10) then Some (x - c_a + 10)
  else if (c_A <=? x) && (x <? c_A + base - 10) then Some (x - c_A + 10)
  else None.

Fixpoint digits_loop (f : nat) (m : memory) (s base : Z) (is_signed is_longlong : bool) (ull : Z)
    : res (Z * Z) :=
  match f with
  | O => Hang
  | S f =>
      let* x := ldc m s in
      if x =? 0 then Ret (ull, s) else
      match digit_of x base with
      | None => Ret (ull, s)
      | Some c =>
          assert! (step_ok is_signed is_longlong ull base c);
          digits_loop f m (s + 1) base is_signed is_longlong (u64 (ull * base + c))
      end
  end.

(** Returns the value and the final [s], which the caller stores through
    [endptr] when that is not null. *)
Definition __strtoll (m : memory) (nptr base : Z) (is_signed is_longlong : bool)
    : res (Z * Z) :=
  assert! ((base =? 0) || (2 <=? base) && (base <=? 36));
  let* s := skip_spaces (fuel m) m nptr in
  let* x := ldc m s in
  let* '(neg, s) :=
    if x =? c_minus then Ret (true, s + 1)
    else if x =? c_plus then Ret (false, s + 1) else Ret (false, s) in
  let* '(base, s) :=
    if (base =? 0) || (base =? 16) then
      let* x := ldc m s in
      if x =? c_0 then
        let* x := ldc m (s + 1) in
        if (x =? c_x) || (x =? c_X) then Ret (16, s + 2)
        else if base =? 0 then Ret (8, s + 1) else Ret (base, s + 1)
      else if base =? 0 then Ret (10, s) else Ret (base, s)
    else Ret (base, s) in
  let* '(ull, s) := digits_loop (fuel m) m s base is_signed is_longlong 0 in
  Ret (if neg then u64 (- ull) else ull, s).

Definition strtol (m : memory) (nptr base : Z) : res (Z * Z) :=
  let* '(r, e) := __strtoll m nptr base true false in Ret (s64 r, e).
Definition strtoul (m : memory) (nptr base : Z) : res (Z * Z) :=
  __strtoll m nptr base false false.
Definition strtoll (m : memory) (nptr base : Z) : res (Z * Z) :=
  let* '(r, e) := __strtoll m nptr base true true in Ret (s64 r, e).
Definition strtoull (m : memory) (nptr base : Z) : res (Z * Z) :=
  __strtoll m nptr base false true.
Definition atol (m : memory) (ptr : Z) : res Z :=
  let* '(r, _) := strtol m ptr 10 in Ret r.

(** ** Environment and globbing *)

(** [envp]: the pointers of the array from the one [envp] points to on; the
    loop ends at a null pointer, and reads past the array where there is none. *)
Fixpoint getenv (m : memory) (envp : list Z) (name : Z) : res Z :=
  match envp with
  | [] => Fault
  | e :: envp =>
      if e =? 0 then Ret 0 else
      let* delim := strchr m e c_eq in
      assert! (negb (delim =? 0));
      let len := s32 (delim - e) in
      let* r := memcmp m name e (u64 len) in
      if r =? 0 then
        let* c := ldb m (name + len) in
        if c =? 0 then Ret (delim + 1) else getenv m envp name
      else getenv m envp name
  end.

(** [copy] is the address of the local array of the same name. *)
Definition simple_glob (copy : Z) (m : memory) (text pattern : Z) : res bool :=
  let* n := strlen m pattern in
  let m := alloca m copy (Z.to_nat (n + 1)) in
  let* c := ldc m pattern in
  let '(pattern, n, star_start) :=
    if c =? c_star then (pattern + 1, n - 1, true) else (pattern, n, false) in
  let* '(_, m) := strcpy m copy pattern in
  let* '(n, star_end, m) :=
    if 0 <? n then
      let* c := ldc m (pattern + n - 1) in
      if c =? c_star then
        let* m := stb m (copy + (n - 1)) 0 in Ret (n - 1, true, m)
      else Ret (n, false, m)
    else Ret (n, false, m) in
  if (star_start : bool) && star_end then
    let* r := strstr m text copy in Ret (negb (r =? 0))
  else if (star_end : bool) then
    let* r := strstr m text copy in Ret (r =? text)
  else if star_start then
    let* text_len := strlen m text in
    if text_len <? n then Ret false else
    let* r := strcmp m (text + text_len - n) copy in Ret (r =? 0)
  else
    let* r := strcmp m text copy in Ret (r =? 0).
