(* ===== verification/CStringSpec.v ===== *)
(** * Specifications of the string functions

    Each function of CString.v against a definition on lists of characters. *)

From S2P Require Import Prelude.
From S2P Require Import CMem.
From S2P Require Import CString.

(** ** Stepping through a string

    [cstr_step H] opens the next character of the string [H : cstr m p s]. *)
Ltac cstr_nil_step H :=
  let E := fresh "E" in
  pose proof (cstr_nil _ _ H) as E; rewrite ?(ldc_ldb _ _ _ E), ?E; cbn [bind].
Ltac cstr_cons_step H :=
  let E := fresh "E" in let Hc := fresh "Hc" in let H' := fresh "H'" in
  pose proof (cstr_cons _ _ _ _ H) as (E & Hc & H'); rewrite ?(ldc_ldb _ _ _ E), ?E; cbn [bind].

Lemma of_nat_S n : Z.of_nat (S n) = Z.of_nat n + 1.
Proof. lia. Qed.
Lemma addr_S p n : p + 1 + Z.of_nat n = p + Z.of_nat (S n).
Proof. lia. Qed.

(** ** Lengths *)

Lemma strlen_loop_spec f m p s len :
  cstr m p s → (length s < f)%nat → 0 ≤ len → len + Z.of_nat (length s) < 2 ^ 64 →
  strlen_loop f m p len = Ret (len + Z.of_nat (length s)).
Proof.
  revert p s len. induction f as [|f IH]; intros p s len Hs Hf H0 H1; [lia|]. cbn [strlen_loop].
  destruct s as [|c s].
  - cstr_nil_step Hs. f_equal. cbn. lia.
  - cstr_cons_step Hs. rewrite (proj2 (Z.eqb_neq c 0)) by lia. cbn [length] in *.
    rewrite u64_small, (IH _ s) by (done || lia). f_equal. lia.
Qed.

Lemma strlen_spec m p s : cstr m p s → strlen m p = Ret (Z.of_nat (length s)).
Proof.
  intros Hs. pose proof (cstr_range _ _ _ Hs). unfold strlen.
  rewrite (strlen_loop_spec _ _ _ s); [done|done|by eapply cstr_fuel|lia|lia].
Qed.

Lemma strnlen_loop_spec f m p l z n :
  bytes m p (l ++ z) → chars l → (z = [] ∨ z = [0]) → (length l < f)%nat →
  0 ≤ n → (z = [] → n ≤ Z.of_nat (length l)) →
  strnlen_loop f m p n = Ret (p + Z.min n (Z.of_nat (length l))).
Proof.
  revert p l n. induction f as [|f IH]; intros p l n Hb Hc Hz Hf Hn Hnz; [lia|]. cbn [strnlen_loop].
  destruct (Z.eqb_spec n 0) as [->|]; [f_equal; lia|].
  destruct l as [|c l]; cbn [app length] in *.
  - destruct Hz as [->| ->]; [specialize (Hnz eq_refl); lia|].
    rewrite (ldb_bytes _ _ _ _ Hb). cbn [bind Z.eqb]. f_equal. lia.
  - apply Forall_cons in Hc as [? ?]. rewrite (ldb_bytes _ _ _ _ Hb). cbn [bind].
    rewrite (proj2 (Z.eqb_neq c 0)) by lia. destruct Hb as (_ & _ & _ & Hb).
    rewrite (IH _ l); [f_equal; lia|done|done|done|lia|lia|].
    intros Hz0. specialize (Hnz Hz0). lia.
Qed.

(** Neither the terminator nor anything behind it is read once [maxlen]
    characters have been seen. *)
Lemma strnlen_spec m p l z n :
  bytes m p (l ++ z) → chars l → (z = [] ∨ z = [0]) →
  0 ≤ n → (z = [] → n ≤ Z.of_nat (length l)) →
  strnlen m p n = Ret (Z.min n (Z.of_nat (length l))).
Proof.
  intros Hb Hc Hz Hn Hnz. unfold strnlen. rewrite (strnlen_loop_spec _ m p l z); try done.
  - cbn [bind]. f_equal. lia.
  - apply bytes_fuel in Hb. rewrite length_app in Hb. lia.
Qed.

(** ** Stores *)

(** [upd m p l]: [m] with the bytes [l] written from [p] on. *)
Fixpoint upd (m : memory) (p : Z) (l : list Z) : memory :=
  match l with [] => m | b :: l => upd (<[p := b]> m) (p + 1) l end.

Lemma upd_lookup m p l q :
  upd m p l !! q = if decide (p ≤ q < p + Z.of_nat (length l)) then l !! Z.to_nat (q - p) else m !! q.
Proof.
  revert m p. induction l as [|b l IH]; intros m p; cbn [upd length].
  { rewrite decide_False; [done|lia]. }
  rewrite IH. destruct (decide (p + 1 ≤ q < p + 1 + Z.of_nat (length l))).
  - rewrite decide_True by lia. replace (Z.to_nat (q - p)) with (S (Z.to_nat (q - (p + 1)))) by lia. done.
  - destruct (decide (q = p)) as [->|].
    + rewrite lookup_insert_eq, decide_True by lia. by rewrite Z.sub_diag.
    + rewrite lookup_insert_ne by done. rewrite decide_False; [done|lia].
Qed.

Lemma upd_outside m p l q : ¬ (p ≤ q < p + Z.of_nat (length l)) → upd m p l !! q = m !! q.
Proof. intros. by rewrite upd_lookup, decide_False. Qed.

Lemma mapped_upd m p l q n : mapped m q n → mapped (upd m p l) q n.
Proof.
  intros H i Hi. destruct (H i Hi) as [? [b E]]. split; [done|]. rewrite upd_lookup.
  destruct (decide _); [|by exists b]. apply lookup_lt_is_Some. lia.
Qed.

Lemma upd_bytes m p l :
  mapped m p (Z.of_nat (length l)) → Forall (λ b, 0 ≤ b < 256) l → bytes (upd m p l) p l.
Proof.
  intros Hm Hr. apply bytes_intro. intros i b Hi. pose proof (lookup_lt_Some _ _ _ Hi).
  rewrite upd_lookup, decide_True by lia.
  replace (Z.to_nat (p + Z.of_nat i - p)) with i by lia. split; [done|].
  split; [by eapply Forall_lookup_1 in Hr|]. by destruct (Hm (Z.of_nat i)) as [? _]; [lia|].
Qed.

Lemma mapped_mono m p n k j : mapped m p n → 0 ≤ j → j + k ≤ n → mapped m (p + j) k.
Proof. intros H Hj Hk i Hi. rewrite <- Z.add_assoc. apply H. lia. Qed.
Lemma mapped_insert m p n q v : mapped m p n → mapped (<[q := v]> m) p n.
Proof.
  intros H i Hi. destruct (H i Hi) as [? ?]. split; [done|].
  destruct (decide (q = p + i)) as [->|]; [by rewrite lookup_insert_eq|by rewrite lookup_insert_ne].
Qed.
Lemma mapped_head m p n : mapped m p n → 0 < n → addr_ok p = true ∧ is_Some (m !! p).
Proof. intros H Hn. specialize (H 0). rewrite Z.add_0_r in H. apply H. lia. Qed.

(** A store into mapped memory succeeds. *)
Ltac store H :=
  let Ho := fresh "Ho" in let Hs := fresh "Hs" in
  destruct (mapped_head _ _ _ H) as [Ho Hs]; [lia|]; rewrite (stb_mapped _ _ _ Ho Hs); cbn [bind].

Lemma u8_byte c : 0 ≤ c < 256 → u8 c = c.
Proof. intros. by rewrite u8_small. Qed.

(** ** strcat and strcpy *)

Lemma scan_end_spec f m p s :
  cstr m p s → (length s < f)%nat → scan_end f m p = Ret (p + Z.of_nat (length s)).
Proof.
  revert p s. induction f as [|f IH]; intros p s Hs Hf; [lia|]. cbn [scan_end]. destruct s as [|c s].
  - cstr_nil_step Hs. f_equal. cbn. lia.
  - cstr_cons_step Hs. rewrite (proj2 (Z.eqb_neq c 0)) by lia. cbn [length] in *.
    rewrite (IH _ s) by (done || lia). f_equal. lia.
Qed.

(** The regions [p, p + n) and [q, q + k) have no address in common. *)
Definition disjoint_regions (p n q k : Z) : Prop := p + n ≤ q ∨ q + k ≤ p.

Lemma copy_loop_spec f m p src s :
  cstr m src s → (length s < f)%nat → mapped m p (Z.of_nat (length s) + 1) →
  disjoint_regions p (Z.of_nat (length s) + 1) src (Z.of_nat (length s) + 1) →
  copy_loop f m p src = Ret (upd m p (s ++ [0])).
Proof.
  revert m p src s. induction f as [|f IH]; intros m p src s Hs Hf Hm Hd; [lia|]. cbn [copy_loop].
  destruct s as [|c s]; cbn [length app upd] in *.
  - cstr_nil_step Hs. store Hm. done.
  - cstr_cons_step Hs. store Hm. rewrite (proj2 (Z.eqb_neq c 0)) by lia. rewrite u8_byte by lia.
    apply IH; [|lia| |unfold disjoint_regions in *; lia].
    + eapply cstr_ext; [done|]. intros q Hq. rewrite lookup_insert_ne; [done|].
      unfold disjoint_regions in Hd. lia.
    + apply mapped_insert, (mapped_mono _ _ (Z.of_nat (S (length s)) + 1)); [done|lia|lia].
Qed.

Lemma strcat_spec m dest src s1 s2 :
  cstr m dest s1 → cstr m src s2 → mapped m dest (Z.of_nat (length s1 + length s2) + 1) →
  disjoint_regions (dest + Z.of_nat (length s1)) (Z.of_nat (length s2) + 1) src (Z.of_nat (length s2) + 1) →
  strcat m dest src = Ret (dest, upd m (dest + Z.of_nat (length s1)) (s2 ++ [0])).
Proof.
  intros H1 H2 Hm Hd. unfold strcat. rewrite (scan_end_spec _ _ _ s1) by (done || by eapply cstr_fuel).
  cbn [bind]. rewrite (copy_loop_spec _ _ _ _ s2); [done|done|by eapply cstr_fuel| |done].
  apply (mapped_mono _ _ (Z.of_nat (length s1 + length s2) + 1)); [done|lia|lia].
Qed.

Lemma upd_cstr m p s : mapped m p (Z.of_nat (length s) + 1) → chars s → cstr (upd m p (s ++ [0])) p s.
Proof.
  intros Hm Hc. split; [|done]. apply upd_bytes.
  - rewrite length_app. cbn. by replace (Z.of_nat (length s + 1)) with (Z.of_nat (length s) + 1) by lia.
  - apply Forall_app. split; [eapply Forall_impl; [exact Hc|cbn; lia]|by repeat constructor].
Qed.

(** Appending: the destination then holds both strings. *)
Lemma upd_cstr_app m p s1 s2 :
  cstr m p s1 → chars s2 → mapped m p (Z.of_nat (length s1 + length s2) + 1) →
  cstr (upd m (p + Z.of_nat (length s1)) (s2 ++ [0])) p (s1 ++ s2).
Proof.
  intros [Hb Hc] Hc2 Hm. split; [|by apply Forall_app].
  rewrite <- app_assoc. apply bytes_app in Hb as [Hb _]. apply bytes_app. split.
  - eapply bytes_ext; [done|]. intros q Hq. apply upd_outside. lia.
  - apply upd_bytes.
    + apply (mapped_mono _ _ (Z.of_nat (length s1 + length s2) + 1)); [done|lia|].
      rewrite length_app. cbn. lia.
    + apply Forall_app. split; [eapply Forall_impl; [exact Hc2|cbn; lia]|by repeat constructor].
Qed.

Lemma strcpy_spec m dest src s :
  cstr m src s → mapped m dest (Z.of_nat (length s) + 1) →
  disjoint_regions dest (Z.of_nat (length s) + 1) src (Z.of_nat (length s) + 1) →
  strcpy m dest src = Ret (dest, upd m dest (s ++ [0])).
Proof.
  intros Hs Hm Hd. unfold strcpy. store Hm. change (u8 0) with 0.
  assert (H0 : cstr (<[dest := 0]> m) dest []).
  { split; [|constructor]. cbn. rewrite lookup_insert_eq. by split_and!. }
  assert (Hs' : cstr (<[dest := 0]> m) src s).
  { eapply cstr_ext; [done|]. intros q Hq. rewrite lookup_insert_ne; [done|].
    unfold disjoint_regions in Hd. lia. }
  rewrite (strcat_spec _ _ _ [] s); [|done|done|by apply mapped_insert|by rewrite Z.add_0_r].
  rewrite Z.add_0_r. do 2 f_equal. apply map_eq. intros q. rewrite !upd_lookup.
  destruct (decide _); [done|]. rewrite lookup_insert_ne; [done|].
  rewrite length_app in *. cbn in *. lia.
Qed.

(** ** Comparisons *)

(** The difference of the first characters in which two strings, cut to [n]
    characters, disagree; the terminator counts as character 0. *)
Fixpoint str_diff (f : Z → Z) (n : nat) (a b : list Z) : Z :=
  match n with
  | O => 0
  | S n =>
      match a, b with
      | [], [] => 0
      | [], y :: _ => f 0 - f y
      | x :: _, [] => f x - f 0
      | x :: a, y :: b => if f x =? f y then str_diff f n a b else f x - f y
      end
  end.

(** [strncmp] and [strncasecmp] have the same shape: [f] is what is compared
    of each character. *)
Section compare.
Context (f : Z → Z) (loop : nat → memory → Z → Z → Z → res Z).
Context (Hf0 : ∀ c, 0 ≤ c < 256 → f c = f 0 → c = 0).
Context (Hloop : ∀ k m a b n, loop (S k) m a b n =
  if n =? 0 then Ret 0 else
  let* ca := ldb m a in
  let* cb := ldb m b in
  if negb (f ca =? f cb) || (s8 ca =? 0) then Ret (f ca - f cb)
  else loop k m (a + 1) (b + 1) (n - 1)).

Lemma compare_loop_spec k m a b s1 s2 n :
  cstr m a s1 → cstr m b s2 → (length s1 < k)%nat → 0 ≤ n →
  loop k m a b n = Ret (str_diff f (Z.to_nat n) s1 s2).
Proof.
  revert a b s1 s2 n. induction k as [|k IH]; intros a b s1 s2 n H1 H2 Hk Hn; [lia|].
  rewrite Hloop. destruct (Z.eqb_spec n 0) as [->|]; [done|].
  destruct (Z.to_nat n) as [|n'] eqn:En; [lia|]. cbn [str_diff].
  destruct s1 as [|x s1], s2 as [|y s2].
  - cstr_nil_step H1. cstr_nil_step H2. rewrite Z.eqb_refl. cbn [negb orb Z.eqb]. f_equal. lia.
  - cstr_nil_step H1. cstr_cons_step H2. by rewrite orb_true_r.
  - cstr_cons_step H1. cstr_nil_step H2. destruct (Z.eqb_spec (f x) (f 0)) as [Ex|]; [|done].
    apply Hf0 in Ex; lia.
  - cstr_cons_step H1. cstr_cons_step H2. rewrite (s8_zero x), (proj2 (Z.eqb_neq x 0)), orb_false_r by lia.
    destruct (f x =? f y); cbn [negb length] in *; [|done].
    rewrite (IH _ _ s1 s2) by (done || lia). do 2 f_equal. lia.
Qed.
End compare.

Lemma ldc_bind {A} m p (k : Z → res A) :
  bind (ldc m p) k = bind (ldb m p) (λ c, k (s8 c)).
Proof. unfold ldc. by destruct (ldb m p). Qed.

Ltac compare_step :=
  intros ? m1 a1 ? n1; cbn [strncmp_loop strncasecmp_loop]; rewrite ldc_bind;
  destruct (n1 =? 0); [done|]; destruct (ldb m1 a1); [|done..]; cbn [bind]; by rewrite ldc_bind.

Lemma strncmp_spec m a b s1 s2 n :
  cstr m a s1 → cstr m b s2 → 0 ≤ n →
  strncmp m a b n = Ret (str_diff s8 (Z.to_nat n) s1 s2).
Proof.
  intros H1 H2 Hn. apply (compare_loop_spec s8 strncmp_loop); try done.
  - intros c Hc E. by apply s8_inj.
  - compare_step.
  - by eapply cstr_fuel.
Qed.

Lemma tolower_zero x : tolower x = 0 → x = 0.
Proof. unfold tolower, isupper. destruct (_ <=? _) eqn:E; cbn [andb]; [|done]. zbool. zcase; lia. Qed.

Lemma strncasecmp_spec m a b s1 s2 n :
  cstr m a s1 → cstr m b s2 → 0 ≤ n →
  strncasecmp m a b n = Ret (str_diff (λ c, tolower (s8 c)) (Z.to_nat n) s1 s2).
Proof.
  intros H1 H2 Hn. apply (compare_loop_spec (λ c, tolower (s8 c)) strncasecmp_loop); try done.
  - intros c Hc E%tolower_zero. by apply s8_inj.
  - compare_step.
  - by eapply cstr_fuel.
Qed.

(** With at least as many characters as the strings have, comparing equal is
    being equal. *)
Lemma str_diff_zero f n a b :
  (∀ x y, 0 ≤ x < 256 → 0 ≤ y < 256 → f x = f y → x = y) → chars a → chars b →
  (length a < n)%nat → str_diff f n a b = 0 ↔ a = b.
Proof.
  intros Hf. revert a b. induction n as [|n IH]; intros a b Ha Hb Hn; [lia|]. cbn [str_diff].
  destruct a as [|x a], b as [|y b]; [done|..].
  - apply Forall_cons in Hb as [? _]. split; [|done]. intros E. assert (0 = y) by (apply Hf; lia). lia.
  - apply Forall_cons in Ha as [? _]. split; [|done]. intros E. assert (x = 0) by (apply Hf; lia). lia.
  - apply Forall_cons in Ha as [? Ha], Hb as [? Hb]. cbn [length] in Hn.
    destruct (Z.eqb_spec (f x) (f y)) as [E|E].
    + apply Hf in E as ->; [|lia..]. rewrite IH by (done || lia). naive_solver.
    + split; [lia|]. intros [= -> ->]. done.
Qed.

Lemma strcmp_spec m a b s1 s2 :
  cstr m a s1 → cstr m b s2 →
  ∃ r, strcmp m a b = Ret r ∧ (r = 0 ↔ s1 = s2).
Proof.
  intros H1 H2. pose proof (cstr_range _ _ _ H1). unfold strcmp.
  rewrite (strncmp_spec _ _ _ s1 s2) by (done || (unfold SIZE_MAX; lia)).
  eexists. split; [done|]. apply str_diff_zero; [exact s8_inj|apply H1|apply H2|unfold SIZE_MAX; lia].
Qed.

(** The difference of the first bytes in which two blocks disagree. *)
Fixpoint byte_diff (a b : list Z) : Z :=
  match a, b with
  | x :: a, y :: b => if x - y =? 0 then byte_diff a b else x - y
  | _, _ => 0
  end.

Lemma memcmp_loop_spec n m a b l1 l2 :
  bytes m a l1 → bytes m b l2 → length l1 = n → length l2 = n →
  memcmp_loop n m a b = Ret (byte_diff l1 l2).
Proof.
  revert a b l1 l2. induction n as [|n IH]; intros a b [|x l1] [|y l2] H1 H2; try done.
  intros [= L1] [= L2]. cbn [memcmp_loop byte_diff].
  rewrite (ldb_bytes _ _ _ _ H1), (ldb_bytes _ _ _ _ H2). cbn [bind].
  destruct (x - y =? 0); [|done]. destruct H1 as (_ & _ & _ & ?), H2 as (_ & _ & _ & ?). by apply IH.
Qed.

Lemma memcmp_spec m a b l1 l2 n :
  bytes m a l1 → bytes m b l2 → length l1 = n → length l2 = n →
  memcmp m a b (Z.of_nat n) = Ret (byte_diff l1 l2).
Proof. intros. unfold memcmp. rewrite Nat2Z.id. by apply memcmp_loop_spec. Qed.

Lemma byte_diff_zero a b : length a = length b → byte_diff a b = 0 ↔ a = b.
Proof.
  revert b. induction a as [|x a IH]; intros [|y b]; try done. intros [= L]. cbn [byte_diff].
  destruct (Z.eqb_spec (x - y) 0) as [E|E].
  - rewrite IH by done. split; [intros ->; f_equal; lia|naive_solver].
  - split; [lia|]. intros [= -> ->]. lia.
Qed.

(** ** Searches *)

Lemma char_eq x c : 0 ≤ x < 256 → (s8 x =? s8 c) = (x =? u8 c).
Proof.
  intros Hx. unfold s8, sgn, u8. change (2 ^ (8 - 1)) with 128. change (2 ^ 8) with 256.
  destruct (Z.eqb_spec x (c mod 256)), (Z.eqb_spec ((x + 128) mod 256 - 128) ((c + 128) mod 256 - 128));
    try done; Z.div_mod_to_equations; lia.
Qed.

(** Position of the first [c] among the characters and the terminator. *)
Fixpoint first_char (c : Z) (s : list Z) : option nat :=
  match s with
  | [] => if 0 =? c then Some 0%nat else None
  | x :: s => if x =? c then Some 0%nat else S <$> first_char c s
  end.
Fixpoint last_char (c : Z) (s : list Z) : option nat :=
  match s with
  | [] => if 0 =? c then Some 0%nat else None
  | x :: s => match last_char c s with
              | Some i => Some (S i)
              | None => if x =? c then Some 0%nat else None
              end
  end.

Definition ptr_at (p : Z) (i : option nat) : Z :=
  match i with Some i => p + Z.of_nat i | None => 0 end.

Lemma strchr_loop_spec f m p s c :
  cstr m p s → (length s < f)%nat → strchr_loop f m p c = Ret (ptr_at p (first_char (u8 c) s)).
Proof.
  revert p s. induction f as [|f IH]; intros p s Hs Hf; [lia|]. cbn [strchr_loop first_char].
  destruct s as [|x s].
  - cstr_nil_step Hs. rewrite char_eq by lia. cbn [first_char].
    destruct (0 =? u8 c); cbn [ptr_at]; f_equal; lia.
  - cstr_cons_step Hs. rewrite char_eq, s8_zero, (proj2 (Z.eqb_neq x 0)) by lia. cbn [first_char].
    destruct (x =? u8 c); [cbn [ptr_at]; f_equal; lia|]. cbn [length] in *. rewrite (IH _ s) by (done || lia).
    destruct (first_char (u8 c) s); cbn [ptr_at fmap option_fmap option_map]; f_equal; lia.
Qed.

Lemma strchr_spec m p s c : cstr m p s → strchr m p c = Ret (ptr_at p (first_char (u8 c) s)).
Proof. intros H. apply strchr_loop_spec; [done|by eapply cstr_fuel]. Qed.

Lemma strrchr_loop_spec f m p s c last :
  cstr m p s → (length s < f)%nat →
  strrchr_loop f m p c last =
    Ret (match last_char (u8 c) s with Some i => p + Z.of_nat i | None => last end).
Proof.
  revert p s last. induction f as [|f IH]; intros p s last Hs Hf; [lia|]. cbn [strrchr_loop].
  destruct s as [|x s].
  - cstr_nil_step Hs. rewrite char_eq by lia. cbn [last_char].
    destruct (0 =? u8 c); [f_equal; cbn; lia|done].
  - cstr_cons_step Hs. rewrite char_eq, s8_zero, (proj2 (Z.eqb_neq x 0)) by lia.
    cbn [last_char length] in *. rewrite (IH _ s) by (done || lia).
    destruct (last_char (u8 c) s); [f_equal; lia|]. destruct (x =? u8 c); [f_equal; lia|done].
Qed.

Lemma strrchr_spec m p s c : cstr m p s → strrchr m p c = Ret (ptr_at p (last_char (u8 c) s)).
Proof.
  intros H. unfold strrchr. rewrite (strrchr_loop_spec _ _ _ s); [|done|by eapply cstr_fuel].
  by destruct (last_char _ _).
Qed.

Lemma strchrnul_loop_spec f m p s c :
  cstr m p s → (length s < f)%nat →
  strchrnul_loop f m p c = Ret (p + Z.of_nat (default (length s) (first_char (u8 c) s))).
Proof.
  revert p s. induction f as [|f IH]; intros p s Hs Hf; [lia|]. cbn [strchrnul_loop].
  destruct s as [|x s].
  - cstr_nil_step Hs. change (s8 0) with 0. rewrite Z.eqb_refl. cbn [orb first_char length].
    f_equal. destruct (0 =? u8 c); cbn; lia.
  - cstr_cons_step Hs. rewrite char_eq, s8_zero, (proj2 (Z.eqb_neq x 0)) by lia. cbn [orb first_char].
    destruct (x =? u8 c); [f_equal; cbn; lia|]. cbn [length] in *. rewrite (IH _ s) by (done || lia).
    destruct (first_char (u8 c) s); cbn; f_equal; lia.
Qed.

Lemma strchrnul_spec m p s c :
  cstr m p s → strchrnul m p c = Ret (p + Z.of_nat (default (length s) (first_char (u8 c) s))).
Proof. intros H. apply strchrnul_loop_spec; [done|by eapply cstr_fuel]. Qed.

Lemma memchr_loop_spec n m p l c :
  bytes m p l → length l = n →
  memchr_loop n m p c = Ret (ptr_at p (fst <$> list_find (λ x, x = c) l)).
Proof.
  revert p l. induction n as [|n IH]; intros p [|x l] Hb; try done. intros [= L]. cbn [memchr_loop].
  rewrite (ldb_bytes _ _ _ _ Hb). cbn [bind list_find].
  destruct (Z.eqb_spec x c), (decide (x = c)); try done; [cbn; f_equal; lia|].
  destruct Hb as (_ & _ & _ & Hb). rewrite (IH _ l) by done.
  destruct (list_find _ l) as [[i y]|]; cbn; f_equal; lia.
Qed.

Lemma memchr_spec m p l c n :
  bytes m p l → length l = n →
  memchr m p c (Z.of_nat n) = Ret (ptr_at p (fst <$> list_find (λ x, x = u8 c) l)).
Proof. intros. unfold memchr. rewrite Nat2Z.id. by apply memchr_loop_spec. Qed.
