(* ===== verification/CStringMem.v ===== *)
(** * Block moves and substring search

    [memmove], [memcpy], [memset] and [strstr]. *)

From S2P Require Import Prelude.
From S2P Require Import CMem.
From S2P Require Import CString.
From S2P Require Import CStringSpec.

(** ** Block moves *)

Lemma move_up_spec n m d s l :
  bytes m s l → length l = n → mapped m d (Z.of_nat n) →
  d ≤ s ∨ s + Z.of_nat n ≤ d → move_up n m d s = Ret (upd m d l).
Proof.
  revert m d s l. induction n as [|n IH]; intros m d s [|b l] Hb; try done.
  intros [= L] Hm Hd. cbn [move_up upd]. rewrite (ldb_bytes _ _ _ _ Hb). cbn [bind].
  store Hm. destruct Hb as (_ & ? & _ & Hb). rewrite u8_byte by done. apply IH; [|done| |lia].
  - eapply bytes_ext; [done|]. intros q Hq. rewrite lookup_insert_ne; [done|lia].
  - apply mapped_insert, (mapped_mono _ _ (Z.of_nat (S n))); [done|lia|lia].
Qed.

Lemma upd_snoc m p l b : upd m p (l ++ [b]) = upd (<[p + Z.of_nat (length l) := b]> m) p l.
Proof.
  apply map_eq. intros q. rewrite !upd_lookup, length_app. cbn [length].
  destruct (decide (p ≤ q < p + Z.of_nat (length l))).
  - rewrite decide_True by lia. by rewrite lookup_app_l by lia.
  - destruct (decide (q = p + Z.of_nat (length l))) as [->|].
    + rewrite decide_True, lookup_insert_eq by lia.
      replace (Z.to_nat (p + Z.of_nat (length l) - p)) with (length l) by lia.
      by rewrite lookup_app_r, Nat.sub_diag by lia.
    + rewrite decide_False, lookup_insert_ne by lia. done.
Qed.

Lemma move_down_spec n m d s l :
  bytes m s l → length l = n → mapped m d (Z.of_nat n) → s < d →
  move_down n m (d + Z.of_nat n) (s + Z.of_nat n) = Ret (upd m d l).
Proof.
  revert m l. induction n as [|n IH]; intros m l Hb L Hm Hd.
  { by destruct l. }
  destruct l as [|b l] using rev_ind; [done|]. rewrite length_app in L. cbn in L.
  apply bytes_app in Hb as [Hb1 Hb]. assert (length l = n) as Ln by lia. cbn [move_down].
  replace (s + Z.of_nat (S n) - 1) with (s + Z.of_nat n) by lia.
  replace (d + Z.of_nat (S n) - 1) with (d + Z.of_nat n) by lia.
  rewrite Ln in Hb. rewrite (ldb_bytes _ _ _ _ Hb). cbn [bind].
  destruct (Hm (Z.of_nat n)) as [Ho Hs]; [lia|]. rewrite (stb_mapped _ _ _ Ho Hs). cbn [bind].
  destruct Hb as (_ & ? & _). rewrite u8_byte, upd_snoc, Ln by done. apply IH; [|done| |done].
  - eapply bytes_ext; [done|]. intros q Hq. rewrite lookup_insert_ne; [done|lia].
  - apply mapped_insert. intros i Hi. apply Hm. lia.
Qed.

Lemma memmove_spec m dest src l n :
  bytes m src l → length l = n → mapped m dest (Z.of_nat n) →
  memmove m dest src (Z.of_nat n) = Ret (dest, upd m dest l).
Proof.
  intros Hb L Hm. unfold memmove. rewrite Nat2Z.id. destruct (Z.leb_spec dest src).
  - rewrite (move_up_spec n m dest src l); try done. by left.
  - by rewrite (move_down_spec n m dest src l).
Qed.

Lemma for_move_up n i m d s :
  for_ n i (λ i m, let* b := ldb m (s + i) in stb m (d + i) b) m = move_up n m (d + i) (s + i).
Proof.
  revert i m. induction n as [|n IH]; intros i m; [done|]. cbn [for_ move_up].
  destruct (ldb m (s + i)); [|done..]. cbn [bind]. destruct (stb m (d + i) _); [|done..]. cbn [bind].
  rewrite IH. f_equal; lia.
Qed.

Lemma memcpy_spec m dest src l n :
  bytes m src l → length l = n → mapped m dest (Z.of_nat n) →
  dest ≤ src ∨ src + Z.of_nat n ≤ dest →
  memcpy m dest src (Z.of_nat n) = Ret (dest, upd m dest l).
Proof.
  intros Hb L Hm Hd. unfold memcpy. rewrite Nat2Z.id, for_move_up, !Z.add_0_r.
  by rewrite (move_up_spec n m dest src l).
Qed.

Lemma for_set n i m s c :
  mapped m (s + i) (Z.of_nat n) →
  for_ n i (λ i m, stb m (s + i) c) m = Ret (upd m (s + i) (replicate n (u8 c))).
Proof.
  revert i m. induction n as [|n IH]; intros i m Hm; [done|]. cbn [for_ replicate upd]. store Hm.
  rewrite <- Z.add_assoc. apply IH. rewrite Z.add_assoc.
  apply mapped_insert, (mapped_mono _ _ (Z.of_nat (S n))); [done|lia|lia].
Qed.

Lemma memset_spec m s c n :
  mapped m s (Z.of_nat n) →
  memset m s c (Z.of_nat n) = Ret (s, upd m s (replicate n (u8 c))).
Proof.
  intros Hm. unfold memset. rewrite Nat2Z.id, for_set by (by rewrite Z.add_0_r).
  by rewrite Z.add_0_r.
Qed.

(** ** strstr *)

(** Position of the first occurrence of [s2] in [s1]. *)
Fixpoint find_sub (s1 s2 : list Z) : option nat :=
  if bool_decide (s2 `prefix_of` s1) then Some 0%nat
  else match s1 with [] => None | _ :: s1 => S <$> find_sub s1 s2 end.

Lemma find_sub_Some s1 s2 i :
  find_sub s1 s2 = Some i ↔
  (i ≤ length s1)%nat ∧ s2 `prefix_of` drop i s1 ∧ ∀ j, (j < i)%nat → ¬ s2 `prefix_of` drop j s1.
Proof.
  revert i. induction s1 as [|x s1 IH]; intros i; cbn [find_sub]; case_bool_decide as Hp.
  - split.
    + intros [= <-]. split_and!; [done|done|lia].
    + intros (Hi & _). cbn in Hi. by replace i with 0%nat by lia.
  - split; [done|]. intros (Hi & Hi2 & _). cbn in Hi. by replace i with 0%nat in Hi2 by lia.
  - split.
    + intros [= <-]. split_and!; [lia|done|lia].
    + intros (_ & _ & Hj). destruct i as [|i]; [done|]. by destruct (Hj 0%nat); [lia|].
  - rewrite fmap_Some. split.
    + intros (k & (Hk & Hk2 & Hj)%IH & ->). cbn. split_and!; [lia|done|].
      intros [|j] Hlt; [done|]. apply Hj. lia.
    + intros (Hi & Hi2 & Hj). destruct i as [|i]; [done|]. exists i. split; [|done].
      apply IH. split_and!; [cbn in Hi; lia|done|]. intros j Hlt. apply (Hj (S j)). lia.
Qed.

Lemma find_sub_short s1 s2 : (length s1 < length s2)%nat → find_sub s1 s2 = None.
Proof.
  intros Hlt. destruct (find_sub s1 s2) as [i|] eqn:E; [|done]. exfalso.
  apply find_sub_Some in E as (_ & Hp%prefix_length & _). rewrite length_drop in Hp. lia.
Qed.

Lemma prefix_take (s1 s2 : list Z) : s2 `prefix_of` s1 ↔ take (length s2) s1 = s2.
Proof.
  split.
  - intros [k ->]. apply take_app_length.
  - intros E. exists (drop (length s2) s1). by rewrite <- E at 1; rewrite take_drop.
Qed.

Lemma strstr_loop_spec f m p1 p2 s1 s2 :
  cstr m p1 s1 → cstr m p2 s2 → s2 ≠ [] → (length s1 < f)%nat →
  strstr_loop f m p1 p2 (Z.of_nat (length s1)) (Z.of_nat (length s2)) =
  Ret (ptr_at p1 (find_sub s1 s2)).
Proof.
  intros H1 H2 Hne. assert (0 < length s2)%nat by (destruct s2; cbn; [done|lia]).
  revert p1 s1 H1. induction f as [|f IH]; intros p1 s1 H1 Hf; [lia|]. cbn [strstr_loop].
  destruct (Z.leb_spec (Z.of_nat (length s2)) (Z.of_nat (length s1))) as [Hle|Hlt].
  2: { by rewrite find_sub_short by lia. }
  assert (Hb1 : bytes m p1 (take (length s2) s1)).
  { destruct H1 as [Hb _]. rewrite <- (take_drop (length s2) s1), <- app_assoc in Hb.
    by apply bytes_app in Hb as [? _]. }
  assert (Hb2 : bytes m p2 s2) by (destruct H2 as [Hb _]; by apply bytes_app in Hb as [? _]).
  rewrite (memcmp_spec _ _ _ _ _ _ Hb1 Hb2) by (rewrite ?length_take; lia). cbn [bind].
  destruct s1 as [|x s1]; [cbn in Hle; lia|]. cbn [find_sub].
  destruct (Z.eqb_spec (byte_diff (take (length s2) (x :: s1)) s2) 0) as [E|E];
    rewrite byte_diff_zero, <- prefix_take in E by (rewrite length_take; lia).
  - rewrite bool_decide_eq_true_2 by done. cbn [ptr_at]. f_equal. lia.
  - rewrite bool_decide_eq_false_2 by done. pose proof (cstr_range _ _ _ H1).
    apply cstr_cons in H1 as (_ & _ & H1). cbn [length] in *.
    rewrite u64_small by lia. replace (Z.of_nat (S (length s1)) - 1) with (Z.of_nat (length s1)) by lia.
    rewrite (IH (p1 + 1) s1) by (done || lia).
    destruct (find_sub s1 s2); cbn [ptr_at fmap option_fmap option_map]; f_equal; lia.
Qed.

Lemma find_sub_nil s : find_sub s [] = Some 0%nat.
Proof. destruct s; cbn; by rewrite bool_decide_eq_true_2 by apply prefix_nil. Qed.

Lemma strstr_spec m p1 p2 s1 s2 :
  cstr m p1 s1 → cstr m p2 s2 → strstr m p1 p2 = Ret (ptr_at p1 (find_sub s1 s2)).
Proof.
  intros H1 H2. unfold strstr. rewrite (strlen_spec _ _ _ H2). cbn [bind].
  destruct s2 as [|y s2].
  - cbn [length Z.eqb Z.of_nat]. rewrite find_sub_nil. cbn [ptr_at]. f_equal. lia.
  - rewrite (proj2 (Z.eqb_neq _ 0)) by (cbn; lia). rewrite (strlen_spec _ _ _ H1). cbn [bind].
    apply strstr_loop_spec; [done|done|done|by eapply cstr_fuel].
Qed.
