(* ===== verification/CStringNum.v ===== *)
(** * Numbers, environment variables and globs

    The conversions around [__strtoll], [getenv] and [simple_glob]. *)

From S2P Require Import Prelude.
From S2P Require Import CMem.
From S2P Require Import CString.
From S2P Require Import CStringSpec.
From S2P Require Import CStringMem.

(** ** strtol and its siblings *)

(** The number written by the digits [ds], after [acc]. *)
Definition num (base acc : Z) (ds : list Z) : Z := fold_left (λ n d, n * base + d) ds acc.

(** [cs] are characters of the digits [ds]. *)
Definition digits_as (base : Z) (cs ds : list Z) : Prop :=
  Forall2 (λ c d, digit_of (s8 c) base = Some d) cs ds.

(** Nothing that continues the number follows. *)
Definition no_digit (base : Z) (rest : list Z) : Prop :=
  match rest with [] => True | c :: _ => digit_of (s8 c) base = None end.

Definition limit (is_signed : bool) : Z := if is_signed then 2 ^ 63 else 2 ^ 64.

(** The three ranges of digits. *)
Ltac digit_cases H :=
  repeat match type of H with
  | (if ?b then _ else _) = _ => let E := fresh "Eb" in destruct b eqn:E
  end; try done;
  repeat match goal with
  | E : _ && _ = true |- _ => apply andb_true_iff in E; destruct E
  end; rewrite ?Z.leb_le, ?Z.ltb_lt in *.

Lemma digit_of_range x base d : 2 ≤ base ≤ 36 → digit_of x base = Some d → 0 ≤ d < base ∧ 0 < x < 128.
Proof.
  intros Hb. unfold digit_of. intros Hd. digit_cases Hd; simplify_eq; lia.
Qed.

Lemma num_mono base acc ds : 1 ≤ base → 0 ≤ acc → Forall (λ d, 0 ≤ d) ds → acc ≤ num base acc ds.
Proof.
  intros Hb. revert acc. induction ds as [|d ds IH]; intros acc Ha Hd; [cbn; lia|].
  apply Forall_cons in Hd as [? ?]. cbn. transitivity (acc * base + d); [nia|]. apply IH; [nia|done].
Qed.

Lemma step_ok_spec sgn ll ull base c :
  0 ≤ ull < limit sgn → 2 ≤ base → 0 ≤ c →
  step_ok sgn ll ull base c = (ull * base + c <? limit sgn).
Proof.
  intros Hu Hb Hc. unfold step_ok. assert (0 ≤ ull * base) by nia. unfold fits_s64, fits_u64.
  destruct sgn; cbn [limit] in *;
    rewrite ?(sgn_small 64) by (change (2 ^ (64 - 1)) with (2 ^ 63); lia);
    unfold s64; rewrite ?(sgn_small 64) by (change (2 ^ (64 - 1)) with (2 ^ 63); lia);
    rewrite ?u64_small by lia;
    rewrite ?(proj2 (Z.leb_le (- 2 ^ 63) _)), ?(proj2 (Z.leb_le 0 _)) by lia; cbn [andb];
    destruct (Z.ltb_spec (ull * base + c) (2 ^ 63)), (Z.ltb_spec (ull * base + c) (2 ^ 64)),
      (Z.ltb_spec (ull * base) (2 ^ 63)), (Z.ltb_spec (ull * base) (2 ^ 64)), ll; cbn; lia || done.
Qed.

Lemma digits_loop_spec f m p base sgn ll cs ds rest acc :
  cstr m p (cs ++ rest) → (length cs < f)%nat → 2 ≤ base ≤ 36 →
  digits_as base cs ds → no_digit base rest → 0 ≤ acc < limit sgn →
  digits_loop f m p base sgn ll acc =
    if num base acc ds <? limit sgn then Ret (num base acc ds, p + Z.of_nat (length cs)) else Abort.
Proof.
  intros Hs Hf Hb Hd Hr. revert f p acc Hs Hf.
  induction Hd as [|c d cs ds Hcd Hd IH]; intros f p acc Hs Hf Ha; (destruct f as [|f]; [lia|]);
    cbn [digits_loop app length] in *.
  - cbn [num fold_left]. rewrite (proj2 (Z.ltb_lt _ _)), Z.add_0_r by lia. destruct rest as [|c rest].
    + by cstr_nil_step Hs.
    + cstr_cons_step Hs. cbn in Hr. rewrite Hr. by destruct (s8 c =? 0).
  - cstr_cons_step Hs. destruct (digit_of_range _ _ _ Hb Hcd) as [? ?].
    rewrite (proj2 (Z.eqb_neq (s8 c) 0)), Hcd, step_ok_spec by lia.
    change (num base acc (d :: ds)) with (num base (acc * base + d) ds).
    destruct (Z.ltb_spec (acc * base + d) (limit sgn)) as [Hlt|Hge].
    + assert (limit sgn ≤ 2 ^ 64) by (destruct sgn; cbn [limit]; lia).
      rewrite u64_small, (IH f (p + 1)) by (done || nia). destruct (_ <? _); [|done]. do 2 f_equal. lia.
    + assert (acc * base + d ≤ num base (acc * base + d) ds).
      { apply num_mono; [lia|nia|]. clear -Hd Hb. induction Hd as [|c d cs ds Hcd _ IH]; constructor; [|done].
        apply digit_of_range in Hcd; [lia|done]. }
      by rewrite (proj2 (Z.ltb_ge _ _)) by lia.
Qed.

Lemma skip_spaces_spec f m p sp c s :
  cstr m p (sp ++ c :: s) → (length sp < f)%nat →
  Forall (λ c, isspace (s8 c) = true) sp → isspace (s8 c) = false →
  skip_spaces f m p = Ret (p + Z.of_nat (length sp)).
Proof.
  intros Hs Hf Hsp Hc. revert f p Hs Hf.
  induction Hsp as [|x sp Hx Hsp IH]; intros f p Hs Hf; (destruct f as [|f]; [lia|]); cbn [skip_spaces app].
  - cstr_cons_step Hs. rewrite Hc. f_equal. cbn. lia.
  - cbn [app] in Hs. cstr_cons_step Hs. rewrite Hx. cbn [length] in *. rewrite (IH f (p + 1)) by (done || lia).
    f_equal. lia.
Qed.

(** The radix prefixes of the C standard and the radix they select. *)
Inductive radix_prefix : Z → list Z → Z → list Z → Prop :=
| radix_given base cs : base ≠ 0 → base ≠ 16 → radix_prefix base [] base cs
| radix_x base x cs : base = 0 ∨ base = 16 → x = c_x ∨ x = c_X → radix_prefix base [c_0; x] 16 cs
| radix_0 c cs : radix_prefix 0 [c_0] 8 (c :: cs)
| radix_00 c cs : radix_prefix 16 [c_0] 16 (c :: cs)
| radix_10 c cs : c ≠ c_0 → radix_prefix 0 [] 10 (c :: cs)
| radix_16 c cs : c ≠ c_0 → radix_prefix 16 [] 16 (c :: cs).

Definition sign_of (sg : list Z) (neg : bool) : Prop :=
  (sg = [c_minus] ∧ neg = true) ∨ ((sg = [c_plus] ∨ sg = []) ∧ neg = false).

(** The second stage of [__strtoll]: the radix. *)
Definition radix_stage (m : memory) (base s : Z) : res (Z * Z) :=
  if (base =? 0) || (base =? 16) then
    let* x := ldc m s in
    if x =? c_0 then
      let* x := ldc m (s + 1) in
      if (x =? c_x) || (x =? c_X) then Ret (16, s + 2)
      else if base =? 0 then Ret (8, s + 1) else Ret (base, s + 1)
    else if base =? 0 then Ret (10, s) else Ret (base, s)
  else Ret (base, s).

Lemma digit_char c b d : 0 < c < 256 → 2 ≤ b ≤ 36 → digit_of (s8 c) b = Some d →
  s8 c = c ∧ isspace c = false ∧ c ≠ c_minus ∧ c ≠ c_plus ∧ (b ≤ 16 → c ≠ c_x ∧ c ≠ c_X).
Proof.
  intros Hc Hb Hd. destruct (digit_of_range _ _ _ Hb Hd) as [_ Hx].
  assert (E : s8 c = c).
  { destruct (decide (c < 128)); [apply s8_ascii; lia|]. rewrite s8_high in Hx by lia. lia. }
  rewrite E in Hd. split; [done|]. unfold digit_of in Hd.
  digit_cases Hd; (split; [unfold isspace; rewrite !orb_false_iff, !Z.eqb_neq; lia|lia]).
Qed.

Lemma radix_stage_spec m p base pre b cs ds rest :
  cstr m p (pre ++ cs ++ rest) → radix_prefix base pre b cs → digits_as b cs ds →
  cs ≠ [] → 2 ≤ b ≤ 36 → radix_stage m base p = Ret (b, p + Z.of_nat (length pre)).
Proof.
  intros Hs Hp Hd Hne Hb. unfold radix_stage.
  destruct Hp as [base cs H0 H16|base x cs Hbase Hx|c cs|c cs|c cs Hc|c cs Hc]; cbn [app length] in *.
  - rewrite (proj2 (Z.eqb_neq base 0)), (proj2 (Z.eqb_neq base 16)), Z.add_0_r by done. done.
  - assert (E : (base =? 0) || (base =? 16) = true) by (rewrite orb_true_iff, !Z.eqb_eq; done).
    rewrite E. cstr_cons_step Hs. cstr_cons_step H'. rewrite (s8_ascii x) by lia.
    rewrite (proj2 (orb_true_iff _ _)) by (rewrite !Z.eqb_eq; done). done.
  - inversion Hd as [|? d ? ds' Hcd]; subst. cbn [Z.eqb orb]. cstr_cons_step Hs. cstr_cons_step H'.
    destruct (digit_char c 8 d) as (-> & _ & _ & _ & Hx); [done|lia|done|].
    destruct (Hx ltac:(lia)). by rewrite (proj2 (Z.eqb_neq c c_x)), (proj2 (Z.eqb_neq c c_X)).
  - inversion Hd as [|? d ? ds' Hcd]; subst. cbn [Z.eqb orb]. cstr_cons_step Hs. cstr_cons_step H'.
    destruct (digit_char c 16 d) as (-> & _ & _ & _ & Hx); [done|lia|done|].
    destruct (Hx ltac:(lia)). by rewrite (proj2 (Z.eqb_neq c c_x)), (proj2 (Z.eqb_neq c c_X)).
  - inversion Hd as [|? d ? ds' Hcd]; subst. cbn [Z.eqb orb]. cstr_cons_step Hs.
    destruct (digit_char c 10 d) as (-> & _); [done|lia|done|].
    rewrite (proj2 (Z.eqb_neq c c_0)), Z.add_0_r by done. done.
  - inversion Hd as [|? d ? ds' Hcd]; subst. cbn [Z.eqb orb]. cstr_cons_step Hs.
    destruct (digit_char c 16 d) as (-> & _); [done|lia|done|].
    rewrite (proj2 (Z.eqb_neq c c_0)), Z.add_0_r by done. done.
Qed.

(** A digit string follows, so the head is neither a space nor a sign. *)
Lemma number_head base pre b cs ds :
  radix_prefix base pre b cs → digits_as b cs ds → cs ≠ [] → 2 ≤ b ≤ 36 → chars cs →
  ∃ c s, pre ++ cs = c :: s ∧ s8 c = c ∧ isspace c = false ∧ c ≠ c_minus ∧ c ≠ c_plus.
Proof.
  intros Hp Hd Hne Hb Hcs.
  assert (Hc : ∃ c s, cs = c :: s ∧ s8 c = c ∧ isspace c = false ∧ c ≠ c_minus ∧ c ≠ c_plus).
  { destruct Hd as [|c d cs ds Hcd _]; [done|]. apply Forall_cons in Hcs as [? _].
    destruct (digit_char c b d) as (? & ? & ? & ? & _); try done. by exists c, cs. }
  destruct Hc as (c & s & -> & Hc). inversion Hp; subst; cbn [app]; eexists _, _; split; done.
Qed.

Lemma __strtoll_spec m p base sgn ll sp sg neg pre b cs ds rest :
  cstr m p (sp ++ sg ++ pre ++ cs ++ rest) →
  Forall (λ c, isspace (s8 c) = true) sp → sign_of sg neg →
  radix_prefix base pre b cs → digits_as b cs ds → cs ≠ [] → no_digit b rest →
  base = 0 ∨ 2 ≤ base ≤ 36 → 2 ≤ b ≤ 36 →
  __strtoll m p base sgn ll =
    if num b 0 ds <? limit sgn
    then Ret (if neg then u64 (- num b 0 ds) else num b 0 ds,
              p + Z.of_nat (length (sp ++ sg ++ pre ++ cs)))
    else Abort.
Proof.
  intros Hs Hsp Hsg Hpre Hd Hne Hrest Hbase Hb. unfold __strtoll.
  assert (E : (base =? 0) || (2 <=? base) && (base <=? 36) = true).
  { rewrite orb_true_iff, andb_true_iff, Z.eqb_eq, !Z.leb_le. lia. }
  rewrite E. clear E.
  assert (Hcs : chars cs).
  { pose proof (proj2 Hs) as Hc. do 3 apply Forall_app in Hc as [_ Hc]. by apply Forall_app in Hc as [? _]. }
  destruct (number_head _ _ _ _ _ Hpre Hd Hne Hb Hcs) as (c & s & Ecs & Ec & Hsc & Hm & Hpl).
  pose proof (cstr_app _ _ _ _ Hs) as Hs1. pose proof (cstr_app _ _ _ _ Hs1) as Hs2.
  pose proof (cstr_app _ _ _ _ Hs2) as Hs3.
  assert (Hskip : skip_spaces (fuel m) m p = Ret (p + Z.of_nat (length sp))).
  { pose proof (cstr_fuel _ _ _ Hs) as Hf. rewrite length_app in Hf.
    destruct Hsg as [[-> _]|[[->| ->] _]]; [eapply skip_spaces_spec; try done; lia..|].
    cbn [app] in Hs. rewrite (app_assoc pre cs rest), Ecs in Hs. cbn [app] in Hs.
    eapply skip_spaces_spec; try done; [lia|by rewrite Ec]. }
  rewrite Hskip. cbn [bind]. set (p1 := p + Z.of_nat (length sp)) in *.
  assert (Hsign : (let* x := ldc m p1 in
     if x =? c_minus then Ret (true, p1 + 1)
     else if x =? c_plus then Ret (false, p1 + 1) else Ret (false, p1)) =
     Ret (neg, p1 + Z.of_nat (length sg))).
  { destruct Hsg as [[-> ->]|[[->| ->] ->]]; cbn [app] in Hs1.
    - by cstr_cons_step Hs1.
    - by cstr_cons_step Hs1.
    - rewrite (app_assoc pre cs rest), Ecs in Hs1. cbn [app] in Hs1. cstr_cons_step Hs1. rewrite Ec.
      rewrite (proj2 (Z.eqb_neq c c_minus)), (proj2 (Z.eqb_neq c c_plus)), Z.add_0_r by done. done. }
  destruct (ldc m p1) as [x| | |]; cbn [bind] in *; try done.
  rewrite Hsign. cbn [bind]. fold (radix_stage m base (p1 + Z.of_nat (length sg))).
  rewrite (radix_stage_spec m _ base pre b cs ds rest) by done. cbn [bind].
  rewrite (digits_loop_spec _ _ _ b sgn ll cs ds rest); try done.
  - destruct (_ <? _); [|done]. cbn [bind]. do 2 f_equal. rewrite !length_app. lia.
  - apply cstr_fuel in Hs3. rewrite length_app in Hs3. lia.
  - destruct sgn; cbn; lia.
Qed.

Lemma num_nonneg b ds cs : 2 ≤ b ≤ 36 → digits_as b cs ds → 0 ≤ num b 0 ds.
Proof.
  intros Hb Hd. apply num_mono; [lia|lia|].
  induction Hd as [|c d cs ds Hcd _ IH]; constructor; [|done].
  apply digit_of_range in Hcd; [lia|done].
Qed.

(** Negation at 64 bits, read as a signed value. *)
Lemma s64_neg v : 0 ≤ v < 2 ^ 63 → s64 (u64 (- v)) = - v.
Proof.
  intros Hv. unfold s64, sgn, u64. change (2 ^ (64 - 1)) with (2 ^ 63).
  rewrite Zplus_mod_idemp_l, Z.mod_small; lia.
Qed.

(** ** getenv *)

(** The value of [name] in an environment given by its entries: the text
    behind the first [=] of the first entry whose text before it is [name]. *)
Fixpoint env_lookup (name : list Z) (entries : list (Z * list Z)) : option Z :=
  match entries with
  | [] => None
  | (e, s) :: entries =>
      match first_char c_eq s with
      | Some i => if bool_decide (take i s = name) then Some (e + Z.of_nat i + 1)
                  else env_lookup name entries
      | None => None
      end
  end.

Lemma first_char_Some c s i : 0 < c → first_char c s = Some i → (i < length s)%nat ∧ s !! i = Some c ∧ c ∉ take i s.
Proof.
  intros Hc. revert i. induction s as [|x s IH]; intros i; cbn [first_char].
  - rewrite (proj2 (Z.eqb_neq 0 c)) by lia. done.
  - destruct (Z.eqb_spec x c) as [->|Hne].
    + intros [= <-]. cbn. split_and!; [lia|done|set_solver].
    + intros (j & (? & ? & ?)%IH & ->)%fmap_Some. cbn. split_and!; [lia|done|]. set_solver.
Qed.

(** A comparison never reads past the terminator of the shorter string. *)
Lemma memcmp_cstr_loop n m a b s l :
  cstr m a s → bytes m b l → chars l → length l = n →
  ∃ r, memcmp_loop n m a b = Ret r ∧ (r = 0 ↔ take n s = l).
Proof.
  revert a b s l. induction n as [|n IH]; intros a b s [|y l] Hs Hb Hl; try done.
  - intros _. exists 0. cbn. by rewrite take_0.
  - intros [= L]. apply Forall_cons in Hl as [Hy Hl]. cbn [memcmp_loop].
    rewrite (ldb_bytes _ _ _ _ Hb). destruct s as [|x s].
    + cstr_nil_step Hs. rewrite (proj2 (Z.eqb_neq (0 - y) 0)) by lia. exists (0 - y). split; [done|].
      rewrite take_nil. split; [lia|done].
    + cstr_cons_step Hs. destruct Hb as (_ & _ & _ & Hb).
      destruct (Z.eqb_spec (x - y) 0).
      * destruct (IH (a + 1) (b + 1) s l) as (r & E' & Hr); try done. exists r. split; [done|].
        rewrite Hr. cbn [take]. assert (x = y) as -> by lia. split; [by intros ->|by intros [= ->]].
      * exists (x - y). split; [done|]. cbn [take]. split; [lia|]. intros [= -> _]. lia.
Qed.

Lemma getenv_spec m name nm entries rest :
  cstr m name nm →
  Forall (λ '(e, s), cstr m e s ∧ Z.of_nat (length s) < 2 ^ 31 ∧ first_char c_eq s ≠ None) entries →
  getenv m (entries.*1 ++ rest) name =
    match env_lookup nm entries with Some p => Ret p | None => getenv m rest name end.
Proof.
  intros Hn. induction entries as [|[e s] entries IH]; intros Hall; [done|].
  apply Forall_cons in Hall as [(Hs & Hlen & Heq) Hall]. cbn [fmap list_fmap fst app getenv env_lookup].
  pose proof (cstr_range _ _ _ Hs) as Hpos. rewrite (proj2 (Z.eqb_neq e 0)) by lia. clear Hpos.
  rewrite (strchr_spec _ _ _ _ Hs). change (u8 c_eq) with c_eq. cbn [bind].
  destruct (first_char c_eq s) as [i|] eqn:Ei; [|done]. cbn [ptr_at].
  pose proof (cstr_range _ _ _ Hs). rewrite (proj2 (Z.eqb_neq _ 0)) by lia. cbn [negb].
  apply first_char_Some in Ei as (Hi & _ & _); [|lia].
  replace (e + Z.of_nat i - e) with (Z.of_nat i) by lia. unfold s32. rewrite (sgn_small 32) by lia.
  rewrite u64_small by lia.
  assert (Hb : bytes m e (take i s)).
  { destruct Hs as [Hb _]. rewrite <- (take_drop i s), <- app_assoc in Hb. by apply bytes_app in Hb as [? _]. }
  unfold memcmp. rewrite Nat2Z.id.
  assert (Hchars : chars (take i s)) by (apply Forall_take, Hs).
  destruct (memcmp_cstr_loop i m name e nm (take i s)) as (r & -> & Hr); try done; [rewrite length_take; lia|].
  cbn [bind]. destruct (Z.eqb_spec r 0) as [E|E]; rewrite Hr in E.
  - assert (Hle : (i ≤ length nm)%nat).
    { apply (f_equal length) in E. rewrite !length_take in E. lia. }
    pose proof (cstr_drop _ _ _ _ Hn Hle) as Hn'. destruct (drop i nm) as [|x nm'] eqn:Ed.
    + cstr_nil_step Hn'. rewrite bool_decide_eq_true_2; [done|].
      rewrite <- E. rewrite <- (take_drop i nm) at 2. by rewrite Ed, app_nil_r.
    + cstr_cons_step Hn'. rewrite (proj2 (Z.eqb_neq x 0)) by lia.
      rewrite bool_decide_eq_false_2, IH; [done|done|].
      intros E2. apply (f_equal length) in E2, Ed. rewrite length_take in E2. rewrite length_drop in Ed. cbn in Ed. lia.
  - rewrite bool_decide_eq_false_2, IH; [done|done|]. intros E2. apply E.
    by rewrite <- E2, take_take, Nat.min_id.
Qed.
