(* ===== verification/CStringGlob.v ===== *)
(** * simple_glob

    [simple_glob] of lib/string.c against its description: a pattern may start
    and end with a star. *)

From S2P Require Import Prelude.
From S2P Require Import CMem.
From S2P Require Import CString.
From S2P Require Import CStringSpec.
From S2P Require Import CStringMem.

(** A pattern: its text, and whether a star precedes and follows it. *)
Definition glob_front (pat : list Z) : bool * list Z :=
  match pat with
  | c :: r => if c =? c_star then (true, r) else (false, pat)
  | [] => (false, [])
  end.
Definition glob_back (pat : list Z) : bool * list Z :=
  match last pat with
  | Some c => if c =? c_star then (true, take (length pat - 1) pat) else (false, pat)
  | None => (false, pat)
  end.

Definition glob_rel (front back : bool) (core text : list Z) : Prop :=
  match front, back with
  | true, true => ∃ a b, text = a ++ core ++ b
  | false, true => core `prefix_of` text
  | true, false => core `suffix_of` text
  | false, false => text = core
  end.

Definition glob_match (pat text : list Z) : Prop :=
  let '(front, pat) := glob_front pat in
  let '(back, core) := glob_back pat in glob_rel front back core text.

(** ** The local array *)

Lemma alloca_lookup m p n q :
  alloca m p n !! q = if decide (p ≤ q < p + Z.of_nat n) then Some 0 else m !! q.
Proof.
  revert p. induction n as [|n IH]; intros p; cbn [alloca].
  { rewrite decide_False; [done|lia]. }
  destruct (decide (q = p)) as [->|]; [by rewrite lookup_insert_eq, decide_True by lia|].
  rewrite lookup_insert_ne, IH by done.
  destruct (decide (p + 1 ≤ q < p + 1 + Z.of_nat n)).
  - by rewrite decide_True by lia.
  - by rewrite decide_False by lia.
Qed.

Lemma dealloca_lookup m p n q :
  dealloca m p n !! q = if decide (p ≤ q < p + Z.of_nat n) then None else m !! q.
Proof.
  revert p. induction n as [|n IH]; intros p; cbn [dealloca].
  { rewrite decide_False; [done|lia]. }
  destruct (decide (q = p)) as [->|]; [by rewrite lookup_delete_eq, decide_True by lia|].
  rewrite lookup_delete_ne, IH by done.
  destruct (decide (p + 1 ≤ q < p + 1 + Z.of_nat n)).
  - by rewrite decide_True by lia.
  - by rewrite decide_False by lia.
Qed.

(** The [n] bytes from [p] on are addressable and in no object. *)
Definition fresh_region (m : memory) (p n : Z) : Prop :=
  0 < p ∧ p + n ≤ 2 ^ 64 ∧ ∀ q, p ≤ q < p + n → m !! q = None.

Lemma alloca_mapped m p n : fresh_region m p (Z.of_nat n) → mapped (alloca m p n) p (Z.of_nat n).
Proof.
  intros (Hp & Hn & _) i Hi. split; [apply addr_ok_iff; lia|].
  rewrite alloca_lookup, decide_True by lia. done.
Qed.

Lemma fresh_disjoint m p n q s :
  fresh_region m p n → 0 < n → cstr m q s → disjoint_regions p n q (Z.of_nat (length s) + 1).
Proof.
  intros (_ & _ & Hnone) Hn [Hb _]. apply bytes_mapped in Hb. rewrite length_app in Hb. cbn in Hb.
  unfold disjoint_regions. destruct (decide (p + n ≤ q)); [by left|].
  destruct (decide (q + (Z.of_nat (length s) + 1) ≤ p)); [by right|]. exfalso.
  destruct (Hb (Z.max p q - q)) as [_ [b E]]; [lia|].
  rewrite Hnone in E by lia. done.
Qed.

Lemma alloca_cstr m p n q s :
  fresh_region m p (Z.of_nat n) → cstr m q s → cstr (alloca m p n) q s.
Proof.
  intros Hf Hs. eapply cstr_ext; [done|]. intros a Ha. rewrite alloca_lookup.
  destruct (decide _) as [Hin|]; [|done]. exfalso.
  pose proof (fresh_disjoint _ _ _ _ _ Hf ltac:(lia) Hs) as Hd. unfold disjoint_regions in Hd. lia.
Qed.

Lemma upd_cstr_other m p l q s :
  cstr m q s → disjoint_regions p (Z.of_nat (length l)) q (Z.of_nat (length s) + 1) →
  cstr (upd m p l) q s.
Proof.
  intros Hs Hd. eapply cstr_ext; [done|]. intros a Ha. apply upd_outside.
  unfold disjoint_regions in Hd. lia.
Qed.

(** ** The three stages *)

Lemma star_eq c : 0 ≤ c < 256 → (s8 c =? c_star) = (c =? c_star).
Proof. intros Hc. exact (char_eq c c_star Hc). Qed.

Lemma glob_back_snoc core x :
  glob_back (core ++ [x]) = if x =? c_star then (true, core) else (false, core ++ [x]).
Proof.
  unfold glob_back. rewrite last_snoc. destruct (x =? c_star); [|done].
  rewrite length_app. cbn [length]. by rewrite Nat.add_sub, take_app_length.
Qed.

(** Cutting the last character off a string. *)
Lemma cstr_cut m p s x :
  cstr m p (s ++ [x]) → stb m (p + Z.of_nat (length s)) 0 = Ret (<[p + Z.of_nat (length s) := 0]> m) ∧
  cstr (<[p + Z.of_nat (length s) := 0]> m) p s.
Proof.
  intros [Hb Hc]. rewrite <- app_assoc in Hb. apply bytes_app in Hb as [Hb Hx].
  apply Forall_app in Hc as [Hc _]. destruct Hx as (Ex & _ & Ho & _). split.
  - apply stb_mapped; [done|by eexists].
  - split; [|done]. apply bytes_app. split.
    + eapply bytes_ext; [done|]. intros q Hq. by rewrite lookup_insert_ne by lia.
    + cbn. rewrite lookup_insert_eq. by split_and!.
Qed.

(** The last stage: matching the text against what is left of the pattern. *)
Definition glob_end (m : memory) (text copy n : Z) (star_start star_end : bool) : res bool :=
  if star_start && star_end then
    let* r := strstr m text copy in Ret (negb (r =? 0))
  else if star_end then
    let* r := strstr m text copy in Ret (r =? text)
  else if star_start then
    let* text_len := strlen m text in
    if text_len <? n then Ret false else
    let* r := strcmp m (text + text_len - n) copy in Ret (r =? 0)
  else
    let* r := strcmp m text copy in Ret (r =? 0).

Lemma find_sub_infix s1 s2 : is_Some (find_sub s1 s2) ↔ ∃ a b, s1 = a ++ s2 ++ b.
Proof.
  split.
  - intros [i (Hi & [b E] & _)%find_sub_Some]. exists (take i s1), b. by rewrite <- E, take_drop.
  - revert s1. intros s1 (a & b & ->). destruct (find_sub (a ++ s2 ++ b) s2) as [i|] eqn:E; [done|].
    exfalso. revert E. induction a as [|x a IH]; cbn [app].
    + destruct s2 as [|y s2]; [by rewrite find_sub_nil|]. cbn [app find_sub].
      rewrite bool_decide_eq_true_2; [done|]. by exists b.
    + cbn [find_sub]. case_bool_decide; [done|]. destruct (find_sub (a ++ s2 ++ b) s2); [done|]. auto.
Qed.

Lemma find_sub_prefix s1 s2 : find_sub s1 s2 = Some 0%nat ↔ s2 `prefix_of` s1.
Proof. rewrite find_sub_Some. cbn. split; [tauto|]. intros. split_and!; [lia|done|lia]. Qed.

Lemma suffix_drop (s1 s2 : list Z) :
  (length s2 ≤ length s1)%nat → s2 `suffix_of` s1 ↔ drop (length s1 - length s2) s1 = s2.
Proof.
  intros Hle. split.
  - intros [k ->]. rewrite length_app. replace (length k + length s2 - length s2)%nat with (length k) by lia.
    apply drop_app_length.
  - intros E. exists (take (length s1 - length s2) s1). rewrite <- E at 2. by rewrite take_drop.
Qed.

Lemma glob_end_spec m text copy t core (front back : bool) :
  cstr m text t → cstr m copy core →
  ∃ b, glob_end m text copy (Z.of_nat (length core)) front back = Ret b ∧
    (b = true ↔ glob_rel front back core t).
Proof.
  intros Ht Hc. unfold glob_end, glob_rel. pose proof (cstr_range _ _ _ Ht) as Hr.
  destruct front, back; cbn [andb].
  - rewrite (strstr_spec _ _ _ _ _ Ht Hc). cbn [bind]. eexists. split; [done|].
    rewrite <- find_sub_infix, negb_true_iff, Z.eqb_neq.
    destruct (find_sub t core); cbn [ptr_at]; [|by rewrite is_Some_alt]. split; [done|lia].
  - rewrite (strlen_spec _ _ _ Ht). cbn [bind].
    destruct (Z.ltb_spec (Z.of_nat (length t)) (Z.of_nat (length core))).
    + exists false. split; [done|]. split; [done|]. intros H'%suffix_length. lia.
    + replace (text + Z.of_nat (length t) - Z.of_nat (length core))
        with (text + Z.of_nat (length t - length core)) by lia.
      pose proof (cstr_drop _ _ _ (length t - length core) Ht ltac:(lia)) as Hd.
      destruct (strcmp_spec _ _ _ _ _ Hd Hc) as (r & -> & Hr0). cbn [bind]. eexists. split; [done|].
      by rewrite Z.eqb_eq, Hr0, suffix_drop by lia.
  - rewrite (strstr_spec _ _ _ _ _ Ht Hc). cbn [bind]. eexists. split; [done|].
    rewrite <- find_sub_prefix, Z.eqb_eq. destruct (find_sub t core) as [i|]; cbn [ptr_at].
    + split; [intros; f_equal; lia|intros [= ->]; lia].
    + split; [lia|done].
  - destruct (strcmp_spec _ _ _ _ _ Ht Hc) as (r & -> & Hr0). cbn [bind]. eexists. split; [done|].
    by rewrite Z.eqb_eq, Hr0.
Qed.

(** The middle stage: removing a star at the end of the copy. *)
Definition glob_cut (m : memory) (text copy q n : Z) (star_start : bool) : res bool :=
  let* '(n, star_end, m) :=
    if 0 <? n then
      let* c := ldc m (q + n - 1) in
      if c =? c_star then
        let* m := stb m (copy + (n - 1)) 0 in Ret (n - 1, true, m)
      else Ret (n, false, m)
    else Ret (n, false, m) in
  glob_end m text copy n star_start star_end.

Lemma glob_cut_spec m text copy q t pat front :
  cstr m text t → cstr m copy pat → cstr m q pat →
  disjoint_regions copy (Z.of_nat (length pat) + 1) text (Z.of_nat (length t) + 1) →
  ∃ b, glob_cut m text copy q (Z.of_nat (length pat)) front = Ret b ∧
    (b = true ↔ let '(back, core) := glob_back pat in glob_rel front back core t).
Proof.
  intros Ht Hc Hq Hd. unfold glob_cut. destruct pat as [|x core _] using rev_ind.
  { change (glob_back []) with (false, @nil Z). exact (glob_end_spec m text copy t [] front false Ht Hc). }
  rewrite glob_back_snoc, length_app in *. cbn [length] in *.
  rewrite (proj2 (Z.ltb_lt 0 _)) by lia.
  replace (q + Z.of_nat (length core + 1) - 1) with (q + Z.of_nat (length core)) by lia.
  pose proof (cstr_app _ _ _ _ Hq) as Hx. apply cstr_cons in Hx as (Ex & Hxr & _).
  rewrite (ldc_ldb _ _ _ Ex). cbn [bind]. rewrite star_eq by lia.
  destruct (x =? c_star); cbn [bind].
  - destruct (cstr_cut _ _ _ _ Hc) as [Est Hc'].
    replace (copy + (Z.of_nat (length core + 1) - 1)) with (copy + Z.of_nat (length core)) by lia.
    rewrite Est. cbn [bind].
    replace (Z.of_nat (length core + 1) - 1) with (Z.of_nat (length core)) by lia.
    apply glob_end_spec; [|done]. eapply cstr_ext; [done|]. intros a Ha.
    rewrite lookup_insert_ne; [done|]. unfold disjoint_regions in Hd. lia.
  - replace (Z.of_nat (length core + 1)) with (Z.of_nat (length (core ++ [x]))) by (rewrite length_app; done).
    by apply glob_end_spec.
Qed.

(** The first stage: the copy of the pattern, without its leading star. *)
Lemma glob_copy_spec m text copy q t pat front :
  cstr m text t → cstr m q pat → mapped m copy (Z.of_nat (length pat) + 1) →
  disjoint_regions copy (Z.of_nat (length pat) + 1) text (Z.of_nat (length t) + 1) →
  disjoint_regions copy (Z.of_nat (length pat) + 1) q (Z.of_nat (length pat) + 1) →
  ∃ b, (let* '(_, m) := strcpy m copy q in
        glob_cut m text copy q (Z.of_nat (length pat)) front) = Ret b ∧
    (b = true ↔ let '(back, core) := glob_back pat in glob_rel front back core t).
Proof.
  intros Ht Hq Hm Hdt Hdq. rewrite (strcpy_spec m copy q pat) by done. cbn [bind].
  assert (Hl : Z.of_nat (length (pat ++ [0])) = Z.of_nat (length pat) + 1) by (rewrite length_app; cbn; lia).
  apply glob_cut_spec; [..|done].
  - apply upd_cstr_other; [done|]. by rewrite Hl.
  - apply upd_cstr; [done|]. apply Hq.
  - apply upd_cstr_other; [done|]. by rewrite Hl.
Qed.

Lemma simple_glob_spec copy m text pattern t pat :
  cstr m text t → cstr m pattern pat →
  fresh_region m copy (Z.of_nat (length pat) + 1) →
  ∃ b, simple_glob copy m text pattern = Ret b ∧ (b = true ↔ glob_match pat t).
Proof.
  intros Ht Hp Hf. unfold simple_glob. rewrite (strlen_spec _ _ _ Hp). cbn [bind].
  replace (Z.to_nat (Z.of_nat (length pat) + 1)) with (S (length pat)) by lia.
  replace (Z.of_nat (length pat) + 1) with (Z.of_nat (S (length pat))) in Hf by lia.
  set (m1 := alloca m copy (S (length pat))).
  assert (Ht1 : cstr m1 text t) by by apply alloca_cstr.
  assert (Hp1 : cstr m1 pattern pat) by by apply alloca_cstr.
  pose proof (alloca_mapped _ _ _ Hf) as Hm. fold m1 in Hm.
  pose proof (fresh_disjoint _ _ _ _ _ Hf ltac:(lia) Ht) as Hdt.
  pose proof (fresh_disjoint _ _ _ _ _ Hf ltac:(lia) Hp) as Hdp.
  unfold disjoint_regions in Hdt, Hdp. unfold glob_match, glob_front. destruct pat as [|c rest].
  - cstr_nil_step Hp1. change (s8 0 =? c_star) with false.
    apply (glob_copy_spec m1 text copy pattern t [] false); try done.
  - cstr_cons_step Hp1. rewrite star_eq by lia. cbn [length] in *. destruct (c =? c_star).
    + replace (Z.of_nat (S (length rest)) - 1) with (Z.of_nat (length rest)) by lia.
      apply (glob_copy_spec m1 text copy (pattern + 1) t rest true); try done;
        [intros i Hi; apply Hm; lia|unfold disjoint_regions; lia..].
    + apply (glob_copy_spec m1 text copy pattern t (c :: rest) false); try done; cbn [length];
        [intros i Hi; apply Hm; lia|unfold disjoint_regions; lia..].
Qed.
