(* ===== verification/CStringProps.v ===== *)
(** * Properties of lib/string.c *)

From S2P Require Import Prelude.
From S2P Require Import CMem.
From S2P Require Import CString.
From S2P Require Import CStringSpec.
From S2P Require Import CStringMem.
From S2P Require Import CStringNum.
From S2P Require Import CStringGlob.

(** A memory given by blocks of bytes, for the examples. *)
Definition blocks (l : list (Z * list Z)) : memory := foldr (λ '(p, b) m, upd m p b) ∅ l.

(** Closes [bytes], [cstr] and [mapped] goals on concrete memories. *)
Ltac concrete_bytes := cbn [app bytes]; repeat split; by vm_compute.
Ltac concrete_cstr := split; [concrete_bytes|repeat constructor; by vm_compute].

(** Scanning functions.  On a terminated string [strlen], [strnlen],
    [strchr], [strrchr] and [strchrnul] return what their list counterparts
    say, in particular the first or the last position of the character, the
    terminator included; none of them reads past the terminator. *)
Theorem string_scans m p s c n :
  cstr m p s → 0 ≤ n →
  strlen m p = Ret (Z.of_nat (length s)) ∧
  strnlen m p n = Ret (Z.min n (Z.of_nat (length s))) ∧
  strchr m p c = Ret (ptr_at p (first_char (u8 c) s)) ∧
  strrchr m p c = Ret (ptr_at p (last_char (u8 c) s)) ∧
  strchrnul m p c = Ret (p + Z.of_nat (default (length s) (first_char (u8 c) s))).
Proof.
  intros Hs Hn. split_and!.
  - by apply strlen_spec.
  - destruct Hs. apply (strnlen_spec m p s [0]); try done. by right.
  - by apply strchr_spec.
  - by apply strrchr_spec.
  - by apply strchrnul_spec.
Qed.

Lemma string_scans_witness :
  strrchr (blocks [(100, [97; 98; 97; 0])]) 100 97 = Ret 102.
Proof.
  destruct (string_scans (blocks [(100, [97; 98; 97; 0])]) 100 [97; 98; 97] 97 5)
    as (_ & _ & _ & E & _); [concrete_cstr|lia|exact E].
Defined.

(** [strncmp] returns the difference of the first characters, within the
    first [n], in which the strings disagree; [strcmp] returns 0 exactly for
    equal strings. *)
Theorem strcmp_correct m a b s1 s2 n :
  cstr m a s1 → cstr m b s2 → 0 ≤ n →
  strncmp m a b n = Ret (str_diff s8 (Z.to_nat n) s1 s2) ∧
  strncasecmp m a b n = Ret (str_diff (λ c, tolower (s8 c)) (Z.to_nat n) s1 s2) ∧
  post (strcmp m a b) (λ r, r = 0 ↔ s1 = s2).
Proof.
  intros H1 H2 Hn. split_and!; [by apply strncmp_spec|by apply strncasecmp_spec|].
  destruct (strcmp_spec _ _ _ _ _ H1 H2) as (r & -> & Hr). done.
Qed.

Lemma strcmp_correct_witness :
  strncasecmp (blocks [(100, [97; 66; 0]); (200, [65; 98; 99; 0])]) 100 200 2 = Ret 0.
Proof.
  destruct (strcmp_correct (blocks [(100, [97; 66; 0]); (200, [65; 98; 99; 0])])
    100 200 [97; 66] [65; 98; 99] 2) as (_ & E & _); [concrete_cstr..|lia|exact E].
Defined.

(** [strcpy] and [strcat].  When the destination has room and does not
    overlap the source, it afterwards holds the source, respectively its old
    text followed by the source, and no other byte changed. *)
Theorem strcpy_strcat_correct m dest src s1 s2 :
  cstr m src s2 → cstr m dest s1 → mapped m dest (Z.of_nat (length s1 + length s2) + 1) →
  disjoint_regions dest (Z.of_nat (length s1 + length s2) + 1) src (Z.of_nat (length s2) + 1) →
  post (strcpy m dest src) (λ '(r, m'), r = dest ∧ cstr m' dest s2 ∧
    ∀ q, ¬ (dest ≤ q ≤ dest + Z.of_nat (length s2)) → m' !! q = m !! q) ∧
  post (strcat m dest src) (λ '(r, m'), r = dest ∧ cstr m' dest (s1 ++ s2) ∧
    ∀ q, ¬ (dest ≤ q ≤ dest + Z.of_nat (length (s1 ++ s2))) → m' !! q = m !! q).
Proof.
  intros H2 H1 Hm Hd. unfold disjoint_regions in Hd.
  assert (Hm2 : mapped m dest (Z.of_nat (length s2) + 1)) by (intros i Hi; apply Hm; lia). split.
  - rewrite (strcpy_spec _ _ _ s2) by (done || (unfold disjoint_regions; lia)). cbn [post].
    split; [done|]. split; [apply upd_cstr; [done|apply H2]|].
    intros q Hq. apply upd_outside. rewrite length_app. cbn. lia.
  - rewrite (strcat_spec _ _ _ s1 s2) by (done || (unfold disjoint_regions; lia)). cbn [post].
    split; [done|]. split; [apply upd_cstr_app; [done|apply H2|done]|].
    intros q Hq. apply upd_outside. rewrite length_app in *. cbn. lia.
Qed.

Lemma strcpy_strcat_correct_witness :
  post (strcat (blocks [(100, [97; 0; 7; 7]); (200, [98; 99; 0])]) 100 200)
    (λ '(r, m'), r = 100 ∧ cstr m' 100 [97; 98; 99]).
Proof.
  eapply post_mono; [apply (strcpy_strcat_correct (blocks [(100, [97; 0; 7; 7]); (200, [98; 99; 0])])
    100 200 [97] [98; 99])|].
  - concrete_cstr.
  - concrete_cstr.
  - intros i Hi. cbn in Hi. assert (i = 0 ∨ i = 1 ∨ i = 2 ∨ i = 3) as [->|[->|[->| ->]]] by lia;
      split; vm_compute; try done; by eexists.
  - left. cbn. lia.
  - by intros [r m'] (-> & ? & _).
Defined.

(** [memmove] stores the bytes the source held before the call, also when
    the regions overlap in either direction, and changes nothing else;
    [memcpy] has the same result when the regions are disjoint or the
    destination lies below the source. *)
Theorem memmove_correct m dest src l :
  bytes m src l → mapped m dest (Z.of_nat (length l)) →
  ∃ m', memmove m dest src (Z.of_nat (length l)) = Ret (dest, m') ∧
    bytes m' dest l ∧ (∀ q, ¬ (dest ≤ q < dest + Z.of_nat (length l)) → m' !! q = m !! q) ∧
    (dest ≤ src ∨ src + Z.of_nat (length l) ≤ dest →
     memcpy m dest src (Z.of_nat (length l)) = Ret (dest, m')).
Proof.
  intros Hb Hm. exists (upd m dest l). split_and!.
  - by apply memmove_spec.
  - apply upd_bytes; [done|]. apply Forall_lookup. intros i b Hi. by apply (bytes_lookup _ _ _ _ _ Hb) in Hi as (_ & ? & _).
  - intros q Hq. by apply upd_outside.
  - intros Hd. by apply memcpy_spec.
Qed.

Lemma memmove_correct_witness :
  ∃ m', memmove (blocks [(100, [1; 2; 3; 4])]) 101 100 3 = Ret (101, m') ∧ bytes m' 101 [1; 2; 3].
Proof.
  destruct (memmove_correct (blocks [(100, [1; 2; 3; 4])]) 101 100 [1; 2; 3]) as (m' & E & Hb & _).
  - concrete_bytes.
  - intros i Hi. cbn in Hi. assert (i = 0 ∨ i = 1 ∨ i = 2) as [->|[->| ->]] by lia;
      split; vm_compute; try done; by eexists.
  - by exists m'.
Defined.

(** [strstr] returns the first occurrence: the position of the result is
    one where the needle occurs, no smaller position is, and null is returned
    only when there is none. *)
Theorem strstr_correct m p1 p2 s1 s2 :
  cstr m p1 s1 → cstr m p2 s2 →
  post (strstr m p1 p2) (λ r,
    (∃ i : nat, r = p1 + Z.of_nat i ∧ (i ≤ length s1)%nat ∧ s2 `prefix_of` drop i s1 ∧
       ∀ j, (j < i)%nat → ¬ s2 `prefix_of` drop j s1) ∨
    (r = 0 ∧ ∀ a b, s1 ≠ a ++ s2 ++ b)).
Proof.
  intros H1 H2. rewrite (strstr_spec _ _ _ _ _ H1 H2). cbn [post].
  destruct (find_sub s1 s2) as [i|] eqn:E; cbn [ptr_at].
  - left. exists i. split; [done|]. by apply find_sub_Some.
  - right. split; [done|]. intros a b Hab.
    destruct (proj2 (find_sub_infix s1 s2)) as [i Hi]; [by exists a, b|congruence].
Qed.

Lemma strstr_correct_witness :
  post (strstr (blocks [(100, [97; 98; 97; 98; 0]); (200, [98; 97; 0])]) 100 200)
    (λ r, (∃ i : nat, r = 100 + Z.of_nat i) ∨ r = 0).
Proof.
  eapply post_mono; [apply (strstr_correct (blocks [(100, [97; 98; 97; 98; 0]); (200, [98; 97; 0])])
    100 200 [97; 98; 97; 98] [98; 97]); concrete_cstr|].
  intros r [(i & -> & _)|[-> _]]; [left; by exists i|by right].
Defined.

(** Conversion of numerals.  For white space, an optional sign, a radix
    prefix, at least one digit [cs] of the radix with the values [ds], and
    anything that is not a digit behind them: when the magnitude fits the type
    (2^63 for the signed functions, 2^64 for the unsigned ones) the functions
    return the number with its sign and the end of the digits, otherwise they
    stop the program.  The magnitude 2^63 with a minus sign is rejected too,
    although it is a [long]. *)
Theorem strtol_correct m p base sp sg neg pre b cs ds rest :
  cstr m p (sp ++ sg ++ pre ++ cs ++ rest) →
  Forall (λ c, isspace (s8 c) = true) sp → sign_of sg neg →
  radix_prefix base pre b cs → digits_as b cs ds → cs ≠ [] → no_digit b rest →
  base = 0 ∨ 2 ≤ base ≤ 36 → 2 ≤ b ≤ 36 →
  let v := num b 0 ds in
  let e := p + Z.of_nat (length (sp ++ sg ++ pre ++ cs)) in
  strtol m p base = (if v <? 2 ^ 63 then Ret (if neg then - v else v, e) else Abort) ∧
  strtoll m p base = strtol m p base ∧
  strtoul m p base = (if v <? 2 ^ 64 then Ret (if neg then u64 (- v) else v, e) else Abort) ∧
  strtoull m p base = strtoul m p base.
Proof.
  intros Hs Hsp Hsg Hpre Hd Hne Hrest Hbase Hb. cbv zeta.
  assert (Hv : 0 ≤ num b 0 ds) by (by eapply num_nonneg).
  unfold strtol, strtoll, strtoul, strtoull.
  rewrite !(__strtoll_spec m p base _ _ sp sg neg pre b cs ds rest) by done. cbn [limit].
  split_and!; [|done..].
  destruct (Z.ltb_spec (num b 0 ds) (2 ^ 63)); cbn [bind]; [|done]. do 2 f_equal.
  destruct neg; [by apply s64_neg|]. unfold s64. rewrite (sgn_small 64); [done|lia|].
  change (2 ^ (64 - 1)) with (2 ^ 63). lia.
Qed.

Lemma strtol_correct_witness :
  strtol (blocks [(100, [32; 45; 48; 120; 49; 102; 46; 0])]) 100 0 = Ret (-31, 106).
Proof.
  destruct (strtol_correct (blocks [(100, [32; 45; 48; 120; 49; 102; 46; 0])]) 100 0
    [32] [45] true [48; 120] 16 [49; 102] [1; 15] [46]) as (E & _).
  - concrete_cstr.
  - repeat constructor.
  - by left.
  - constructor; by left.
  - repeat constructor.
  - done.
  - done.
  - by left.
  - lia.
  - exact E.
Defined.

(** [simple_glob] decides matching against a pattern with an optional star
    at its beginning and at its end; it always terminates and stays inside its
    strings and its local copy. *)
Theorem simple_glob_correct copy m text pattern t pat :
  cstr m text t → cstr m pattern pat →
  fresh_region m copy (Z.of_nat (length pat) + 1) →
  ∃ b, simple_glob copy m text pattern = Ret b ∧ (b = true ↔ glob_match pat t).
Proof. apply simple_glob_spec. Qed.

Lemma simple_glob_correct_witness :
  ∃ b, simple_glob 300 (blocks [(100, [97; 98; 99; 0]); (200, [42; 98; 42; 0])]) 100 200 = Ret b ∧
    (b = true ↔ glob_match [42; 98; 42] [97; 98; 99]).
Proof.
  apply (simple_glob_correct 300 (blocks [(100, [97; 98; 99; 0]); (200, [42; 98; 42; 0])])
    100 200 [97; 98; 99] [42; 98; 42]); [concrete_cstr..|].
  split; [lia|]. split; [cbn; lia|]. intros q Hq. cbn in Hq.
  assert (q = 300 ∨ q = 301 ∨ q = 302 ∨ q = 303) as [->|[->|[->| ->]]] by lia; by vm_compute.
Defined.
