(* ===== verification/Printf.v ===== *)
(** * lib/printf.c

    The formatted output functions over the byte memory of CMem.v.  [sp] is the
    address of the local digit buffers; the variable arguments are a list of
    64-bit values, read at the width of the type [va_arg] names. *)

From S2P Require Import Prelude.
From S2P Require Import CMem.
From S2P Require Import CString.

Abbreviation c_hash := 35.
Abbreviation c_percent := 37.
Abbreviation c_dot := 46.
Abbreviation c_c := 99.
Abbreviation c_d := 100.
Abbreviation c_l := 108.
Abbreviation c_p := 112.
Abbreviation c_s := 115.
Abbreviation c_t := 116.
Abbreviation c_u := 117.

Definition BUFSZ : Z := 2000.

Record pstream : Type := mk_ps { buffer : Z; remain : Z; added : Z }.
Record strprops : Type := mk_props { pad : Z; npad : Z; alternate : bool; precision : Z }.

Definition set_pad (c : Z) (p : strprops) := mk_props c (npad p) (alternate p) (precision p).
Definition set_npad (n : Z) (p : strprops) := mk_props (pad p) n (alternate p) (precision p).
Definition set_alternate (b : bool) (p : strprops) := mk_props (pad p) (npad p) b (precision p).
Definition set_precision (n : Z) (p : strprops) := mk_props (pad p) (npad p) (alternate p) n.

(** Arithmetic of type [int]: overflow is undefined. *)
Definition sint (x : Z) : res Z := valid! ((- 2 ^ 31 <=? x) && (x <? 2 ^ 31)); Ret x.

(** The stream and the memory it writes to. *)
Definition out : Type := memory * pstream.

Definition addchar (c : Z) (o : out) : res out :=
  let '(m, p) := o in
  let* '(m, p) :=
    if negb (remain p =? 0) then
      let* m := stb m (buffer p) c in
      let* r := sint (remain p - 1) in
      Ret (m, mk_ps (buffer p + 1) r (added p))
    else Ret (m, p) in
  let* a := sint (added p + 1) in
  Ret (m, mk_ps (buffer p) (remain p) a).

(** [while (n > 0) { addchar(p, c); --n; }] *)
Definition addchars (n : Z) (c : Z) (o : out) : res out :=
  for_ (Z.to_nat n) 0 (λ _ o, addchar c o) o.

(** [while ( *s && props.precision--) addchar(p, *s++);] *)
Fixpoint body_loop (f : nat) (s prec : Z) (o : out) : res out :=
  match f with
  | O => Hang
  | S f =>
      let* c := ldb (fst o) s in
      if c =? 0 then Ret o else
      if prec =? 0 then Ret o else
      let* prec := sint (prec - 1) in
      let* o := addchar c o in
      body_loop f (s + 1) prec o
  end.

Definition print_str (s : Z) (props : strprops) (o : out) : res out :=
  let* '(n, o) :=
    if 0 <? npad props then
      let* len := strlen (fst o) s in
      let n := s32 (npad props - len) in
      let* o := addchars n (pad props) o in
      Ret (if 0 <? n then 0 else n, o)
    else Ret (npad props, o) in
  let* o := body_loop (fuel (fst o)) s (precision props) o in
  if n <? 0 then
    let* len := strlen (fst o) s in
    let n := s32 (n + len) in
    addchars (- n) c_space o
  else Ret o.

(** ** UTF-16 *)

(** [*p] of a [u16 *], little endian. *)
Definition ldh (m : memory) (p : Z) : res Z :=
  let* lo := ldb m p in let* hi := ldb m (p + 1) in Ret (lo + 256 * hi).

(** Returns the code point and the advanced [*s16]. *)
Definition utf16_to_utf32 (m : memory) (s16 : Z) : res (Z * Z) :=
  let* c0 := ldh m s16 in
  let s16 := s16 + 2 in
  if negb (Z.land c0 0xf800 =? 0xd800) then Ret (c0, s16) else
  if negb (Z.land c0 0x0400 =? 0) then Ret (0xfffd, s16) else
  let* c1 := ldh m s16 in
  if negb (Z.land c1 0xfc00 =? 0xdc00) then Ret (0xfffd, s16) else
  Ret (u32 ((0x10000 - Z.shiftl 0xd800 10 - 0xdc00) + Z.shiftl c0 10 + c1), s16 + 2).

Fixpoint utf16s_utf8nlen_loop (f : nat) (m : memory) (s16 len maxlen : Z) : res Z :=
  match f with
  | O => Hang
  | S f =>
      if negb (len <? maxlen) then Ret len else
      let* c0 := ldh m s16 in
      if c0 =? 0 then Ret len else
      let s16 := s16 + 2 in
      let clen := 1 + (if 0x80 <=? c0 then 1 else 0) + (if 0x800 <=? c0 then 1 else 0) in
      if maxlen <? len + clen then Ret len else
      if Z.land c0 0xfc00 =? 0xd800 then
        if len + clen =? maxlen then Ret len else
        let* c1 := ldh m s16 in
        if Z.land c1 0xfc00 =? 0xdc00
        then utf16s_utf8nlen_loop f m (s16 + 2) (len + clen + 1) maxlen
        else utf16s_utf8nlen_loop f m s16 (len + clen) maxlen
      else utf16s_utf8nlen_loop f m s16 (len + clen) maxlen
  end.
Definition utf16s_utf8nlen (m : memory) (s16 maxlen : Z) : res Z :=
  utf16s_utf8nlen_loop (fuel m) m s16 0 maxlen.

(** [for (s8 += clen; clen; --clen, c32 >>= 6) *s8-- = 0x80 | (c32 & 0x3f);]
    on entry [s8] has been advanced; returns the memory, [s8] and [c32]. *)
Fixpoint trailing_octets (clen : nat) (m : memory) (s8 c32 : Z) : res (memory * Z * Z) :=
  match clen with
  | O => Ret (m, s8, c32)
  | S clen =>
      let* m := stb m s8 (Z.lor 0x80 (Z.land c32 0x3f)) in
      trailing_octets clen m (s8 - 1) (Z.shiftr c32 6)
  end.

Fixpoint wstring_loop (f : nat) (ws pos size len : Z) (o : out) : res out :=
  match f with
  | O => Hang
  | S f =>
      if negb (0 <? len) then Ret o else
      let len := len - 1 in
      let* '(c32, ws) := utf16_to_utf32 (fst o) ws in
      if c32 <? 0x80 then
        let* o := addchar c32 o in wstring_loop f ws pos size len o
      else
        let clen := 1 + (if 0x800 <=? c32 then 1 else 0) + (if 0x10000 <=? c32 then 1 else 0) in
        let len := u64 (len - clen) in
        let s8 := buffer (snd o) - added (snd o) + pos in
        let* o := addchar 0 o in
        let pos := pos + clen in
        if size <=? pos then wstring_loop f ws pos size len o else
        let* m := stb (fst o) s8 (Z.shiftr (Z.shiftr 0xf00 1) clen) in
        let* '(m, s8, c32) := trailing_octets (Z.to_nat clen) m (s8 + clen) c32 in
        let* b := ldb m s8 in
        let* m := stb m s8 (Z.lor b c32) in
        wstring_loop f ws pos size len (m, snd o)
  end.

Definition print_wstring (s : Z) (props : strprops) (o : out) : res out :=
  let size := u64 (remain (snd o) + 1) in
  let* len := utf16s_utf8nlen (fst o) s (u64 (precision props)) in
  wstring_loop (S (Z.to_nat len)) s 0 size len o.

(** ** Numbers *)

(** [digits[i]] *)
Definition digit_char (i : Z) : Z := if i <? 10 then c_0 + i else c_a + (i - 10).

(** The local array [buf] of [cap] bytes at [sp]: [put] is [*p++ = c]. *)
Definition put (sp cap : Z) (c : Z) (mp : memory * Z) : res (memory * Z) :=
  let '(m, p) := mp in
  valid! (p <? sp + cap);
  let* m := stb m p c in Ret (m, p + 1).

(** [while (n) { *p++ = digits[n % base]; n /= base; }]; a 64-bit number has at
    most 64 digits. *)
Fixpoint digit_loop (f : nat) (sp cap n base : Z) (mp : memory * Z) : res (memory * Z) :=
  match f with
  | O => Hang
  | S f =>
      if n =? 0 then Ret mp else
      let* mp := put sp cap (digit_char (n mod base)) mp in
      digit_loop f sp cap (n / base) base mp
  end.

(** [while (p == buf || (p - buf < props.precision)) *p++ = '0';] *)
Fixpoint zero_loop (f : nat) (sp cap prec : Z) (mp : memory * Z) : res (memory * Z) :=
  match f with
  | O => Hang
  | S f =>
      if (snd mp =? sp) || (snd mp - sp <? prec) then
        let* mp := put sp cap c_0 mp in zero_loop f sp cap prec mp
      else Ret mp
  end.

(** The loop that reverses [buf, p). *)
Definition reverse_buf (sp p : Z) (m : memory) : res memory :=
  for_ (Z.to_nat ((p - sp) / 2)) 0 (λ i m,
    let* tmp := ldb m (sp + i) in
    let* x := ldb m (p - 1 - i) in
    let* m := stb m (sp + i) x in
    stb m (p - 1 - i) tmp) m.

(** From the end of the digits on: [*p = 0] and the output. *)
Definition finish_number (sp cap p : Z) (props : strprops) (o : out) : res out :=
  let '(m, ps) := o in
  let* m := reverse_buf sp p m in
  valid! (p <? sp + cap);
  let* m := stb m p 0 in
  print_str sp (set_precision (-1) props) (m, ps).

Definition INT_BUF : Z := 8 * 3 + 2.
Definition print_int (sp n base : Z) (props : strprops) (o : out) : res out :=
  let '(m, ps) := o in
  let m := alloca m sp (Z.to_nat INT_BUF) in
  let* '(n, s) := if n <? 0 then (valid! (negb (n =? - 2 ^ 63)); Ret (- n, true)) else Ret (n, false) in
  let* mp := digit_loop 65 sp INT_BUF n base (m, sp) in
  let* mp := zero_loop (S (Z.to_nat INT_BUF)) sp INT_BUF (precision props) mp in
  let* '(m, p) := if (s : bool) then put sp INT_BUF c_minus mp else Ret mp in
  finish_number sp INT_BUF p props (m, ps).

Definition UINT_BUF : Z := 8 * 3 + 3.
Definition print_unsigned (sp n base : Z) (props : strprops) (o : out) : res out :=
  let '(m, ps) := o in
  let m := alloca m sp (Z.to_nat UINT_BUF) in
  let* mp := digit_loop 65 sp UINT_BUF n base (m, sp) in
  let props := if snd mp =? sp then set_alternate false props else props in
  let* '(m, p) := zero_loop (S (Z.to_nat UINT_BUF)) sp UINT_BUF (precision props) mp in
  let* '(m, p, props, ps) :=
    if alternate props && (base =? 16) then
      if pad props =? c_0 then
        let* o := addchar c_0 (m, ps) in
        let* '(m, ps) := addchar c_x o in
        let props := if 0 <? npad props then set_npad (Z.max (npad props - 2) 0) props else props in
        Ret (m, p, props, ps)
      else
        let* mp := put sp UINT_BUF c_x (m, p) in
        let* '(m, p) := put sp UINT_BUF c_0 mp in
        Ret (m, p, props, ps)
    else Ret (m, p, props, ps) in
  finish_number sp UINT_BUF p props (m, ps).

(** ** Parsing of the format *)

(** [while ( *f >= '0' && *f <= '9') ++f, ++len;] *)
Fixpoint digit_run (f : nat) (m : memory) (p len : Z) : res Z :=
  match f with
  | O => Hang
  | S f =>
      let* c := ldc m p in
      if (c_0 <=? c) && (c <=? c_9) then digit_run f m (p + 1) (len + 1) else Ret len
  end.

(** Returns the number and the advanced [*fmt]. *)
Definition fmtnum (m : memory) (fmt : Z) : res (Z * Z) :=
  let* c := ldc m fmt in
  let '(f, len) := if c =? c_minus then (fmt + 1, 1) else (fmt, 0) in
  let* len := digit_run (fuel m) m f len in
  let* num := atol m fmt in
  Ret (s32 num, fmt + len).

Fixpoint skip_atoi_loop (f : nat) (m : memory) (s i : Z) : res (Z * Z) :=
  match f with
  | O => Hang
  | S f =>
      let* c := ldc m s in
      let* t := sint (i * 10 + c) in
      let* i := sint (t - c_0) in
      let* c := ldc m (s + 1) in
      if isdigit c then skip_atoi_loop f m (s + 1) i else Ret (i, s + 1)
  end.
Definition skip_atoi (m : memory) (s : Z) : res (Z * Z) := skip_atoi_loop (fuel m) m s 0.

(** [va_arg]: the next argument and the rest. *)
Definition va_arg (ap : list Z) : res (Z * list Z) :=
  match ap with [] => Fault | a :: ap => Ret (a, ap) end.

Definition get_int (m : memory) (fmt : Z) (ap : list Z) : res (Z * Z * list Z) :=
  let* c := ldc m fmt in
  if isdigit c then
    let* '(i, fmt) := skip_atoi m fmt in Ret (i, fmt, ap)
  else if c =? c_star then
    let* '(a, ap) := va_arg ap in Ret (s32 a, fmt + 1, ap)
  else Ret (0, fmt, ap).

(** The value of an integer argument: [int], [long] or [long long]. *)
Definition signed_arg (nlong a : Z) : Z := if nlong =? 0 then s32 a else s64 a.
Definition unsigned_arg (nlong a : Z) : Z := if nlong =? 0 then u32 a else u64 a.

(** From the label [morefmt] to the end of the conversion. *)
Fixpoint morefmt (f : nat) (sp fmt : Z) (nlong : Z) (props : strprops) (args : list Z) (o : out)
    : res (Z * list Z * out) :=
  match f with
  | O => Hang
  | S f =>
      let* c := ldc (fst o) fmt in
      let fmt := fmt + 1 in
      if c =? c_percent then
        let* o := addchar c_percent o in Ret (fmt, args, o)
      else if c =? c_c then
        let* '(a, args) := va_arg args in
        let* o := addchar a o in Ret (fmt, args, o)
      else if c =? 0 then Ret (fmt - 1, args, o)
      else if c =? c_dot then
        let props := set_pad c_space props in
        let* '(i, fmt, args) := get_int (fst o) fmt args in
        morefmt f sp fmt nlong (set_precision i props) args o
      else if c =? c_hash then
        morefmt f sp fmt nlong (set_alternate true props) args o
      else if c =? c_0 then
        let props := set_pad c_0 props in
        let* '(n, fmt) := fmtnum (fst o) (fmt + 1 - 1) in
        morefmt f sp fmt nlong (set_npad n props) args o
      else if ((49 <=? c) && (c <=? c_9)) || (c =? c_minus) then
        let* '(n, fmt) := fmtnum (fst o) (fmt - 1) in
        morefmt f sp fmt nlong (set_npad n props) args o
      else if c =? c_l then morefmt f sp fmt (nlong + 1) props args o
      else if (c =? c_t) || (c =? c_z) then morefmt f sp fmt 1 props args o
      else if c =? c_d then
        let* '(a, args) := va_arg args in
        let* o := print_int sp (signed_arg nlong a) 10 props o in Ret (fmt, args, o)
      else if c =? c_u then
        let* '(a, args) := va_arg args in
        let* o := print_unsigned sp (unsigned_arg nlong a) 10 props o in Ret (fmt, args, o)
      else if c =? c_x then
        let* '(a, args) := va_arg args in
        let* o := print_unsigned sp (unsigned_arg nlong a) 16 props o in Ret (fmt, args, o)
      else if c =? c_p then
        let* '(a, args) := va_arg args in
        let* o := print_unsigned sp (u64 a) 16 (set_alternate true props) o in Ret (fmt, args, o)
      else if c =? c_s then
        let* '(a, args) := va_arg args in
        let* o := if negb (nlong =? 0) then print_wstring a props o else print_str a props o in
        Ret (fmt, args, o)
      else
        let* o := addchar c o in Ret (fmt, args, o)
  end.

Definition props0 : strprops := mk_props c_space 0 false (-1).

(** [while ( *fmt ) ...] *)
Fixpoint fmt_loop (f : nat) (sp fmt : Z) (args : list Z) (o : out) : res out :=
  match f with
  | O => Hang
  | S f =>
      let* c := ldc (fst o) fmt in
      if c =? 0 then Ret o else
      let fmt := fmt + 1 in
      if negb (c =? c_percent) then
        let* o := addchar c o in fmt_loop f sp fmt args o
      else
        let* '(fmt, args, o) := morefmt (fuel (fst o)) sp fmt 0 props0 args o in
        fmt_loop f sp fmt args o
  end.

(** The digit buffers of the callees end their life with the call. *)
Definition vsnprintf (sp buf size fmt : Z) (va : list Z) (m : memory) : res (Z * memory) :=
  let* r := sint (size - 1) in
  let* '(m, s) := fmt_loop (fuel m) sp fmt va (m, mk_ps buf r 0) in
  let* m := stb m (buffer s) 0 in
  Ret (added s, dealloca m sp (Z.to_nat UINT_BUF)).

Definition snprintf (sp buf size fmt : Z) (va : list Z) (m : memory) : res (Z * memory) :=
  vsnprintf sp buf size fmt va m.

(** The characters [puts] would print: the string at [buf]. *)
Fixpoint text_loop (f : nat) (m : memory) (p : Z) : res (list Z) :=
  match f with
  | O => Hang
  | S f =>
      let* c := ldb m p in
      if c =? 0 then Ret [] else let* l := text_loop f m (p + 1) in Ret (c :: l)
  end.
Definition text (m : memory) (p : Z) : res (list Z) := text_loop (fuel m) m p.

(** [vprintf] and [printf]: [buf] is the address of the local array; the
    result comes with the text passed to [puts]. *)
Definition vprintf (sp buf fmt : Z) (va : list Z) (m : memory) : res (Z * list Z * memory) :=
  let m := alloca m buf (Z.to_nat BUFSZ) in
  let* '(r, m) := vsnprintf sp buf BUFSZ fmt va m in
  let* t := text m buf in
  Ret (r, t, dealloca m buf (Z.to_nat BUFSZ)).
Definition printf (sp buf fmt : Z) (va : list Z) (m : memory) : res (Z * list Z * memory) :=
  vprintf sp buf fmt va m.

(** ** binstr *)

Definition BINSTR_SZ : Z := 8 * 8 + 8 * 2.
(** The endless loop with its break at [i == n]. *)
Fixpoint binstr_loop (f : nat) (x n i c : Z) (m : memory) : res (memory * Z) :=
  match f with
  | O => Hang
  | S f =>
      let* m := stb m c (if negb (Z.land x (u64 (Z.shiftl 1 (n - i - 1))) =? 0) then 49 else c_0) in
      let c := c + 1 in
      let i := i + 1 in
      if i =? n then let* m := stb m c 0 in Ret (m, c)
      else if Z.rem i 4 =? 0 then let* m := stb m c 39 in binstr_loop f x n i (c + 1) m
      else binstr_loop f x n i c m
  end.
Definition binstr (x out : Z) (m : memory) : res memory :=
  let* '(m, c) := binstr_loop 65 x (8 * 8) 0 out m in
  assert! (c + 1 - out =? BINSTR_SZ);
  Ret m.
