(* ===== verification/PrintfOut.v ===== *)
(** * The output side of lib/printf.c

    What [addchar], [print_str], [print_int] and [print_unsigned] append to a
    stream.  [wrote l o] says that the text [l] has been sent to the stream:
    the buffer holds as much of it as fits, [added] counts all of it, and no
    byte outside the buffer and the local digit buffers has changed. *)

From S2P Require Import Prelude.
From S2P Require Import CMem.
From S2P Require Import CString.
From S2P Require Import CStringSpec.
From S2P Require Import CStringMem.
From S2P Require Import CStringNum.
From S2P Require Import CStringGlob.
From S2P Require Import Printf.

Abbreviation len l := (Z.of_nat (length l)).

(** ** Texts *)

Definition cut_prec (prec : Z) (s : list Z) : list Z :=
  if prec <? 0 then s else take (Z.to_nat prec) s.

(** A string in its field: blanks or the pad character up to the width. *)
Definition pad_str (props : strprops) (s : list Z) : list Z :=
  if 0 <? npad props then
    replicate (Z.to_nat (npad props - len s)) (u8 (pad props)) ++ cut_prec (precision props) s
  else cut_prec (precision props) s ++ replicate (Z.to_nat (- npad props - len s)) c_space.

(** The digits of [n], least significant first. *)
Fixpoint rev_digits (f : nat) (n base : Z) : list Z :=
  match f with
  | O => []
  | S f => if n =? 0 then [] else digit_char (n mod base) :: rev_digits f (n / base) base
  end.
Definition zeros (prec : Z) (l : list Z) : list Z :=
  replicate (Z.to_nat (Z.max 1 prec - len l)) c_0.
(** The numeral of [n] with at least [prec] digits. *)
Definition numeral (n base prec : Z) : list Z :=
  zeros prec (rev_digits 65 n base) ++ reverse (rev_digits 65 n base).
Definition int_str (n prec : Z) : list Z :=
  (if n <? 0 then [c_minus] else []) ++ numeral (Z.abs n) 10 prec.

(** What [print_unsigned] prints: with the alternate form a nonzero
    hexadecimal number gets the prefix 0x, in front of zero padding or as part
    of the padded text. *)
Definition uint_out (n base : Z) (props : strprops) : list Z :=
  let s := numeral n base (precision props) in
  let q := set_precision (-1) props in
  if alternate props && (base =? 16) && negb (n =? 0) then
    if pad props =? c_0 then
      [c_0; c_x] ++ pad_str (if 0 <? npad props then set_npad (Z.max (npad props - 2) 0) q else q) s
    else pad_str q ([c_0; c_x] ++ s)
  else pad_str q s.

Section stream.
Context (buf size sp : Z) (m0 : memory).
Context (Hsize : 1 ≤ size < 2 ^ 31) (Hmap : mapped m0 buf size) (Hsp : fresh_region m0 sp UINT_BUF).

Definition in_buf (q : Z) : Prop := buf ≤ q < buf + size.
Definition in_local (q : Z) : Prop := sp ≤ q < sp + UINT_BUF.

Record wrote (l : list Z) (o : out) : Prop := {
  w_buffer : buffer (snd o) = buf + Z.min (len l) (size - 1);
  w_remain : remain (snd o) = size - 1 - Z.min (len l) (size - 1);
  w_added : added (snd o) = len l;
  w_bytes : bytes (fst o) buf (take (Z.to_nat (size - 1)) l);
  w_mapped : mapped (fst o) buf size;
  w_frame : ∀ q, ¬ in_buf q → ¬ in_local q → fst o !! q = m0 !! q
}.

(** Output changes the buffer only. *)
Definition stable (o o' : out) : Prop := ∀ q, ¬ in_buf q → fst o' !! q = fst o !! q.

Lemma stable_refl o : stable o o.
Proof. done. Qed.
Lemma stable_trans o1 o2 o3 : stable o1 o2 → stable o2 o3 → stable o1 o3.
Proof. intros H1 H2 q Hq. by rewrite H2, H1. Qed.

Lemma buf_local_disjoint q : in_buf q → in_local q → False.
Proof.
  intros Hb Hl. destruct Hsp as (_ & _ & Hnone). destruct (Hmap (q - buf)) as [_ [b E]].
  { unfold in_buf in Hb. lia. }
  replace (buf + (q - buf)) with q in E by lia. by rewrite Hnone in E by done.
Qed.

Lemma stable_cstr o o' p s :
  stable o o' → cstr (fst o) p s → disjoint_regions buf size p (len s + 1) → cstr (fst o') p s.
Proof.
  intros Hst Hs Hd. eapply cstr_ext; [done|]. intros q Hq. apply Hst. intros Hin.
  unfold disjoint_regions, in_buf in *. lia.
Qed.

Lemma wrote_start : wrote [] (m0, mk_ps buf (size - 1) 0).
Proof. constructor; cbn; try done; try lia. by rewrite take_nil. Qed.

Lemma sint_ok x : - 2 ^ 31 ≤ x < 2 ^ 31 → sint x = Ret x.
Proof. intros. unfold sint. by rewrite (proj2 (Z.leb_le _ _)), (proj2 (Z.ltb_lt _ _)) by lia. Qed.

Lemma addchar_spec c l o :
  wrote l o → len l + 1 < 2 ^ 31 →
  post (addchar c o) (λ o', wrote (l ++ [u8 c]) o' ∧ stable o o').
Proof.
  intros [Hb Hr Ha Hby Hm Hf] Hlen. destruct o as [m ps]; cbn [fst snd] in *. unfold addchar.
  rewrite Hr, Ha, Hb.
  destruct (Z.eqb_spec (size - 1 - Z.min (len l) (size - 1)) 0) as [E|E]; cbn [negb bind].
  - rewrite sint_ok by lia. cbn [bind post]. split; [|done].
    constructor; cbn; rewrite ?length_app; cbn [length]; try done; try lia.
    rewrite take_app_le by lia. done.
  - destruct (Hm (len l)) as [Ho Hs]; [lia|]. rewrite Z.min_l by lia.
    rewrite (stb_mapped _ _ _ Ho Hs). cbn [bind].
    rewrite sint_ok by lia. cbn [bind buffer remain added]. rewrite sint_ok by lia. cbn [bind post].
    split.
    + constructor; cbn; rewrite ?length_app; cbn [length]; try lia.
      * rewrite take_ge in * by (rewrite ?length_app; cbn; lia). apply bytes_app. split.
        -- eapply bytes_ext; [done|]. intros q Hq. rewrite lookup_insert_ne; [done|lia].
        -- cbn. rewrite lookup_insert_eq. pose proof (u8_range c). split_and!; done || lia.
      * by apply mapped_insert.
      * intros q Hq Hl. rewrite lookup_insert_ne; [by apply Hf|]. unfold in_buf in Hq. lia.
    + intros q Hq. cbn. rewrite lookup_insert_ne; [done|]. unfold in_buf in Hq. lia.
Qed.

Lemma addchars_spec n c l o :
  wrote l o → len l + Z.max 0 n < 2 ^ 31 →
  post (addchars n c o) (λ o', wrote (l ++ replicate (Z.to_nat n) (u8 c)) o' ∧ stable o o').
Proof.
  intros Hw Hlen. unfold addchars.
  pose proof (for_inv (λ i o', wrote (l ++ replicate (Z.to_nat i) (u8 c)) o' ∧ stable o o')
    (Z.to_nat n) 0 (λ _, addchar c) o) as H. rewrite Z.add_0_l, Nat2Z.id in H. apply H.
  - cbn. rewrite app_nil_r. split; [done|apply stable_refl].
  - intros i o1 Hi [Hw1 Hst]. eapply post_mono; [apply (addchar_spec c _ _ Hw1)|].
    + rewrite length_app, length_replicate. lia.
    + intros o2 [Hw2 Hst2]. split; [|by eapply stable_trans].
      replace (Z.to_nat (i + 1)) with (Z.to_nat i + 1)%nat by lia.
      by rewrite replicate_add, app_assoc.
Qed.

Lemma body_loop_spec f s str prec l o :
  wrote l o → cstr (fst o) s str → disjoint_regions buf size s (len str + 1) → (length str < f)%nat →
  len l + len str < 2 ^ 31 → - 2 ^ 31 + len str < prec < 2 ^ 31 →
  post (body_loop f s prec o) (λ o', wrote (l ++ cut_prec prec str) o' ∧ stable o o').
Proof.
  revert s str prec l o. induction f as [|f IH]; intros s str prec l o Hw Hs Hd Hf Hlen Hp; [lia|].
  cbn [body_loop]. destruct str as [|c str].
  - cstr_nil_step Hs. cbn. unfold cut_prec. rewrite take_nil. destruct (prec <? 0); by rewrite app_nil_r.
  - cstr_cons_step Hs. rewrite (proj2 (Z.eqb_neq c 0)) by lia.
    destruct (Z.eqb_spec prec 0) as [->|Hne]; [cbn; by rewrite app_nil_r|].
    cbn [length] in *. rewrite sint_ok by lia. cbn [bind].
    apply post_bind. eapply post_mono; [apply (addchar_spec c l o Hw); lia|].
    intros o1 [Hw1 Hst1]. rewrite u8_byte in Hw1 by lia.
    assert (Hd' : disjoint_regions buf size (s + 1) (len str + 1)) by (unfold disjoint_regions in *; lia).
    eapply post_mono; [apply (IH (s + 1) str (prec - 1) _ o1 Hw1)|].
    + by eapply stable_cstr.
    + done.
    + lia.
    + rewrite length_app. cbn. lia.
    + lia.
    + intros o2 [Hw2 Hst2]. split; [|by eapply stable_trans]. rewrite <- app_assoc in Hw2.
      replace (cut_prec prec (c :: str)) with ([c] ++ cut_prec (prec - 1) str); [done|].
      unfold cut_prec. destruct (Z.ltb_spec prec 0), (Z.ltb_spec (prec - 1) 0); try lia; [done|].
      by replace (Z.to_nat prec) with (S (Z.to_nat (prec - 1))) by lia.
Qed.

Lemma print_str_spec s str props l o :
  wrote l o → cstr (fst o) s str → disjoint_regions buf size s (len str + 1) →
  len l + len str + Z.abs (npad props) < 2 ^ 31 → - 2 ^ 31 + len str < precision props < 2 ^ 31 →
  post (print_str s props o) (λ o', wrote (l ++ pad_str props str) o' ∧ stable o o').
Proof.
  intros Hw Hs Hd Hlen Hp. unfold print_str, pad_str.
  destruct (Z.ltb_spec 0 (npad props)) as [Hn|Hn].
  - rewrite (strlen_spec _ _ _ Hs). cbn [bind]. rewrite s32_small by lia.
    apply post_bind, post_bind. eapply post_mono; [apply (addchars_spec _ _ _ _ Hw); lia|].
    intros o1 [Hw1 Hst1]. cbn [post bind].
    assert (Hs1 : cstr (fst o1) s str) by by eapply stable_cstr.
    apply post_bind. eapply post_mono.
    { apply (body_loop_spec _ s str (precision props) _ _ Hw1); try done; [by eapply cstr_fuel|].
      rewrite length_app, length_replicate. lia. }
    intros o2 [Hw2 Hst2]. rewrite <- app_assoc in Hw2.
    assert (stable o o2) by by eapply stable_trans.
    assert (Hs2 : cstr (fst o2) s str) by by eapply stable_cstr.
    destruct (Z.ltb_spec 0 (npad props - len str)); cbn [Z.ltb Z.compare]; [done|].
    destruct (Z.ltb_spec (npad props - len str) 0); [|done].
    rewrite (strlen_spec _ _ _ Hs2). cbn [bind]. rewrite s32_small by lia. unfold addchars.
    replace (Z.to_nat (- (npad props - len str + len str))) with 0%nat by lia. done.
  - cbn [bind]. apply post_bind. eapply post_mono.
    { apply (body_loop_spec _ s str (precision props) _ _ Hw); try done; [by eapply cstr_fuel|lia]. }
    intros o2 [Hw2 Hst2]. assert (Hs2 : cstr (fst o2) s str) by by eapply stable_cstr.
    assert (Hcut : len (cut_prec (precision props) str) ≤ len str).
    { unfold cut_prec. destruct (_ <? _); [lia|]. rewrite length_take. lia. }
    destruct (Z.ltb_spec (npad props) 0).
    + rewrite (strlen_spec _ _ _ Hs2). cbn [bind]. rewrite s32_small by lia.
      eapply post_mono; [apply (addchars_spec _ c_space _ _ Hw2); rewrite length_app; lia|].
      intros o3 [Hw3 Hst3]. rewrite <- app_assoc in Hw3. change (u8 c_space) with c_space in Hw3.
      replace (- (npad props + len str)) with (- npad props - len str) in Hw3 by lia.
      split; [done|by eapply stable_trans].
    + cbn [post]. replace (Z.to_nat (- npad props - len str)) with 0%nat by lia.
      cbn [replicate]. by rewrite app_nil_r.
Qed.

(** ** Digit buffers *)

(** The local array of [cap] bytes holds [ds] so far; nothing else changed
    since [m1]. *)
Record filled (cap : Z) (m1 : memory) (ds : list Z) (mp : memory * Z) : Prop := {
  f_bytes : bytes (fst mp) sp ds;
  f_end : snd mp = sp + len ds;
  f_mapped : mapped (fst mp) sp cap;
  f_frame : ∀ q, ¬ (sp ≤ q < sp + cap) → fst mp !! q = m1 !! q
}.

Lemma put_spec cap m1 ds mp c :
  filled cap m1 ds mp → len ds < cap → 0 ≤ c < 256 →
  post (put sp cap c mp) (filled cap m1 (ds ++ [c])).
Proof.
  intros [Hb He Hm Hf] Hl Hc. destruct mp as [m p]; cbn [fst snd] in *. subst p. unfold put.
  rewrite (proj2 (Z.ltb_lt _ _)) by lia. destruct (Hm (len ds)) as [Ho Hs]; [lia|].
  rewrite (stb_mapped _ _ _ Ho Hs), u8_byte by done. cbn [bind post].
  constructor; cbn [fst snd].
  - apply bytes_app. split.
    + eapply bytes_ext; [done|]. intros q Hq. by rewrite lookup_insert_ne by lia.
    + cbn. by rewrite lookup_insert_eq.
  - rewrite length_app. cbn. lia.
  - by apply mapped_insert.
  - intros q Hq. rewrite lookup_insert_ne by lia. by apply Hf.
Qed.

Lemma digit_char_range i : 0 ≤ i < 36 → 0 < digit_char i < 256.
Proof. intros. unfold digit_char. zcase; lia. Qed.

Lemma digit_loop_spec f cap m1 ds mp n base :
  filled cap m1 ds mp → 2 ≤ base ≤ 36 → 0 ≤ n < base ^ Z.of_nat f →
  len (ds ++ rev_digits (S f) n base) ≤ cap →
  post (digit_loop (S f) sp cap n base mp) (filled cap m1 (ds ++ rev_digits (S f) n base)).
Proof.
  intros Hfl Hb. revert ds mp n Hfl. induction f as [|f IH]; intros ds mp n Hfl Hn Hl;
    cbn [digit_loop rev_digits] in *.
  { change (base ^ Z.of_nat 0) with 1 in Hn. rewrite (proj2 (Z.eqb_eq n 0)) by lia. cbn. by rewrite app_nil_r. }
  destruct (Z.eqb_spec n 0) as [->|Hne]; [cbn; by rewrite app_nil_r|].
  pose proof (Z.mod_pos_bound n base ltac:(lia)). pose proof (digit_char_range (n mod base) ltac:(lia)).
  rewrite length_app in Hl. cbn [length] in Hl.
  apply post_bind. eapply post_mono; [apply (put_spec cap m1 ds mp _ Hfl); lia|].
  intros mp1 Hfl1. replace (ds ++ digit_char (n mod base) :: _)
    with ((ds ++ [digit_char (n mod base)]) ++ rev_digits (S f) (n / base) base) by (by rewrite <- app_assoc).
  apply (IH _ mp1 (n / base) Hfl1).
  - split; [apply Z.div_pos; lia|]. apply Z.div_lt_upper_bound; [lia|].
    rewrite <- Z.pow_succ_r by lia. replace (Z.succ (Z.of_nat f)) with (Z.of_nat (S f)) by lia. apply Hn.
  - rewrite !length_app. cbn [length rev_digits] in *. lia.
Qed.

Lemma rev_digits_length f n base k :
  2 ≤ base → 0 ≤ k → 0 ≤ n < base ^ k → len (rev_digits f n base) ≤ k.
Proof.
  intros Hb. revert n k. induction f as [|f IH]; intros n k Hk Hn; cbn [rev_digits]; [cbn; lia|].
  destruct (Z.eqb_spec n 0); [cbn; lia|].
  destruct (decide (k = 0)) as [->|]; [change (base ^ 0) with 1 in Hn; lia|].
  cbn [length]. assert (len (rev_digits f (n / base) base) ≤ k - 1); [|lia].
  apply IH; [lia|]. split; [apply Z.div_pos; lia|]. apply Z.div_lt_upper_bound; [lia|].
  rewrite <- Z.pow_succ_r by lia. replace (Z.succ (k - 1)) with k by lia. apply Hn.
Qed.

Lemma rev_digits_chars f n base : 2 ≤ base ≤ 36 → 0 ≤ n → chars (rev_digits f n base).
Proof.
  intros Hb. revert n. induction f as [|f IH]; intros n Hn; cbn [rev_digits]; [constructor|].
  destruct (n =? 0); [constructor|]. constructor; [|apply IH, Z.div_pos; lia].
  apply digit_char_range. pose proof (Z.mod_pos_bound n base). lia.
Qed.

Lemma zero_loop_spec f cap m1 ds mp prec :
  filled cap m1 ds mp → len (ds ++ zeros prec ds) ≤ cap → Z.max 1 prec - len ds < Z.of_nat f →
  (0 < f)%nat → post (zero_loop f sp cap prec mp) (filled cap m1 (ds ++ zeros prec ds)).
Proof.
  revert ds mp. induction f as [|f IH]; intros ds mp Hfl Hl Hf Hf0; [lia|]. cbn [zero_loop].
  rewrite (f_end _ _ _ _ Hfl). unfold zeros in *. rewrite length_app, length_replicate in Hl.
  destruct ((sp + len ds =? sp) || (sp + len ds - sp <? prec)) eqn:E.
  - assert (0 < Z.max 1 prec - len ds).
    { apply orb_true_iff in E. rewrite Z.eqb_eq, Z.ltb_lt in E. lia. }
    apply post_bind. eapply post_mono; [apply (put_spec cap m1 ds mp c_0 Hfl); lia|].
    intros mp1 Hfl1. pose proof (IH (ds ++ [c_0]) mp1 Hfl1) as IH'.
    rewrite !length_app, length_replicate in IH'. cbn [length] in IH'.
    replace (ds ++ replicate (Z.to_nat (Z.max 1 prec - len ds)) c_0)
      with ((ds ++ [c_0]) ++ replicate (Z.to_nat (Z.max 1 prec - Z.of_nat (length ds + 1))) c_0).
    + apply IH'; lia.
    + rewrite <- app_assoc. f_equal. cbn [app].
      by replace (Z.to_nat (Z.max 1 prec - len ds))
        with (S (Z.to_nat (Z.max 1 prec - Z.of_nat (length ds + 1)))) by lia.
  - apply orb_false_iff in E. rewrite Z.eqb_neq, Z.ltb_ge in E. cbn [post].
    replace (Z.to_nat (Z.max 1 prec - len ds)) with 0%nat by lia. cbn. by rewrite app_nil_r.
Qed.

(** ** Reversal *)

(** Element [j] of the array after [i] swaps from both ends. *)
Definition swapped (l : list Z) (i j : nat) : option Z :=
  if decide (j < i ∨ length l - 1 - j < i)%nat then l !! (length l - 1 - j)%nat else l !! j.

Definition rev_state (m : memory) (l : list Z) (i : nat) (m' : memory) : Prop :=
  (∀ j, (j < length l)%nat → m' !! (sp + Z.of_nat j) = swapped l i j) ∧
  (∀ q, ¬ (sp ≤ q < sp + len l) → m' !! q = m !! q).

Lemma swap_step m l i m' :
  bytes m sp l → rev_state m l i m' → (2 * i + 1 < length l)%nat →
  post (let* tmp := ldb m' (sp + Z.of_nat i) in
        let* x := ldb m' (sp + len l - 1 - Z.of_nat i) in
        let* m := stb m' (sp + Z.of_nat i) x in
        stb m (sp + len l - 1 - Z.of_nat i) tmp) (rev_state m l (S i)).
Proof.
  intros Hb [Hs Hf] Hi. pose proof (bytes_mapped _ _ _ Hb) as Hm.
  replace (sp + len l - 1 - Z.of_nat i) with (sp + Z.of_nat (length l - 1 - i)) by lia.
  set (k := (length l - 1 - i)%nat).
  destruct (lookup_lt_is_Some_2 l i ltac:(lia)) as [x Ex].
  destruct (lookup_lt_is_Some_2 l k ltac:(unfold k; lia)) as [y Ey].
  assert (Hi1 : m' !! (sp + Z.of_nat i) = Some x).
  { rewrite Hs by lia. unfold swapped. by rewrite decide_False by lia. }
  assert (Hk1 : m' !! (sp + Z.of_nat k) = Some y).
  { rewrite Hs by (unfold k; lia). unfold swapped. by rewrite decide_False by (unfold k; lia). }
  destruct (Hm (Z.of_nat i)) as [Hoi _]; [lia|]. destruct (Hm (Z.of_nat k)) as [Hok _]; [unfold k; lia|].
  destruct (bytes_lookup _ _ _ _ _ Hb Ex) as (_ & Hx & _), (bytes_lookup _ _ _ _ _ Hb Ey) as (_ & Hy & _).
  unfold ldb at 1 2. rewrite Hoi, Hok, Hi1, Hk1. cbn [bind].
  rewrite (stb_mapped m') by (done || by eexists). cbn [bind]. rewrite !u8_byte by done.
  rewrite (stb_mapped (<[_ := _]> m')) by (done || (rewrite lookup_insert_ne; [by eexists|unfold k; lia])).
  rewrite !u8_byte by done. cbn [post]. split.
  - intros j Hj. unfold swapped. destruct (decide (j = k)) as [->|Hjk].
    + rewrite lookup_insert_eq, decide_True by (unfold k; lia).
      by replace (length l - 1 - k)%nat with i by (unfold k; lia).
    + rewrite lookup_insert_ne by lia. destruct (decide (j = i)) as [->|Hji].
      * rewrite lookup_insert_eq, decide_True by lia. done.
      * rewrite lookup_insert_ne, (Hs j Hj) by lia. unfold swapped.
        destruct (decide (j < i ∨ _)%nat), (decide (j < S i ∨ _)%nat); try done; unfold k in *; lia.
  - intros q Hq. rewrite !lookup_insert_ne by (unfold k; lia). by apply Hf.
Qed.

Lemma reverse_buf_spec m l :
  bytes m sp l →
  post (reverse_buf sp (sp + len l) m) (λ m', bytes m' sp (reverse l) ∧
    ∀ q, ¬ (sp ≤ q < sp + len l) → m' !! q = m !! q).
Proof.
  intros Hb. unfold reverse_buf. replace (sp + len l - sp) with (len l) by lia.
  eapply post_mono.
  - apply (for_inv (λ i m', rev_state m l (Z.to_nat i) m') _ 0).
    + split; [|done]. intros j Hj. unfold swapped. rewrite decide_False by lia.
      destruct (lookup_lt_is_Some_2 l j Hj) as [x Ex]. rewrite Ex.
      by destruct (bytes_lookup _ _ _ _ _ Hb Ex) as (? & _).
    + intros i m' Hi Hst. cbn beta. rewrite Z2Nat.id in Hi by (apply Z.div_pos; lia).
      assert (2 * i + 1 < len l) by (Z.div_mod_to_equations; lia).
      pose proof (swap_step m l (Z.to_nat i) m' Hb Hst ltac:(lia)) as Hsw.
      rewrite Z2Nat.id in Hsw by lia. by replace (Z.to_nat (i + 1)) with (S (Z.to_nat i)) by lia.
  - intros m' [Hs Hf]. split; [|done]. rewrite Z.add_0_l, Nat2Z.id in Hs.
    apply bytes_intro. intros i b Hi.
    pose proof (lookup_lt_Some _ _ _ Hi) as Hil. rewrite length_reverse in Hil.
    rewrite reverse_lookup in Hi by done. destruct (bytes_lookup _ _ _ _ _ Hb Hi) as (_ & Hr & _).
    destruct (bytes_mapped _ _ _ Hb (Z.of_nat i)) as [Ho _]; [lia|]. split_and!; try done; try lia.
    rewrite (Hs i Hil). unfold swapped. replace (length l - S i)%nat with (length l - 1 - i)%nat in Hi by lia.
    destruct (decide _) as [|Hn]; [done|]. rewrite <- Hi. f_equal.
    assert (Z.to_nat (len l / 2) = (length l / 2)%nat).
    { change 2 with (Z.of_nat 2). rewrite <- Nat2Z.inj_div. lia. }
    assert (length l - 1 - i = i)%nat; [|lia].
    pose proof (Nat.div_mod_eq (length l) 2). pose proof (Nat.mod_upper_bound (length l) 2). lia.
Qed.

(** ** Printing numbers *)

Lemma wrote_local l m m' ps :
  wrote l (m, ps) → (∀ q, ¬ in_local q → m' !! q = m !! q) → wrote l (m', ps).
Proof.
  intros [Hb Hr Ha Hby Hm Hf] Heq. cbn [fst snd] in *.
  assert (Hbuf : ∀ q, in_buf q → m' !! q = m !! q).
  { intros q Hq. apply Heq. intros Hl. by eapply buf_local_disjoint. }
  constructor; cbn [fst snd]; try done.
  - eapply bytes_ext; [done|]. intros q Hq. apply Hbuf. unfold in_buf. rewrite length_take in Hq. lia.
  - intros i Hi. rewrite Hbuf by (unfold in_buf; lia). by apply Hm.
  - intros q Hq Hl. rewrite Heq by done. by apply Hf.
Qed.

Lemma filled_start cap m :
  0 ≤ cap ≤ UINT_BUF → filled cap m [] (alloca m sp (Z.to_nat cap), sp).
Proof.
  intros Hcap. destruct Hsp as (H0 & H1 & _). constructor; cbn [fst snd]; [done|cbn; lia|..].
  - intros i Hi. split; [apply addr_ok_iff; lia|]. rewrite alloca_lookup, decide_True by lia. done.
  - intros q Hq. rewrite alloca_lookup, decide_False by lia. done.
Qed.

(** The local buffers lie outside the output buffer. *)
Lemma local_disjoint k : 0 ≤ k ≤ UINT_BUF → disjoint_regions buf size sp k.
Proof.
  intros Hk. unfold disjoint_regions. destruct (decide (buf + size ≤ sp)); [by left|].
  destruct (decide (sp + k ≤ buf)); [by right|]. exfalso.
  apply (buf_local_disjoint (Z.max buf sp)); unfold in_buf, in_local, UINT_BUF in *; lia.
Qed.

Lemma finish_number_spec cap m ds mp props l ps :
  filled cap m ds mp → cap ≤ UINT_BUF → wrote l (m, ps) → chars ds → len ds < cap →
  len l + len ds + Z.abs (npad props) < 2 ^ 31 →
  post (finish_number sp cap (snd mp) props (fst mp, ps)) (λ o',
    wrote (l ++ pad_str (set_precision (-1) props) (reverse ds)) o').
Proof.
  intros [Hb He Hm Hf] Hcap Hw Hc Hlen Hsz. unfold finish_number. rewrite He.
  apply post_bind. eapply post_mono; [by apply reverse_buf_spec|]. intros m1 [Hb1 Hf1].
  rewrite (proj2 (Z.ltb_lt _ _)) by lia.
  destruct (Hm (len ds)) as [Ho Hs]; [lia|]. rewrite <- (Hf1 (sp + len ds)) in Hs by lia.
  rewrite (stb_mapped _ _ _ Ho Hs). cbn [bind]. change (u8 0) with 0.
  set (m2 := <[sp + len ds := 0]> m1).
  assert (Hcs : cstr m2 sp (reverse ds)).
  { split; [|by apply Forall_reverse]. apply bytes_app. rewrite length_reverse. split.
    - eapply bytes_ext; [done|]. intros q Hq. rewrite length_reverse in Hq. unfold m2.
      by rewrite lookup_insert_ne by lia.
    - cbn. unfold m2. rewrite lookup_insert_eq. split_and!; done. }
  assert (Hw2 : wrote l (m2, ps)).
  { eapply wrote_local; [done|]. intros q Hq. unfold in_local in Hq. unfold m2.
    rewrite lookup_insert_ne, Hf1, Hf by lia. done. }
  eapply post_mono; [apply (print_str_spec sp (reverse ds) _ _ _ Hw2 Hcs)|by intros o' [? _]];
    cbn [npad precision set_precision]; rewrite ?length_reverse; [apply local_disjoint| |]; unfold UINT_BUF in *; lia.
Qed.

Lemma zeros_length prec l : len (zeros prec l) = Z.max 0 (Z.max 1 prec - len l).
Proof. unfold zeros. rewrite length_replicate. lia. Qed.

Lemma reverse_zeros prec l : reverse (zeros prec l) = zeros prec l.
Proof. apply reverse_replicate. Qed.

Lemma zeros_chars prec l : chars (zeros prec l).
Proof. apply Forall_replicate. lia. Qed.

Lemma print_int_spec n props l o :
  wrote l o → - 2 ^ 63 < n < 2 ^ 63 → precision props ≤ 24 →
  len l + 25 + Z.abs (npad props) < 2 ^ 31 →
  post (print_int sp n 10 props o) (λ o',
    wrote (l ++ pad_str (set_precision (-1) props) (int_str n (precision props))) o').
Proof.
  intros Hw Hn Hp Hlen. destruct o as [m ps]. unfold print_int.
  assert (E : (if n <? 0 then (if negb (n =? - 2 ^ 63) then Ret (- n, true) else Fault) else Ret (n, false))
    = Ret (Z.abs n, n <? 0)).
  { destruct (Z.ltb_spec n 0); [|f_equal; f_equal; lia].
    rewrite (proj2 (Z.eqb_neq n _)) by lia. cbn. do 2 f_equal. lia. }
  rewrite E. cbn [bind]. clear E. set (ds := rev_digits 65 (Z.abs n) 10).
  assert (Hds : len ds ≤ 19) by (apply rev_digits_length; lia).
  assert (Hdc : chars ds) by (apply rev_digits_chars; lia).
  pose proof (filled_start INT_BUF m ltac:(unfold INT_BUF, UINT_BUF; lia)) as Hf0.
  apply post_bind. eapply post_mono; [apply (digit_loop_spec 64 _ _ _ _ _ _ Hf0); [lia| |]|].
  { split; [lia|]. apply Z.lt_le_trans with (2 ^ 63); [lia|]. vm_compute. congruence. }
  { cbn [app]. fold ds. unfold INT_BUF. lia. }
  cbn [app]. fold ds. intros mp1 Hf1. pose proof (zeros_length (precision props) ds) as Hz.
  apply post_bind. eapply post_mono; [apply (zero_loop_spec _ _ _ _ _ _ Hf1)|];
    [rewrite length_app; unfold INT_BUF; lia|unfold INT_BUF; lia|lia|].
  intros mp2 Hf2. set (all := (ds ++ zeros (precision props) ds) ++ if n <? 0 then [c_minus] else []).
  apply post_bind. eapply post_mono with (P := filled INT_BUF m all).
  { unfold all. destruct (n <? 0); [|cbn [post]; by rewrite app_nil_r].
    apply (put_spec _ _ _ _ _ Hf2); [rewrite length_app; unfold INT_BUF; lia|lia]. }
  assert (Hall : len all ≤ 25) by (unfold all; rewrite !length_app; destruct (n <? 0); cbn [length]; lia).
  assert (Hstr : reverse all = int_str n (precision props)).
  { unfold all, int_str, numeral. rewrite !reverse_app, reverse_zeros. fold ds. by destruct (n <? 0). }
  intros [m3 p3] Hf3. rewrite <- Hstr.
  apply (finish_number_spec INT_BUF m all (m3, p3) props l ps Hf3); try done.
  - unfold all. repeat apply Forall_app_2; [done|apply zeros_chars|]. destruct (n <? 0); repeat constructor.
  - unfold INT_BUF. lia.
  - lia.
Qed.

Lemma rev_digits_nil n base : 0 ≤ n → rev_digits 65 n base = [] ↔ n = 0.
Proof. intros Hn. cbn [rev_digits]. destruct (Z.eqb_spec n 0); done. Qed.

(** The digits of [print_unsigned] up to the padding zeros. *)
Lemma unsigned_digits n base props m :
  0 ≤ n < 2 ^ 64 → base = 10 ∨ base = 16 → precision props ≤ 24 →
  let ds := rev_digits 65 n base in
  len (ds ++ zeros (precision props) ds) ≤ 24 ∧ chars (ds ++ zeros (precision props) ds) ∧
  post (let* mp := digit_loop 65 sp UINT_BUF n base (alloca m sp (Z.to_nat UINT_BUF), sp) in
        let* mp' := zero_loop (S (Z.to_nat UINT_BUF)) sp UINT_BUF (precision props) mp in
        Ret (snd mp, mp')) (λ '(p, mp),
    (p =? sp) = (n =? 0) ∧ filled UINT_BUF m (ds ++ zeros (precision props) ds) mp).
Proof.
  intros Hn Hb Hp ds. pose proof (zeros_length (precision props) ds) as Hz.
  assert (Hds : len ds ≤ 20).
  { destruct Hb as [->| ->]; [apply rev_digits_length; lia|].
    assert (len ds ≤ 16); [apply rev_digits_length; lia|lia]. }
  split_and!.
  - rewrite length_app. lia.
  - apply Forall_app_2; [apply rev_digits_chars; lia|apply zeros_chars].
  - pose proof (filled_start UINT_BUF m ltac:(unfold UINT_BUF; lia)) as Hf0.
    apply post_bind. eapply post_mono; [apply (digit_loop_spec 64 _ _ _ _ _ _ Hf0); [lia| |]|].
    { split; [lia|]. apply Z.lt_le_trans with (2 ^ 64); [lia|].
      destruct Hb as [->| ->]; vm_compute; congruence. }
    { cbn [app]. fold ds. unfold UINT_BUF. lia. }
    cbn [app]. fold ds. intros mp1 Hf1.
    apply post_bind. eapply post_mono; [apply (zero_loop_spec _ _ _ _ _ _ Hf1)|];
      [rewrite length_app; unfold UINT_BUF; lia|unfold UINT_BUF; lia|lia|].
    intros mp2 Hf2. cbn [post]. split; [|done]. rewrite (f_end _ _ _ _ Hf1).
    pose proof (rev_digits_nil n base ltac:(lia)) as Hnil. fold ds in Hnil.
    destruct (Z.eqb_spec n 0) as [E|E]; [apply Hnil in E as ->; cbn; apply Z.eqb_eq; lia|].
    apply Z.eqb_neq. destruct ds; [tauto|cbn; lia].
Qed.

(** Output leaves the digit buffer alone. *)
Lemma filled_out m m' ds mp ps ps' :
  filled UINT_BUF m ds mp → len ds ≤ UINT_BUF → stable (fst mp, ps) (m', ps') →
  filled UINT_BUF m' ds (m', snd mp).
Proof.
  intros [Hb He Hm Hf] Hl Hst. pose proof (local_disjoint UINT_BUF ltac:(unfold UINT_BUF; lia)) as Hd.
  assert (Heq : ∀ q, sp ≤ q < sp + UINT_BUF → m' !! q = fst mp !! q).
  { intros q Hq. apply (Hst q). unfold in_buf, disjoint_regions in *. lia. }
  constructor; cbn [fst snd]; try done.
  - eapply bytes_ext; [done|]. intros q Hq. apply Heq. lia.
  - intros i Hi. rewrite Heq by lia. by apply Hm.
Qed.

Lemma print_unsigned_spec n base props l o :
  wrote l o → 0 ≤ n < 2 ^ 64 → base = 10 ∨ base = 16 → precision props ≤ 24 →
  len l + 28 + Z.abs (npad props) < 2 ^ 31 →
  post (print_unsigned sp n base props o) (λ o', wrote (l ++ uint_out n base props) o').
Proof.
  intros Hw Hn Hb Hp Hlen. destruct o as [m ps]. unfold print_unsigned, uint_out, numeral.
  destruct (unsigned_digits n base props m Hn Hb Hp) as (Hl24 & Hch & Hpost).
  set (ds := rev_digits 65 n base) in *. set (all := ds ++ zeros (precision props) ds) in *.
  assert (Hrev : reverse all = zeros (precision props) ds ++ reverse ds).
  { unfold all. by rewrite reverse_app, reverse_zeros. }
  rewrite <- Hrev. apply post_bind in Hpost. apply post_bind. eapply post_mono; [exact Hpost|].
  intros mp1 Hz. apply post_bind in Hz. cbn [post] in Hz.
  set (props1 := if snd mp1 =? sp then set_alternate false props else props).
  assert (Hpr : precision props1 = precision props) by (unfold props1; destruct (snd mp1 =? sp); reflexivity).
  rewrite Hpr. apply post_bind. eapply post_mono; [exact Hz|].
  intros [m2 p2] [Hnil Hf2]. unfold props1. rewrite Hnil.
  assert (Hw2 : wrote l (m2, ps)).
  { eapply wrote_local; [done|]. intros q Hq. by apply (f_frame _ _ _ _ Hf2). }
  assert (Hplain : ∀ props', npad props' = npad props →
    post (finish_number sp UINT_BUF p2 props' (m2, ps)) (λ o', wrote (l ++ pad_str (set_precision (-1) props') (reverse all)) o')).
  { intros props' En. apply (finish_number_spec UINT_BUF m all (m2, p2) props' l ps Hf2);
      try done; rewrite ?En; unfold UINT_BUF; lia. }
  destruct (Z.eqb_spec n 0) as [->|Hn0]; cbn [negb].
  { cbn [alternate set_alternate andb]. rewrite andb_false_r. cbn [bind].
    eapply post_mono; [by apply Hplain|]. done. }
  rewrite andb_true_r. destruct (alternate props && (base =? 16)); cbn [bind]; [|by apply Hplain].
  destruct (pad props =? c_0).
  - rewrite bind_assoc. apply post_bind.
    eapply post_mono; [apply (addchar_spec c_0 _ _ Hw2); lia|]. intros o3 [Hw3 Hst3].
    rewrite bind_assoc. apply post_bind.
    eapply post_mono; [apply (addchar_spec c_x _ _ Hw3); rewrite length_app; cbn [length]; lia|].
    intros [m4 ps4] [Hw4 Hst4]. cbn [bind]. rewrite <- app_assoc in Hw4. rewrite app_assoc.
    pose proof (filled_out m m4 all (m2, p2) ps ps4 Hf2) as Hf4. cbn [fst snd] in Hf4.
    eapply post_mono.
    { apply (finish_number_spec UINT_BUF m4 all (m4, p2) _ (l ++ [c_0; c_x]) ps4); [apply Hf4|..]; try done.
      - unfold UINT_BUF. lia.
      - by eapply stable_trans.
      - unfold UINT_BUF. lia.
      - rewrite length_app. cbn [length app]. destruct (Z.ltb_spec 0 (npad props)); cbn [npad set_npad]; lia. }
    intros o' Hw'. by destruct (0 <? npad props).
  - rewrite bind_assoc. apply post_bind.
    eapply post_mono; [apply (put_spec _ _ _ _ c_x Hf2); [unfold UINT_BUF; lia|lia]|].
    intros mp3 Hf3. rewrite bind_assoc. apply post_bind.
    eapply post_mono; [apply (put_spec _ _ _ _ c_0 Hf3); [rewrite length_app; unfold UINT_BUF; cbn [length]; lia|lia]|].
    intros [m4 p4] Hf4. cbn [bind].
    replace ([c_0; c_x] ++ reverse all) with (reverse ((all ++ [c_x]) ++ [c_0])) by (by rewrite !reverse_app).
    apply (finish_number_spec UINT_BUF m _ (m4, p4) props l ps Hf4); try done.
    + apply Forall_app_2; [apply Forall_app_2; [done|]|]; apply Forall_singleton; lia.
    + rewrite !length_app. unfold UINT_BUF. cbn [length]. lia.
    + rewrite !length_app. cbn [length]. lia.
Qed.
End stream.
