(* ===== verification/PrintfFmt.v ===== *)
(** * The format side of lib/printf.c

    The syntax of conversion specifications as data, and what [vsnprintf]
    makes of a format string built from them. *)

From S2P Require Import Prelude.
From S2P Require Import CMem.
From S2P Require Import CString.
From S2P Require Import CStringSpec.
From S2P Require Import CStringMem.
From S2P Require Import CStringNum.
From S2P Require Import CStringGlob.
From S2P Require Import Printf.
From S2P Require Import PrintfOut.

(** ** Syntax *)

Inductive width : Type := NoWidth | ZeroWidth (cs : list Z) | Width (cs : list Z) | LeftWidth (cs : list Z).
Inductive prec : Type := NoPrec | Prec (cs : list Z) | PrecStar.
Inductive conversion : Type := ConvD | ConvU | ConvX | ConvP | ConvS | ConvC | ConvPercent.

(** A conversion specification: an optional [#], a width, a precision, how
    many [l], and the conversion. *)
Record directive : Type := mk_dir {
  d_alt : bool; d_width : width; d_prec : prec; d_long : nat; d_conv : conversion }.

Definition conv_char (c : conversion) : Z :=
  match c with
  | ConvD => c_d | ConvU => c_u | ConvX => c_x | ConvP => c_p
  | ConvS => c_s | ConvC => c_c | ConvPercent => c_percent
  end.
Definition width_text (w : width) : list Z :=
  match w with
  | NoWidth => [] | ZeroWidth cs => c_0 :: cs | Width cs => cs | LeftWidth cs => c_minus :: cs
  end.
Definition prec_text (p : prec) : list Z :=
  match p with NoPrec => [] | Prec cs => c_dot :: cs | PrecStar => [c_dot; c_star] end.
Definition dir_text (d : directive) : list Z :=
  (if d_alt d then [c_hash] else []) ++ width_text (d_width d) ++ prec_text (d_prec d) ++
  replicate (d_long d) c_l ++ [conv_char (d_conv d)].

(** Decimal numerals in the format, and their value. *)
Definition dec (cs : list Z) : Z := num 10 0 (map (λ c, c - c_0) cs).
Definition dec_ok (cs : list Z) : Prop :=
  cs ≠ [] ∧ Forall (λ c, c_0 ≤ c ≤ c_9) cs ∧ dec cs ≤ 2 ^ 20.
Definition width_ok (w : width) : Prop :=
  match w with
  | NoWidth => True | ZeroWidth cs | LeftWidth cs => dec_ok cs
  | Width cs => dec_ok cs ∧ head cs ≠ Some c_0
  end.
Definition prec_ok (p : prec) : Prop := match p with Prec cs => dec_ok cs | _ => True end.

(** ** Meaning *)

Definition width_props (w : width) (p : strprops) : strprops :=
  match w with
  | NoWidth => p
  | ZeroWidth cs => set_npad (dec cs) (set_pad c_0 p)
  | Width cs => set_npad (dec cs) p
  | LeftWidth cs => set_npad (- dec cs) p
  end.
(** A precision may be an argument of its own. *)
Inductive prec_props (p : strprops) : prec → list Z → strprops → Prop :=
| prec_none : prec_props p NoPrec [] p
| prec_num cs : prec_props p (Prec cs) [] (set_precision (dec cs) (set_pad c_space p))
| prec_star a : prec_props p PrecStar [a] (set_precision (s32 a) (set_pad c_space p)).

Section format.
Context (buf size sp : Z) (m0 : memory).

(** The text of one conversion and the arguments it takes. *)
Inductive conv_spec (nlong : Z) (p : strprops) : conversion → list Z → list Z → Prop :=
| conv_d a : signed_arg nlong a ≠ - 2 ^ 63 → precision p ≤ 24 →
    conv_spec nlong p ConvD [a]
      (pad_str (set_precision (-1) p) (int_str (signed_arg nlong a) (precision p)))
| conv_u a : precision p ≤ 24 →
    conv_spec nlong p ConvU [a] (uint_out (unsigned_arg nlong a) 10 p)
| conv_x a : precision p ≤ 24 →
    conv_spec nlong p ConvX [a] (uint_out (unsigned_arg nlong a) 16 p)
| conv_p a : precision p ≤ 24 →
    conv_spec nlong p ConvP [a] (uint_out (u64 a) 16 (set_alternate true p))
| conv_s a s : nlong = 0 → cstr m0 a s → disjoint_regions buf size a (len s + 1) →
    len s ≤ 2 ^ 20 → - 2 ^ 31 + len s < precision p < 2 ^ 31 →
    conv_spec nlong p ConvS [a] (pad_str p s)
| conv_c a : conv_spec nlong p ConvC [a] [u8 a]
| conv_percent : conv_spec nlong p ConvPercent [] [c_percent].

Inductive dir_spec (d : directive) : list Z → list Z → Prop :=
| dir_spec_intro a1 a2 p text :
    prec_props (width_props (d_width d) (set_alternate (d_alt d) props0)) (d_prec d) a1 p →
    conv_spec (Z.of_nat (d_long d)) p (d_conv d) a2 text →
    dir_spec d (a1 ++ a2) text.

(** [renders fmt args text]: printing [args] under [fmt] yields [text]. *)
Inductive renders : list Z → list Z → list Z → Prop :=
| renders_nil args : renders [] args []
| renders_lit c fmt args text :
    0 < c < 256 → c ≠ c_percent → renders fmt args text → renders (c :: fmt) args (c :: text)
| renders_dir d a1 t1 fmt args text :
    width_ok (d_width d) → prec_ok (d_prec d) → dir_spec d a1 t1 → renders fmt args text →
    renders (c_percent :: dir_text d ++ fmt) (a1 ++ args) (t1 ++ text).
End format.

(** ** Numbers in the format *)

Lemma ldc_ascii m p c s : cstr m p (c :: s) → c < 128 → ldc m p = Ret c.
Proof. intros (E & Hc & _)%cstr_cons Ha. rewrite (ldc_ldb _ _ _ E), s8_ascii by lia. done. Qed.

Lemma digit_of_dec c : c_0 ≤ c ≤ c_9 → digit_of (s8 c) 10 = Some (c - c_0).
Proof.
  intros Hc. rewrite s8_ascii by lia. unfold digit_of.
  by rewrite !(proj2 (Z.leb_le _ _)), (proj2 (Z.ltb_lt _ _)) by lia.
Qed.

Lemma dec_digits cs : Forall (λ c, c_0 ≤ c ≤ c_9) cs → digits_as 10 cs (map (λ c, c - c_0) cs).
Proof. induction 1; cbn; constructor; [by apply digit_of_dec|done]. Qed.

(** What follows a numeral does not continue it. *)
Definition stops (rest : list Z) : Prop :=
  match rest with [] => True | c :: _ => 0 < c < 128 ∧ ¬ (c_0 ≤ c ≤ c_9) end.

Lemma stops_no_digit rest : stops rest → no_digit 10 rest.
Proof.
  destruct rest as [|c rest]; [done|]. cbn. intros [Hr Hc]. rewrite s8_ascii by lia.
  destruct (digit_of c 10) as [d|] eqn:E; [|done]. exfalso. unfold digit_of in E. digit_cases E; lia.
Qed.

Lemma digit_run_spec f m p cs rest n :
  cstr m p (cs ++ rest) → (length cs < f)%nat → Forall (λ c, c_0 ≤ c ≤ c_9) cs → stops rest →
  digit_run f m p n = Ret (n + len cs).
Proof.
  intros Hs Hf Hc Hr. revert f p n Hs Hf. induction Hc as [|c cs Hc Hcs IH]; intros f p n Hs Hf;
    (destruct f as [|f]; [lia|]); cbn [digit_run app] in *.
  - destruct rest as [|c rest].
    + cstr_nil_step Hs. cbn. f_equal. lia.
    + destruct Hr as [Hr1 Hr2]. rewrite (ldc_ascii _ _ _ _ Hs) by lia. cbn [bind length].
      destruct ((c_0 <=? c) && (c <=? c_9)) eqn:E; [|f_equal; cbn; lia].
      apply andb_true_iff in E. rewrite !Z.leb_le in E. lia.
  - rewrite (ldc_ascii _ _ _ _ Hs) by lia. cbn [bind]. rewrite !(proj2 (Z.leb_le _ _)) by lia. cbn [andb length] in *.
    apply cstr_cons in Hs as (_ & _ & Hs). rewrite (IH f (p + 1)) by (done || lia). f_equal. lia.
Qed.

Lemma atol_dec m p sg neg cs rest :
  cstr m p (sg ++ cs ++ rest) → sign_of sg neg → dec_ok cs → stops rest →
  atol m p = Ret (if neg then - dec cs else dec cs).
Proof.
  intros Hs Hsg (Hne & Hcs & Hd) Hr. unfold atol, strtol. pose proof (dec_digits _ Hcs) as Hdig.
  assert (Hv : 0 ≤ dec cs) by (by apply (num_nonneg 10 _ cs)).
  rewrite (__strtoll_spec m p 10 true false [] sg neg [] 10 cs (map (λ c, c - c_0) cs) rest); try done.
  - fold (dec cs). cbn [limit]. rewrite (proj2 (Z.ltb_lt _ _)) by lia. cbn [bind].
    destruct neg; [by rewrite s64_neg by lia|]. unfold s64. by rewrite (sgn_small 64) by lia.
  - by constructor.
  - by apply stops_no_digit.
  - by right.
Qed.

Lemma fmtnum_pos m p cs rest :
  cstr m p (cs ++ rest) → dec_ok cs → stops rest → fmtnum m p = Ret (dec cs, p + len cs).
Proof.
  intros Hs Hok Hr. pose proof Hok as (Hne & Hcs & Hd). unfold fmtnum.
  destruct cs as [|c cs]; [done|]. pose proof (Forall_inv Hcs) as Hc. cbn beta in Hc. cbn [app] in Hs.
  rewrite (ldc_ascii _ _ _ _ Hs) by lia. cbn [bind]. rewrite (proj2 (Z.eqb_neq c c_minus)) by lia.
  rewrite (digit_run_spec _ _ _ (c :: cs) rest); [|done| |done|done].
  2: { apply cstr_fuel in Hs. cbn [length] in *. rewrite length_app in Hs. lia. }
  cbn [bind]. rewrite (atol_dec m p [] false (c :: cs) rest); try done; [|by right; split; [right|]].
  cbn [bind]. assert (Hv : 0 ≤ dec (c :: cs)) by (apply (num_nonneg 10 _ (c :: cs)); [lia|by apply dec_digits]).
  by rewrite s32_small by lia.
Qed.

Lemma fmtnum_neg m p cs rest :
  cstr m p (c_minus :: cs ++ rest) → dec_ok cs → stops rest →
  fmtnum m p = Ret (- dec cs, p + (len cs + 1)).
Proof.
  intros Hs Hok Hr. pose proof Hok as (Hne & Hcs & Hd). unfold fmtnum.
  rewrite (ldc_ascii _ _ _ _ Hs) by lia. cbn [bind]. rewrite Z.eqb_refl.
  pose proof (cstr_cons _ _ _ _ Hs) as (_ & _ & Hs').
  rewrite (digit_run_spec _ _ _ cs rest); [|done| |done|done].
  2: { apply cstr_fuel in Hs'. rewrite length_app in Hs'. lia. }
  cbn [bind]. rewrite (atol_dec m p [c_minus] true cs rest); try done; [|by left].
  cbn [bind]. assert (Hv : 0 ≤ dec cs) by (apply (num_nonneg 10 _ cs); [lia|by apply dec_digits]).
  rewrite s32_small by lia. do 2 f_equal. lia.
Qed.

Lemma skip_atoi_loop_spec f m p c cs rest i :
  cstr m p (c :: cs ++ rest) → (length cs < f)%nat → Forall (λ c, c_0 ≤ c ≤ c_9) (c :: cs) → stops rest →
  0 ≤ i → num 10 i (map (λ c, c - c_0) (c :: cs)) ≤ 2 ^ 20 →
  skip_atoi_loop f m p i = Ret (num 10 i (map (λ c, c - c_0) (c :: cs)), p + len (c :: cs)).
Proof.
  revert p c cs i. induction f as [|f IH]; intros p c cs i Hs Hf Hc Hr Hi Hn; [lia|]. cbn [skip_atoi_loop].
  apply Forall_cons in Hc as [Hc Hcs]. rewrite (ldc_ascii _ _ _ _ Hs) by lia. cbn [bind].
  apply cstr_cons in Hs as (_ & _ & Hs). cbn [map] in Hn |- *.
  change (num 10 i ((c - c_0) :: ?l)) with (num 10 (i * 10 + (c - c_0)) l) in Hn |- *.
  assert (i * 10 + (c - c_0) ≤ num 10 (i * 10 + (c - c_0)) (map (λ c, c - c_0) cs)).
  { apply num_mono; [lia|lia|]. apply Forall_fmap. eapply Forall_impl; [exact Hcs|]. cbn. lia. }
  rewrite !sint_ok by lia. cbn [bind]. replace (i * 10 + c - c_0) with (i * 10 + (c - c_0)) by lia.
  rewrite sint_ok by lia. cbn [bind].
  destruct cs as [|c' cs]; cbn [app] in Hs.
  - assert (E : ldc m (p + 1) = Ret (match rest with [] => 0 | x :: _ => x end)).
    { destruct rest as [|x rest]; [by cstr_nil_step Hs|]. destruct Hr as [? _].
      by rewrite (ldc_ascii _ _ _ _ Hs) by lia. }
    rewrite E. cbn [bind]. assert (isdigit (match rest with [] => 0 | x :: _ => x end) = false) as ->; [|done].
    destruct rest as [|x rest]; [done|]. destruct Hr as [_ Hr]. unfold isdigit.
    destruct (Z.leb_spec c_0 x), (Z.leb_spec x c_9); cbn; done || lia.
  - pose proof (Forall_inv Hcs) as Hc'. cbn beta in Hc'. rewrite (ldc_ascii _ _ _ _ Hs) by lia. cbn [bind].
    unfold isdigit. rewrite !(proj2 (Z.leb_le _ _)) by lia. cbn [andb length] in *.
    rewrite (IH (p + 1) c' cs) by (done || lia). do 2 f_equal. cbn [length]. lia.
Qed.

Lemma skip_atoi_spec m p cs rest :
  cstr m p (cs ++ rest) → dec_ok cs → stops rest → skip_atoi m p = Ret (dec cs, p + len cs).
Proof.
  intros Hs (Hne & Hcs & Hd) Hr. destruct cs as [|c cs]; [done|]. unfold skip_atoi.
  rewrite (skip_atoi_loop_spec _ _ _ c cs rest); try done.
  apply cstr_fuel in Hs. cbn [app length] in Hs. rewrite length_app in Hs. lia.
Qed.

(** ** One conversion specification *)

Section printing.
Context (buf size sp : Z) (m0 : memory).
Context (Hsize : 1 ≤ size < 2 ^ 31) (Hmap : mapped m0 buf size) (Hsp : fresh_region m0 sp UINT_BUF).
Local Abbreviation wrote := (wrote buf size sp m0).
Local Abbreviation conv_spec := (conv_spec buf size m0).

(** A string that is neither in the output buffer nor on the stack stays. *)
Lemma wrote_cstr l o p s :
  wrote l o → cstr m0 p s → disjoint_regions buf size p (len s + 1) → cstr (fst o) p s.
Proof.
  intros Hw Hs Hd. eapply cstr_ext; [done|]. intros q Hq. apply (w_frame _ _ _ _ _ _ Hw).
  - unfold in_buf, disjoint_regions in *. lia.
  - pose proof (fresh_disjoint _ _ _ _ _ Hsp ltac:(unfold UINT_BUF; lia) Hs) as Hd'.
    unfold in_local, disjoint_regions in *. lia.
Qed.

(** The format string behind the current position. *)
Definition fmt_at (p : Z) (s : list Z) : Prop :=
  cstr m0 p s ∧ disjoint_regions buf size p (len s + 1).

Lemma fmt_at_app p s1 s2 : fmt_at p (s1 ++ s2) → fmt_at (p + len s1) s2.
Proof.
  intros [Hs Hd]. split; [by apply cstr_app|]. rewrite length_app in Hd.
  unfold disjoint_regions in *. lia.
Qed.

Lemma fmt_char l o p c s : wrote l o → fmt_at p (c :: s) → c < 128 → ldc (fst o) p = Ret c.
Proof. intros Hw [Hs Hd] Hc. eapply ldc_ascii; [by eapply wrote_cstr|done]. Qed.

(** The outcome of a conversion: the position, the arguments left, the
    stream. *)
Definition done_at (fmt : Z) (args l : list Z) (r : Z * list Z * out) : Prop :=
  let '(fmt', args', o') := r in fmt' = fmt ∧ args' = args ∧ wrote l o'.

Lemma signed_arg_range nlong a : - 2 ^ 63 ≤ signed_arg nlong a < 2 ^ 63.
Proof.
  unfold signed_arg, s32, s64. destruct (nlong =? 0).
  - pose proof (sgn_range 32 a). lia.
  - pose proof (sgn_range 64 a). lia.
Qed.
Lemma unsigned_arg_range nlong a : 0 ≤ unsigned_arg nlong a < 2 ^ 64.
Proof.
  unfold unsigned_arg. destruct (nlong =? 0); [pose proof (u32_range a)|pose proof (u64_range a)]; lia.
Qed.

Lemma morefmt_conv f p nlong props c a args text rest l o :
  wrote l o → fmt_at p (conv_char c :: rest) → conv_spec nlong props c a text →
  len l + 2 ^ 22 < 2 ^ 31 → Z.abs (npad props) ≤ 2 ^ 20 →
  post (morefmt (S f) sp p nlong props (a ++ args) o) (done_at (p + 1) args (l ++ text)).
Proof.
  intros Hw Hf Hc Hl Hn. cbn [morefmt].
  rewrite (fmt_char l o p (conv_char c) rest) by (done || by destruct c). cbn [bind].
  pose proof (signed_arg_range nlong). pose proof (unsigned_arg_range nlong).
  destruct Hc as [a Hmin Hp|a Hp|a Hp|a Hp|a s Hnl Hs Hd Hlen Hp|a|];
    cbn [conv_char Z.eqb Pos.eqb orb andb Z.leb Z.compare Pos.compare Pos.compare_cont va_arg app bind].
  - apply post_bind. specialize (H a). eapply post_mono; [apply (print_int_spec buf size sp m0); try done; lia|done].
  - apply post_bind. eapply post_mono; [apply (print_unsigned_spec buf size sp m0); try done; [by left|lia]|done].
  - apply post_bind. eapply post_mono; [apply (print_unsigned_spec buf size sp m0); try done; [by right|lia]|done].
  - apply post_bind. pose proof (u64_range a).
    eapply post_mono; [apply (print_unsigned_spec buf size sp m0); try done; [by right|cbn; lia]|done].
  - subst nlong. cbn [Z.eqb negb]. apply post_bind.
    eapply post_mono; [apply (print_str_spec buf size sp m0 Hsize a s); try done; [by eapply wrote_cstr|lia]|].
    by intros o' [? _].
  - apply post_bind. eapply post_mono; [apply (addchar_spec buf size sp m0 Hsize a l o Hw); lia|].
    by intros o' [? _].
  - apply post_bind. eapply post_mono; [apply (addchar_spec buf size sp m0 Hsize c_percent l o Hw); lia|].
    by intros o' [? _].
Qed.

Lemma morefmt_long k f p nlong props c a args text rest l o :
  wrote l o → fmt_at p (replicate k c_l ++ conv_char c :: rest) →
  conv_spec (nlong + Z.of_nat k) props c a text → (k < f)%nat →
  len l + 2 ^ 22 < 2 ^ 31 → Z.abs (npad props) ≤ 2 ^ 20 →
  post (morefmt f sp p nlong props (a ++ args) o) (done_at (p + Z.of_nat k + 1) args (l ++ text)).
Proof.
  intros Hw Hf Hc Hk Hl Hn. revert f p nlong Hf Hc Hk. induction k as [|k IH]; intros f p nlong Hf Hc Hk;
    (destruct f as [|f]; [lia|]); cbn [replicate app] in Hf.
  - rewrite !Z.add_0_r in *. by eapply morefmt_conv.
  - cbn [morefmt]. rewrite (fmt_char l o p c_l _ Hw Hf) by lia.
    cbn [bind Z.eqb Pos.eqb orb andb Z.leb Z.compare Pos.compare Pos.compare_cont].
    replace (p + Z.of_nat (S k) + 1) with (p + 1 + Z.of_nat k + 1) by lia.
    apply IH; [|by replace (nlong + 1 + Z.of_nat k) with (nlong + Z.of_nat (S k)) by lia|lia].
    change (c_l :: ?l) with ([c_l] ++ l) in Hf. by apply fmt_at_app in Hf.
Qed.

(** Steps over a character of the format that is known. *)
Ltac fmt_step Hw Hf :=
  cbn [morefmt]; rewrite (fmt_char _ _ _ _ _ Hw Hf) by lia;
  cbn [bind Z.eqb Pos.eqb orb andb Z.leb Z.compare Pos.compare Pos.compare_cont].

Lemma conv_char_stops c rest : stops (conv_char c :: rest).
Proof. destruct c; cbn; lia. Qed.
Lemma long_stops k c rest : stops (replicate k c_l ++ conv_char c :: rest).
Proof. destruct k; [apply conv_char_stops|cbn; lia]. Qed.
Lemma prec_stops pr k c rest : stops (prec_text pr ++ replicate k c_l ++ conv_char c :: rest).
Proof. destruct pr; [apply long_stops|cbn; lia..]. Qed.

Lemma fmt_at_tail p c s : fmt_at p (c :: s) → fmt_at (p + 1) s.
Proof. intros H. change (c :: s) with ([c] ++ s) in H. by apply fmt_at_app in H. Qed.

Lemma morefmt_prec pr k f p props props' c a1 a2 args text rest l o :
  wrote l o → fmt_at p (prec_text pr ++ replicate k c_l ++ conv_char c :: rest) → prec_ok pr →
  prec_props props pr a1 props' → conv_spec (Z.of_nat k) props' c a2 text → (S k < f)%nat →
  len l + 2 ^ 22 < 2 ^ 31 → Z.abs (npad props) ≤ 2 ^ 20 →
  post (morefmt f sp p 0 props (a1 ++ a2 ++ args) o)
    (done_at (p + len (prec_text pr) + Z.of_nat k + 1) args (l ++ text)).
Proof.
  intros Hw Hf Hok Hpr Hc Hk Hl Hn. destruct Hpr as [|cs|a]; cbn [prec_text app prec_ok] in *.
  - rewrite Z.add_0_r. apply (morefmt_long k f p 0 props c a2 args text rest l o); try done. lia.
  - destruct f as [|f]; [lia|]. fmt_step Hw Hf. apply fmt_at_tail in Hf.
    unfold get_int. pose proof Hok as (Hne & Hcs & _). destruct cs as [|x cs]; [done|].
    pose proof (Forall_inv Hcs) as Hx. cbn beta in Hx. cbn [app] in Hf.
    rewrite (fmt_char _ _ _ _ _ Hw Hf) by lia. cbn [bind]. unfold isdigit.
    rewrite !(proj2 (Z.leb_le _ _)) by lia. cbn [andb].
    destruct Hf as [Hs Hd]. pose proof (wrote_cstr _ _ _ _ Hw Hs Hd) as Hs'.
    change (x :: cs ++ ?r) with ((x :: cs) ++ r) in Hs', Hs, Hd.
    rewrite (skip_atoi_spec _ _ (x :: cs) _ Hs' Hok) by apply long_stops. cbn [bind].
    pose proof (fmt_at_app _ _ _ (conj Hs Hd)) as Hf.
    replace (p + len (c_dot :: x :: cs) + Z.of_nat k + 1) with (p + 1 + len (x :: cs) + Z.of_nat k + 1)
      by (cbn [length]; lia).
    eapply morefmt_long; try done. lia.
  - destruct f as [|f]; [lia|]. fmt_step Hw Hf. apply fmt_at_tail in Hf. unfold get_int.
    rewrite (fmt_char _ _ _ _ _ Hw Hf) by lia. cbn [bind isdigit Z.leb Z.compare Pos.compare Pos.compare_cont andb Z.eqb Pos.eqb va_arg].
    apply fmt_at_tail in Hf.
    replace (p + len [c_dot; c_star] + Z.of_nat k + 1) with (p + 1 + 1 + Z.of_nat k + 1) by (cbn [length]; lia).
    eapply morefmt_long; try done. lia.
Qed.

Lemma dec_nonneg cs : dec_ok cs → 0 ≤ dec cs.
Proof. intros (_ & Hcs & _). apply (num_nonneg 10 _ cs); [lia|by apply dec_digits]. Qed.

Lemma morefmt_width w pr k f p props props' c a1 a2 args text rest l o :
  wrote l o → fmt_at p (width_text w ++ prec_text pr ++ replicate k c_l ++ conv_char c :: rest) →
  width_ok w → prec_ok pr → prec_props (width_props w props) pr a1 props' →
  conv_spec (Z.of_nat k) props' c a2 text → (S (S k) < f)%nat →
  len l + 2 ^ 22 < 2 ^ 31 → npad props = 0 →
  post (morefmt f sp p 0 props (a1 ++ a2 ++ args) o)
    (done_at (p + len (width_text w ++ prec_text pr) + Z.of_nat k + 1) args (l ++ text)).
Proof.
  intros Hw Hf Hwok Hok Hpr Hc Hk Hl Hn. rewrite length_app, Nat2Z.inj_add, Z.add_assoc.
  assert (Hnum : ∀ cs q, fmt_at q (cs ++ prec_text pr ++ replicate k c_l ++ conv_char c :: rest) →
    dec_ok cs → fmtnum (fst o) q = Ret (dec cs, q + len cs)).
  { intros cs q [Hs Hd] Hcs. pose proof (wrote_cstr _ _ _ _ Hw Hs Hd).
    eapply fmtnum_pos; [done|done|apply prec_stops]. }
  assert (Hgo : ∀ props q, fmt_at q (prec_text pr ++ replicate k c_l ++ conv_char c :: rest) →
    prec_props props pr a1 props' → Z.abs (npad props) ≤ 2 ^ 20 → ∀ f, (S k < f)%nat →
    post (morefmt f sp q 0 props (a1 ++ a2 ++ args) o)
      (done_at (q + len (prec_text pr) + Z.of_nat k + 1) args (l ++ text))).
  { intros. by eapply morefmt_prec. }
  destruct w as [|cs|cs|cs]; cbn [width_text app width_ok width_props] in *.
  - rewrite Z.add_0_r. apply (Hgo props); done || lia.
  - destruct f as [|f]; [lia|]. fmt_step Hw Hf. apply fmt_at_tail in Hf.
    replace (p + 1 + 1 - 1) with (p + 1) by lia. rewrite (Hnum cs) by done. cbn [bind].
    pose proof (dec_nonneg _ Hwok). destruct Hwok as (_ & _ & ?).
    replace (p + len (c_0 :: cs)) with (p + 1 + len cs) by (cbn [length]; lia).
    apply (Hgo _ (p + 1 + len cs)); [by apply fmt_at_app|done|cbn; lia|lia].
  - destruct Hwok as [Hdec Hhd]. pose proof Hdec as (Hne & Hcs & ?). pose proof (dec_nonneg _ Hdec).
    destruct f as [|f]; [lia|]. destruct cs as [|x cs]; [done|].
    pose proof (Forall_inv Hcs) as Hx. cbn beta in Hx. cbn [head] in Hhd. assert (x ≠ c_0) by congruence.
    cbn [morefmt]. rewrite (fmt_char _ _ _ _ _ Hw Hf) by lia. cbn [bind].
    rewrite !(proj2 (Z.eqb_neq x _)), !(proj2 (Z.leb_le _ _)) by lia. cbn [andb orb].
    replace (p + 1 - 1) with p by lia. rewrite (Hnum (x :: cs)) by done. cbn [bind].
    apply (Hgo _ (p + len (x :: cs))); [by apply fmt_at_app|done|cbn [npad set_npad]; lia|lia].
  - destruct f as [|f]; [lia|]. fmt_step Hw Hf. replace (p + 1 - 1) with p by lia.
    pose proof Hf as [Hs Hd]. pose proof (wrote_cstr _ _ _ _ Hw Hs Hd) as Hs'.
    rewrite (fmtnum_neg _ _ cs _ Hs' Hwok) by apply prec_stops. cbn [bind].
    pose proof (dec_nonneg _ Hwok). destruct Hwok as (_ & _ & ?).
    replace (p + (len cs + 1)) with (p + len (c_minus :: cs)) by (cbn [length]; lia).
    change (c_minus :: cs ++ ?r) with ((c_minus :: cs) ++ r) in Hf.
    apply (Hgo _ (p + len (c_minus :: cs))); [by apply fmt_at_app|done|cbn [npad set_npad]; lia|lia].
Qed.

Lemma morefmt_dir d f p a1 args text rest l o :
  wrote l o → fmt_at p (dir_text d ++ rest) → width_ok (d_width d) → prec_ok (d_prec d) →
  dir_spec buf size m0 d a1 text → (S (S (S (d_long d))) < f)%nat → len l + 2 ^ 22 < 2 ^ 31 →
  post (morefmt f sp p 0 props0 (a1 ++ args) o) (done_at (p + len (dir_text d)) args (l ++ text)).
Proof.
  intros Hw Hf Hwok Hok [b1 b2 props' text' Hpr Hc] Hk Hl.
  destruct d as [alt w pr k c]; unfold dir_text in *; cbn [d_alt d_width d_prec d_long d_conv] in *.
  rewrite <- !app_assoc in Hf. rewrite <- app_assoc.
  replace (p + len _) with (p + (if alt then 1 else 0) + len (width_text w ++ prec_text pr) + Z.of_nat k + 1).
  2: { rewrite !length_app, length_replicate. destruct alt; cbn [length]; lia. }
  destruct alt; cbn [app] in Hf.
  - destruct f as [|f]; [lia|]. fmt_step Hw Hf. apply fmt_at_tail in Hf.
    eapply morefmt_width; try done. lia.
  - rewrite Z.add_0_r. eapply morefmt_width; try done. lia.
Qed.

(** ** The whole format *)

Lemma fmt_loop_spec fmt args text f p l o :
  renders buf size m0 fmt args text → wrote l o → fmt_at p fmt → (length fmt < f)%nat →
  len l + len text + 2 ^ 22 < 2 ^ 31 →
  post (fmt_loop f sp p args o) (wrote (l ++ text)).
Proof.
  intros Hr. revert f p l o.
  induction Hr as [args|c fmt args text Hc Hnp Hr IH|d a1 t1 fmt args text Hwok Hok Hd Hr IH];
    intros f p l o Hw Hf Hfuel Hlen; (destruct f as [|f]; [lia|]); cbn [fmt_loop].
  - destruct Hf as [Hs Hd]. pose proof (wrote_cstr _ _ _ _ Hw Hs Hd) as Hs'. cstr_nil_step Hs'.
    cbn. by rewrite app_nil_r.
  - pose proof Hf as [Hs Hd]. pose proof (wrote_cstr _ _ _ _ Hw Hs Hd) as Hs'. cstr_cons_step Hs'.
    rewrite s8_zero, (proj2 (Z.eqb_neq c 0)) by lia.
    pose proof (char_eq c c_percent ltac:(lia)) as Ec. change (s8 c_percent) with c_percent in Ec.
    rewrite Ec. change (u8 c_percent) with c_percent. rewrite (proj2 (Z.eqb_neq c c_percent)) by done.
    cbn [negb length] in *. apply post_bind.
    eapply post_mono; [apply (addchar_spec buf size sp m0 Hsize (s8 c) l o Hw); lia|]. intros o1 [Hw1 _].
    assert (Eu : u8 (s8 c) = c).
    { unfold u8, s8, sgn. change (2 ^ (8 - 1)) with 128. change (2 ^ 8) with 256. Z.div_mod_to_equations. lia. }
    rewrite Eu in Hw1. replace (l ++ c :: text) with ((l ++ [c]) ++ text) by (by rewrite <- app_assoc).
    apply IH; [done|by eapply fmt_at_tail|lia|]. rewrite length_app. cbn [length]. lia.
  - rewrite (fmt_char _ _ _ _ _ Hw Hf) by lia. cbn [bind Z.eqb Pos.eqb negb].
    rewrite length_app in Hlen. cbn [length] in *.
    assert (Hmf : (S (S (S (d_long d))) < fuel (fst o))%nat).
    { destruct Hf as [Hs Hd']. pose proof (wrote_cstr _ _ _ _ Hw Hs Hd') as [Hb _]. apply bytes_fuel in Hb.
      rewrite length_app in Hb. cbn [length] in Hb. rewrite length_app in Hb. unfold dir_text in Hb.
      rewrite !length_app, length_replicate in Hb. cbn [length] in Hb. lia. }
    apply fmt_at_tail in Hf. apply post_bind.
    eapply post_mono; [eapply (morefmt_dir d _ _ a1 args t1 fmt l o); try done; lia|].
    intros [[p' args'] o1] (-> & -> & Hw1). rewrite app_assoc.
    apply IH; [done|by apply fmt_at_app| |].
    + rewrite length_app in Hfuel. lia.
    + rewrite length_app. lia.
Qed.

Lemma vsnprintf_spec p fmt args text :
  renders buf size m0 fmt args text → fmt_at p fmt → len text + 2 ^ 22 < 2 ^ 31 →
  post (vsnprintf sp buf size p args m0) (λ '(r, m'),
    r = len text ∧ bytes m' buf (take (Z.to_nat (size - 1)) text ++ [0]) ∧
    mapped m' buf size ∧ ∀ q, ¬ in_buf buf size q → m' !! q = m0 !! q).
Proof.
  intros Hr Hf Hlen. unfold vsnprintf. rewrite sint_ok by lia. cbn [bind].
  pose proof (wrote_start buf size sp m0 Hsize Hmap) as Hw0.
  apply post_bind. eapply post_mono.
  { eapply (fmt_loop_spec fmt args text _ p [] _ Hr Hw0 Hf); [by eapply cstr_fuel, Hf|cbn [length]; lia]. }
  intros [m s] [Hb Hrm Ha Hby Hm Hfr]. cbn [app fst snd] in *. rewrite Hb, Ha.
  destruct (Hm (Z.min (len text) (size - 1))) as [Ho Hs]; [lia|].
  rewrite (stb_mapped _ _ _ Ho Hs). cbn [bind post]. change (u8 0) with 0. split; [done|].
  assert (Hlook : ∀ q, ¬ in_local sp q → dealloca (<[buf + Z.min (len text) (size - 1) := 0]> m) sp
    (Z.to_nat UINT_BUF) !! q = <[buf + Z.min (len text) (size - 1) := 0]> m !! q).
  { intros q Hq. rewrite dealloca_lookup, decide_False; [done|]. unfold in_local in Hq. lia. }
  assert (Hnl : ∀ q, in_buf buf size q → ¬ in_local sp q)
    by (intros q H1 H2; by apply (buf_local_disjoint buf size sp m0 Hmap Hsp q)).
  split.
  - apply bytes_app. rewrite length_take.
    replace (Z.of_nat (Z.to_nat (size - 1) `min` length text)) with (Z.min (len text) (size - 1)) by lia. split.
    + eapply bytes_ext; [done|]. intros q Hq. rewrite length_take in Hq.
      rewrite Hlook by (apply Hnl; unfold in_buf; lia). by rewrite lookup_insert_ne by lia.
    + cbn. rewrite Hlook by (apply Hnl; unfold in_buf; lia). rewrite lookup_insert_eq. by split_and!.
  - split.
    { intros i Hi. rewrite Hlook by (apply Hnl; unfold in_buf; lia). by apply (mapped_insert _ _ size). }
    intros q Hq. destruct (decide (sp ≤ q < sp + UINT_BUF)) as [Hl|Hl].
    + rewrite dealloca_lookup, decide_True by lia. destruct Hsp as (_ & _ & Hnone). by rewrite Hnone.
    + rewrite Hlook, lookup_insert_ne by (done || unfold in_buf in Hq; lia). by apply Hfr.
Qed.
End printing.
