(* ===== verification/PrintfProps.v ===== *)
(** * Properties of lib/printf.c *)

From S2P Require Import Prelude.
From S2P Require Import CMem.
From S2P Require Import CString.
From S2P Require Import CStringSpec.
From S2P Require Import CStringMem.
From S2P Require Import CStringNum.
From S2P Require Import CStringGlob.
From S2P Require Import CStringProps.
From S2P Require Import Printf.
From S2P Require Import PrintfOut.
From S2P Require Import PrintfFmt.

(** ** Numerals *)

Lemma num_snoc b acc l d : num b acc (l ++ [d]) = num b acc l * b + d.
Proof. unfold num. by rewrite fold_left_app. Qed.

Lemma digit_char_dec i : 0 ≤ i < 10 → digit_char i = c_0 + i.
Proof. intros. unfold digit_char. by rewrite (proj2 (Z.ltb_lt _ _)) by lia. Qed.

Lemma rev_digits_dec f n :
  0 ≤ n < 10 ^ Z.of_nat f →
  Forall (λ c, c_0 ≤ c ≤ c_9) (reverse (rev_digits f n 10)) ∧
  num 10 0 (map (λ c, c - c_0) (reverse (rev_digits f n 10))) = n.
Proof.
  revert n. induction f as [|f IH]; intros n Hn; cbn [rev_digits].
  { change (10 ^ Z.of_nat 0) with 1 in Hn. cbn. split; [constructor|lia]. }
  destruct (Z.eqb_spec n 0) as [->|Hne]; [split; [constructor|done]|].
  pose proof (Z.mod_pos_bound n 10 ltac:(lia)).
  destruct (IH (n / 10)) as [IH1 IH2].
  { split; [apply Z.div_pos; lia|]. apply Z.div_lt_upper_bound; [lia|].
    rewrite <- Z.pow_succ_r by lia. replace (Z.succ (Z.of_nat f)) with (Z.of_nat (S f)) by lia. lia. }
  rewrite reverse_cons, digit_char_dec by lia. split.
  - apply Forall_app_2; [done|]. apply Forall_singleton. lia.
  - rewrite map_app. cbn [map]. rewrite num_snoc, IH2. pose proof (Z.div_mod n 10). lia.
Qed.

(** The digits of [int_str] denote the absolute value. *)
Lemma numeral_dec n : 0 ≤ n < 2 ^ 63 →
  numeral n 10 (-1) ≠ [] ∧ Forall (λ c, c_0 ≤ c ≤ c_9) (numeral n 10 (-1)) ∧
  num 10 0 (map (λ c, c - c_0) (numeral n 10 (-1))) = n.
Proof.
  intros Hn. unfold numeral. destruct (rev_digits_dec 65 n) as [Hd Hv].
  { split; [lia|]. apply Z.lt_trans with (2 ^ 63); [lia|]. by vm_compute. }
  pose proof (rev_digits_nil n 10 ltac:(lia)) as Hnil.
  destruct (decide (n = 0)) as [->|Hne]; [cbn; split_and!; [done|repeat constructor; lia|done]|].
  assert (Hz : zeros (-1) (rev_digits 65 n 10) = []).
  { unfold zeros. destruct (rev_digits 65 n 10) as [|d l]; [tauto|].
    replace (Z.to_nat (Z.max 1 (-1) - len (d :: l))) with 0%nat by (cbn [length]; lia). done. }
  rewrite Hz. cbn [app]. split_and!; [|done|done].
  intros E. apply (f_equal reverse) in E. rewrite reverse_involutive in E. tauto.
Qed.

Lemma pad_str_plain s : pad_str (set_precision (-1) props0) s = s.
Proof.
  unfold pad_str, cut_prec. cbn [npad precision set_precision props0 Z.ltb Z.compare].
  replace (Z.to_nat (- 0 - len s)) with 0%nat by lia. apply app_nil_r.
Qed.

Lemma int_str_chars n : - 2 ^ 63 < n < 2 ^ 63 → chars (int_str n (-1)).
Proof.
  intros Hn. unfold int_str. destruct (numeral_dec (Z.abs n) ltac:(lia)) as (_ & Hd & _).
  apply Forall_app_2; [destruct (n <? 0); repeat constructor|].
  eapply Forall_impl; [exact Hd|]. cbn. lia.
Qed.

Lemma strtol_int_str m p n :
  - 2 ^ 63 < n < 2 ^ 63 → cstr m p (int_str n (-1)) →
  strtol m p 10 = Ret (n, p + len (int_str n (-1))).
Proof.
  intros Hn Hs. unfold int_str in *.
  destruct (numeral_dec (Z.abs n) ltac:(lia)) as (Hne & Hd & Hv).
  set (cs := numeral (Z.abs n) 10 (-1)) in *. set (sg := if n <? 0 then [c_minus] else []) in *.
  unfold strtol. rewrite (__strtoll_spec m p 10 true false [] sg (n <? 0) [] 10 cs (map (λ c, c - c_0) cs) []);
    try done.
  - rewrite Hv. cbn [limit]. rewrite (proj2 (Z.ltb_lt _ _)) by lia. cbn [bind app]. do 2 f_equal.
    destruct (Z.ltb_spec n 0); [rewrite s64_neg; lia|]. unfold s64. rewrite (sgn_small 64); lia.
  - cbn [app]. by rewrite app_nil_r.
  - unfold sign_of, sg. destruct (n <? 0); [by left|right; split; [by right|done]].
  - by constructor.
  - by apply dec_digits.
  - by right.
Qed.

(** ** The theorems *)

(** C10: [vsnprintf].  For every format made of ordinary characters and
    conversion specifications (the conversions d, u, x, p, s, c and percent
    with an alternate flag, a width, a precision and length modifiers) and
    matching arguments, the buffer afterwards holds the longest prefix of the
    formatted text that fits, followed by a null byte; the result is the
    length of the whole text; and no byte outside the buffer is changed. *)
Theorem vsnprintf_correct buf size sp m p fmt args text :
  1 ≤ size < 2 ^ 31 → mapped m buf size → fresh_region m sp UINT_BUF →
  cstr m p fmt → disjoint_regions buf size p (len fmt + 1) →
  renders buf size m fmt args text → len text + 2 ^ 22 < 2 ^ 31 →
  post (vsnprintf sp buf size p args m) (λ '(r, m'),
    r = len text ∧ bytes m' buf (take (Z.to_nat (size - 1)) text ++ [0]) ∧
    ∀ q, ¬ in_buf buf size q → m' !! q = m !! q).
Proof.
  intros. eapply post_mono; [by eapply vsnprintf_spec|].
  intros [r m'] (? & ? & _ & ?). done.
Qed.

(** A buffer of six bytes, the format "%-4d%s" and the string "xyz". *)
Definition demo_mem : memory :=
  blocks [(100, [7; 7; 7; 7; 7; 7]); (200, [37; 45; 52; 100; 37; 115; 0]); (300, [120; 121; 122; 0])].

Lemma demo_renders :
  renders 100 6 demo_mem [37; 45; 52; 100; 37; 115] [12; 300] [49; 50; 32; 32; 120; 121; 122].
Proof.
  pose proof (renders_dir 100 6 demo_mem (mk_dir false (LeftWidth [52]) NoPrec 0 ConvD)
    [12] [49; 50; 32; 32] [37; 115] [300] [120; 121; 122]) as H. apply H; clear H; [|done| |].
  - split_and!; [done|repeat constructor; lia|by vm_compute].
  - apply (dir_spec_intro _ _ _ _ [] [12] (set_npad (-4) props0)); [constructor|by constructor].
  - pose proof (renders_dir 100 6 demo_mem (mk_dir false NoWidth NoPrec 0 ConvS)
      [300] [120; 121; 122] [] [] []) as H. apply H; clear H; [done|done| |constructor].
    apply (dir_spec_intro _ _ _ _ [] [300] props0); [constructor|].
    refine (conv_s 100 6 demo_mem 0 props0 300 [120; 121; 122] eq_refl _ _ _ _);
      [concrete_cstr|left; cbn; lia|by vm_compute|by vm_compute].
Qed.

Lemma vsnprintf_correct_witness :
  post (vsnprintf 400 100 6 200 [12; 300] demo_mem) (λ '(r, m'),
    r = 7 ∧ bytes m' 100 [49; 50; 32; 32; 120; 0]).
Proof.
  eapply post_mono; [apply (vsnprintf_correct 100 6 400 demo_mem 200
    [37; 45; 52; 100; 37; 115] [12; 300] [49; 50; 32; 32; 120; 121; 122])|].
  - lia.
  - intros i Hi. assert (i = 0 ∨ i = 1 ∨ i = 2 ∨ i = 3 ∨ i = 4 ∨ i = 5) as Hc by lia.
    destruct Hc as [->|[->|[->|[->|[->| ->]]]]]; split; vm_compute; try done; by eexists.
  - split; [lia|]. split; [by vm_compute|]. intros q Hq. unfold UINT_BUF in Hq.
    unfold demo_mem, blocks. cbn [foldr]. rewrite !upd_outside by (cbn [length]; lia). done.
  - concrete_cstr.
  - left. cbn. lia.
  - apply demo_renders.
  - by vm_compute.
  - intros [r m'] (-> & Hb & _). split; [done|exact Hb].
Defined.

(** C33: printing and reading back.  For every [long] but the least one,
    [snprintf] with the format "%ld" into a buffer of at least 21 bytes, then
    [strtol] in base 10 on that buffer, yields the number again. *)
Theorem snprintf_strtol_roundtrip buf size sp m p n :
  - 2 ^ 63 < n < 2 ^ 63 → 21 ≤ size < 2 ^ 31 → mapped m buf size → fresh_region m sp UINT_BUF →
  cstr m p [c_percent; c_l; c_d] → disjoint_regions buf size p 4 →
  post (let* '(r, m') := snprintf sp buf size p [u64 n] m in strtol m' buf 10) (λ '(v, _), v = n).
Proof.
  intros Hn Hsz Hm Hf Hs Hd.
  assert (Harg : signed_arg 1 (u64 n) = n).
  { unfold signed_arg, s64, sgn, u64. cbn [Z.eqb]. change (2 ^ (64 - 1)) with (2 ^ 63).
    rewrite Zplus_mod_idemp_l, Z.mod_small; lia. }
  assert (Hr : renders buf size m [c_percent; c_l; c_d] [u64 n] (int_str n (-1))).
  { pose proof (renders_dir buf size m (mk_dir false NoWidth NoPrec 1 ConvD) [u64 n]
      (int_str n (-1)) [] [] []) as H. rewrite !app_nil_r in H. apply H; [done|done| |constructor].
    apply (dir_spec_intro _ _ _ _ [] [u64 n] props0); [constructor|].
    pose proof (conv_d buf size m 1 props0 (u64 n)) as Hc. rewrite Harg in Hc.
    rewrite pad_str_plain in Hc. apply Hc; cbn; lia. }
  assert (Hlen : len (int_str n (-1)) ≤ 20).
  { assert (len (rev_digits 65 (Z.abs n) 10) ≤ 19) by (apply rev_digits_length; lia).
    unfold int_str, numeral. rewrite !length_app, length_reverse, !Nat2Z.inj_add, zeros_length.
    destruct (n <? 0); cbn [length]; lia. }
  apply post_bind. eapply post_mono; [eapply vsnprintf_spec; try done; try lia; by split|].
  intros [r m'] (_ & Hb & _). rewrite take_ge in Hb by lia.
  rewrite (strtol_int_str m' buf n); [done|done|]. split; [done|]. by apply int_str_chars.
Qed.

Lemma snprintf_strtol_roundtrip_witness :
  post (let* '(r, m') := snprintf 400 100 21 200 [u64 (-37)]
          (blocks [(100, replicate 21 7); (200, [37; 108; 100; 0])]) in strtol m' 100 10)
    (λ '(v, _), v = -37).
Proof.
  apply (snprintf_strtol_roundtrip 100 21 400 (blocks [(100, replicate 21 7); (200, [37; 108; 100; 0])]) 200 (-37)).
  - lia.
  - lia.
  - intros i Hi. split; [apply addr_ok_iff; lia|]. unfold blocks. cbn [foldr].
    rewrite upd_lookup, decide_True by (cbn [length replicate]; lia).
    apply lookup_lt_is_Some. cbn [length replicate]. lia.
  - split; [lia|]. split; [by vm_compute|]. intros q Hq. unfold UINT_BUF in Hq.
    unfold blocks. cbn [foldr]. rewrite !upd_outside by (cbn [length replicate]; lia). done.
  - concrete_cstr.
  - left. lia.
Defined.

(** ** binstr *)

(** The [n] low bits of [x] from the most significant one down, with a quote
    between groups of four. *)
Fixpoint bin_text (n : nat) (x : Z) : list Z :=
  match n with
  | O => []
  | S n => (if Z.testbit x (Z.of_nat n) then 49 else c_0) ::
           (if bool_decide (n = 0%nat) then [] else
            (if Z.rem (Z.of_nat n) 4 =? 0 then [39] else []) ++ bin_text n x)
  end.

Lemma bit_test x k : 0 ≤ k < 64 → (Z.land x (u64 (Z.shiftl 1 k)) =? 0) = negb (Z.testbit x k).
Proof.
  intros Hk. rewrite Z.shiftl_1_l, u64_small.
  2: { split; [lia|]. apply Z.pow_lt_mono_r; lia. }
  destruct (Z.testbit x k) eqn:E; cbn [negb].
  - apply Z.eqb_neq. intros H. assert (Hb : Z.testbit (Z.land x (2 ^ k)) k = true); [|by rewrite H, Z.testbit_0_l in Hb].
    rewrite Z.land_spec, E, Z.pow2_bits_true by lia. done.
  - apply Z.eqb_eq, Z.bits_inj'. intros j Hj. rewrite Z.land_spec, Z.testbit_0_l.
    destruct (decide (j = k)) as [->|]; [by rewrite E|]. rewrite Z.pow2_bits_false by done. apply andb_false_r.
Qed.

Lemma bin_text_chars n x : chars (bin_text n x).
Proof.
  induction n as [|n IH]; cbn [bin_text]; [constructor|]. constructor.
  - destruct (Z.testbit _ _); lia.
  - case_bool_decide; [constructor|]. apply Forall_app_2; [|done].
    destruct (_ =? _); repeat constructor; lia.
Qed.

Lemma binstr_loop_spec n f x c m :
  (0 < n ≤ 64)%nat → (n ≤ f)%nat → mapped m c (len (bin_text n x) + 1) →
  binstr_loop f x 64 (64 - Z.of_nat n) c m =
    Ret (upd m c (bin_text n x ++ [0]), c + len (bin_text n x)).
Proof.
  revert f c m. induction n as [|n IH]; intros f c m Hn Hf Hm; [lia|]. destruct f as [|f]; [lia|].
  cbn [binstr_loop bin_text length app upd] in *. store Hm.
  replace (64 - (64 - Z.of_nat (S n)) - 1) with (Z.of_nat n) by lia. rewrite bit_test, negb_involutive by lia.
  replace (u8 (if Z.testbit x (Z.of_nat n) then 49 else c_0)) with (if Z.testbit x (Z.of_nat n) then 49 else c_0)
    by (by destruct (Z.testbit _ _)).
  set (b := if Z.testbit x (Z.of_nat n) then 49 else c_0) in *.
  replace (64 - Z.of_nat (S n) + 1) with (64 - Z.of_nat n) by lia.
  assert (Erem : Z.rem (64 - Z.of_nat n) 4 = 0 ↔ Z.rem (Z.of_nat n) 4 = 0).
  { rewrite !Z.rem_mod_nonneg by lia. Z.div_mod_to_equations. lia. }
  case_bool_decide as Hn0.
  - subst n. cbn [Z.of_nat length app upd] in *. rewrite (proj2 (Z.eqb_eq _ _)) by lia.
    assert (Hm1 : mapped (<[c:=b]> m) (c + 1) 1) by (apply mapped_insert, (mapped_mono _ _ 2); done || lia).
    store Hm1. done.
  - rewrite (proj2 (Z.eqb_neq _ 64)) by lia. rewrite length_app in Hm.
    destruct (Z.eqb_spec (Z.rem (64 - Z.of_nat n) 4) 0) as [Er|Er], (Z.eqb_spec (Z.rem (Z.of_nat n) 4) 0) as [Er'|Er'];
      try tauto; cbn [app length upd] in *.
    + assert (Hm1 : mapped (<[c:=b]> m) (c + 1) (len (bin_text n x) + 2)).
      { apply mapped_insert. apply (mapped_mono _ _ (len (bin_text n x) + 3)); [|lia..].
        intros i Hi. apply Hm. lia. }
      store Hm1. change (u8 39) with 39. rewrite (IH f); [|lia|lia|].
      * do 2 f_equal. lia.
      * apply mapped_insert. apply (mapped_mono _ _ (len (bin_text n x) + 2)); done || lia.
    + rewrite (IH f); [do 2 f_equal; lia|lia|lia|]. apply mapped_insert.
      apply (mapped_mono _ _ (len (bin_text n x) + 2)); [|lia..]. intros i Hi. apply Hm. lia.
Qed.

Lemma bin_text_length x : length (bin_text 64 x) = 79%nat.
Proof.
  assert (H : ∀ n y, length (bin_text n x) = length (bin_text n y)).
  { induction n as [|n IH]; intros y; cbn [bin_text length]; [done|].
    case_bool_decide; [done|]. rewrite !length_app. by rewrite (IH y). }
  by rewrite (H 64%nat 0).
Qed.

(** [binstr] writes the 64 bits of its argument, most significant first
    and in groups of four, and the terminator: exactly [BINSTR_SZ] bytes, so
    that its assertion never fails. *)
Theorem binstr_correct x p m :
  mapped m p BINSTR_SZ →
  post (binstr x p m) (λ m', cstr m' p (bin_text 64 x) ∧
    ∀ q, ¬ (p ≤ q < p + BINSTR_SZ) → m' !! q = m !! q).
Proof.
  intros Hm. unfold binstr. pose proof (bin_text_length x) as Hl.
  assert (Hm' : mapped m p (len (bin_text 64 x) + 1)) by (intros i Hi; apply Hm; unfold BINSTR_SZ; lia).
  change 0 with (64 - Z.of_nat 64). change (8 * 8) with 64.
  rewrite (binstr_loop_spec 64 65 x p m) by (done || lia). cbn [bind].
  rewrite (proj2 (Z.eqb_eq _ BINSTR_SZ)) by (unfold BINSTR_SZ; lia). cbn [post]. split.
  - apply upd_cstr; [done|apply bin_text_chars].
  - intros q Hq. apply upd_outside. rewrite length_app, Hl. unfold BINSTR_SZ in Hq. cbn [length]. lia.
Qed.

Lemma binstr_correct_witness :
  post (binstr 5 100 (blocks [(100, replicate 80 7)])) (λ m', cstr m' 100 (bin_text 64 5)).
Proof.
  eapply post_mono; [apply (binstr_correct 5 100 (blocks [(100, replicate 80 7)]))|by intros m' [? _]].
  intros i Hi. unfold BINSTR_SZ in Hi. split; [apply addr_ok_iff; lia|]. unfold blocks. cbn [foldr].
  rewrite upd_lookup, decide_True by (rewrite length_replicate; lia).
  apply lookup_lt_is_Some. rewrite length_replicate. lia.
Defined.

(** ** Where the code falls short *)

(** [print_wstring] writes multi-byte characters relative to the start of
    the whole output instead of the current position: formatting "a%ls" with
    the one-character wide string U+00E9 yields only the two bytes of that
    character, the letter in front of it is overwritten. *)
Theorem wide_string_overwrites :
  let m := blocks [(100, replicate 10 7); (200, [97; 37; 108; 115; 0]); (300, [0xe9; 0; 0; 0])] in
  ∃ m', vsnprintf 400 100 10 200 [300] m = Ret (2, m') ∧ bytes m' 100 [0xc3; 0xa9; 0].
Proof.
  intros m. eexists. split; [vm_compute; reflexivity|]. cbn [bytes]. repeat split; by vm_compute.
Qed.

(** Inputs that leave the buffers.  A precision of 30 overflows the local
    digit buffer of [print_int]; a size of 0, for which nothing may be
    written, makes [vsnprintf] write without a limit. *)
Theorem printf_overflows :
  let m := blocks [(100, replicate 40 7); (200, [37; 46; 51; 48; 100; 0]); (300, [97; 98; 99; 0])] in
  vsnprintf 400 100 40 200 [1] m = Fault ∧
  ∃ m', vsnprintf 400 100 0 300 [] m = Ret (3, m') ∧ bytes m' 100 [97; 98; 99; 0].
Proof.
  intros m. split; [by vm_compute|]. eexists. split; [vm_compute; reflexivity|].
  cbn [bytes]. repeat split; by vm_compute.
Qed.
