(* ===== verification/Report.v ===== *)
(** * lib/report.c: test results and message prefixes

    The counters, the prefix buffer and the operations on them.  The prefix
    buffer lives in the byte memory at [prefixes]; what goes to the console is
    recorded as a list of events. *)

From Stdlib Require Import String Ascii.
From S2P Require Import Prelude.
From S2P Require Import CMem.
From S2P Require Import CString.
From S2P Require Import Printf.

Open Scope Z_scope.
Open Scope list_scope.

Definition newline : string := String (ascii_of_nat 10) EmptyString.

(** What is printed: a literal, the current prefixes, a message of the test,
    a number with its text. *)
Inductive event : Type :=
| Puts (s : string)
| PutsPrefixes (l : list Z)
| Vprintf (fmt : Z) (va : list Z)
| PrintfD (s : string) (n : Z).

Record report_state : Type := mk_rs {
  tests : Z; failures : Z; xfailures : Z; kfailures : Z; skipped : Z;
  rlock : bool;
  rmem : memory;
  console : list event;
}.

Definition set_rlock (b : bool) (s : report_state) : report_state :=
  mk_rs (tests s) (failures s) (xfailures s) (kfailures s) (skipped s) b (rmem s) (console s).
Definition set_rmem (m : memory) (s : report_state) : report_state :=
  mk_rs (tests s) (failures s) (xfailures s) (kfailures s) (skipped s) (rlock s) m (console s).
Definition print_event (e : event) (s : report_state) : report_state :=
  mk_rs (tests s) (failures s) (xfailures s) (kfailures s) (skipped s) (rlock s) (rmem s) (console s ++ [e]).
Definition inc_tests (s : report_state) : report_state :=
  mk_rs (u32 (tests s + 1)) (failures s) (xfailures s) (kfailures s) (skipped s) (rlock s) (rmem s) (console s).
Definition inc_failures (s : report_state) : report_state :=
  mk_rs (tests s) (u32 (failures s + 1)) (xfailures s) (kfailures s) (skipped s) (rlock s) (rmem s) (console s).
Definition inc_xfailures (s : report_state) : report_state :=
  mk_rs (tests s) (failures s) (u32 (xfailures s + 1)) (kfailures s) (skipped s) (rlock s) (rmem s) (console s).
Definition inc_kfailures (s : report_state) : report_state :=
  mk_rs (tests s) (failures s) (xfailures s) (u32 (kfailures s + 1)) (skipped s) (rlock s) (rmem s) (console s).
Definition inc_skipped (s : report_state) : report_state :=
  mk_rs (tests s) (failures s) (xfailures s) (kfailures s) (u32 (skipped s + 1)) (rlock s) (rmem s) (console s).

Definition lock_report (s : report_state) : res report_state :=
  if rlock s then Hang else Ret (set_rlock true s).
Definition unlock_report (s : report_state) : report_state := set_rlock false s.

(** Addresses: the buffer [prefixes], the literals [PREFIX_DELIMITER] and
    "%s", and the stack. *)
Record layout : Type := mk_layout { prefixes : Z; delimiter : Z; fmt_s : Z; stack : Z }.
Definition PREFIXES_SIZE : Z := 256.

Definition report_passed (s : report_state) : res report_state :=
  let* s := lock_report s in Ret (unlock_report (inc_tests s)).

Definition report_prefix_pushf (L : layout) (prefix_fmt : Z) (va : list Z) (s : report_state)
    : res report_state :=
  let* s := lock_report s in
  let* l := strlen (rmem s) (prefixes L) in
  let len := u32 l in
  assert! (len <? PREFIXES_SIZE);
  let start := len in
  let* '(r, m) := vsnprintf (stack L) (prefixes L + len) (PREFIXES_SIZE - len) prefix_fmt va (rmem s) in
  let len := u32 (len + r) in
  assert! (len <? PREFIXES_SIZE);
  let* d := strstr m (prefixes L + start) (delimiter L) in
  assert! (d =? 0);
  let* '(r, m) := snprintf (stack L) (prefixes L + len) (PREFIXES_SIZE - len) (delimiter L) [] m in
  let len := u32 (len + r) in
  assert! (len <? PREFIXES_SIZE);
  Ret (unlock_report (set_rmem m s)).

Definition report_prefix_push (L : layout) (prefix : Z) (s : report_state) : res report_state :=
  report_prefix_pushf L (fmt_s L) [prefix] s.

(** The loop that looks for the start of the last prefix. *)
Fixpoint last_prefix (f : nat) (L : layout) (m : memory) (p q : Z) : res Z :=
  match f with
  | O => Hang
  | S f =>
      let* c := ldb m q in
      if c =? 0 then Ret p else
      let* d := strstr m q (delimiter L) in
      last_prefix f L m q (d + 2)
  end.

Definition __report_prefix_pop (L : layout) (s : report_state) : res report_state :=
  let m := rmem s in
  let* c := ldb m (prefixes L) in
  if c =? 0 then Ret s else
  let* d := strstr m (prefixes L) (delimiter L) in
  let* p := last_prefix (fuel m) L m (prefixes L) (d + 2) in
  let* m := stb m p 0 in
  Ret (set_rmem m s).

Definition report_prefix_pop (L : layout) (s : report_state) : res report_state :=
  let* s := lock_report s in
  let* s := __report_prefix_pop L s in
  Ret (unlock_report s).

(** [while (n--)]: a negative [n] runs into the overflow of [int]. *)
Definition report_prefix_popn (L : layout) (n : Z) (s : report_state) : res report_state :=
  let* s := lock_report s in
  valid! (0 <=? n);
  let* s := for_ (Z.to_nat n) 0 (λ _ s, __report_prefix_pop L s) s in
  Ret (unlock_report s).

Definition va_report (L : layout) (msg_fmt : Z) (pass xfail kfail skip : bool) (va : list Z)
    (s : report_state) : res (bool * report_state) :=
  let prefix := (if skip then "SKIP"
                 else if xfail then (if pass then "XPASS" else "XFAIL")
                 else if kfail then (if pass then "PASS" else "KFAIL")
                 else (if pass then "PASS" else "FAIL"))%string in
  let* s := lock_report s in
  let s := inc_tests s in
  let s := print_event (Puts (String.append prefix ": ")) s in
  let* t := text (rmem s) (prefixes L) in
  let s := print_event (PutsPrefixes t) s in
  let s := print_event (Vprintf msg_fmt va) s in
  let s := print_event (Puts newline) s in
  let s := if skip then inc_skipped s
           else if xfail && negb pass then inc_xfailures s
           else if kfail && negb pass then inc_kfailures s
           else if xfail || negb pass then inc_failures s
           else s in
  Ret (pass || xfail, unlock_report s).

Definition report (L : layout) (pass : bool) (msg_fmt : Z) (va : list Z) (s : report_state)
    : res (bool * report_state) :=
  va_report L msg_fmt pass false false false va s.
Definition report_pass (L : layout) (msg_fmt : Z) (va : list Z) (s : report_state) : res report_state :=
  let* '(_, s) := va_report L msg_fmt true false false false va s in Ret s.
Definition report_fail (L : layout) (msg_fmt : Z) (va : list Z) (s : report_state) : res report_state :=
  let* '(_, s) := va_report L msg_fmt false false false false va s in Ret s.
Definition report_xfail (L : layout) (xfail pass : bool) (msg_fmt : Z) (va : list Z) (s : report_state)
    : res (bool * report_state) :=
  va_report L msg_fmt pass xfail false false va s.
Definition report_kfail (L : layout) (kfail pass : bool) (msg_fmt : Z) (va : list Z) (s : report_state)
    : res (bool * report_state) :=
  va_report L msg_fmt pass false kfail false va s.
Definition report_skip (L : layout) (msg_fmt : Z) (va : list Z) (s : report_state) : res report_state :=
  let* '(_, s) := va_report L msg_fmt false false false true va s in Ret s.

Definition report_info (L : layout) (msg_fmt : Z) (va : list Z) (s : report_state) : res report_state :=
  let* s := lock_report s in
  let s := print_event (Puts "INFO: ") s in
  let* t := text (rmem s) (prefixes L) in
  let s := print_event (PutsPrefixes t) s in
  let s := print_event (Vprintf msg_fmt va) s in
  let s := print_event (Puts newline) s in
  Ret (unlock_report s).

Definition report_summary (s : report_state) : res (Z * report_state) :=
  let* s := lock_report s in
  let s := print_event (PrintfD "SUMMARY: %d tests" (tests s)) s in
  let s := if negb (failures s =? 0)
           then print_event (PrintfD ", %d unexpected failures" (failures s)) s else s in
  let s := if negb (kfailures s =? 0)
           then print_event (PrintfD ", %d known failures" (kfailures s)) s else s in
  let s := if negb (xfailures s =? 0)
           then print_event (PrintfD ", %d expected failures" (xfailures s)) s else s in
  let s := if negb (skipped s =? 0)
           then print_event (PrintfD ", %d skipped" (skipped s)) s else s in
  let s := print_event (Puts newline) s in
  if tests s =? skipped s then Ret (Z.shiftr 77 1, unlock_report s)
  else Ret (if 0 <? failures s then 1 else 0, unlock_report s).

(** Never returns. *)
Definition report_abort (L : layout) (msg_fmt : Z) (va : list Z) (s : report_state) : res report_state :=
  let* s := lock_report s in
  let s := print_event (Puts "ABORT: ") s in
  let* t := text (rmem s) (prefixes L) in
  let s := print_event (PutsPrefixes t) s in
  let s := print_event (Vprintf msg_fmt va) s in
  let s := print_event (Puts newline) s in
  let* '(_, s) := report_summary (unlock_report s) in
  Abort.
