(* ===== verification/ReportProps.v ===== *)
(** * Properties of lib/report.c

    The prefix buffer as a stack of prefixes, and the exit code as a function
    of the reported outcomes. *)

From S2P Require Import Prelude.
From S2P Require Import CMem.
From S2P Require Import CString.
From S2P Require Import CStringSpec.
From S2P Require Import CStringMem.
From S2P Require Import CStringNum.
From S2P Require Import CStringGlob.
From S2P Require Import CStringProps.
From S2P Require Import Printf.
From S2P Require Import PrintfOut.
From S2P Require Import PrintfFmt.
From S2P Require Import Report.

(** [PREFIX_DELIMITER] *)
Definition delim : list Z := [58; 32].

(** The text of a stack of prefixes. *)
Fixpoint joined (ps : list (list Z)) : list Z :=
  match ps with [] => [] | p :: ps => p ++ delim ++ joined ps end.

Lemma joined_app ps qs : joined (ps ++ qs) = joined ps ++ joined qs.
Proof. induction ps as [|p ps IH]; cbn [app joined]; [done|]. by rewrite IH, !app_assoc. Qed.

Definition prefix_ok (p : list Z) : Prop := chars p ∧ find_sub p delim = None.

Lemma joined_chars ps : Forall prefix_ok ps → chars (joined ps).
Proof.
  induction 1 as [|p ps [Hp _] _ IH]; cbn [joined]; [constructor|].
  apply Forall_app_2; [done|]. apply Forall_app_2; [repeat constructor|done].
Qed.

(** The first delimiter behind a prefix is its own. *)
Lemma find_delim p rest : find_sub p delim = None → find_sub (p ++ delim ++ rest) delim = Some (length p).
Proof.
  induction p as [|x p IH]; intros Hp.
  - cbn [app length]. apply find_sub_prefix. by exists rest.
  - cbn [app find_sub] in *. case_bool_decide as H1; [done|]. apply fmap_None in Hp.
    case_bool_decide as H2; [exfalso|by rewrite IH].
    destruct H2 as [k E]. injection E as -> E. destruct p as [|y p]; [done|]. injection E as -> E.
    apply H1. by exists p.
Qed.

(** ** The invariant *)

Record rep_ok (L : layout) (s : report_state) (ps : list (list Z)) : Prop := {
  ro_prefixes : cstr (rmem s) (prefixes L) (joined ps);
  ro_room : mapped (rmem s) (prefixes L) PREFIXES_SIZE;
  ro_fits : len (joined ps) < PREFIXES_SIZE;
  ro_each : Forall prefix_ok ps;
  ro_delim : cstr (rmem s) (delimiter L) delim;
  ro_delim_apart : disjoint_regions (prefixes L) PREFIXES_SIZE (delimiter L) 3;
  ro_fmt : cstr (rmem s) (fmt_s L) [c_percent; c_s];
  ro_fmt_apart : disjoint_regions (prefixes L) PREFIXES_SIZE (fmt_s L) 3;
  ro_stack : fresh_region (rmem s) (stack L) UINT_BUF
}.

(** The invariant depends on the memory only, and survives changes of the
    prefix buffer. *)
Lemma rep_ok_update L s s' ps ps' :
  rep_ok L s ps → cstr (rmem s') (prefixes L) (joined ps') →
  len (joined ps') < PREFIXES_SIZE → Forall prefix_ok ps' →
  (∀ q, ¬ (prefixes L ≤ q < prefixes L + PREFIXES_SIZE) → rmem s' !! q = rmem s !! q) →
  mapped (rmem s') (prefixes L) PREFIXES_SIZE → rep_ok L s' ps'.
Proof.
  intros [_ Hroom _ _ Hd Hda Hf Hfa Hst] Hc Hlen Hall Hframe Hmap.
  assert (Hkeep : ∀ p t, cstr (rmem s) p t → disjoint_regions (prefixes L) PREFIXES_SIZE p (len t + 1) →
    cstr (rmem s') p t).
  { intros p t Ht Hdis. eapply cstr_ext; [done|]. intros q Hq. apply Hframe. unfold disjoint_regions in Hdis. lia. }
  constructor; try done; [by apply Hkeep..|].
  destruct Hst as (H1 & H2 & Hnone). split_and!; [done..|]. intros q Hq.
  rewrite Hframe; [by apply Hnone|]. intros Hin. destruct (Hroom (q - prefixes L)) as [_ [b E]]; [lia|].
  replace (prefixes L + (q - prefixes L)) with q in E by lia. by rewrite Hnone in E.
Qed.

(** ** Pushing *)

(** One formatted piece at the end of the buffer. *)
Lemma append_spec L s ps t p fmt args text :
  rep_ok L s ps → cstr (rmem s) (prefixes L) (joined ps ++ t) → len (joined ps ++ t) < PREFIXES_SIZE →
  let n := len (joined ps ++ t) in
  cstr (rmem s) p fmt → disjoint_regions (prefixes L) PREFIXES_SIZE p (len fmt + 1) →
  renders (prefixes L + n) (PREFIXES_SIZE - n) (rmem s) fmt args text → len text + 2 ^ 22 < 2 ^ 31 →
  post (vsnprintf (stack L) (prefixes L + n) (PREFIXES_SIZE - n) p args (rmem s)) (λ '(r, m'),
    r = len text ∧ mapped m' (prefixes L) PREFIXES_SIZE ∧
    (∀ q, ¬ (prefixes L ≤ q < prefixes L + PREFIXES_SIZE) → m' !! q = rmem s !! q) ∧
    (n + len text < PREFIXES_SIZE → chars text →
     cstr m' (prefixes L + n) text ∧ cstr m' (prefixes L) (joined ps ++ t ++ text))).
Proof.
  intros Hok Hpre Hn n Hp Hd Hr Hlen. unfold PREFIXES_SIZE in *.
  assert (Hm : mapped (rmem s) (prefixes L + n) (256 - n)).
  { apply (mapped_mono _ _ 256); [apply (ro_room _ _ _ Hok)|unfold n; lia|unfold n; lia]. }
  eapply post_mono; [eapply (vsnprintf_spec (prefixes L + n) (256 - n) (stack L) (rmem s)); try done|].
  { unfold n in *. lia. }
  { apply (ro_stack _ _ _ Hok). }
  { split; [done|]. unfold disjoint_regions, n in *. lia. }
  intros [r m'] (-> & Hb & Hmb & Hfr). unfold in_buf in Hfr. split_and!.
  - done.
  - intros i Hi. destruct (ro_room _ _ _ Hok i) as [Ho Hsm]; [unfold PREFIXES_SIZE; lia|].
    destruct (decide (i < n)); [by rewrite Hfr by lia|].
    replace (prefixes L + i) with (prefixes L + n + (i - n)) by lia. apply Hmb. lia.
  - intros q Hq. apply Hfr. unfold n. lia.
  - intros Hfit Hc. rewrite take_ge in Hb by lia. split; [by split|].
    rewrite app_assoc. destruct Hpre as [Hb0 Hc0]. split; [|by apply Forall_app_2].
    rewrite <- app_assoc. apply bytes_app in Hb0 as [Hb0 _]. apply bytes_app. split; [|done].
    eapply bytes_ext; [done|]. intros q Hq. apply Hfr. unfold n. lia.
Qed.

Lemma u32_len n : 0 ≤ n < 2 ^ 31 → u32 n = n.
Proof. intros. apply u32_small. lia. Qed.

Lemma delim_renders buf size m : renders buf size m delim [] delim.
Proof. repeat (constructor; [lia|lia|]). constructor. Qed.

Lemma string_renders buf size m a t :
  cstr m a t → disjoint_regions buf size a (len t + 1) → len t ≤ 2 ^ 20 →
  renders buf size m [c_percent; c_s] [a] t.
Proof.
  intros Ht Hd Hl. pose proof (renders_dir buf size m (mk_dir false NoWidth NoPrec 0 ConvS) [a] t [] [] []) as H.
  rewrite !app_nil_r in H. apply H; [done|done| |constructor].
  apply (dir_spec_intro _ _ _ _ [] [a] props0); [constructor|].
  assert (E : pad_str props0 t = t).
  { unfold pad_str, cut_prec. cbn [npad precision props0 Z.ltb Z.compare].
    replace (Z.to_nat (- 0 - len t)) with 0%nat by lia. apply app_nil_r. }
  pose proof (conv_s buf size m 0 props0 a t) as Hc. rewrite E in Hc. apply Hc; try done. cbn. lia.
Qed.

(** The delimiter behind a text [t] that was just appended. *)
Lemma append_delim L s ps t m1 :
  rep_ok L s ps → mapped m1 (prefixes L) 256 →
  (∀ q, ¬ (prefixes L ≤ q < prefixes L + 256) → m1 !! q = rmem s !! q) →
  cstr m1 (prefixes L) (joined ps ++ t) → len (joined ps) + len t < 256 → cstr m1 (delimiter L) delim →
  ∃ m2, vsnprintf (stack L) (prefixes L + (len (joined ps) + len t)) (256 - (len (joined ps) + len t))
          (delimiter L) [] m1 = Ret (2, m2) ∧
    (len (joined ps) + len t + 2 < 256 →
     cstr m2 (prefixes L) (joined ps ++ t ++ delim) ∧ mapped m2 (prefixes L) 256 ∧
     ∀ q, ¬ (prefixes L ≤ q < prefixes L + 256) → m2 !! q = rmem s !! q).
Proof.
  intros Hok Hm1 Hf1 Hall Hlt Hdel. set (n := len (joined ps) + len t) in *.
  assert (Hst : fresh_region m1 (stack L) UINT_BUF).
  { destruct (ro_stack _ _ _ Hok) as (H1 & H2 & Hnone). split_and!; [done..|]. intros q Hq.
    rewrite Hf1; [by apply Hnone|]. intros Hin.
    destruct (ro_room _ _ _ Hok (q - prefixes L)) as [_ [b E]]; [unfold PREFIXES_SIZE; lia|].
    replace (prefixes L + (q - prefixes L)) with q in E by lia. by rewrite Hnone in E. }
  assert (Hm : mapped m1 (prefixes L + n) (256 - n)) by (apply (mapped_mono _ _ 256); [done|unfold n; lia|lia]).
  pose proof (vsnprintf_spec (prefixes L + n) (256 - n) (stack L) m1 ltac:(unfold n in *; lia) Hm Hst
    (delimiter L) delim [] delim (delim_renders _ _ _)) as Hp.
  destruct (proj1 (post_inv _ _) (Hp ltac:(split; [done|]; pose proof (ro_delim_apart _ _ _ Hok) as Ha;
    unfold disjoint_regions, PREFIXES_SIZE in *; cbn [delim length]; unfold n; lia) ltac:(by vm_compute)))
    as ([r m2] & E & -> & Hb & Hmb & Hfr).
  exists m2. split; [done|]. intros Hlt2. unfold in_buf in Hfr. split_and!.
  - rewrite take_ge in Hb by (cbn [delim length]; lia). destruct Hall as [Hb0 Hc0]. rewrite app_assoc.
    split; [|apply Forall_app_2; [done|repeat constructor]].
    rewrite <- app_assoc. apply bytes_app in Hb0 as [Hb0 _]. apply bytes_app. rewrite length_app in *. split.
    + eapply bytes_ext; [done|]. intros q Hq. apply Hfr. unfold n. rewrite length_app in Hq. lia.
    + by replace (Z.of_nat (length (joined ps) + length t)) with n by (unfold n; lia).
  - intros i Hi. destruct (Hm1 i Hi) as [Ho Hsm]. destruct (decide (i < n)); [by rewrite Hfr by lia|].
    replace (prefixes L + i) with (prefixes L + n + (i - n)) by lia. apply Hmb. lia.
  - intros q Hq. rewrite Hfr by (unfold n; lia). by apply Hf1.
Qed.

Definition fits (ps : list (list Z)) (t : list Z) : Prop :=
  len (joined ps) + len t + 2 < PREFIXES_SIZE ∧ find_sub t delim = None.

(** Pushing a formatted prefix: it ends up on the stack when it fits together
    with its delimiter and does not contain one, otherwise the program
    stops. *)
Lemma pushf_spec L s ps p fmt args t :
  rep_ok L s ps → rlock s = false → cstr (rmem s) p fmt → disjoint_regions (prefixes L) PREFIXES_SIZE p (len fmt + 1) →
  renders (prefixes L + len (joined ps)) (PREFIXES_SIZE - len (joined ps)) (rmem s) fmt args t →
  chars t → len t + 2 ^ 22 < 2 ^ 31 →
  (fits ps t → post (report_prefix_pushf L p args s) (λ s', rep_ok L s' (ps ++ [t]) ∧ rlock s' = false)) ∧
  (¬ fits ps t → report_prefix_pushf L p args s = Abort).
Proof.
  intros Hok Hlk Hp Hd Hr Hc Hlen. pose proof (ro_fits _ _ _ Hok) as Hfit.
  unfold report_prefix_pushf, lock_report. rewrite Hlk. cbn [bind].
  change (rmem (set_rlock true s)) with (rmem s).
  rewrite (strlen_spec _ _ _ (ro_prefixes _ _ _ Hok)). cbn [bind]. unfold PREFIXES_SIZE in *.
  rewrite (u32_len (len (joined ps))) by lia. rewrite (proj2 (Z.ltb_lt _ 256)) by lia.
  pose proof (append_spec L s ps [] p fmt args t Hok) as Happ. rewrite app_nil_r in Happ.
  specialize (Happ (ro_prefixes _ _ _ Hok) Hfit Hp Hd Hr Hlen). cbv zeta in Happ.
  unfold PREFIXES_SIZE in Happ. apply post_inv in Happ as ([r m1] & -> & -> & Hm1 & Hf1 & Hc1). cbn [bind].
  rewrite (u32_len (len (joined ps) + len t)) by lia.
  destruct (Z.ltb_spec (len (joined ps) + len t) 256) as [Hlt|Hge].
  2: { split; [intros [? _]; unfold PREFIXES_SIZE in *; lia|done]. }
  destruct (Hc1 Hlt Hc) as [Ht Hall]. cbn [app] in Hall.
  assert (Hdel : cstr m1 (delimiter L) delim).
  { eapply cstr_ext; [apply (ro_delim _ _ _ Hok)|]. intros q Hq. apply Hf1.
    pose proof (ro_delim_apart _ _ _ Hok) as Ha. unfold disjoint_regions, PREFIXES_SIZE in Ha. cbn [delim length] in Hq. lia. }
  rewrite (strstr_spec _ _ _ _ _ Ht Hdel). cbn [bind].
  destruct (find_sub t delim) as [i|] eqn:Ei; cbn [ptr_at].
  { pose proof (cstr_range _ _ _ Ht). rewrite (proj2 (Z.eqb_neq _ 0)) by lia.
    split; [intros [_ ?]; congruence|done]. }
  cbn [Z.eqb]. pose proof (append_delim L s ps t m1 Hok Hm1 Hf1 Hall Hlt Hdel) as (m2 & E2 & Hgood).
  unfold snprintf. rewrite E2. cbn [bind]. split.
  - intros [Hf _]. unfold PREFIXES_SIZE in Hf. destruct (Hgood ltac:(lia)) as (Hc2 & Hm2 & Hf2).
    rewrite (u32_len (len (joined ps) + len t + 2)), (proj2 (Z.ltb_lt _ 256)) by lia. cbn [post]. split; [|done].
    apply (rep_ok_update L s _ ps); try done.
    + rewrite joined_app. cbn [joined]. by rewrite app_nil_r.
    + rewrite joined_app. cbn [joined]. rewrite app_nil_r, !length_app. cbn [delim length]. unfold PREFIXES_SIZE. lia.
    + apply Forall_app_2; [apply (ro_each _ _ _ Hok)|]. by apply Forall_singleton.
  - intros Hnf. assert (Hbig : 254 ≤ len (joined ps) + len t).
    { destruct (decide (254 ≤ len (joined ps) + len t)); [done|]. exfalso. apply Hnf. split; [unfold PREFIXES_SIZE; lia|done]. }
    rewrite (u32_len (len (joined ps) + len t + 2)), (proj2 (Z.ltb_ge _ 256)) by lia. done.
Qed.

(** ** Popping *)

Lemma joined_snoc ps p : joined (ps ++ [p]) = joined ps ++ p ++ delim.
Proof. rewrite joined_app. cbn [joined]. by rewrite app_nil_r. Qed.

Lemma delim_at m L p q rest :
  cstr m q (p ++ delim ++ rest) → prefix_ok p → cstr m (delimiter L) delim →
  strstr m q (delimiter L) = Ret (q + len p).
Proof. intros Hq [_ Hp] Hd. rewrite (strstr_spec _ _ _ _ _ Hq Hd), find_delim by done. done. Qed.

(** From the start [p] of a prefix and the start of the next, the loop finds
    the start of the last one. *)
Lemma last_prefix_spec f L m p x rest :
  cstr m p (joined (x :: rest)) → Forall prefix_ok (x :: rest) → cstr m (delimiter L) delim →
  (length rest < f)%nat →
  last_prefix f L m p (p + len x + 2) = Ret (p + len (joined (removelast (x :: rest)))).
Proof.
  revert p x rest. induction f as [|f IH]; intros p x rest Hp Hall Hd Hf; [lia|]. cbn [last_prefix].
  apply Forall_cons in Hall as [Hx Hall]. cbn [joined] in Hp. rewrite app_assoc in Hp.
  pose proof (cstr_app _ _ _ _ Hp) as Hq. rewrite length_app in Hq. cbn [delim length] in Hq.
  replace (p + Z.of_nat (length x + 2)) with (p + len x + 2) in Hq by lia.
  destruct rest as [|y rest].
  - cbn [joined] in Hq. cstr_nil_step Hq. cbn. f_equal. lia.
  - assert (Hne : ∃ c t, joined (y :: rest) = c :: t ∧ 0 < c).
    { cbn [joined]. apply Forall_cons in Hall as [[Hc _] _]. destruct y as [|c y]; [by exists 58, (32 :: joined rest)|].
      apply Forall_cons in Hc as [? _]. exists c, (y ++ delim ++ joined rest). split; [done|lia]. }
    destruct Hne as (c & t & Ec & Hc). pose proof Hq as Hq'. rewrite Ec in Hq'. cstr_cons_step Hq'.
    rewrite (proj2 (Z.eqb_neq c 0)) by lia. cbn [joined] in Hq.
    rewrite (delim_at m L y _ (joined rest) Hq) by (done || by apply Forall_cons in Hall as [? _]).
    cbn [bind]. rewrite (IH (p + len x + 2) y rest) by (done || cbn [length] in Hf; lia).
    f_equal. change (removelast (x :: y :: rest)) with (x :: removelast (y :: rest)). cbn [joined].
    rewrite !length_app. cbn [delim length]. lia.
Qed.

Lemma cstr_truncate m p s1 x s2 :
  cstr m p (s1 ++ x :: s2) → stb m (p + len s1) 0 = Ret (<[p + len s1 := 0]> m) ∧
  cstr (<[p + len s1 := 0]> m) p s1.
Proof.
  intros [Hb Hc]. rewrite <- app_assoc in Hb. apply bytes_app in Hb as [Hb Hx].
  apply Forall_app in Hc as [Hc _]. cbn [app] in Hx. destruct Hx as (Ex & _ & Ho & _). split.
  - apply stb_mapped; [done|by eexists].
  - split; [|done]. apply bytes_app. split.
    + eapply bytes_ext; [done|]. intros q Hq. by rewrite lookup_insert_ne by lia.
    + cbn. rewrite lookup_insert_eq. by split_and!.
Qed.

Lemma joined_length ps : (length ps ≤ length (joined ps))%nat.
Proof. induction ps as [|p ps IH]; cbn [joined length]; [lia|]. rewrite !length_app. cbn [delim length]. lia. Qed.

(** [__report_prefix_pop] removes the last prefix, if there is one. *)
Lemma pop_spec L s ps :
  rep_ok L s ps → post (__report_prefix_pop L s) (λ s', rep_ok L s' (removelast ps) ∧ rlock s' = rlock s).
Proof.
  intros Hok. pose proof (ro_prefixes _ _ _ Hok) as Hp. unfold __report_prefix_pop.
  destruct ps as [|x rest _] using rev_ind; [cbn [joined] in Hp; by cstr_nil_step Hp|].
  rewrite removelast_last. set (ps := rest ++ [x]) in *.
  assert (Hne : ∃ c t y ys, joined ps = c :: t ∧ 0 < c ∧ ps = y :: ys).
  { destruct ps as [|y ys] eqn:E; [by destruct rest|]. pose proof (ro_each _ _ _ Hok) as Hall.
    apply Forall_cons in Hall as [[Hc _] _]. cbn [joined]. destruct y as [|c y].
    - by exists 58, (32 :: joined ys), [], ys.
    - apply Forall_cons in Hc as [? _]. exists c, (y ++ delim ++ joined ys), (c :: y), ys. split_and!; [done|lia|done]. }
  destruct Hne as (c & t & y & ys & Ec & Hc & Eps). pose proof Hp as Hp'. rewrite Ec in Hp'. cstr_cons_step Hp'.
  rewrite (proj2 (Z.eqb_neq c 0)) by lia. pose proof (ro_each _ _ _ Hok) as Hall.
  rewrite Eps in Hp, Hall. pose proof Hall as [Hy _]%Forall_cons. cbn [joined] in Hp.
  rewrite (delim_at _ L y _ (joined ys) Hp) by (done || apply (ro_delim _ _ _ Hok)). cbn [bind].
  rewrite last_prefix_spec with (rest := ys); [|done|done|apply (ro_delim _ _ _ Hok)|].
  2: { pose proof (cstr_fuel _ _ _ Hp) as Hf. pose proof (joined_length (y :: ys)). cbn [joined length] in *. lia. }
  rewrite <- Eps. unfold ps at 1. rewrite removelast_last. cbn [bind].
  pose proof (ro_prefixes _ _ _ Hok) as Hpre. unfold ps in Hpre. rewrite joined_snoc in Hpre.
  assert (Hx : ∃ z zs, x ++ delim = z :: zs) by (destruct x; cbn; eauto). destruct Hx as (z & zs & Ez).
  rewrite Ez in Hpre. destruct (cstr_truncate _ _ _ _ _ Hpre) as [-> Hcut]. cbn [bind post].
  split; [|done]. pose proof (ro_fits _ _ _ Hok) as Hfit. unfold ps in Hfit. rewrite joined_snoc, length_app in Hfit.
  apply (rep_ok_update L s _ ps); try done.
  - lia.
  - pose proof (ro_each _ _ _ Hok) as Ha. unfold ps in Ha. by apply Forall_app in Ha as [? _].
  - intros q Hq. cbn. rewrite lookup_insert_ne; [done|]. lia.
  - apply mapped_insert, (ro_room _ _ _ Hok).
Qed.

(** ** Counters *)

Inductive outcome : Type :=
| Passed
| Result (pass xfail kfail skip : bool) (msg_fmt : Z) (va : list Z).

Definition run_outcome (L : layout) (o : outcome) (s : report_state) : res report_state :=
  match o with
  | Passed => report_passed s
  | Result pass xfail kfail skip fmt va =>
      let* '(_, s) := va_report L fmt pass xfail kfail skip va s in Ret s
  end.
Fixpoint run_outcomes (L : layout) (os : list outcome) (s : report_state) : res report_state :=
  match os with [] => Ret s | o :: os => let* s := run_outcome L o s in run_outcomes L os s end.

Definition is_skip (o : outcome) : bool :=
  match o with Result _ _ _ skip _ _ => skip | Passed => false end.
(** A result counts against the run when it is a failure nobody announced, or
    a success where a failure was expected. *)
Definition is_failure (o : outcome) : bool :=
  match o with
  | Result pass xfail kfail skip _ _ => negb skip && (if xfail then pass else negb pass && negb kfail)
  | Passed => false
  end.

Definition exit_code (os : list outcome) : Z :=
  if forallb is_skip os then 38 else if existsb is_failure os then 1 else 0.

Definition count (f : outcome → bool) (os : list outcome) : Z := len (List.filter f os).

Lemma text_loop_spec f m p t : cstr m p t → (length t < f)%nat → text_loop f m p = Ret t.
Proof.
  revert p t. induction f as [|f IH]; intros p t Ht Hf; [lia|]. cbn [text_loop]. destruct t as [|c t].
  - by cstr_nil_step Ht.
  - cstr_cons_step Ht. rewrite (proj2 (Z.eqb_neq c 0)) by lia. cbn [length] in Hf.
    by rewrite (IH _ t) by (done || lia).
Qed.

(** The counters after the outcomes [os]; the memory is not touched. *)
Definition counted (m : memory) (os : list outcome) (s : report_state) : Prop :=
  rlock s = false ∧ rmem s = m ∧ tests s = len os ∧
  failures s = count is_failure os ∧ skipped s = count is_skip os.

Lemma count_snoc f os o : count f (os ++ [o]) = count f os + (if f o then 1 else 0).
Proof.
  unfold count. rewrite List.filter_app, length_app. cbn [List.filter]. destruct (f o); cbn [length]; lia.
Qed.

Lemma count_le f os : 0 ≤ count f os ≤ len os.
Proof. unfold count. pose proof (List.filter_length_le f os). lia. Qed.

Lemma run_outcome_spec L m t os o s :
  cstr m (prefixes L) t → counted m os s → len os + 1 < 2 ^ 32 →
  post (run_outcome L o s) (counted m (os ++ [o])).
Proof.
  intros Ht (Hlk & Hm & Htn & Hfn & Hsn) Hlen. pose proof (count_le is_failure os). pose proof (count_le is_skip os).
  assert (Hone : ∀ x, 0 ≤ x ≤ len os → u32 (x + 1) = x + 1) by (intros; apply u32_small; lia).
  unfold counted. rewrite !count_snoc, length_app. cbn [length].
  destruct o as [|pass xfail kfail skip fmt va]; cbn [run_outcome is_failure is_skip].
  - unfold report_passed, lock_report. rewrite Hlk. cbn [bind post tests failures skipped rlock rmem unlock_report set_rlock inc_tests].
    rewrite Hone by lia. split_and!; done || lia.
  - unfold va_report, lock_report. rewrite Hlk. cbn [bind].
    unfold text. cbn [rmem print_event inc_tests set_rlock]. rewrite Hm, (text_loop_spec _ _ _ t) by (done || by eapply cstr_fuel).
    cbn [bind post]. destruct skip, xfail, kfail, pass;
      cbn [negb andb orb tests failures skipped rlock rmem unlock_report set_rlock print_event
           inc_tests inc_failures inc_xfailures inc_kfailures inc_skipped];
      rewrite ?Hone by lia; split_and!; done || lia.
Qed.

Lemma run_outcomes_spec L m t os' os s :
  cstr m (prefixes L) t → counted m os s → len (os ++ os') < 2 ^ 32 →
  post (run_outcomes L os' s) (counted m (os ++ os')).
Proof.
  intros Ht. revert os s. induction os' as [|o os' IH]; intros os s Hc Hlen; cbn [run_outcomes].
  - by rewrite app_nil_r.
  - rewrite length_app in Hlen. cbn [length] in Hlen.
    apply post_bind. eapply post_mono; [by apply (run_outcome_spec L m t os o s); try done; lia|].
    intros s1 Hc1. replace (os ++ o :: os') with ((os ++ [o]) ++ os') by (by rewrite <- app_assoc).
    apply IH; [done|]. rewrite !length_app. cbn [length]. lia.
Qed.

Lemma count_all f os : count f os = len os ↔ forallb f os = true.
Proof.
  unfold count. induction os as [|o os IH]; cbn [List.filter forallb length]; [done|].
  pose proof (List.filter_length_le f os). destruct (f o); cbn [andb length]; [rewrite <- IH; lia|lia].
Qed.

Lemma count_some f os : 0 < count f os ↔ existsb f os = true.
Proof.
  unfold count. induction os as [|o os IH]; cbn [List.filter existsb length]; [done|].
  destruct (f o); cbn [orb length]; [lia|done].
Qed.

(** Printing does not count. *)
Definition same_counts (s s' : report_state) : Prop :=
  tests s' = tests s ∧ skipped s' = skipped s ∧ failures s' = failures s ∧ rmem s' = rmem s.
Lemma same_counts_print e s s' : same_counts s s' → same_counts s (print_event e s').
Proof. by intros (? & ? & ? & ?). Qed.
Lemma same_counts_if (b : bool) s s1 s2 :
  same_counts s s1 → same_counts s s2 → same_counts s (if b then s1 else s2).
Proof. by destruct b. Qed.

Lemma summary_spec m os s :
  counted m os s → post (report_summary s) (λ '(r, s'), r = exit_code os ∧ counted m os s').
Proof.
  intros (Hlk & Hm & Htn & Hfn & Hsn). unfold report_summary, lock_report. rewrite Hlk. cbn [bind].
  set (s5 := print_event (Puts newline) _).
  assert (Hs5 : same_counts s s5) by (unfold s5; repeat first [apply same_counts_print|apply same_counts_if]; done).
  clearbody s5. destruct Hs5 as (E1 & E2 & E3 & E4).
  assert (Hc : counted m os (unlock_report s5)).
  { unfold counted. cbn [rlock rmem tests failures skipped unlock_report set_rlock]. rewrite E1, E2, E3, E4. done. }
  rewrite E1, E2, E3, Htn, Hfn, Hsn. unfold exit_code.
  destruct (Z.eqb_spec (len os) (count is_skip os)) as [E|E].
  - rewrite (proj1 (count_all is_skip os)) by done. done.
  - destruct (forallb is_skip os) eqn:Ea; [by apply count_all in Ea; lia|].
    destruct (Z.ltb_spec 0 (count is_failure os)) as [Hf|Hf].
    + by rewrite (proj1 (count_some _ _) Hf).
    + destruct (existsb is_failure os) eqn:Ee; [apply count_some in Ee; lia|done].
Qed.

(** ** The theorems *)

(** A prefix buffer holding nothing, the literals, and the string "ab". *)
Definition demo_layout : layout := mk_layout 1000 2000 2100 3000.
Definition demo_report : report_state :=
  mk_rs 0 0 0 0 0 false
    (blocks [(1000, replicate 256 0); (2000, [58; 32; 0]); (2100, [37; 115; 0]); (2200, [97; 98; 0])]) [].

Lemma demo_report_ok : rep_ok demo_layout demo_report [].
Proof.
  assert (Hm : ∀ q, 1000 ≤ q < 1256 → rmem demo_report !! q = Some 0).
  { intros q Hq. unfold demo_report, blocks. cbn [rmem foldr].
    rewrite upd_lookup, decide_True by (rewrite length_replicate; lia). apply lookup_replicate_2. lia. }
  constructor.
  - split; [|constructor]. cbn. rewrite Hm by lia. by split_and!.
  - intros i Hi. unfold PREFIXES_SIZE in Hi. cbn [prefixes demo_layout]. split; [apply addr_ok_iff; lia|].
    rewrite Hm by lia. by eexists.
  - by vm_compute.
  - constructor.
  - concrete_cstr.
  - left. by vm_compute.
  - concrete_cstr.
  - left. by vm_compute.
  - split; [by vm_compute|]. split; [by vm_compute|]. intros q Hq. unfold UINT_BUF in Hq. cbn [stack demo_layout] in Hq.
    unfold demo_report, blocks. cbn [rmem foldr].
    rewrite !upd_outside by (rewrite ?length_replicate; cbn [length]; lia). done.
Qed.

(** C30: the prefix buffer is a stack.  Pushing a string that fits together
    with its delimiter and contains no delimiter puts it on top, and popping
    then restores the stack; a string that does not qualify stops the program
    instead of corrupting the buffer; popping removes the last prefix, and
    nothing when there is none. *)
Theorem report_prefix_is_stack L s ps a t :
  rep_ok L s ps → rlock s = false → cstr (rmem s) a t →
  disjoint_regions (prefixes L) PREFIXES_SIZE a (len t + 1) → len t ≤ 2 ^ 20 →
  (fits ps t → post (report_prefix_push L a s) (λ s1, rep_ok L s1 (ps ++ [t]) ∧
     post (report_prefix_pop L s1) (λ s2, rep_ok L s2 ps ∧ rlock s2 = false))) ∧
  (¬ fits ps t → report_prefix_push L a s = Abort) ∧
  post (report_prefix_pop L s) (λ s1, rep_ok L s1 (removelast ps) ∧ rlock s1 = false).
Proof.
  intros Hok Hlk Ht Hd Hl.
  assert (Hpop : ∀ s ps, rep_ok L s ps → rlock s = false →
    post (report_prefix_pop L s) (λ s1, rep_ok L s1 (removelast ps) ∧ rlock s1 = false)).
  { intros s1 qs Hok1 Hlk1. unfold report_prefix_pop, lock_report. rewrite Hlk1. cbn [bind].
    assert (Hok1' : rep_ok L (set_rlock true s1) qs) by (destruct Hok1; by constructor).
    apply post_bind. eapply post_mono; [by apply (pop_spec L _ qs)|].
    intros s2 [Hok2 _]. cbn [post]. split; [|done]. destruct Hok2; by constructor. }
  pose proof (ro_fits _ _ _ Hok) as Hfit.
  destruct (pushf_spec L s ps (fmt_s L) [c_percent; c_s] [a] t Hok Hlk) as [Hgood Hbad].
  - apply (ro_fmt _ _ _ Hok).
  - apply (ro_fmt_apart _ _ _ Hok).
  - apply string_renders; [done| |done]. unfold disjoint_regions in *. lia.
  - apply Ht.
  - lia.
  - split_and!; [|done|by apply Hpop].
    intros Hf. eapply post_mono; [by apply Hgood|]. intros s1 [Hok1 Hlk1]. split; [done|].
    eapply post_mono; [by apply (Hpop s1 (ps ++ [t]))|]. by rewrite removelast_last.
Qed.

Lemma report_prefix_is_stack_witness :
  post (report_prefix_push demo_layout 2200 demo_report) (λ s1, rep_ok demo_layout s1 [[97; 98]]).
Proof.
  destruct (report_prefix_is_stack demo_layout demo_report [] 2200 [97; 98]) as [Hgood _].
  - apply demo_report_ok.
  - done.
  - concrete_cstr.
  - left. by vm_compute.
  - by vm_compute.
  - assert (Hf : fits [] [97; 98]) by (split; by vm_compute).
    refine (post_mono _ _ _ (Hgood Hf) _). intros s1 [H _]. exact H.
Defined.

(** The exit code.  After any sequence of reported outcomes, starting from
    zero counters, [report_summary] returns 38 (77 shifted right) when every
    outcome was skipped, 1 when some outcome was an unannounced failure or an
    unexpected success, and 0 otherwise. *)
Theorem report_summary_correct L m t os s :
  cstr m (prefixes L) t → counted m [] s → len os < 2 ^ 32 →
  post (let* s' := run_outcomes L os s in report_summary s') (λ '(r, _), r = exit_code os).
Proof.
  intros Ht Hc Hl. apply post_bind. eapply post_mono; [by apply (run_outcomes_spec L m t os [] s)|].
  intros s1 Hc1. eapply post_mono; [by eapply summary_spec|]. by intros [r s2] [? _].
Qed.

Lemma report_summary_correct_witness :
  post (let* s' := run_outcomes demo_layout
          [Passed; Result false false true false 0 []; Result false false false true 0 []] demo_report in
        report_summary s') (λ '(r, _), r = 0).
Proof.
  apply (report_summary_correct demo_layout (rmem demo_report) []
    [Passed; Result false false true false 0 []; Result false false false true 0 []] demo_report).
  - apply (ro_prefixes _ _ _ demo_report_ok).
  - split_and!; reflexivity.
  - by vm_compute.
Defined.

(** A known failure does not count as a failure, yet [report_kfail]
    returns false for it, so a caller that tests the result treats it as
    failed. *)
Theorem report_kfail_returns_false L m t os s fmt va :
  cstr m (prefixes L) t → counted m os s → len os + 1 < 2 ^ 32 →
  post (report_kfail L true false fmt va s) (λ '(b, s'), b = false ∧
    failures s' = failures s ∧ tests s' = tests s + 1).
Proof.
  intros Ht Hc Hl. pose proof (run_outcome_spec L m t os (Result false false true false fmt va) s Ht Hc Hl) as H.
  cbn [run_outcome] in H. apply post_bind in H. unfold report_kfail.
  assert (Hb : post (va_report L fmt false false true false va s) (λ '(b, _), b = false)).
  { destruct Hc as (Hlk & Hm & _). unfold va_report, lock_report. rewrite Hlk. cbn [bind].
    unfold text. cbn [rmem print_event inc_tests set_rlock]. rewrite Hm, (text_loop_spec _ _ _ t) by (done || by eapply cstr_fuel).
    done. }
  destruct (va_report L fmt false false true false va s) as [[b s']| | |]; try done. cbn [post] in *.
  destruct Hc as (_ & _ & Ht0 & Hf0 & _), H as (_ & _ & Ht1 & Hf1 & _).
  rewrite count_snoc in Hf1. rewrite length_app in Ht1. cbn in Hf1. cbn [length] in Ht1. split_and!; [done|lia|lia].
Qed.

Lemma report_kfail_returns_false_witness :
  post (report_kfail demo_layout true false 0 [] demo_report) (λ '(b, s'), b = false ∧ failures s' = 0).
Proof.
  eapply post_mono; [apply (report_kfail_returns_false demo_layout (rmem demo_report) [] [] demo_report 0 [])|].
  - apply (ro_prefixes _ _ _ demo_report_ok).
  - split_and!; reflexivity.
  - by vm_compute.
  - intros [b s'] (-> & E & _). by split.
Defined.
