(* ===== verification/Argv.v ===== *)
(** * lib/argv.c: the arguments of main and the environment

    Splitting the command line into words and turning the initrd image of the
    environment into the array [environ].  The strings live in the byte
    memory of CMem.v; the two pointer arrays are lists of fixed length, and a
    store past their end is a [Fault]. *)

From S2P Require Import Prelude.
From S2P Require Import CMem.
From S2P Require Import CString.
From S2P Require Import Printf.

Abbreviation c_hash := 35.
Abbreviation c_underscore := 95.

(** ** State *)

Record args_state : Type := mk_as {
  amem : memory;
  __argc : Z;
  __args : Z;
  __argv : list Z;
  __environ : list Z;
  copy_ptr : Z;
  complaints : list (list Z);  (** the entries printed as invalid *)
}.

Definition set_amem (m : memory) (s : args_state) : args_state :=
  mk_as m (__argc s) (__args s) (__argv s) (__environ s) (copy_ptr s) (complaints s).
Definition set_argc (n : Z) (s : args_state) : args_state :=
  mk_as (amem s) n (__args s) (__argv s) (__environ s) (copy_ptr s) (complaints s).
Definition set_args (a : Z) (s : args_state) : args_state :=
  mk_as (amem s) (__argc s) a (__argv s) (__environ s) (copy_ptr s) (complaints s).
Definition set_copy_ptr (p : Z) (s : args_state) : args_state :=
  mk_as (amem s) (__argc s) (__args s) (__argv s) (__environ s) p (complaints s).
Definition complain (t : list Z) (s : args_state) : args_state :=
  mk_as (amem s) (__argc s) (__args s) (__argv s) (__environ s) (copy_ptr s) (complaints s ++ [t]).

(** [__argv[i] = p] and [__environ[i] = p] *)
Definition store_argv (i p : Z) (s : args_state) : res args_state :=
  valid! ((0 <=? i) && (i <? Z.of_nat (length (__argv s))));
  Ret (mk_as (amem s) (__argc s) (__args s) (<[Z.to_nat i := p]> (__argv s)) (__environ s)
         (copy_ptr s) (complaints s)).
Definition store_environ (i p : Z) (s : args_state) : res args_state :=
  valid! ((0 <=? i) && (i <? Z.of_nat (length (__environ s))));
  Ret (mk_as (amem s) (__argc s) (__args s) (__argv s) (<[Z.to_nat i := p]> (__environ s))
         (copy_ptr s) (complaints s)).

(** ** Arguments *)

Fixpoint skip_blanks_loop (f : nat) (m : memory) (p : Z) : res Z :=
  match f with
  | O => Hang
  | S f => let* c := ldc m p in if isblank c then skip_blanks_loop f m (p + 1) else Ret p
  end.
Definition skip_blanks (m : memory) (p : Z) : res Z := skip_blanks_loop (fuel m) m p.

(** The inner loop: copies one word; the memory, [copy_ptr] and [args]. *)
Fixpoint copy_word (f : nat) (m : memory) (cp args : Z) : res (memory * Z * Z) :=
  match f with
  | O => Hang
  | S f =>
      let* c := ldc m args in
      if negb (c =? 0) && negb (isblank c) then
        let* m := stb m cp c in copy_word f m (cp + 1) (args + 1)
      else Ret (m, cp, args)
  end.

(** The outer loop; the result comes with the index [argv - __argv]. *)
Fixpoint args_loop (f : nat) (s : args_state) (args argv : Z) : res (args_state * Z) :=
  match f with
  | O => Hang
  | S f =>
      let* args := skip_blanks (amem s) args in
      let* c := ldc (amem s) args in
      if c =? 0 then Ret (s, argv) else
      let* s := store_argv argv (copy_ptr s) s in
      let* '(m, cp, args) := copy_word (fuel (amem s)) (amem s) (copy_ptr s) args in
      let* m := stb m cp 0 in
      args_loop f (set_copy_ptr (cp + 1) (set_amem m s)) args (argv + 1)
  end.
Definition __setup_args (s : args_state) : res args_state :=
  let* '(s, argv) := args_loop (fuel (amem s)) s (__args s) (__argc s) in
  Ret (set_argc argv s).

Definition setup_args (args : Z) (s : args_state) : res args_state :=
  if args =? 0 then Ret s else __setup_args (set_args args s).

Definition add_setup_arg (arg : Z) (s : args_state) : res args_state :=
  let* s := store_argv (__argc s) (copy_ptr s) s in
  let* '(_, m) := strcpy (amem s) (copy_ptr s) arg in
  let s := set_amem m s in
  let* n := strlen (amem s) arg in
  let s := set_copy_ptr (copy_ptr s + (n + 1)) s in
  Ret (set_argc (__argc s + 1) s).

(** [progname]: [auxinfo.progname] *)
Definition setup_args_progname (progname args : Z) (s : args_state) : res args_state :=
  let* s := add_setup_arg progname s in setup_args args s.

(** ** Environment *)

Fixpoint env_eol_loop (f : nat) (m : memory) (env : Z) : res Z :=
  match f with
  | O => Hang
  | S f =>
      let* c := ldc m env in
      if negb (c =? 0) && negb (c =? c_lf) then env_eol_loop f m (env + 1) else Ret env
  end.
Definition env_eol (m : memory) (env : Z) : res Z := env_eol_loop (fuel m) m env.

(** Prints the line at [env] as invalid; the end of the line is overwritten
    for the duration of the call. *)
Definition env_invalid_eol (env : Z) (s : args_state) : res (Z * args_state) :=
  let* eol := env_eol (amem s) env in
  let* eol_old := ldc (amem s) eol in
  let* m := stb (amem s) eol 0 in
  let* t := text m env in
  let* m := stb m eol eol_old in
  Ret (eol, complain t (set_amem m s)).

(** The scan of a name: where it stops, and whether it was invalid so far. *)
Fixpoint name_loop (f : nat) (m : memory) (p : Z) (invalid : bool) : res (Z * bool) :=
  match f with
  | O => Hang
  | S f =>
      let* c := ldc m p in
      if negb (c =? 0) && negb (c =? c_eq) && negb (c =? c_lf) then
        name_loop f m (p + 1) (if isalnum c || (c =? c_underscore) then invalid else true)
      else Ret (p, invalid)
  end.

Fixpoint env_next_rec (f : nat) (env : Z) (s : args_state) : res (Z * args_state) :=
  match f with
  | O => Hang
  | S f =>
      (** [return *env ? env_next(env + 1) : env] *)
      let next (env : Z) (s : args_state) :=
        let* c := ldc (amem s) env in
        if c =? 0 then Ret (env, s) else env_next_rec f (env + 1) s in
      let* c := ldc (amem s) env in
      if c =? 0 then Ret (env, s) else
      if isalpha c || (c =? c_underscore) then
        let* '(p, invalid) := name_loop (fuel (amem s)) (amem s) (env + 1) false in
        let* e := ldc (amem s) p in
        if invalid || negb (e =? c_eq) then
          let* '(env, s) := env_invalid_eol env s in next env s
        else Ret (env, s)
      else
        let* p := skip_blanks (amem s) env in
        let* e := ldc (amem s) p in
        if e =? c_lf then env_next_rec f (p + 1) s else
        if e =? c_hash then let* env := env_eol (amem s) env in next env s
        else let* '(env, s) := env_invalid_eol env s in next env s
  end.
Definition env_next (env : Z) (s : args_state) : res (Z * args_state) :=
  env_next_rec (fuel (amem s)) env s.

(** To the end of the current entry. *)
Fixpoint entry_loop (f : nat) (m : memory) (newline : bool) (env eof : Z) : res Z :=
  match f with
  | O => Hang
  | S f =>
      if negb (env <? eof) then Ret env else
      let* c := ldc m env in
      if negb (c =? 0) && negb (newline && (c =? c_lf)) then entry_loop f m newline (env + 1) eof
      else Ret env
  end.

Fixpoint env_loop (f : nat) (newline : bool) (env eof i : Z) (s : args_state) : res args_state :=
  match f with
  | O => Hang
  | S f =>
      if negb (env <? eof) then Ret s else
      let* '(env, s) := if newline then env_next env s else Ret (env, s) in
      let* c := ldc (amem s) env in
      if (c =? 0) || (eof <=? env) then Ret s else
      let* s := store_environ i env s in
      let* env := entry_loop (fuel (amem s)) (amem s) newline env eof in
      let* m := stb (amem s) env 0 in
      env_loop f newline (env + 1) eof (i + 1) (set_amem m s)
  end.

Definition setup_env (env size : Z) (s : args_state) : res args_state :=
  let eof := env + size in
  let* p := scan_end (fuel (amem s)) (amem s) env in
  env_loop (fuel (amem s)) (p =? eof) env eof 0 s.
