(* ===== verification/ArgvProps.v ===== *)
(** * lib/argv.c: theorems

    The command line is split into its words; the environment image becomes
    the array of its well-formed lines, ready for getenv. *)

From S2P Require Import Prelude.
From S2P Require Import CMem.
From S2P Require Import CString.
From S2P Require Import CStringSpec.
From S2P Require Import CStringNum.
From S2P Require Import CStringProps.
From S2P Require Import Printf.
From S2P Require Import ReportProps.
From S2P Require Import Argv.

(** ** Characters: the tests do not depend on the sign of [char] *)

Lemma s8_test (P : Z → bool) c :
  (∀ x, P x = true → 0 ≤ x < 128) → 0 ≤ c < 256 → P (s8 c) = P c.
Proof.
  intros HP Hc. destruct (decide (c < 128)).
  - by rewrite s8_ascii by lia.
  - rewrite s8_high by lia.
    destruct (P (c - 256)) eqn:E1; [apply HP in E1; lia|].
    destruct (P c) eqn:E2; [apply HP in E2; lia|done].
Qed.

Ltac char_test := unfold isblank, isalnum, isalpha, isupper, islower, isdigit; intros x Hx;
  repeat (rewrite orb_true_iff in Hx || rewrite andb_true_iff in Hx ||
          rewrite Z.eqb_eq in Hx || rewrite Z.leb_le in Hx); lia.

Lemma s8_isblank c : 0 ≤ c < 256 → isblank (s8 c) = isblank c.
Proof. apply s8_test. char_test. Qed.
Lemma s8_isalpha c : 0 ≤ c < 256 → isalpha (s8 c) = isalpha c.
Proof. apply s8_test. char_test. Qed.
Lemma s8_isalnum c : 0 ≤ c < 256 → isalnum (s8 c) = isalnum c.
Proof. apply s8_test. char_test. Qed.
Lemma s8_eqb k c : 0 ≤ k < 128 → 0 ≤ c < 256 → (s8 c =? k) = (c =? k).
Proof. intros Hk. apply (s8_test (λ x, x =? k)). intros x E%Z.eqb_eq. lia. Qed.

Create Rewrite HintDb s8.
#[export] Hint Rewrite s8_isblank s8_isalpha s8_isalnum s8_eqb using lia : s8.

(** The number of leading elements with [P]. *)
Fixpoint span (P : Z → bool) (s : list Z) : nat :=
  match s with c :: s => if P c then S (span P s) else O | [] => O end.

Lemma span_split P s :
  Forall (λ c, P c = true) (take (span P s) s) ∧
  match drop (span P s) s with c :: _ => P c = false | [] => True end.
Proof.
  induction s as [|c s IH]; [done|]. cbn [span]. destruct (P c) eqn:E; [|done].
  cbn. destruct IH. split; [by constructor|done].
Qed.

Lemma span_le P s : (span P s ≤ length s)%nat.
Proof. induction s as [|c s IH]; cbn [span length]; [lia|]. destruct (P c); lia. Qed.

Lemma span_app_all P s1 s2 :
  Forall (λ c, P c = true) s1 → span P (s1 ++ s2) = (length s1 + span P s2)%nat.
Proof. induction 1 as [|c s1 E _ IH]; [done|]. cbn. by rewrite E, IH. Qed.

Lemma skip_blanks_spec m p s :
  cstr m p s → skip_blanks m p = Ret (p + Z.of_nat (span isblank s)).
Proof.
  intros Hs. pose proof (cstr_fuel _ _ _ Hs) as Hf. unfold skip_blanks. revert p s Hs Hf.
  generalize (fuel m). intros f. induction f as [|f IH]; intros p s Hs Hf; [lia|].
  cbn [skip_blanks_loop]. destruct s as [|c s].
  - cstr_nil_step Hs. cbn. f_equal. lia.
  - cstr_cons_step Hs. autorewrite with s8. cbn [span length] in *. destruct (isblank c).
    + rewrite (IH _ s) by (done || lia). f_equal. lia.
    + f_equal. lia.
Qed.

(** ** Words *)

(** The maximal runs of non-blank characters. *)
Fixpoint words_from (cur s : list Z) : list (list Z) :=
  let emit := match cur with [] => [] | _ => [cur] end in
  match s with
  | [] => emit
  | c :: s => if isblank c then emit ++ words_from [] s else words_from (cur ++ [c]) s
  end.
Definition words (s : list Z) : list (list Z) := words_from [] s.

Definition nonblank (c : Z) : bool := negb (isblank c).

Lemma words_skip s : words (drop (span isblank s) s) = words s.
Proof.
  induction s as [|c s IH]; [done|]. cbn [span]. destruct (isblank c) eqn:E; [|done].
  unfold words in *. cbn. by rewrite E.
Qed.

Lemma words_from_run cur s :
  words_from cur s = words_from (cur ++ take (span nonblank s) s) (drop (span nonblank s) s).
Proof.
  revert cur. induction s as [|c s IH]; intros cur; [cbn; by rewrite app_nil_r|].
  cbn [span]. unfold nonblank at 1 3. destruct (isblank c) eqn:E; cbn [negb take drop].
  - by rewrite app_nil_r.
  - cbn [words_from]. rewrite E, IH, <- app_assoc. done.
Qed.

Lemma words_cons c s :
  isblank c = false →
  words (c :: s) = (c :: take (span nonblank s) s) :: words (drop (span nonblank s) s).
Proof.
  intros E. unfold words. cbn [words_from]. rewrite E. cbn [app]. rewrite words_from_run.
  destruct (span_split nonblank s) as [_ H]. destruct (drop (span nonblank s) s) as [|b s']; [done|].
  unfold nonblank in H. apply negb_false_iff in H. cbn [words_from app]. by rewrite H.
Qed.

(** The image of the words in the copy buffer, and where each word starts. *)
Definition flat (ws : list (list Z)) : list Z := concat ((λ w, w ++ [0]) <$> ws).
Fixpoint starts (p : Z) (ws : list (list Z)) : list Z :=
  match ws with [] => [] | w :: ws => p :: starts (p + Z.of_nat (length w) + 1) ws end.

Lemma upd_app m p l1 l2 : upd m p (l1 ++ l2) = upd (upd m p l1) (p + Z.of_nat (length l1)) l2.
Proof.
  revert m p. induction l1 as [|b l1 IH]; intros m p; cbn [app upd length].
  - by rewrite Z.add_0_r.
  - rewrite IH. f_equal. lia.
Qed.

Lemma cstr_upd m p s q l :
  cstr m p s → disjoint_regions q (Z.of_nat (length l)) p (Z.of_nat (length s) + 1) → cstr (upd m q l) p s.
Proof.
  intros Hs Hd. eapply cstr_ext; [done|]. intros a Ha. apply upd_outside. unfold disjoint_regions in Hd. lia.
Qed.

Lemma copy_word_spec f m cp args s :
  cstr m args s → (length s < f)%nat → let n := span nonblank s in
  mapped m cp (Z.of_nat n) → disjoint_regions cp (Z.of_nat n) args (Z.of_nat (length s) + 1) →
  copy_word f m cp args = Ret (upd m cp (take n s), cp + Z.of_nat n, args + Z.of_nat n).
Proof.
  revert m cp args s. induction f as [|f IH]; intros m cp args s Hs Hf n Hm Hd; [lia|].
  cbn [copy_word]. subst n. destruct s as [|c s].
  - cstr_nil_step Hs. cbn. by rewrite !Z.add_0_r.
  - cstr_cons_step Hs. autorewrite with s8. rewrite (proj2 (Z.eqb_neq c 0)) by lia. cbn [negb andb].
    cbn [span] in *. unfold nonblank at 1 in Hm. unfold nonblank at 1 in Hd. unfold nonblank at 1 3 5.
    destruct (isblank c); cbn [negb length] in *.
    + cbn. by rewrite !Z.add_0_r.
    + unfold disjoint_regions in Hd. store Hm. replace (u8 (s8 c)) with c.
      2:{ unfold s8, sgn, u8. Z.div_mod_to_equations. lia. }
      rewrite (IH _ _ _ s); [|by apply (cstr_upd m (args + 1) s cp [c]); [|unfold disjoint_regions; cbn [length]; lia]|lia| |unfold disjoint_regions; lia].
      * cbn [take upd]. f_equal. f_equal; [f_equal|]; lia.
      * apply mapped_insert. apply (mapped_mono _ _ _ _ 1 Hm); lia.
Qed.

Lemma flat_cons w ws : flat (w :: ws) = w ++ 0 :: flat ws.
Proof. unfold flat. cbn. by rewrite <- app_assoc. Qed.

(** The state after splitting off the words [ws]. *)
Definition with_words (ws : list (list Z)) (argv : Z) (s : args_state) : args_state :=
  mk_as (upd (amem s) (copy_ptr s) (flat ws)) (__argc s) (__args s)
    (list_inserts (Z.to_nat argv) (starts (copy_ptr s) ws) (__argv s)) (__environ s)
    (copy_ptr s + Z.of_nat (length (flat ws))) (complaints s).

Lemma with_words_nil argv s : with_words [] argv s = s.
Proof. unfold with_words. cbn. rewrite Z.add_0_r. by destruct s. Qed.

Lemma with_words_cons w ws argv s : 0 ≤ argv →
  with_words ws (argv + 1) (mk_as (upd (amem s) (copy_ptr s) (w ++ [0])) (__argc s) (__args s)
    (<[Z.to_nat argv := copy_ptr s]> (__argv s)) (__environ s)
    (copy_ptr s + Z.of_nat (length w) + 1) (complaints s)) = with_words (w :: ws) argv s.
Proof.
  intros Ha. unfold with_words. cbn [amem __argc __args __argv __environ copy_ptr complaints starts].
  rewrite flat_cons. f_equal.
  - change (0 :: flat ws) with ([0] ++ flat ws). rewrite app_assoc, (upd_app _ _ (w ++ [0])).
    f_equal. rewrite length_app. cbn [length]. lia.
  - cbn [list_inserts]. replace (Z.to_nat (argv + 1)) with (S (Z.to_nat argv)) by lia.
    by rewrite list_insert_inserts_lt by lia.
  - rewrite length_app. cbn [length]. lia.
Qed.

(** What the copy of the words [ws] needs. *)
Definition room (ws : list (list Z)) (n args argv : Z) (s : args_state) : Prop :=
  0 ≤ argv ∧ argv + Z.of_nat (length ws) ≤ Z.of_nat (length (__argv s)) ∧
  mapped (amem s) (copy_ptr s) (Z.of_nat (length (flat ws))) ∧
  disjoint_regions (copy_ptr s) (Z.of_nat (length (flat ws))) args (n + 1).

Lemma mapped_eq m p n n' : mapped m p n → n = n' → mapped m p n'.
Proof. by intros ? <-. Qed.

Lemma args_loop_spec f s args t argv :
  cstr (amem s) args t → (length t < f)%nat → room (words t) (Z.of_nat (length t)) args argv s →
  args_loop f s args argv = Ret (with_words (words t) argv s, argv + Z.of_nat (length (words t))).
Proof.
  revert s args t argv. induction f as [|f IH]; intros s args t argv Hs Hf Hroom; [lia|].
  cbn [args_loop]. rewrite (skip_blanks_spec _ _ _ Hs). cbn [bind].
  pose proof (cstr_drop _ _ _ _ Hs (span_le isblank t)) as Hs'.
  pose proof (span_le isblank t) as Hle. pose proof (length_drop t (span isblank t)) as Hlen.
  destruct (span_split isblank t) as [_ Hb]. rewrite <- (words_skip t) in *.
  remember (drop (span isblank t) t) as t0 eqn:Et0. clear Et0. destruct t0 as [|c t'].
  { cstr_nil_step Hs'. rewrite with_words_nil. cbn. by rewrite Z.add_0_r. }
  cstr_cons_step Hs'. rewrite s8_eqb, (proj2 (Z.eqb_neq c 0)) by lia.
  destruct Hroom as (Ha & Hn & Hm & Hd). rewrite words_cons in * by done.
  pose proof (span_le nonblank t') as Hle'. cbn [length] in Hn, Hlen.
  unfold store_argv. rewrite (proj2 (Z.leb_le 0 argv)), (proj2 (Z.ltb_lt _ _)) by lia. cbn [andb bind amem copy_ptr].
  rewrite flat_cons, length_app in Hm, Hd. set (k := span nonblank t') in *. cbn [length] in Hm, Hd.
  rewrite length_take, Nat.min_l in Hm, Hd by lia. unfold disjoint_regions in Hd.
  assert (Ek : span nonblank (c :: t') = S k) by (cbn [span]; unfold nonblank at 1; by rewrite Hb).
  rewrite (copy_word_spec _ _ _ _ (c :: t')); [|done|by eapply cstr_fuel| |]; rewrite ?Ek.
  3:{ unfold disjoint_regions. cbn [length]. lia. }
  2:{ replace (copy_ptr s) with (copy_ptr s + 0) by lia. apply (mapped_mono _ _ _ _ 0 Hm); lia. }
  cbn [bind take]. set (w := c :: take k t').
  assert (Ew : Z.of_nat (length w) = Z.of_nat (S k)) by (subst w; cbn [length]; rewrite length_take; lia).
  rewrite stb_mapped; [|apply (mapped_upd _ (copy_ptr s) w _ _ Hm); lia..]. cbn [bind].
  change (u8 0) with 0. change (<[copy_ptr s + Z.of_nat (S k) := 0]> (upd (amem s) (copy_ptr s) w))
    with (upd (upd (amem s) (copy_ptr s) w) (copy_ptr s + Z.of_nat (S k)) [0]). rewrite <- Ew, <- upd_app.
  unfold set_amem, set_copy_ptr. cbn [amem __argc __args __argv __environ copy_ptr complaints].
  rewrite IH with (t := drop k t').
  - rewrite with_words_cons by done. f_equal. f_equal. cbn [length]. lia.
  - cbn [amem]. apply cstr_upd.
    + replace (args + _ + _) with (args + Z.of_nat (span isblank t) + 1 + Z.of_nat k) by lia.
      apply cstr_drop; done.
    + rewrite length_app, length_drop. unfold disjoint_regions. cbn [length]. lia.
  - rewrite length_drop. lia.
  - unfold room. cbn [amem __argv copy_ptr]. rewrite length_insert. split; [lia|]. split; [lia|]. split.
    + apply mapped_upd. rewrite <- Z.add_assoc. apply (mapped_mono _ _ _ _ _ Hm); lia.
    + unfold disjoint_regions. rewrite length_drop. lia.
Qed.

(** Word [i] of the copy is a string of its own. *)
Lemma starts_cstr m p ws i w :
  mapped m p (Z.of_nat (length (flat ws))) → Forall chars ws → ws !! i = Some w →
  ∃ q, starts p ws !! i = Some q ∧ p ≤ q ∧ cstr (upd m p (flat ws)) q w.
Proof.
  revert m p i. induction ws as [|w0 ws IH]; intros m p i Hm Hc; [done|].
  apply Forall_cons in Hc as [Hw Hc]. rewrite flat_cons in *.
  change (0 :: flat ws) with ([0] ++ flat ws) in *. rewrite app_assoc in *. rewrite upd_app.
  rewrite !length_app in Hm. cbn [length] in Hm. rewrite length_app. cbn [length].
  destruct i as [|i]; cbn [lookup list_lookup starts].
  - intros [= <-]. exists p. split; [done|]. split; [lia|]. apply cstr_upd; [|unfold disjoint_regions; lia].
    apply upd_cstr; [|done]. replace p with (p + 0) by lia. apply (mapped_mono _ _ _ _ 0 Hm); lia.
  - intros Hi. replace (p + Z.of_nat (length w0 + 1)) with (p + Z.of_nat (length w0) + 1) by lia.
    destruct (IH (upd m p (w0 ++ [0])) (p + Z.of_nat (length w0) + 1) i) as (q & ? & ? & ?); try done.
    + apply mapped_upd. rewrite <- Z.add_assoc. apply (mapped_mono _ _ _ _ _ Hm); lia.
    + exists q. split; [done|]. split; [lia|done].
Qed.

Lemma words_from_forall (P : Z → Prop) cur s :
  Forall P cur → Forall P s → Forall (Forall P) (words_from cur s).
Proof.
  revert cur. induction s as [|c s IH]; intros cur Hcur Hs; cbn [words_from].
  - destruct cur; [constructor|by constructor].
  - apply Forall_cons in Hs as [Hc Hs]. destruct (isblank c).
    + apply Forall_app. split; [destruct cur; [constructor|by constructor]|by apply IH].
    + apply IH; [|done]. apply Forall_app. split; [done|by constructor].
Qed.

(** The words partition the characters that are not blank. *)
Lemma words_from_concat cur s :
  concat (words_from cur s) = cur ++ base.filter (λ c, isblank c = false) s.
Proof.
  revert cur. induction s as [|c s IH]; intros cur; cbn [words_from].
  - destruct cur; cbn; by rewrite ?app_nil_r.
  - rewrite filter_cons. destruct (isblank c) eqn:E; rewrite ?decide_False, ?decide_True by congruence.
    + rewrite concat_app, IH. destruct cur; cbn; by rewrite ?app_nil_r.
    + by rewrite IH, <- app_assoc.
Qed.

Lemma add_setup_arg_spec s arg t :
  cstr (amem s) arg t → room [t] (Z.of_nat (length t)) arg (__argc s) s →
  add_setup_arg arg s = Ret (set_argc (__argc s + 1) (with_words [t] (__argc s) s)).
Proof.
  intros Ht (Ha & Hn & Hm & Hd). rewrite flat_cons in Hm, Hd. change (flat []) with (@nil Z) in Hm, Hd.
  rewrite length_app in Hm, Hd. cbn [length] in Hn, Hm, Hd.
  replace (Z.of_nat (length t + 1)) with (Z.of_nat (length t) + 1) in Hm, Hd by lia.
  unfold add_setup_arg, store_argv. rewrite (proj2 (Z.leb_le 0 (__argc s))), (proj2 (Z.ltb_lt _ _)) by lia.
  cbn [andb bind amem copy_ptr]. rewrite (strcpy_spec _ _ _ _ Ht Hm Hd). cbn [bind set_amem amem].
  rewrite (strlen_spec _ _ t).
  2:{ apply cstr_upd; [done|]. unfold disjoint_regions in *. rewrite length_app. cbn [length]. lia. }
  unfold with_words, set_argc, set_copy_ptr, set_amem. cbn [bind amem __argc __args __argv __environ copy_ptr complaints starts].
  rewrite flat_cons. change (flat []) with (@nil Z). rewrite length_app. cbn [length list_inserts].
  do 2 f_equal. lia.
Qed.

Lemma setup_args_spec s args t :
  cstr (amem s) args t → room (words t) (Z.of_nat (length t)) args (__argc s) s →
  setup_args args s = Ret (set_argc (__argc s + Z.of_nat (length (words t)))
    (with_words (words t) (__argc s) (set_args args s))).
Proof.
  intros Ht Hroom. pose proof (cstr_range _ _ _ Ht). unfold setup_args.
  rewrite (proj2 (Z.eqb_neq args 0)) by lia. unfold __setup_args.
  rewrite (args_loop_spec _ _ _ t); [done|done|by eapply cstr_fuel|done].
Qed.

(** Adding one word and then further ones. *)
Lemma with_words_compose w ws a k s : 0 ≤ __argc s →
  with_words ws (__argc s + 1) (set_args a (set_argc k (with_words [w] (__argc s) s))) =
  set_argc k (with_words (w :: ws) (__argc s) (set_args a s)).
Proof.
  intros Ha. destruct s as [m c a0 av en cp co].
  pose proof (with_words_cons w ws c (mk_as m k a av en cp co) Ha) as E.
  unfold with_words, set_args, set_argc in *. cbn [amem __argc __args __argv __environ copy_ptr complaints starts list_inserts] in *.
  rewrite !flat_cons in *. change (flat []) with (@nil Z). rewrite <- E, length_app. cbn [length].
  replace (cp + Z.of_nat (length w + 1)) with (cp + Z.of_nat (length w) + 1) by lia. done.
Qed.

Lemma setup_args_progname_spec s prog pt args t :
  cstr (amem s) prog pt → cstr (amem s) args t →
  room (pt :: words t) (Z.of_nat (length pt)) prog (__argc s) s →
  room (pt :: words t) (Z.of_nat (length t)) args (__argc s) s →
  setup_args_progname prog args s = Ret (set_argc (__argc s + 1 + Z.of_nat (length (words t)))
    (with_words (pt :: words t) (__argc s) (set_args args s))).
Proof.
  intros Hp Ht (Ha & Hn & Hm & Hd1) (_ & _ & _ & Hd2).
  rewrite flat_cons, length_app in Hm, Hd1, Hd2. cbn [length] in Hn, Hm, Hd1, Hd2.
  assert (Hflat : length (flat [pt]) = (length pt + 1)%nat) by (rewrite flat_cons, length_app; done).
  unfold setup_args_progname. unfold disjoint_regions in *. rewrite (add_setup_arg_spec _ _ pt Hp).
  2:{ unfold room, disjoint_regions. rewrite Hflat. cbn [length]. split; [lia|]. split; [lia|]. split; [|lia].
      replace (copy_ptr s) with (copy_ptr s + 0) by lia. apply (mapped_mono _ _ _ _ 0 Hm); lia. }
  cbn [bind]. rewrite (setup_args_spec _ _ t).
  - change (__argc (set_argc (__argc s + 1) (with_words [pt] (__argc s) s))) with (__argc s + 1).
    by rewrite with_words_compose.
  - apply cstr_upd; [done|]. unfold disjoint_regions. rewrite Hflat. lia.
  - unfold room, disjoint_regions. cbn [amem set_argc with_words copy_ptr __argc __argv].
    rewrite length_inserts, Hflat. split; [lia|]. split; [lia|]. split; [|lia].
    apply mapped_upd. apply (mapped_mono _ _ _ _ _ Hm); lia.
Qed.

Lemma length_starts p ws : length (starts p ws) = length ws.
Proof. revert p. induction ws as [|w ws IH]; intros p; cbn [starts length]; [done|]. by rewrite IH. Qed.

(** C31: the command line.  When the pointer array and the copy buffer have
    room and the buffer does not overlap the sources, [setup_args_progname]
    appends the program name and the words of [args] to [argv] as strings of
    their own, advances [argc] and the copy pointer accordingly, and changes
    neither the earlier arguments nor memory outside the buffer; the words are
    the maximal runs of non-blank characters, so no character is lost.  A null
    [args] adds only the name. *)
Theorem setup_args_correct s prog pt args t (ws := pt :: words t) (n := Z.of_nat (length (flat ws))) :
  cstr (amem s) prog pt → cstr (amem s) args t →
  0 ≤ __argc s → __argc s + Z.of_nat (length ws) ≤ Z.of_nat (length (__argv s)) →
  mapped (amem s) (copy_ptr s) n →
  disjoint_regions (copy_ptr s) n prog (Z.of_nat (length pt) + 1) →
  disjoint_regions (copy_ptr s) n args (Z.of_nat (length t) + 1) →
  post (setup_args_progname prog args s) (λ s',
    __argc s' = __argc s + Z.of_nat (length ws) ∧ copy_ptr s' = copy_ptr s + n ∧
    (∀ i w, ws !! i = Some w → ∃ q, __argv s' !! (Z.to_nat (__argc s) + i)%nat = Some q ∧ cstr (amem s') q w) ∧
    (∀ i, (i < Z.to_nat (__argc s))%nat → __argv s' !! i = __argv s !! i) ∧
    (∀ q, ¬ (copy_ptr s ≤ q < copy_ptr s + n) → amem s' !! q = amem s !! q) ∧
    concat (words t) = base.filter (λ c, isblank c = false) t) ∧
  setup_args_progname prog 0 s = add_setup_arg prog s.
Proof.
  intros Hp Ht Ha Hn Hm Hd1 Hd2.
  split; [|unfold setup_args_progname; by destruct (add_setup_arg prog s)].
  rewrite (setup_args_progname_spec _ _ pt _ t) by (unfold room; auto).
  assert (El : Z.of_nat (length ws) = Z.of_nat (length (words t)) + 1) by (subst ws; cbn [length]; lia).
  fold ws. unfold with_words, set_args, set_argc. cbn [post amem __argc __args __argv __environ copy_ptr complaints].
  fold n. split_and!.
  - lia.
  - done.
  - intros i w Hi. destruct (starts_cstr (amem s) (copy_ptr s) ws i w) as (q & Hq & _ & Hw); try done.
    { constructor; [apply Hp|]. apply words_from_forall; [done|apply Ht]. }
    exists q. split; [|done]. pose proof (lookup_lt_Some _ _ _ Hi).
    rewrite list_lookup_inserts; rewrite ?length_starts; [|lia..].
    by replace (Z.to_nat (__argc s) + i - Z.to_nat (__argc s))%nat with i by lia.
  - intros i Hi. by apply list_lookup_inserts_lt.
  - intros q Hq. by apply upd_outside.
  - apply (words_from_concat [] t).
Qed.

(** prog " a  bc" into a buffer at 300. *)
Definition demo_args : args_state :=
  mk_as (blocks [(100, [112; 0]); (200, [32; 97; 32; 32; 98; 99; 0]); (300, repeat 7 20)])
    0 0 (repeat 0 100) (repeat 0 200) 300 [].

Lemma setup_args_correct_witness :
  post (setup_args_progname 100 200 demo_args) (λ s', __argc s' = 3 ∧ copy_ptr s' = 307).
Proof.
  eapply post_mono.
  - apply (setup_args_correct demo_args 100 [112] 200 [32; 97; 32; 32; 98; 99]).
    + concrete_cstr.
    + concrete_cstr.
    + done.
    + by vm_compute.
    + apply (bytes_mapped _ 300 (repeat 7 7)). cbn [repeat]. concrete_bytes.
    + by right.
    + by right.
  - intros s' (-> & -> & _). done.
Defined.
