(* ===== verification/ArgvEnv.v ===== *)
(** * lib/argv.c: the environment image

    [setup_env] on an image given by its lines: the lines of the form
    NAME=value become the environment, comments and empty lines are dropped,
    every other line is reported. *)

From S2P Require Import Prelude.
From S2P Require Import CMem.
From S2P Require Import CString.
From S2P Require Import CStringSpec.
From S2P Require Import CStringNum.
From S2P Require Import CStringProps.
From S2P Require Import Printf.
From S2P Require Import ReportProps.
From S2P Require Import Argv.
From S2P Require Import ArgvProps.

(** ** The lines of an image *)

Fixpoint join_lines (ls : list (list Z)) : list Z :=
  match ls with
  | [] => []
  | [l] => l
  | l :: ls => l ++ c_lf :: join_lines ls
  end.
(** What follows the first line. *)
Definition line_tail (ls : list (list Z)) : list Z :=
  match ls with [] => [] | _ => c_lf :: join_lines ls end.

Lemma join_cons l ls : join_lines (l :: ls) = l ++ line_tail ls.
Proof. destruct ls; [cbn; by rewrite app_nil_r|done]. Qed.

Definition name_char (c : Z) : bool := isalnum c || (c =? c_underscore).
Definition not_eq (c : Z) : bool := negb (c =? c_eq).

(** NAME=value, where NAME is an identifier. *)
Definition valid_line (l : list Z) : bool :=
  match l with
  | [] => false
  | c :: l =>
      (isalpha c || (c =? c_underscore)) &&
      forallb name_char (take (span not_eq l) l) &&
      (Nat.ltb (span not_eq l) (length l))
  end.
Definition comment_line (l : list Z) : bool :=
  match drop (span isblank l) l with c :: _ => c =? c_hash | [] => false end.
(** The lines printed as invalid: [final] for the last line of the image. *)
Definition complaint (l : list Z) (final : bool) : list (list Z) :=
  if comment_line l || (forallb isblank l && (negb final || bool_decide (l = []))) then [] else [l].

Fixpoint env_entries (p : Z) (ls : list (list Z)) : list (Z * list Z) :=
  match ls with
  | [] => []
  | l :: ls => (if valid_line l then [(p, l)] else []) ++ env_entries (p + Z.of_nat (length l) + 1) ls
  end.
Fixpoint env_mem (m : memory) (p : Z) (ls : list (list Z)) : memory :=
  match ls with
  | [] => m
  | l :: ls => env_mem (if valid_line l then <[p + Z.of_nat (length l) := 0]> m else m)
                 (p + Z.of_nat (length l) + 1) ls
  end.
Definition is_nil {A} (l : list A) : bool := match l with [] => true | _ => false end.
Fixpoint env_complaints (ls : list (list Z)) : list (list Z) :=
  match ls with
  | [] => []
  | l :: ls => (if valid_line l then [] else complaint l (is_nil ls)) ++ env_complaints ls
  end.

(** Up to the next entry: its position, the lines from there on, and the
    lines reported on the way. *)
Fixpoint next_entry (p : Z) (ls : list (list Z)) : Z * list (list Z) * list (list Z) :=
  match ls with
  | [] => (p, [], [])
  | l :: ls' =>
      if valid_line l then (p, ls, []) else
      match ls' with
      | [] => (p + Z.of_nat (length l), [], complaint l true)
      | _ => let '(q, r, cs) := next_entry (p + Z.of_nat (length l) + 1) ls' in
             (q, r, complaint l false ++ cs)
      end
  end.

Definition no_lf (l : list Z) : Prop := Forall (λ c, c ≠ c_lf) l.
Definition with_complaints (cs : list (list Z)) (s : args_state) : args_state :=
  mk_as (amem s) (__argc s) (__args s) (__argv s) (__environ s) (copy_ptr s) (complaints s ++ cs).

Lemma with_complaints_nil s : with_complaints [] s = s.
Proof. unfold with_complaints. rewrite app_nil_r. by destruct s. Qed.
Lemma with_complaints_app cs1 cs2 s :
  with_complaints cs2 (with_complaints cs1 s) = with_complaints (cs1 ++ cs2) s.
Proof. unfold with_complaints. cbn. by rewrite app_assoc. Qed.

(** The text behind a line starts with a line feed or is empty. *)
Lemma line_end_char m p l ls :
  cstr m p (l ++ line_tail ls) →
  ldb m (p + Z.of_nat (length l)) = Ret (match ls with [] => 0 | _ => c_lf end).
Proof.
  intros H%cstr_app. destruct ls; cbn [line_tail] in H; [by apply cstr_nil|]. by apply cstr_cons in H as (? & _).
Qed.

(** ** Scans *)

Lemma env_eol_loop_spec f m p l ls :
  cstr m p (l ++ line_tail ls) → no_lf l → (length l < f)%nat →
  env_eol_loop f m p = Ret (p + Z.of_nat (length l)).
Proof.
  revert p l. induction f as [|f IH]; intros p l Hs Hl Hf; [lia|]. cbn [env_eol_loop]. destruct l as [|c l].
  - apply line_end_char in Hs. cbn [length] in Hs |- *. rewrite Z.add_0_r in *.
    rewrite (ldc_ldb _ _ _ Hs). by destruct ls.
  - cbn [app] in Hs. cstr_cons_step Hs. apply Forall_cons in Hl as [Hc0 Hl]. rewrite !s8_eqb by lia.
    rewrite (proj2 (Z.eqb_neq c 0)), (proj2 (Z.eqb_neq c c_lf)) by (done || lia). cbn [negb andb length] in *.
    rewrite (IH _ l) by (done || lia). f_equal. lia.
Qed.

Lemma cstr_app_fuel m p l r : cstr m p (l ++ r) → (length l < fuel m)%nat.
Proof. intros H%cstr_fuel. rewrite length_app in H. lia. Qed.

Lemma env_eol_spec m p l ls :
  cstr m p (l ++ line_tail ls) → no_lf l → env_eol m p = Ret (p + Z.of_nat (length l)).
Proof. intros Hs Hl. eapply env_eol_loop_spec; [done..|]. by eapply cstr_app_fuel. Qed.

Lemma cstr_line_cut m p l r : cstr m p (l ++ r) → cstr (<[p + Z.of_nat (length l) := 0]> m) p l.
Proof.
  intros [Hb Hc]. pose proof (bytes_mapped _ _ _ Hb) as Hm. rewrite !length_app in Hm. cbn [length] in Hm.
  apply Forall_app in Hc as [Hc _]. split; [|done]. rewrite <- app_assoc in Hb. apply bytes_app in Hb as [Hb _].
  apply bytes_app. split.
  - eapply bytes_ext; [done|]. intros q Hq. rewrite lookup_insert_ne; [done|lia].
  - cbn [bytes]. rewrite lookup_insert_eq. destruct (Hm (Z.of_nat (length l))) as [? _]; [lia|]. done.
Qed.

Lemma u8_s8 c : 0 ≤ c < 256 → u8 (s8 c) = c.
Proof. intros. unfold s8, sgn, u8. Z.div_mod_to_equations. lia. Qed.

Lemma env_invalid_eol_spec p l ls s :
  cstr (amem s) p (l ++ line_tail ls) → no_lf l →
  env_invalid_eol p s = Ret (p + Z.of_nat (length l), with_complaints [l] s).
Proof.
  intros Hs Hl. unfold env_invalid_eol. rewrite (env_eol_spec _ _ _ _ Hs Hl). cbn [bind].
  pose proof (line_end_char _ _ _ _ Hs) as E. rewrite (ldc_ldb _ _ _ E). cbn [bind]. unfold stb at 1. rewrite E. cbn [bind].
  pose proof (cstr_line_cut _ _ _ _ Hs) as Hcut. change (u8 0) with 0. unfold text.
  rewrite (text_loop_spec _ _ _ l Hcut) by (by eapply cstr_fuel). cbn [bind].
  unfold ldb in E. destruct (addr_ok (p + Z.of_nat (length l))) eqn:Eo; [|done].
  destruct (amem s !! (p + Z.of_nat (length l))) as [b|] eqn:Eb; [|done]. injection E as ->.
  unfold stb, ldb. rewrite Eo, lookup_insert_eq. cbn [bind]. rewrite u8_s8 by (destruct ls; lia).
  rewrite insert_insert_eq, insert_id by done. by destruct s.
Qed.

Lemma name_loop_spec f m p l ls inv :
  cstr m p (l ++ line_tail ls) → no_lf l → (length l < f)%nat →
  name_loop f m p inv = Ret (p + Z.of_nat (span not_eq l), inv || negb (forallb name_char (take (span not_eq l) l))).
Proof.
  revert p l inv. induction f as [|f IH]; intros p l inv Hs Hl Hf; [lia|]. cbn [name_loop]. destruct l as [|c l].
  - apply line_end_char in Hs. cbn [length] in Hs. rewrite Z.add_0_r in Hs. rewrite (ldc_ldb _ _ _ Hs). cbn [bind].
    cbn. rewrite Z.add_0_r, orb_false_r. by destruct ls.
  - cbn [app] in Hs. cstr_cons_step Hs. apply Forall_cons in Hl as [Hc0 Hl]. autorewrite with s8.
    rewrite (proj2 (Z.eqb_neq c 0)), (proj2 (Z.eqb_neq c c_lf)) by (done || lia). cbn [negb andb span length] in *.
    unfold not_eq at 1 3. destruct (c =? c_eq) eqn:Ec; cbn [negb andb].
    + cbn. by rewrite Z.add_0_r, orb_false_r.
    + rewrite (IH _ l) by (done || lia). cbn [take forallb]. unfold name_char at 2.
      f_equal. f_equal; [lia|]. destruct (isalnum c || (c =? c_underscore)); cbn [andb]; [done|].
      by rewrite orb_true_r.
Qed.

(** ** Finding the next entry *)

Lemma blank_not_lf : isblank c_lf = false. Proof. done. Qed.

(** Where the leading blanks of a line end. *)
Lemma span_line l ls : span isblank (l ++ line_tail ls) = span isblank l.
Proof.
  induction l as [|c l IH]; [by destruct ls|]. cbn [app span]. by destruct (isblank c); rewrite ?IH.
Qed.

Lemma span_all P l : forallb P l = Nat.eqb (span P l) (length l).
Proof. induction l as [|c l IH]; [done|]. cbn. by destruct (P c). Qed.

(** The character behind the leading blanks. *)
Lemma blanks_end m p l ls :
  cstr m p (l ++ line_tail ls) →
  ldb m (p + Z.of_nat (span isblank l)) =
    Ret (match drop (span isblank l) l with c :: _ => c | [] => match ls with [] => 0 | _ => c_lf end end).
Proof.
  intros Hs. destruct (drop (span isblank l) l) as [|c r] eqn:E.
  - apply (f_equal length) in E. rewrite length_drop in E. cbn in E. pose proof (span_le isblank l).
    replace (span isblank l) with (length l) by lia. by apply line_end_char.
  - pose proof (span_le isblank l) as Hle. rewrite <- (take_drop (span isblank l) l), E, <- app_assoc in Hs.
    apply cstr_app in Hs. rewrite length_take, Nat.min_l in Hs by done. by apply cstr_cons in Hs as (? & _).
Qed.

Lemma name_end m p l ls :
  cstr m p (l ++ line_tail ls) →
  ∃ e, ldb m (p + Z.of_nat (span not_eq l)) = Ret e ∧ 0 ≤ e < 256 ∧
    (e =? c_eq) = Nat.ltb (span not_eq l) (length l).
Proof.
  intros Hs. pose proof (span_le not_eq l) as Hle. destruct (span_split not_eq l) as [_ Hd].
  destruct (drop (span not_eq l) l) as [|c r] eqn:E.
  - apply (f_equal length) in E. rewrite length_drop in E. cbn in E.
    replace (span not_eq l) with (length l) by lia. exists (match ls with [] => 0 | _ => c_lf end).
    split; [by apply line_end_char|]. rewrite Nat.ltb_irrefl. by destruct ls.
  - rewrite <- (take_drop (span not_eq l) l), E, <- app_assoc in Hs.
    apply cstr_app in Hs. rewrite length_take, Nat.min_l in Hs by done. apply cstr_cons in Hs as (Hc & ? & _).
    exists c. split; [done|]. split; [lia|]. unfold not_eq in Hd. apply negb_false_iff in Hd. rewrite Hd.
    symmetry. apply Nat.ltb_lt. apply (f_equal length) in E. rewrite length_drop in E. cbn in E. lia.
Qed.

(** The body of [env_next] for one line, given what it does at its end. *)
Lemma env_next_line f p l ls s :
  cstr (amem s) p (l ++ line_tail ls) → no_lf l → valid_line l = false → (l = [] → ls ≠ []) →
  env_next_rec (S f) p s =
    let next := match ls with
                | [] => λ s, Ret (p + Z.of_nat (length l), s)
                | _ => env_next_rec f (p + Z.of_nat (length l) + 1) end in
    next (with_complaints (complaint l (is_nil ls)) s).
Proof.
  intros Hs Hl Hv Hne. pose proof (line_end_char _ _ _ _ Hs) as Hend.
  assert (Hnext : ∀ s', amem s' = amem s →
    (let* c := ldc (amem s') (p + Z.of_nat (length l)) in
     if c =? 0 then Ret (p + Z.of_nat (length l), s') else env_next_rec f (p + Z.of_nat (length l) + 1) s') =
    match ls with [] => λ s, Ret (p + Z.of_nat (length l), s) | _ => env_next_rec f (p + Z.of_nat (length l) + 1) end s').
  { intros s' E. rewrite E, (ldc_ldb _ _ _ Hend). by destruct ls. }
  assert (Hbad : ∀ cs, cs = [l] → (let* '(env, s0) := env_invalid_eol p s in
     let* c := ldc (amem s0) env in if c =? 0 then Ret (env, s0) else env_next_rec f (env + 1) s0) =
    match ls with [] => λ s, Ret (p + Z.of_nat (length l), s) | _ => env_next_rec f (p + Z.of_nat (length l) + 1) end (with_complaints cs s)).
  { intros cs ->. rewrite (env_invalid_eol_spec _ _ _ _ Hs Hl). cbn [bind]. by apply Hnext. }
  cbn [env_next_rec]. destruct l as [|c l].
  - destruct ls as [|l1 ls]; [by destruct Hne|]. cbn [length] in Hend. rewrite Z.add_0_r in Hend.
    rewrite (ldc_ldb _ _ _ Hend). cbn [bind]. rewrite (skip_blanks_spec _ _ _ Hs). cbn [bind app line_tail span].
    rewrite blank_not_lf, Z.add_0_r, (ldc_ldb _ _ _ Hend). cbn. by rewrite with_complaints_nil, Z.add_0_r.
  - pose proof (blanks_end _ _ _ _ Hs) as Hbe. pose proof (skip_blanks_spec _ _ _ Hs) as Hsb.
    rewrite span_line in Hsb. cbn [app] in Hs. cstr_cons_step Hs.
    apply Forall_cons in Hl as [Hc0 Hl]. autorewrite with s8. rewrite (proj2 (Z.eqb_neq c 0)) by lia.
    unfold valid_line in Hv. destruct (isalpha c || (c =? c_underscore)) eqn:Ea.
    + rewrite (name_loop_spec _ _ _ l ls); [|done|done|by eapply cstr_app_fuel]. cbn [bind].
      destruct (name_end _ _ _ _ H') as (e & -> %ldc_ldb & He & Hee). cbn [bind]. rewrite s8_eqb, Hee by lia.
      cbn [orb]. rewrite <- negb_andb. cbn [andb] in Hv. rewrite Hv. cbn [negb]. apply Hbad.
      unfold complaint, comment_line. cbn [span forallb].
      destruct (isblank c) eqn:Eb.
      { exfalso. unfold isblank in Eb. apply orb_true_iff in Eb. rewrite !Z.eqb_eq in Eb. by destruct Eb; subst c. }
      cbn [drop andb]. destruct (Z.eqb_spec c c_hash) as [->|]; [done|done].
    + rewrite Hsb. cbn [bind]. rewrite (ldc_ldb _ _ _ Hbe). cbn [bind]. cbv zeta.
      unfold complaint, comment_line. rewrite span_all.
      destruct (drop (span isblank (c :: l)) (c :: l)) as [|d r] eqn:Ed.
      * apply (f_equal length) in Ed. rewrite length_drop in Ed. pose proof (span_le isblank (c :: l)).
        cbn [length] in *. replace (span isblank (c :: l)) with (S (length l)) by lia. rewrite Nat.eqb_refl.
        cbn [orb andb]. destruct ls as [|l1 ls]; [by apply Hbad|]. cbn [is_nil negb orb].
        by rewrite with_complaints_nil.
      * assert (Hd : d ∈ c :: l) by (rewrite <- (take_drop (span isblank (c :: l)) (c :: l)), Ed; set_solver).
        assert (Hdr : 0 < d < 256) by (destruct Hs as [_ Hch]; eapply Forall_forall in Hch; [exact Hch|set_solver]).
        assert (Hdl : d ≠ c_lf) by (eapply (proj1 (Forall_forall (λ x, x ≠ c_lf) (c :: l))); [by constructor|done]).
        rewrite !s8_eqb, (proj2 (Z.eqb_neq d c_lf)) by (done || lia).
        rewrite (proj2 (Nat.eqb_neq _ _)).
        2:{ apply (f_equal length) in Ed. rewrite length_drop in Ed. cbn [length] in *. lia. }
        cbn [andb]. destruct (d =? c_hash); cbn [orb]; [|by apply Hbad].
        rewrite (env_eol_spec _ _ (c :: l) ls) by (done || by constructor). cbn [bind].
        rewrite with_complaints_nil. by apply Hnext.
Qed.

Lemma cstr_line_next m p l ls :
  ls ≠ [] → cstr m p (join_lines (l :: ls)) → cstr m (p + Z.of_nat (length l) + 1) (join_lines ls).
Proof.
  intros Hne H. rewrite join_cons in H. apply cstr_app in H. destruct ls as [|l1 ls]; [done|].
  by apply cstr_cons in H as (_ & _ & ?).
Qed.

Lemma length_join_next l ls : ls ≠ [] →
  length (join_lines (l :: ls)) = (length l + 1 + length (join_lines ls))%nat.
Proof. intros Hne. rewrite join_cons, length_app. destruct ls; [done|]. cbn [line_tail length]. lia. Qed.

Lemma env_next_valid f p l r s :
  cstr (amem s) p (l ++ line_tail r) → no_lf l → valid_line l = true →
  env_next_rec (S f) p s = Ret (p, s).
Proof.
  intros Hs Hl Hv. cbn [env_next_rec]. destruct l as [|c l]; [done|]. cbn [app] in Hs. cstr_cons_step Hs.
  apply Forall_cons in Hl as [Hc0 Hl]. cbn [valid_line] in Hv. apply andb_true_iff in Hv as [Hv1 Hv2].
  apply andb_true_iff in Hv1 as [Ha Hn]. autorewrite with s8. rewrite (proj2 (Z.eqb_neq c 0)) by lia.
  rewrite Ha, (name_loop_spec _ _ _ l r); [|done|done|by eapply cstr_app_fuel]. cbn [bind].
  destruct (name_end _ _ _ _ H') as (e & -> %ldc_ldb & He & Hee). cbn [bind].
  by rewrite s8_eqb, Hee, Hn, Hv2 by lia.
Qed.

Lemma env_next_spec f p ls s :
  ls ≠ [] → cstr (amem s) p (join_lines ls) → Forall no_lf ls → (length (join_lines ls) < f)%nat →
  env_next_rec f p s = Ret (let '(q, _, cs) := next_entry p ls in (q, with_complaints cs s)).
Proof.
  revert p ls s. induction f as [|f IH]; intros p [|l ls] s Hne Hs Hl Hf; try done; try lia.
  apply Forall_cons in Hl as [Hl Hls]. cbn [next_entry].
  destruct (valid_line l) eqn:Hv.
  { rewrite join_cons in Hs. rewrite (env_next_valid _ _ l ls) by done. by rewrite with_complaints_nil. }
  destruct (decide (l = [] ∧ ls = [])) as [[-> ->]|Hnn].
  { cbn [env_next_rec]. cbn in Hs. cstr_nil_step Hs. cbn. by rewrite with_complaints_nil, Z.add_0_r. }
  rewrite (env_next_line f p l ls) by (rewrite <- ?join_cons; naive_solver). cbv zeta.
  destruct ls as [|l1 ls]; [done|].
  apply cstr_line_next in Hs; [|done]. rewrite length_join_next in Hf by done.
  rewrite (IH _ (l1 :: ls)); [|done|done|done|lia].
  destruct (next_entry (p + Z.of_nat (length l) + 1) (l1 :: ls)) as [[q r] cs].
  by rewrite with_complaints_app.
Qed.

(** [next_entry] splits off what comes before the first entry. *)
Lemma next_entry_split p ls m q r cs :
  ls ≠ [] → cstr m p (join_lines ls) → Forall no_lf ls → next_entry p ls = (q, r, cs) →
  cstr m q (join_lines r) ∧ q + Z.of_nat (length (join_lines r)) = p + Z.of_nat (length (join_lines ls)) ∧
  p ≤ q ∧ Forall no_lf r ∧
  match r with [] => True | l :: _ => valid_line l = true end ∧
  env_entries p ls = env_entries q r ∧ (∀ m', env_mem m' p ls = env_mem m' q r) ∧
  env_complaints ls = cs ++ env_complaints r.
Proof.
  revert p q cs. induction ls as [|l ls IH]; intros p q cs Hne Hs Hl E; [done|].
  cbn [next_entry] in E. destruct (valid_line l) eqn:Hv.
  { injection E as <- <- <-. split_and!; done || lia. }
  apply Forall_cons in Hl as [Hl Hls]. cbn [env_entries env_mem env_complaints]. rewrite Hv. cbn [app].
  destruct ls as [|l1 ls].
  - injection E as <- <- <-. split_and!; try done; cbn; try lia.
    rewrite <- (app_nil_r l) in Hs. by apply cstr_app in Hs.
  - destruct (next_entry (p + Z.of_nat (length l) + 1) (l1 :: ls)) as [[q' r'] cs'] eqn:En.
    injection E as <- <- <-. pose proof Hs as Hs'. apply cstr_line_next in Hs; [|done].
    destruct (IH _ _ _ ltac:(done) Hs Hls En) as (? & Hq & ? & ? & ? & -> & Hm & ->).
    rewrite length_join_next by done. split_and!; try done; try lia. by rewrite app_assoc.
Qed.

(** ** The loop over the entries *)

Lemma entry_loop_spec f m p l ls eof :
  cstr m p (l ++ line_tail ls) → no_lf l → (length l < f)%nat →
  eof = p + Z.of_nat (length (l ++ line_tail ls)) →
  entry_loop f m true p eof = Ret (p + Z.of_nat (length l)).
Proof.
  intros Hs Hl Hf ->. revert Hs Hl Hf.
  revert p l. induction f as [|f IH]; intros p l Hs Hl Hf; [lia|]. cbn [entry_loop]. destruct l as [|c l].
  - apply line_end_char in Hs. cbn [length app] in *. rewrite Z.add_0_r in *. rewrite (ldc_ldb _ _ _ Hs).
    by destruct ls; cbn [bind]; destruct (_ <? _).
  - cbn [app] in Hs. cstr_cons_step Hs. apply Forall_cons in Hl as [Hc0 Hl]. autorewrite with s8.
    rewrite (proj2 (Z.eqb_neq c 0)), (proj2 (Z.eqb_neq c c_lf)) by (done || lia). cbn [app length].
    rewrite (proj2 (Z.ltb_lt _ _)) by lia. cbn [negb andb]. rewrite <- !addr_S. apply IH; [done|done|].
    cbn [length] in Hf. lia.
Qed.

Lemma env_mem_outside m p ls q :
  (q < p ∨ p + Z.of_nat (length (join_lines ls)) < q) → env_mem m p ls !! q = m !! q.
Proof.
  revert m p. induction ls as [|l ls IH]; intros m p Hq; [done|]. cbn [env_mem].
  assert (Hls : ls = [] ∨ ls ≠ []) by (destruct ls; auto).
  destruct Hls as [->|Hne].
  - cbn in *. destruct (valid_line l); [|done]. rewrite lookup_insert_ne; [done|lia].
  - rewrite length_join_next in Hq by done. rewrite IH by lia. destruct (valid_line l); [|done].
    rewrite lookup_insert_ne; [done|lia].
Qed.

(** The state after the environment has been set up from the lines. *)
Definition with_env (i p : Z) (ls : list (list Z)) (s : args_state) : args_state :=
  mk_as (env_mem (amem s) p ls) (__argc s) (__args s) (__argv s)
    (list_inserts (Z.to_nat i) (env_entries p ls).*1 (__environ s)) (copy_ptr s)
    (complaints s ++ env_complaints ls).

Lemma with_env_cons i p l ls s : 0 ≤ i → valid_line l = true →
  with_env (i + 1) (p + Z.of_nat (length l) + 1) ls
    (mk_as (<[p + Z.of_nat (length l) := 0]> (amem s)) (__argc s) (__args s) (__argv s)
       (<[Z.to_nat i := p]> (__environ s)) (copy_ptr s) (complaints s)) = with_env i p (l :: ls) s.
Proof.
  intros Hi Hv. unfold with_env. cbn [amem __argc __args __argv __environ copy_ptr complaints env_mem env_entries env_complaints].
  rewrite Hv. cbn [app fmap list_fmap fst list_inserts].
  replace (Z.to_nat (i + 1)) with (S (Z.to_nat i)) by lia. by rewrite list_insert_inserts_lt by lia.
Qed.

Lemma valid_line_cons l : valid_line l = true → ∃ c l', l = c :: l' ∧ Nat.ltb (span not_eq l') (length l') = true.
Proof.
  destruct l as [|c l]; [done|]. cbn [valid_line]. intros [_ H]%andb_true_iff. eauto.
Qed.

Lemma env_loop_spec f p eof i ls s :
  (length (join_lines ls) < f)%nat → Forall no_lf ls → 0 ≤ i →
  i + Z.of_nat (length (env_entries p ls)) ≤ Z.of_nat (length (__environ s)) →
  match ls with [] => p = eof + 1 | _ => cstr (amem s) p (join_lines ls) ∧ eof = p + Z.of_nat (length (join_lines ls)) end →
  env_loop f true p eof i s = Ret (with_env i p ls s).
Proof.
  revert p i ls s. induction f as [|f IH]; intros p i ls s Hf Hl Hi Hn Hs; [lia|]. cbn [env_loop].
  destruct (Z.ltb_spec p eof) as [Hlt|Hge]; cbn [negb].
  2:{ assert (Hempty : ls = [] ∨ ls = [[]]).
      { destruct ls as [|l ls]; [by left|right]. destruct Hs as [_ ->].
        destruct ls as [|l1 ls]; [|rewrite length_join_next in Hge by done; lia].
        destruct l; [done|cbn [join_lines length] in Hge; lia]. }
      destruct s, Hempty as [->| ->]; unfold with_env; cbn; by rewrite app_nil_r. }
  assert (Hne : ls ≠ []) by (intros ->; lia).
  assert (Hs' : cstr (amem s) p (join_lines ls) ∧ eof = p + Z.of_nat (length (join_lines ls))) by (by destruct ls).
  clear Hs. destruct Hs' as [Hs Heof]. unfold env_next. rewrite (env_next_spec _ p ls) by (done || by eapply cstr_fuel).
  destruct (next_entry p ls) as [[q r] cs] eqn:En. cbn [bind].
  change (amem (with_complaints cs s)) with (amem s). destruct (next_entry_split _ _ _ _ _ _ Hne Hs Hl En) as (Hq & Hlen & Hpq & Hr & Hv & E1 & E2 & E3).
  rewrite E1 in Hn. unfold with_env. rewrite E1, E2, E3. destruct r as [|l r].
  { cbn in Hq. cstr_nil_step Hq. cbn. by rewrite app_nil_r. }
  destruct (valid_line_cons _ Hv) as (c & l' & El & _). rewrite El in Hq at 1. rewrite join_cons in Hq. cbn [app] in Hq.
  cstr_cons_step Hq. rewrite s8_eqb, (proj2 (Z.eqb_neq c 0)) by lia. rewrite El, join_cons in Hlen at 1. cbn [app length] in Hlen.
  rewrite (proj2 (Z.leb_gt _ _)) by lia. cbn [orb]. apply Forall_cons in Hr as [Hl0 Hr].
  cbn [env_entries] in Hn. rewrite Hv in Hn. cbn [app length] in Hn.
  unfold store_environ. cbn [with_complaints __environ]. rewrite (proj2 (Z.leb_le 0 i)), (proj2 (Z.ltb_lt _ _)) by lia. cbn [andb bind amem with_complaints].
  change (c :: l' ++ line_tail r) with ((c :: l') ++ line_tail r) in Hq. rewrite <- El in Hq.
  assert (Heof' : eof = q + Z.of_nat (length (l ++ line_tail r))) by (subst l; cbn [app length]; lia).
  rewrite (entry_loop_spec _ _ _ l r) by (done || by eapply cstr_app_fuel). cbn [bind].
  pose proof (cstr_app _ _ _ _ Hq) as Htail. pose proof (line_end_char _ _ _ _ Hq) as Hend.
  unfold stb. rewrite Hend. cbn [bind]. change (u8 0) with 0. unfold set_amem. cbn [amem __argc __args __argv __environ copy_ptr complaints with_complaints].
  rewrite (IH _ _ r).
  - pose proof (with_env_cons i q l r (with_complaints cs s) Hi Hv) as E0. unfold with_env in E0 |- *.
    cbn [amem __argc __args __argv __environ copy_ptr complaints with_complaints] in E0 |- *.
    by rewrite E0, app_assoc.
  - assert (Hle : (length (join_lines r) ≤ length (line_tail r))%nat) by (destruct r; cbn [line_tail length]; [done|lia]).
    rewrite length_app in Hlen. lia.
  - done.
  - lia.
  - cbn [__environ]. rewrite length_insert. lia.
  - rewrite length_app in Heof'. destruct r as [|l1 r]; cbn [line_tail length] in *; [lia|].
    split; [|lia]. cbn [amem]. apply cstr_cons in Htail as (_ & _ & Htail).
    eapply cstr_ext; [done|]. intros a Ha. rewrite lookup_insert_ne; [done|lia].
Qed.

(** Every entry is a string of its own afterwards. *)
Lemma entries_cstr m p ls :
  ls ≠ [] → cstr m p (join_lines ls) →
  Forall (λ '(e, l), cstr (env_mem m p ls) e l ∧ valid_line l = true ∧
    (length l ≤ length (join_lines ls))%nat) (env_entries p ls).
Proof.
  revert m p. induction ls as [|l ls IH]; intros m p Hne Hs; [done|]. cbn [env_entries env_mem].
  pose proof Hs as Hs0. rewrite join_cons in Hs0.
  set (m' := if valid_line l then <[p + Z.of_nat (length l) := 0]> m else m).
  apply Forall_app. split.
  - destruct (valid_line l) eqn:Hv; [|constructor]. constructor; [|constructor]. subst m'.
    split; [|split; [done|rewrite join_cons, length_app; lia]]. eapply cstr_ext; [by eapply cstr_line_cut|]. intros q Hq.
    apply env_mem_outside. lia.
  - destruct ls as [|l1 ls]; [constructor|]. eapply Forall_impl; [apply IH; [done|]|].
    + apply cstr_line_next in Hs; [|done]. eapply cstr_ext; [done|]. intros q Hq. subst m'.
      destruct (valid_line l); [|done]. rewrite lookup_insert_ne; [done|lia].
    + intros [e k] (? & ? & ?). split; [done|]. split; [done|]. rewrite length_join_next by done. lia.
Qed.

Lemma span_first_char l : first_char c_eq l = None → (span not_eq l = length l).
Proof.
  induction l as [|c l IH]; [done|]. cbn [first_char span length]. unfold not_eq at 1.
  destruct (c =? c_eq); [done|]. cbn [negb]. intros H. rewrite IH; [done|]. by destruct (first_char c_eq l).
Qed.

Lemma valid_line_eq l : valid_line l = true → first_char c_eq l ≠ None.
Proof.
  intros (c & l' & -> & H%Nat.ltb_lt)%valid_line_cons E. cbn [first_char] in E.
  destruct (c =? c_eq); [done|]. destruct (first_char c_eq l') eqn:El; [done|].
  apply span_first_char in El. lia.
Qed.

Lemma list_inserts_at (pre k l : list Z) :
  (length k ≤ length l)%nat → list_inserts (length pre) k (pre ++ l) = pre ++ k ++ drop (length k) l.
Proof.
  revert pre l. induction k as [|y k IH]; intros pre l Hl; [by cbn; rewrite drop_0|].
  destruct l as [|x l]; [cbn in Hl; lia|]. cbn [list_inserts length drop].
  specialize (IH (pre ++ [x]) l ltac:(cbn in Hl; lia)). rewrite length_app, Nat.add_1_r, <- !app_assoc in IH. cbn [app] in IH.
  rewrite IH, insert_app_r_alt, Nat.sub_diag by lia. done.
Qed.

Lemma list_inserts_front (k l : list Z) : (length k ≤ length l)%nat → list_inserts 0 k l = k ++ drop (length k) l.
Proof. apply (list_inserts_at []). Qed.

(** C32: the environment.  For an image that consists of the given lines,
    [setup_env] makes exactly the lines of the form NAME=value, in their order,
    the entries of [environ], each a string of its own; it reports the lines
    that are neither entries nor comments nor blank, and changes no memory
    outside the image; a later [getenv] on that array finds the value of the
    first entry with the requested name; for other names it returns null where
    the array has a null after the entries, and reads past the array where the
    entries fill it. *)
Theorem setup_env_correct env size ls s (es := env_entries env ls) :
  ls ≠ [] → cstr (amem s) env (join_lines ls) → Forall no_lf ls →
  size = Z.of_nat (length (join_lines ls)) → size < 2 ^ 31 →
  (length es ≤ length (__environ s))%nat →
  post (setup_env env size s) (λ s',
    __environ s' = list_inserts 0 (es.*1) (__environ s) ∧
    Forall (λ '(e, l), cstr (amem s') e l ∧ valid_line l = true) es ∧
    es.*2 = base.filter (λ l, valid_line l = true) ls ∧
    complaints s' = complaints s ++ env_complaints ls ∧
    (∀ q, ¬ (env ≤ q ≤ env + size) → amem s' !! q = amem s !! q) ∧
    (∀ name nm, cstr (amem s') name nm →
       match env_lookup nm es with
       | Some p => getenv (amem s') (__environ s') name = Ret p
       | None =>
           (__environ s !! length es = Some 0 → getenv (amem s') (__environ s') name = Ret 0) ∧
           (length es = length (__environ s) → getenv (amem s') (__environ s') name = Fault)
       end)).
Proof.
  intros Hne Hs Hl -> Hsz Hn. unfold setup_env. rewrite (scan_end_spec _ _ _ (join_lines ls)) by (done || by eapply cstr_fuel).
  cbn [bind]. rewrite Z.eqb_refl, (env_loop_spec _ _ _ _ ls); [|by eapply cstr_fuel|done|lia|fold es; lia|by destruct ls].
  unfold with_env. cbn [post amem __environ complaints]. fold es.
  pose proof (entries_cstr _ _ _ Hne Hs) as He. fold es in He.
  split_and!.
  - done.
  - eapply Forall_impl; [done|]. by intros [e l] (? & ? & _).
  - subst es. clear. revert env. induction ls as [|l ls IH]; intros env; [done|]. cbn [env_entries].
    rewrite fmap_app, filter_cons, IH. destruct (valid_line l); [|done]. by rewrite decide_True.
  - done.
  - intros q Hq. apply env_mem_outside. lia.
  - intros name nm Hname. rewrite list_inserts_front by (by rewrite length_fmap). rewrite length_fmap.
    rewrite (getenv_spec _ name nm es); [|done|].
    + destruct (env_lookup nm es) as [p|]; [done|]. split; [|intros ->; by rewrite drop_all].
      intros H0. by rewrite (drop_S _ 0 _ H0).
    + eapply Forall_impl; [done|]. intros [e l] (? & Hv & Hlen). split; [done|]. split; [lia|by apply valid_line_eq].
Qed.

(** The image "A=1\n#x\n\n2\nB=2", with buffers for the names "B" and "C". *)
Definition demo_lines : list (list Z) := [[65; 61; 49]; [35; 120]; []; [50]; [66; 61; 50]].
Definition demo_env : args_state :=
  mk_as (blocks [(50, [66; 0]); (60, [67; 0]); (100, join_lines demo_lines ++ [0])]) 0 0 (repeat 0 100) (repeat 0 200) 300 [].

Lemma setup_env_correct_witness :
  post (setup_env 100 13 demo_env) (λ s',
    complaints s' = [[50]] ∧ getenv (amem s') (__environ s') 50 = Ret 112 ∧ getenv (amem s') (__environ s') 60 = Ret 0).
Proof.
  eapply post_mono.
  - apply (setup_env_correct 100 13 demo_lines demo_env); [done|concrete_cstr|repeat constructor; done|done|done|cbn; lia].
  - intros s' (_ & _ & _ & -> & Hout & Hget). split; [done|]. split.
    + apply (Hget 50 [66]). eapply (cstr_ext (amem demo_env)); [concrete_cstr|]. intros q Hq. apply Hout. cbn in Hq. lia.
    + apply (Hget 60 [67]); [|done]. eapply (cstr_ext (amem demo_env)); [concrete_cstr|]. intros q Hq. apply Hout. cbn in Hq. lia.
Defined.
