(* ===== verification/Ldiv32.v ===== *)
(** * lib/ldiv32.c: 64-bit division for 32-bit targets

    The routines the compiler calls for 64-bit division where the hardware has
    none.  [uint64_t] values are kept in [0, 2^64), [int64_t] values in
    [-2^63, 2^63); a signed addition or negation that overflows is undefined
    behaviour, a [Fault].  The remainder that the code stores
    through [p_rem] is the second component of the result. *)

From S2P Require Import Prelude.

(** ** Leading zeros *)

(** [while (num) { ++n; num >>= 1; }]: 33 evaluations of the condition are
    enough for 32 bits. *)
Fixpoint clz_loop (f : nat) (n num : Z) : res Z :=
  match f with
  | O => Hang
  | S f => if num =? 0 then Ret n else clz_loop f (n + 1) (Z.shiftr num 1)
  end.
Definition __clzsi2 (num : Z) : res Z := let* n := clz_loop 33 0 num in Ret (32 - n).
Definition __clzdi2 (num : Z) : res Z :=
  if negb (Z.shiftr num 32 =? 0) then __clzsi2 (u32 (Z.shiftr num 32))
  else let* n := __clzsi2 (u32 num) in Ret (n + 32).

(** The compiler's builtin, for a non-zero argument. *)
Definition __builtin_clzll (num : Z) : Z := 63 - Z.log2 num.

(** ** Division *)

(** The do-while loop, run [n + 1] times. *)
Fixpoint udiv_loop (n : nat) (quot num den : Z) : Z * Z :=
  let quot := u64 (Z.shiftl quot 1) in
  let '(num, quot) := if den <=? num then (num - den, Z.lor quot 1) else (num, quot) in
  let den := Z.shiftr den 1 in
  match n with O => (quot, num) | S n => udiv_loop n quot num den end.

Definition __udivmoddi4 (num den : Z) : res (Z * Z) :=
  if den =? 0 then Fault (** [1/((unsigned)den)] *) else
  if den <=? num then
    let n := __builtin_clzll den - __builtin_clzll num in
    Ret (udiv_loop (Z.to_nat n) 0 num (u64 (Z.shiftl den n)))
  else Ret (0, num).

(** The result of signed 64-bit arithmetic. *)
Definition int64 (x : Z) : res Z := valid! ((-2 ^ 63 <=? x) && (x <? 2 ^ 63)); Ret x.

Definition __divmoddi4 (num den : Z) : res (Z * Z) :=
  let nmask := if num <? 0 then -1 else 0 in
  let qmask := if Z.lxor num den <? 0 then -1 else 0 in
  let* t := int64 (num + nmask) in
  let num := Z.lxor t nmask in
  let* den := if den <? 0 then int64 (- den) else Ret den in
  let* '(q, r) := __udivmoddi4 (u64 num) (u64 den) in
  let quot := Z.lxor (u64 (q + u64 qmask)) (u64 qmask) in
  let* t := int64 (s64 r + nmask) in
  let rem := Z.lxor t nmask in
  Ret (s64 quot, rem).

Definition __moddi3 (num den : Z) : res Z := let* '(_, rem) := __divmoddi4 num den in Ret rem.
Definition __divdi3 (num den : Z) : res Z := let* '(q, _) := __divmoddi4 num den in Ret q.
Definition __udivdi3 (num den : Z) : res Z := let* '(q, _) := __udivmoddi4 num den in Ret q.
Definition __umoddi3 (num den : Z) : res Z := let* '(_, rem) := __udivmoddi4 num den in Ret rem.

(** ** Leading zeros: theorems *)

(** The number of significant bits. *)
Definition bits (num : Z) : Z := if num =? 0 then 0 else Z.log2 num + 1.

Lemma bits_shiftr num : 0 < num → bits (Z.shiftr num 1) = bits num - 1.
Proof.
  intros Hn. unfold bits. rewrite (proj2 (Z.eqb_neq num 0)), Z.log2_shiftr by lia.
  rewrite Z.shiftr_div_pow2 by lia. change (2 ^ 1) with 2. destruct (decide (num = 1)) as [->|]; [done|].
  rewrite (proj2 (Z.eqb_neq _ 0)) by (Z.div_mod_to_equations; lia).
  assert (0 < Z.log2 num) by (apply Z.log2_pos; lia). lia.
Qed.

Lemma clz_loop_spec f n num : 0 ≤ num → bits num < Z.of_nat f → clz_loop f n num = Ret (n + bits num).
Proof.
  revert n num. induction f as [|f IH]; intros n num Hn Hf.
  { unfold bits in Hf. pose proof (Z.log2_nonneg num). destruct (num =? 0); lia. }
  cbn [clz_loop]. destruct (Z.eqb_spec num 0) as [->|Hne]; [cbn; by rewrite Z.add_0_r|].
  rewrite IH; rewrite ?bits_shiftr by lia; [f_equal; lia| |lia]. apply Z.shiftr_nonneg. lia.
Qed.

Lemma clzsi2_spec num : 0 < num < 2 ^ 32 → __clzsi2 num = Ret (31 - Z.log2 num).
Proof.
  intros Hn. assert (Z.log2 num < 32) by (apply Z.log2_lt_pow2; lia). pose proof (Z.log2_nonneg num).
  assert (E : bits num = Z.log2 num + 1) by (unfold bits; by rewrite (proj2 (Z.eqb_neq num 0)) by lia).
  unfold __clzsi2. rewrite clz_loop_spec, E by lia. cbn [bind]. f_equal. lia.
Qed.

(** The library's routine computes the builtin. *)
Lemma clzdi2_spec num : 0 < num < 2 ^ 64 → __clzdi2 num = Ret (__builtin_clzll num).
Proof.
  intros Hn. unfold __clzdi2, __builtin_clzll.
  assert (Hs : Z.shiftr num 32 = num / 2 ^ 32) by (apply Z.shiftr_div_pow2; lia).
  assert (Hr : 0 ≤ num / 2 ^ 32 < 2 ^ 32).
  { split; [apply Z.div_pos; lia|]. apply Z.div_lt_upper_bound; lia. }
  destruct (Z.eqb_spec (Z.shiftr num 32) 0) as [E|E]; cbn [negb].
  - rewrite Hs in E. apply Z.div_small_iff in E; [|lia].
    rewrite u32_small, clzsi2_spec by lia. cbn [bind]. f_equal. lia.
  - rewrite u32_small, clzsi2_spec by lia. f_equal. rewrite Z.log2_shiftr by lia.
    assert (32 ≤ Z.log2 num); [|lia]. apply Z.log2_le_pow2; [lia|].
    rewrite Hs in E. destruct (Z.le_gt_cases (2 ^ 32) num); [done|]. rewrite Z.div_small in E by lia. lia.
Qed.

(** ** Division: theorems *)

Lemma lor_double q : 0 ≤ q → Z.lor (2 * q) 1 = 2 * q + 1.
Proof. destruct q; done. Qed.

(** One step of the long division. *)
Lemma udiv_loop_spec n quot num d :
  0 < d → d * 2 ^ Z.of_nat n < 2 ^ 64 → 0 ≤ num < d * 2 ^ (Z.of_nat n + 1) →
  0 ≤ quot → quot * 2 ^ (Z.of_nat n + 1) + num / d < 2 ^ 64 →
  udiv_loop n quot num (d * 2 ^ Z.of_nat n) = (quot * 2 ^ (Z.of_nat n + 1) + num / d, num mod d).
Proof.
  revert quot num. induction n as [|n IH]; intros quot num Hd Hw Hn Hq Hb.
  - change (2 ^ Z.of_nat 0) with 1 in *. change (2 ^ (Z.of_nat 0 + 1)) with 2 in *. cbn [udiv_loop].
    pose proof (Z.div_pos num d). rewrite Z.mul_1_r, Z.shiftl_mul_pow2, u64_small by lia.
    change (2 ^ 1) with 2. destruct (Z.leb_spec d num).
    + rewrite (Z.mul_comm quot), lor_double by lia. f_equal.
      * rewrite <- (Z.div_unique num d 1 (num - d)); lia.
      * rewrite <- (Z.mod_unique num d 1 (num - d)); lia.
    + rewrite Z.div_small, Z.mod_small by lia. f_equal. lia.
  - cbn [udiv_loop].
    assert (E : 2 ^ Z.of_nat (S n) = 2 * 2 ^ Z.of_nat n) by (rewrite Nat2Z.inj_succ, Z.pow_succ_r; lia).
    assert (E1 : 2 ^ (Z.of_nat (S n) + 1) = 2 * 2 ^ (Z.of_nat n + 1)) by (rewrite Z.pow_add_r, E, Z.pow_add_r; lia).
    assert (E2 : 2 ^ (Z.of_nat n + 1) = 2 * 2 ^ Z.of_nat n) by (rewrite Z.pow_add_r; lia).
    assert (Hp : 0 < 2 ^ Z.of_nat n) by lia. pose proof (Z.div_pos num d) as Hdp.
    rewrite Z.shiftl_mul_pow2, u64_small, !Z.shiftr_div_pow2 by nia. change (2 ^ 1) with 2.
    replace (d * 2 ^ Z.of_nat (S n) / 2) with (d * 2 ^ Z.of_nat n).
    2:{ rewrite E. replace (d * (2 * 2 ^ Z.of_nat n)) with (d * 2 ^ Z.of_nat n * 2) by lia. by rewrite Z.div_mul. }
    destruct (Z.leb_spec (d * 2 ^ Z.of_nat (S n)) num) as [Hge|Hlt].
    + rewrite (Z.mul_comm quot), lor_double by lia.
      assert (Ediv : (num - d * 2 ^ Z.of_nat (S n)) / d = num / d - 2 ^ Z.of_nat (S n)).
      { replace (num - d * 2 ^ Z.of_nat (S n)) with (num + (- 2 ^ Z.of_nat (S n)) * d) by lia.
        rewrite Z.div_add by lia. lia. }
      assert (Emod : (num - d * 2 ^ Z.of_nat (S n)) mod d = num mod d).
      { replace (num - d * 2 ^ Z.of_nat (S n)) with (num + (- 2 ^ Z.of_nat (S n)) * d) by lia.
        by rewrite Z.mod_add by lia. }
      rewrite IH by nia. rewrite Ediv, Emod. f_equal. lia.
    + rewrite IH by nia. f_equal. lia.
Qed.

Lemma udivmoddi4_spec num den :
  0 ≤ num < 2 ^ 64 → 0 < den < 2 ^ 64 → __udivmoddi4 num den = Ret (num / den, num mod den).
Proof.
  intros Hn Hd. unfold __udivmoddi4. rewrite (proj2 (Z.eqb_neq den 0)) by lia.
  destruct (Z.leb_spec den num) as [Hle|Hlt]; [|by rewrite Z.div_small, Z.mod_small by lia].
  unfold __builtin_clzll. set (n := 63 - Z.log2 den - (63 - Z.log2 num)).
  assert (Hlog : Z.log2 den ≤ Z.log2 num) by (by apply Z.log2_le_mono).
  destruct (Z.log2_spec num) as [Hl1 Hl2]; [lia|]. destruct (Z.log2_spec den) as [Hd1 Hd2]; [lia|].
  assert (Hnum : Z.log2 num < 64) by (apply Z.log2_lt_pow2; lia). pose proof (Z.log2_nonneg den).
  assert (Hn0 : 0 ≤ n) by lia. assert (En : Z.log2 num = Z.log2 den + n) by lia.
  assert (Hup : den * 2 ^ n < 2 ^ 64).
  { apply Z.lt_le_trans with (2 ^ Z.succ (Z.log2 den) * 2 ^ n).
    - apply Z.mul_lt_mono_pos_r; [lia|done].
    - rewrite <- Z.pow_add_r by lia. apply Z.pow_le_mono_r; lia. }
  assert (Hlow : num < den * 2 ^ (n + 1)).
  { apply Z.lt_le_trans with (2 ^ Z.log2 den * 2 ^ (n + 1)).
    - rewrite <- Z.pow_add_r by lia. by replace (Z.log2 den + (n + 1)) with (Z.succ (Z.log2 num)) by lia.
    - apply Z.mul_le_mono_nonneg_r; [lia|done]. }
  rewrite Z.shiftl_mul_pow2, u64_small by nia.
  replace (den * 2 ^ n) with (den * 2 ^ Z.of_nat (Z.to_nat n)) by (by rewrite Z2Nat.id).
  f_equal. assert (num / den ≤ num) by (apply Z.div_le_upper_bound; nia).
  rewrite udiv_loop_spec; rewrite ?Z2Nat.id; try done; lia.
Qed.

(** [(x + m) ^ m] for a mask [m]: the absolute value, or a change of sign. *)
Lemma xor_mask x (b : bool) : let m := if b then -1 else 0 in
  Z.lxor (x + m) m = if b then - x else x.
Proof.
  destruct b; cbn.
  - rewrite Z.lxor_m1_r. unfold Z.lnot. lia.
  - by rewrite Z.lxor_0_r, Z.add_0_r.
Qed.

Lemma lxor_ones x : 0 ≤ x < 2 ^ 64 → Z.lxor x (2 ^ 64 - 1) = 2 ^ 64 - 1 - x.
Proof.
  intros Hx. transitivity (Z.land (Z.lnot x) (Z.ones 64)).
  - change (2 ^ 64 - 1) with (Z.ones 64). apply Z.bits_inj'. intros i Hi.
    rewrite Z.lxor_spec, Z.land_spec, Z.lnot_spec, Z.testbit_ones_nonneg by lia.
    destruct (Z.ltb_spec i 64); [by destruct (Z.testbit x i)|]. rewrite andb_false_r, xorb_false_r.
    apply Z.bits_above_log2; [lia|]. destruct (decide (x = 0)) as [->|]; [cbn; lia|].
    apply Z.lt_le_trans with 64; [|done]. apply Z.log2_lt_pow2; lia.
  - rewrite Z.land_ones by lia. unfold Z.lnot. rewrite <- (Z.mod_add _ 1) by lia. rewrite Z.mod_small; lia.
Qed.

Lemma int64_ok x : - 2 ^ 63 ≤ x < 2 ^ 63 → int64 x = Ret x.
Proof. intros Hx. unfold int64. by rewrite (proj2 (Z.leb_le _ _)), (proj2 (Z.ltb_lt _ _)) by lia. Qed.

(** The sign of the quotient, computed on 64-bit patterns. *)
Lemma quot_mask q (b : bool) : 0 ≤ q < 2 ^ 63 → let m := if b then -1 else 0 in
  s64 (Z.lxor (u64 (q + u64 m)) (u64 m)) = if b then - q else q.
Proof.
  intros Hq. destruct b; cbv zeta.
  - change (u64 (-1)) with (2 ^ 64 - 1). rewrite lxor_ones by apply u64_range. unfold u64.
    replace (q + (2 ^ 64 - 1)) with (q - 1 + 1 * 2 ^ 64) by lia. rewrite Z.mod_add by lia.
    unfold s64, sgn. destruct (decide (q = 0)) as [->|]; [done|]. rewrite (Z.mod_small (q - 1)) by lia.
    change (2 ^ (64 - 1)) with (2 ^ 63). rewrite <- (Z.mod_add _ (-1)) by lia. rewrite Z.mod_small; lia.
  - change (u64 0) with 0. rewrite Z.lxor_0_r, Z.add_0_r, u64_small by lia. unfold s64. apply sgn_small; lia.
Qed.

Lemma divmoddi4_spec num den :
  - 2 ^ 63 < num < 2 ^ 63 → - 2 ^ 63 < den < 2 ^ 63 → den ≠ 0 →
  __divmoddi4 num den = Ret (Z.quot num den, Z.rem num den).
Proof.
  intros Hn Hd Hne. unfold __divmoddi4. rewrite int64_ok by (destruct (num <? 0) eqn:E; zbool; lia). cbn [bind].
  rewrite xor_mask. set (a := if num <? 0 then - num else num).
  assert (Ha : a = Z.abs num) by (subst a; zcase; lia).
  assert (Eden : (if den <? 0 then int64 (- den) else Ret den) = Ret (Z.abs den)).
  { zcase; [rewrite int64_ok by lia|]; f_equal; lia. }
  rewrite Eden. cbn [bind]. rewrite Ha, !u64_small, udivmoddi4_spec by lia. cbn [bind].
  assert (Hr : 0 ≤ Z.abs num mod Z.abs den < Z.abs den) by (apply Z.mod_pos_bound; lia).
  assert (Hq : 0 ≤ Z.abs num / Z.abs den ≤ Z.abs num).
  { split; [apply Z.div_pos; lia|apply Z.div_le_upper_bound; nia]. }
  rewrite quot_mask by lia. unfold s64. rewrite sgn_small by lia.
  rewrite int64_ok by (destruct (num <? 0) eqn:E; zbool; lia). cbn [bind]. rewrite xor_mask.
  rewrite <- Z.quot_div_nonneg, <- Z.rem_mod_nonneg by lia.
  clear Eden Hr Hq. f_equal. f_equal.
  - pose proof (Z.lxor_nonneg num den). destruct (Z.ltb_spec (Z.lxor num den) 0).
    + destruct (Z.ltb_spec num 0).
      * rewrite (Z.abs_neq num), (Z.abs_eq den), Z.quot_opp_l by lia. lia.
      * rewrite (Z.abs_eq num), (Z.abs_neq den), Z.quot_opp_r by lia. lia.
    + destruct (Z.ltb_spec num 0).
      * rewrite (Z.abs_neq num), (Z.abs_neq den), Z.quot_opp_opp by lia. lia.
      * rewrite (Z.abs_eq num), (Z.abs_eq den) by lia. lia.
  - rewrite Z.rem_abs_r by lia. destruct (Z.ltb_spec num 0).
    + rewrite (Z.abs_neq num), Z.rem_opp_l by lia. lia.
    + by rewrite (Z.abs_eq num) by lia.
Qed.

(** Division.  On unsigned operands the routines return quotient and
    remainder of the integer division; on signed operands other than the least
    integer they truncate towards zero and the remainder has the sign of the
    dividend; a zero divisor traps.  The fallback for the count of leading
    zeros computes what the compiler's builtin promises. *)
Theorem ldiv32_correct num den :
  (0 ≤ num < 2 ^ 64 → 0 < den < 2 ^ 64 →
     __udivdi3 num den = Ret (num / den) ∧ __umoddi3 num den = Ret (num mod den)) ∧
  (- 2 ^ 63 < num < 2 ^ 63 → - 2 ^ 63 < den < 2 ^ 63 → den ≠ 0 →
     __divdi3 num den = Ret (Z.quot num den) ∧ __moddi3 num den = Ret (Z.rem num den)) ∧
  __udivdi3 num 0 = Fault ∧ __divdi3 num 0 = Fault ∧
  (0 < num < 2 ^ 64 → __clzdi2 num = Ret (__builtin_clzll num)).
Proof.
  unfold __udivdi3, __umoddi3, __divdi3, __moddi3. split_and!.
  - intros Hn Hd. by rewrite udivmoddi4_spec.
  - intros Hn Hd Hne. by rewrite divmoddi4_spec.
  - done.
  - unfold __divmoddi4. by destruct (int64 _) eqn:E; unfold int64 in E; destruct (_ && _).
  - apply clzdi2_spec.
Qed.

Lemma ldiv32_correct_witness : __divdi3 (-33) 5 = Ret (-6) ∧ __moddi3 (-33) 5 = Ret (-3).
Proof. destruct (ldiv32_correct (-33) 5) as (_ & H & _). apply H; lia. Defined.
