(* ===== verification/Memregions.v ===== *)
(** * lib/memregions.c: the table of memory regions

    The table is an array of regions closed by an entry with [end = 0].  A
    pointer into the table is an index, the null pointer [None]. *)

From S2P Require Import Prelude.

(** ** Flags *)

Definition MR_F_IO : Z := 1.
Definition MR_F_CODE : Z := 2.
Definition MR_F_RESERVED : Z := 4.
Definition MR_F_PERSISTENT : Z := 8.
Definition MR_F_UNUSED : Z := 16.
Definition MR_F_UNKNOWN : Z := 2 ^ 31.

(** ** State *)

Record mem_region : Type := mk_region { mr_start : Z; mr_end : Z; mr_flags : Z }.

Record mr_state : Type := mk_mr { mem_regions : list mem_region; nr_regions : Z }.

Definition memregions_init (regions : list mem_region) (nr : Z) : mr_state := mk_mr regions nr.

(** The index of the closing entry. *)
Fixpoint last_region (l : list mem_region) (i : Z) : res Z :=
  match l with
  | [] => Fault
  | r :: l => if mr_end r =? 0 then Ret i else last_region l (i + 1)
  end.
Definition memregions_add (r : mem_region) (s : mr_state) : res (nat * mr_state) :=
  let* i := last_region (mem_regions s) 0 in
  assert! (i <? nr_regions s);
  Ret (Z.to_nat i, mk_mr (<[Z.to_nat i := r]> (mem_regions s)) (nr_regions s)).

Fixpoint find_from (l : list mem_region) (i : nat) (paddr : Z) : res (option nat) :=
  match l with
  | [] => Fault
  | r :: l =>
      if mr_end r =? 0 then Ret None else
      if (mr_start r <=? paddr) && (paddr <? mr_end r) then Ret (Some i)
      else find_from l (S i) paddr
  end.
Definition memregions_find (paddr : Z) (s : mr_state) : res (option nat) :=
  find_from (mem_regions s) 0 paddr.

Definition region_at (i : nat) (s : mr_state) : res mem_region :=
  match mem_regions s !! i with Some r => Ret r | None => Fault end.

Definition memregions_get_flags (paddr : Z) (s : mr_state) : res Z :=
  let* r := memregions_find paddr s in
  match r with
  | Some i => let* r := region_at i s in Ret (mr_flags r)
  | None => Ret MR_F_UNKNOWN
  end.

(** Returns the two pointers that the code stores through [r1] and [r2]. *)
Definition memregions_split (addr : Z) (s : mr_state) : res (option nat * option nat * mr_state) :=
  let* r1 := memregions_find addr s in
  match r1 with
  | None => Abort
  | Some i1 =>
      let* r := region_at i1 s in
      if mr_start r =? addr then Ret (None, Some i1, s) else
      let* '(i2, s) := memregions_add (mk_region addr (mr_end r) (mr_flags r)) s in
      let* r := region_at i1 s in
      Ret (Some i1, Some i2,
        mk_mr (<[i1 := mk_region (mr_start r) addr (mr_flags r)]> (mem_regions s)) (nr_regions s))
  end.

(** [regs]: address and size of each region of the device tree, with the
    number [nr_regs] that [dt_get_memory_params] returns. *)
Fixpoint add_dt_loop (regs : list (Z * Z)) (s : mr_state) : res mr_state :=
  match regs with
  | [] => Ret s
  | (addr, size) :: regs =>
      let* '(_, s) := memregions_add (mk_region addr (u64 (addr + size)) 0) s in add_dt_loop regs s
  end.
Definition memregions_add_dt_regions (nr_regs : Z) (regs : list (Z * Z)) (s : mr_state) : res mr_state :=
  assert! (0 <? nr_regs);
  add_dt_loop (take (Z.to_nat nr_regs) regs) s.

(** ** The EFI memory map *)

Definition EFI_LOADER_CODE : Z := 1.
Definition EFI_LOADER_DATA : Z := 2.
Definition EFI_CONVENTIONAL_MEMORY : Z := 7.
Definition EFI_ACPI_RECLAIM_MEMORY : Z := 9.
Definition EFI_MEMORY_MAPPED_IO : Z := 11.
Definition EFI_MEMORY_MAPPED_IO_PORT_SPACE : Z := 12.
Definition EFI_PERSISTENT_MEMORY : Z := 14.

Record efi_memory_desc_t : Type := mk_desc { d_type : Z; d_phys_addr : Z; d_num_pages : Z }.
Definition EFI_PAGE_SIZE : Z := 4096.

(** The switch on the type of the descriptor. *)
Definition efi_flags (t : Z) : Z :=
  if (t =? EFI_MEMORY_MAPPED_IO) || (t =? EFI_MEMORY_MAPPED_IO_PORT_SPACE) then MR_F_IO else
  if t =? EFI_LOADER_CODE then MR_F_CODE else
  if (t =? EFI_LOADER_DATA) || (t =? EFI_ACPI_RECLAIM_MEMORY) then 0 else
  if t =? EFI_PERSISTENT_MEMORY then MR_F_PERSISTENT else
  if t =? EFI_CONVENTIONAL_MEMORY then 0 else MR_F_RESERVED.
Definition efi_region (d : efi_memory_desc_t) : mem_region :=
  mk_region (d_phys_addr d) (u64 (d_phys_addr d + u64 (d_num_pages d * EFI_PAGE_SIZE)))
    (efi_flags (d_type d)).

(** [freemem_pages] and the region pointer [freemem] *)
Fixpoint efi_loop (mem_map : list efi_memory_desc_t) (freemem_pages : Z) (freemem : option nat)
    (s : mr_state) : res (option nat * mr_state) :=
  match mem_map with
  | [] => Ret (freemem, s)
  | d :: mem_map =>
      let r := efi_region d in
      if (d_type d =? EFI_CONVENTIONAL_MEMORY) && (freemem_pages <? d_num_pages d) then
        let* '(i, s) := memregions_add r s in
        efi_loop mem_map (d_num_pages d) (Some i) s
      else
        let* '(_, s) := memregions_add r s in
        efi_loop mem_map freemem_pages freemem s
  end.
Definition memregions_efi_init (mem_map : list efi_memory_desc_t) (s : mr_state) :
    res (option nat * mr_state) :=
  efi_loop mem_map 0 None s.

(** ** The table *)

(** [live]: the regions in front of the closing entries. *)
Record mr_ok (s : mr_state) (live : list mem_region) : Prop := {
  ok_split : ∃ blank, mem_regions s = live ++ blank ∧ Forall (λ r, mr_end r = 0) blank;
  ok_live : Forall (λ r, mr_end r ≠ 0) live;
  ok_len : Z.of_nat (length (mem_regions s)) = nr_regions s + 1;
  ok_room : Z.of_nat (length live) ≤ nr_regions s;
}.

Definition contains (r : mem_region) (a : Z) : Prop := mr_start r ≤ a < mr_end r.
Definition containsb (r : mem_region) (a : Z) : bool := (mr_start r <=? a) && (a <? mr_end r).

Lemma containsb_spec r a : containsb r a = true ↔ contains r a.
Proof. unfold containsb, contains. rewrite andb_true_iff, Z.leb_le, Z.ltb_lt. lia. Qed.

Lemma last_region_spec live blank i :
  Forall (λ r, mr_end r ≠ 0) live → Forall (λ r, mr_end r = 0) blank → blank ≠ [] →
  last_region (live ++ blank) i = Ret (i + Z.of_nat (length live)).
Proof.
  intros Hl Hb Hne. revert i. induction Hl as [|r live Hr _ IH]; intros i; cbn [app last_region].
  - destruct Hb as [|b blank Hb0 _]; [done|]. cbn [last_region]. rewrite (proj2 (Z.eqb_eq _ 0)) by done. f_equal. cbn; lia.
  - rewrite (proj2 (Z.eqb_neq _ 0)), IH by done. f_equal. cbn [length]. lia.
Qed.

Lemma ok_blank s live : mr_ok s live →
  ∃ blank, mem_regions s = live ++ blank ∧ Forall (λ r, mr_end r = 0) blank ∧ blank ≠ [].
Proof.
  intros [(blank & E & Hb) _ Hlen Hroom]. exists blank. split; [done|]. split; [done|]. intros ->.
  rewrite app_nil_r in E. rewrite E in Hlen. lia.
Qed.

Lemma memregions_add_spec s live r :
  mr_ok s live → mr_end r ≠ 0 →
  (Z.of_nat (length live) < nr_regions s →
     ∃ s', memregions_add r s = Ret (length live, s') ∧ mr_ok s' (live ++ [r]) ∧ nr_regions s' = nr_regions s) ∧
  (Z.of_nat (length live) = nr_regions s → memregions_add r s = Abort).
Proof.
  intros Hok Hr. destruct (ok_blank _ _ Hok) as (blank & E & Hb & Hne). destruct Hok as [_ Hlive Hlen Hroom].
  unfold memregions_add. rewrite E, last_region_spec by done. cbn [bind]. rewrite Z.add_0_l, Nat2Z.id. split.
  - intros Hlt. rewrite (proj2 (Z.ltb_lt _ _)) by done. eexists. split; [done|]. split; [|done].
    destruct blank as [|b blank]; [done|]. apply Forall_cons in Hb as [_ Hb].
    rewrite insert_app_r_alt, Nat.sub_diag by done. cbn [insert list_insert].
    constructor; cbn [mem_regions nr_regions].
    + exists blank. by rewrite <- app_assoc.
    + apply Forall_app. split; [done|]. by constructor.
    + rewrite E in Hlen. rewrite length_app in *. cbn [length] in *. lia.
    + rewrite length_app. cbn [length]. lia.
  - intros ->. by rewrite Z.ltb_irrefl.
Qed.

(** The first region that contains an address. *)
Fixpoint find_region (live : list mem_region) (a : Z) : option nat :=
  match live with
  | [] => None
  | r :: live => if containsb r a then Some 0%nat else S <$> find_region live a
  end.

Lemma find_from_spec live blank i a :
  Forall (λ r, mr_end r ≠ 0) live → Forall (λ r, mr_end r = 0) blank → blank ≠ [] →
  find_from (live ++ blank) i a = Ret (Nat.add i <$> find_region live a).
Proof.
  intros Hl Hb Hne. revert i. induction Hl as [|r live Hr _ IH]; intros i; cbn [app find_from find_region].
  - destruct Hb as [|b blank Hb0 _]; [done|]. cbn [find_from]. by rewrite (proj2 (Z.eqb_eq _ 0)).
  - rewrite (proj2 (Z.eqb_neq _ 0)) by done. fold (containsb r a). destruct (containsb r a).
    + cbn. by rewrite Nat.add_0_r.
    + rewrite IH. f_equal. destruct (find_region live a); [cbn; f_equal; lia|done].
Qed.

Lemma memregions_find_spec s live a : mr_ok s live → memregions_find a s = Ret (find_region live a).
Proof.
  intros Hok. destruct (ok_blank _ _ Hok) as (blank & E & Hb & Hne). unfold memregions_find.
  rewrite E, find_from_spec by (done || apply Hok). f_equal. by destruct (find_region live a).
Qed.

Lemma find_region_Some live a i :
  find_region live a = Some i → ∃ r, live !! i = Some r ∧ contains r a.
Proof.
  revert i. induction live as [|r live IH]; intros i; [done|]. cbn [find_region].
  destruct (containsb r a) eqn:E; [intros [= <-]; exists r; by rewrite <- containsb_spec|].
  intros (j & Hj & ->)%fmap_Some. by apply IH.
Qed.

Lemma find_region_None live a i r : find_region live a = None → live !! i = Some r → ¬ contains r a.
Proof.
  revert i. induction live as [|r0 live IH]; intros i; [done|]. cbn [find_region].
  destruct (containsb r0 a) eqn:E; [done|]. intros Hn%fmap_None. destruct i as [|i]; [|by apply IH].
  intros [= ->]. rewrite <- containsb_spec, E. done.
Qed.

(** Regions do not overlap. *)
Definition disjoint_table (live : list mem_region) : Prop :=
  ∀ i j r r' a, live !! i = Some r → live !! j = Some r' → contains r a → contains r' a → i = j.

Definition flags_at (live : list mem_region) (a : Z) : Z :=
  match find_region live a with
  | Some i => match live !! i with Some r => mr_flags r | None => 0 end
  | None => MR_F_UNKNOWN
  end.

Lemma flags_at_Some live a i r :
  disjoint_table live → live !! i = Some r → contains r a → flags_at live a = mr_flags r.
Proof.
  intros Hd Hi Hr. unfold flags_at. destruct (find_region live a) as [j|] eqn:E.
  - destruct (find_region_Some _ _ _ E) as (r' & Hj & Hr'). rewrite (Hd j i r' r a) by done. by rewrite Hi.
  - by destruct (find_region_None _ _ _ _ E Hi).
Qed.

Lemma memregions_get_flags_spec s live a : mr_ok s live → memregions_get_flags a s = Ret (flags_at live a).
Proof.
  intros Hok. unfold memregions_get_flags, flags_at. rewrite (memregions_find_spec _ live) by done. cbn [bind].
  destruct (find_region live a) as [i|] eqn:E; [|done]. destruct (find_region_Some _ _ _ E) as (r & Hi & _).
  unfold region_at. destruct (ok_split _ _ Hok) as (blank & -> & _). by rewrite (lookup_app_l_Some _ _ _ _ Hi), Hi.
Qed.

(** ** Splitting a region *)

Definition split_table (live : list mem_region) (i : nat) (r : mem_region) (addr : Z) : list mem_region :=
  <[i := mk_region (mr_start r) addr (mr_flags r)]> live ++ [mk_region addr (mr_end r) (mr_flags r)].

(** Where the regions of the split table come from. *)
Lemma split_table_inv live i r addr j r' a :
  live !! i = Some r → mr_start r < addr → addr < mr_end r →
  split_table live i r addr !! j = Some r' → contains r' a →
  ∃ k r0, live !! k = Some r0 ∧ contains r0 a ∧ mr_flags r0 = mr_flags r' ∧
    ((j = k ∧ (k = i → a < addr)) ∨ (j = length live ∧ k = i ∧ addr ≤ a)).
Proof.
  intros Hi Hlo Hhi. unfold split_table. rewrite lookup_app, length_insert.
  destruct (decide (j = i)) as [->|Hne].
  - rewrite list_lookup_insert_eq by (by eapply lookup_lt_Some). intros [= <-] Ha. unfold contains in *. cbn in Ha |- *.
    exists i, r. split_and!; try done; try lia.
  - rewrite list_lookup_insert_ne by done. destruct (live !! j) as [r0|] eqn:Ej.
    + intros [= <-] Ha. exists j, r0. split_and!; try done. left. done.
    + destruct (j - length live)%nat as [|x] eqn:Ex; [|by destruct x]. apply lookup_ge_None in Ej.
      intros [= <-] Ha. unfold contains in *. cbn in Ha |- *. exists i, r. split_and!; try done; try lia.
Qed.

Lemma split_table_disjoint live i r addr :
  live !! i = Some r → mr_start r < addr → addr < mr_end r →
  disjoint_table live → disjoint_table (split_table live i r addr).
Proof.
  intros Hi Hlo Hhi Hd j1 j2 r1 r2 a H1 H2 Ha1 Ha2. pose proof (lookup_lt_Some _ _ _ Hi) as Hlt.
  destruct (split_table_inv _ _ _ _ _ _ _ Hi Hlo Hhi H1 Ha1) as (k1 & q1 & Hk1 & Hq1 & _ & C1).
  destruct (split_table_inv _ _ _ _ _ _ _ Hi Hlo Hhi H2 Ha2) as (k2 & q2 & Hk2 & Hq2 & _ & C2).
  assert (k1 = k2) by (by eapply Hd). subst k2.
  destruct C1 as [[-> C1]|(-> & -> & C1)], C2 as [[-> C2]|(-> & E & C2)]; try done.
  - specialize (C1 E). lia.
  - specialize (C2 eq_refl). lia.
Qed.

Lemma split_table_flags live i r addr a :
  live !! i = Some r → mr_start r < addr → addr < mr_end r → disjoint_table live →
  flags_at (split_table live i r addr) a = flags_at live a.
Proof.
  intros Hi Hlo Hhi Hd. pose proof (split_table_disjoint _ _ _ _ Hi Hlo Hhi Hd) as Hd'.
  unfold flags_at at 1. destruct (find_region (split_table live i r addr) a) as [j|] eqn:E.
  - destruct (find_region_Some _ _ _ E) as (r' & Hj & Ha). rewrite Hj.
    destruct (split_table_inv _ _ _ _ _ _ _ Hi Hlo Hhi Hj Ha) as (k & r0 & Hk & Hr0 & <- & _).
    symmetry. by eapply flags_at_Some.
  - unfold flags_at. destruct (find_region live a) as [k|] eqn:Ek; [|done]. exfalso.
    destruct (find_region_Some _ _ _ Ek) as (r0 & Hk & Hr0).
    pose proof (lookup_lt_Some _ _ _ Hi) as Hlt. pose proof (lookup_lt_Some _ _ _ Hk) as Hltk.
    destruct (decide (k = i)) as [->|Hne].
    + rewrite Hi in Hk. injection Hk as <-. unfold contains in Hr0. destruct (decide (a < addr)).
      * eapply (find_region_None _ _ i _ E); [unfold split_table; rewrite lookup_app_l by (by rewrite length_insert); by apply list_lookup_insert_eq|].
        unfold contains. cbn. lia.
      * eapply (find_region_None _ _ (length live) _ E); [unfold split_table; rewrite lookup_app_r, length_insert, Nat.sub_diag by (by rewrite length_insert); done|].
        unfold contains. cbn. lia.
    + eapply (find_region_None _ _ k _ E); [unfold split_table; rewrite lookup_app_l by (by rewrite length_insert); by rewrite list_lookup_insert_ne|done].
Qed.

Lemma mr_ok_insert s live i r :
  mr_ok s live → (i < length live)%nat → mr_end r ≠ 0 →
  mr_ok (mk_mr (<[i := r]> (mem_regions s)) (nr_regions s)) (<[i := r]> live).
Proof.
  intros [(blank & E & Hb) Hlive Hlen Hroom] Hi Hr. constructor; cbn [mem_regions nr_regions].
  - exists blank. rewrite E, insert_app_l by done. done.
  - by apply Forall_insert.
  - by rewrite length_insert.
  - by rewrite length_insert.
Qed.

(** A region that is split inside. *)
Lemma split_inside s live i r addr :
  mr_ok s live → find_region live addr = Some i → live !! i = Some r → 0 ≤ mr_start r < addr →
  Z.of_nat (length live) < nr_regions s →
  ∃ s', memregions_split addr s = Ret (Some i, Some (length live), s') ∧ mr_ok s' (split_table live i r addr) ∧ nr_regions s' = nr_regions s.
Proof.
  intros Hok E Hi Hne Hroom. unfold memregions_split. rewrite (memregions_find_spec _ live), E by done. cbn [bind].
  destruct (find_region_Some _ _ _ E) as (r' & Hi' & Hr). rewrite Hi in Hi'. injection Hi' as <-.
  pose proof (lookup_lt_Some _ _ _ Hi) as Hlt. assert (Hat : region_at i s = Ret r).
  { unfold region_at. destruct (ok_split _ _ Hok) as (blank & -> & _). by rewrite (lookup_app_l_Some _ _ _ _ Hi). }
  rewrite Hat. cbn [bind]. rewrite (proj2 (Z.eqb_neq _ _)) by lia. destruct Hr as [_ Hhi].
  destruct (memregions_add_spec s live (mk_region addr (mr_end r) (mr_flags r)) Hok) as [Hadd _]; [cbn; lia|].
  destruct (Hadd Hroom) as (s1 & -> & Hok1 & Hnr). cbn [bind].
  assert (Hat1 : region_at i s1 = Ret r).
  { unfold region_at. destruct (ok_split _ _ Hok1) as (blank & -> & _).
    rewrite <- app_assoc. by rewrite (lookup_app_l_Some _ _ _ _ Hi). }
  rewrite Hat1. cbn [bind]. eexists. split; [done|]. split; [|done].
  unfold split_table. rewrite <- insert_app_l by done. apply mr_ok_insert; [done| |cbn; lia].
  rewrite length_app. cbn. lia.
Qed.

(** Splitting.  On a table of regions that do not overlap,
    [memregions_split] at an address inside a region yields two regions that
    meet at the address, in a table that still has no overlaps and gives every
    address the flags it had; at the start of a region the table stays as it
    is and only the second pointer is set; outside all regions, or when the
    table is full, the program stops. *)
Theorem memregions_split_correct s live addr :
  mr_ok s live → disjoint_table live → Forall (λ r, 0 ≤ mr_start r) live →
  match find_region live addr with
  | None => memregions_split addr s = Abort ∧ ∀ r, r ∈ live → ¬ contains r addr
  | Some i =>
      ∃ r, live !! i = Some r ∧ contains r addr ∧
      (mr_start r = addr → memregions_split addr s = Ret (None, Some i, s)) ∧
      (mr_start r < addr → Z.of_nat (length live) = nr_regions s → memregions_split addr s = Abort) ∧
      (mr_start r < addr → Z.of_nat (length live) < nr_regions s →
       post (memregions_split addr s) (λ '(r1, r2, s'),
         let live' := split_table live i r addr in
         r1 = Some i ∧ r2 = Some (length live) ∧ mr_ok s' live' ∧ disjoint_table live' ∧
         ∀ a, memregions_get_flags a s' = memregions_get_flags a s))
  end.
Proof.
  intros Hok Hd Hpos. unfold memregions_split. rewrite (memregions_find_spec _ live) by done. cbn [bind].
  destruct (find_region live addr) as [i|] eqn:E.
  2:{ split; [done|]. intros r [j Hj]%list_elem_of_lookup. by eapply find_region_None. }
  destruct (find_region_Some _ _ _ E) as (r & Hi & Hr). exists r. split; [done|]. split; [done|].
  pose proof (lookup_lt_Some _ _ _ Hi) as Hlt. pose proof (proj1 (Forall_lookup _ _) Hpos i r Hi) as Hp. cbn in Hp.
  pose proof Hr as [Hlo Hhi]. assert (Hat : region_at i s = Ret r).
  { unfold region_at. destruct (ok_split _ _ Hok) as (blank & -> & _). by rewrite (lookup_app_l_Some _ _ _ _ Hi). }
  rewrite Hat. cbn [bind].
  destruct (memregions_add_spec s live (mk_region addr (mr_end r) (mr_flags r)) Hok) as [Hadd Hfull]; [cbn; lia|].
  split; [intros ->; by rewrite Z.eqb_refl|].
  split; intros Hne; rewrite (proj2 (Z.eqb_neq _ _)) by lia.
  - intros H. by rewrite Hfull.
  - intros H. destruct (split_inside s live i r addr Hok E Hi ltac:(lia) H) as (s' & E' & Hok' & _). unfold memregions_split in E'.
    rewrite (memregions_find_spec _ live), E in E' by done. cbn [bind] in E'. rewrite Hat in E'. cbn [bind] in E'.
    rewrite (proj2 (Z.eqb_neq _ _)) in E' by lia. rewrite E'. cbn [post]. split_and!; try done.
    + apply split_table_disjoint; [done|lia|done|done].
    + intros a. rewrite (memregions_get_flags_spec _ (split_table live i r addr)), (memregions_get_flags_spec s live) by done.
      by rewrite split_table_flags.
Qed.

Definition demo_regions : mr_state :=
  memregions_init [mk_region 0 4096 0; mk_region 4096 65536 1; mk_region 0 0 0; mk_region 0 0 0] 3.

Lemma memregions_split_correct_witness :
  post (memregions_split 8192 demo_regions) (λ '(r1, r2, s'), r1 = Some 1%nat ∧ r2 = Some 2%nat).
Proof.
  destruct (memregions_split_correct demo_regions [mk_region 0 4096 0; mk_region 4096 65536 1] 8192)
    as (r & Hr & _ & _ & _ & H).
  - constructor; [|by repeat constructor|done|cbn; lia]. exists [mk_region 0 0 0; mk_region 0 0 0]. by repeat constructor.
  - intros [|[|i]] [|[|j]] r r' a; cbn; intros; simplify_eq; unfold contains in *; cbn in *; lia.
  - by repeat constructor.
  - injection Hr as <-. eapply post_mono; [apply H; cbn; lia|]. intros [[r1 r2] s'] (-> & -> & _). done.
Defined.

(** ** The EFI memory map *)

(** [k]: the first conventional descriptor with the most pages. *)
Definition conventional (d : efi_memory_desc_t) : Prop := d_type d = EFI_CONVENTIONAL_MEMORY.
Definition largest (mem_map : list efi_memory_desc_t) (k : nat) (d : efi_memory_desc_t) : Prop :=
  mem_map !! k = Some d ∧ conventional d ∧
  (∀ j d', mem_map !! j = Some d' → conventional d' → d_num_pages d' ≤ d_num_pages d) ∧
  (∀ j d', (j < k)%nat → mem_map !! j = Some d' → conventional d' → d_num_pages d' < d_num_pages d).

Lemma largest_cons mem_map k d d0 :
  largest mem_map k d → (conventional d0 → d_num_pages d0 < d_num_pages d) →
  largest (d0 :: mem_map) (S k) d.
Proof.
  intros (Hk & Hc & Hmax & Hfirst) H0. split_and!; try done.
  - intros [|j] d' Hj Hc'; [simplify_eq/=; naive_solver lia|by apply (Hmax j)].
  - intros [|j] d' Hj Hj' Hc'; [simplify_eq/=; naive_solver|]. apply (Hfirst j); [lia|done|done].
Qed.

Lemma largest_head mem_map d :
  conventional d → (∀ d', d' ∈ mem_map → conventional d' → d_num_pages d' ≤ d_num_pages d) →
  largest (d :: mem_map) 0 d.
Proof.
  intros Hc Hmax. split_and!; try done; [|lia].
  intros [|j] d' Hj Hc'; [by simplify_eq/=|]. apply Hmax; [by eapply list_elem_of_lookup_2|done].
Qed.

Lemma efi_loop_spec mem_map fp fm s live :
  mr_ok s live → Forall (λ d, mr_end (efi_region d) ≠ 0) mem_map →
  Z.of_nat (length live + length mem_map) ≤ nr_regions s →
  post (efi_loop mem_map fp fm s) (λ '(fm', s'),
    mr_ok s' (live ++ (efi_region <$> mem_map)) ∧
    ((fm' = fm ∧ ∀ d, d ∈ mem_map → conventional d → d_num_pages d ≤ fp) ∨
     (∃ k d, fm' = Some (length live + k)%nat ∧ largest mem_map k d ∧ fp < d_num_pages d))).
Proof.
  revert fp fm s live. induction mem_map as [|d mem_map IH]; intros fp fm s live Hok Hend Hroom; cbn [efi_loop].
  { cbn. rewrite app_nil_r. split; [done|]. left. split; [done|]. intros d Hd. by apply elem_of_nil in Hd. }
  apply Forall_cons in Hend as [Hd Hend]. cbn [length] in Hroom.
  destruct (memregions_add_spec _ _ _ Hok Hd) as [Hadd _].
  destruct Hadd as (s1 & E & Hok1 & Hnr); [lia|]. rewrite E. cbn [bind].
  assert (Hroom1 : Z.of_nat (length (live ++ [efi_region d]) + length mem_map) ≤ nr_regions s1)
    by (rewrite length_app; cbn [length]; lia).
  assert (Happ : ∀ l, (live ++ [efi_region d]) ++ l = live ++ efi_region d :: l) by (intros; by rewrite <- app_assoc).
  assert (Hlen : ∀ k, Some (length (live ++ [efi_region d]) + k)%nat = Some (length live + S k)%nat)
    by (intros; rewrite length_app; cbn [length]; f_equal; lia).
  destruct (decide (conventional d ∧ fp < d_num_pages d)) as [[Hc Hfp]|Hno].
  - rewrite (proj2 (Z.eqb_eq _ _) Hc), (proj2 (Z.ltb_lt _ _) Hfp). cbn [andb].
    refine (post_mono _ _ _ (IH (d_num_pages d) (Some (length live)) s1 _ Hok1 Hend Hroom1) _).
    intros [fm' s'] (Hok' & C). rewrite Happ in Hok'. split; [done|]. right.
    destruct C as [[-> Hmax]|(k & d' & -> & Hl & Hlt)].
    + exists 0%nat, d. rewrite Nat.add_0_r. split; [done|]. split; [by apply largest_head|done].
    + exists (S k), d'. rewrite Hlen. split; [done|]. split; [by apply largest_cons|lia].
  - replace ((d_type d =? EFI_CONVENTIONAL_MEMORY) && (fp <? d_num_pages d)) with false.
    2:{ symmetry. apply andb_false_iff. rewrite Z.eqb_neq, Z.ltb_ge. unfold conventional in Hno. lia. }
    refine (post_mono _ _ _ (IH fp fm s1 _ Hok1 Hend Hroom1) _).
    intros [fm' s'] (Hok' & C). rewrite Happ in Hok'. split; [done|].
    destruct C as [[-> Hmax]|(k & d' & -> & Hl & Hlt)]; [left|right].
    + split; [done|]. intros d' [->|Hd']%elem_of_cons Hc'; [|by apply Hmax].
      destruct (Z.le_gt_cases (d_num_pages d) fp); [done|]. destruct Hno. split; [done|lia].
    + exists (S k), d'. rewrite Hlen. split; [done|]. split; [|done]. apply largest_cons; [done|].
      intros Hc'. destruct (Z.le_gt_cases (d_num_pages d) fp); [lia|]. destruct Hno. split; [done|lia].
Qed.

(** The EFI memory map.  When the table has room, [memregions_efi_init]
    appends one region per descriptor, in order and with the flags of its
    type; the region it returns for the allocator is that of the first
    conventional descriptor with the most pages, and null when there is no
    conventional memory. *)
Theorem memregions_efi_init_correct mem_map s live :
  mr_ok s live → Forall (λ d, mr_end (efi_region d) ≠ 0) mem_map →
  Z.of_nat (length live + length mem_map) ≤ nr_regions s →
  post (memregions_efi_init mem_map s) (λ '(freemem, s'),
    mr_ok s' (live ++ (efi_region <$> mem_map)) ∧
    match freemem with
    | None => ∀ d, d ∈ mem_map → conventional d → d_num_pages d ≤ 0
    | Some i => ∃ k d, i = (length live + k)%nat ∧ largest mem_map k d ∧ 0 < d_num_pages d
    end).
Proof.
  intros Hok Hend Hroom. eapply post_mono; [by apply (efi_loop_spec mem_map 0 None s live)|].
  intros [fm s'] (Hok' & C). split; [done|]. destruct C as [[-> C]|(k & d & -> & C1 & C2)]; [done|]. eauto.
Qed.

Lemma memregions_efi_init_correct_witness :
  post (memregions_efi_init [mk_desc 7 0 1; mk_desc 7 8192 2]
    (memregions_init (replicate 4 (mk_region 0 0 0)) 3)) (λ '(freemem, s'), freemem ≠ None).
Proof.
  refine (post_mono _ _ _ (memregions_efi_init_correct [mk_desc 7 0 1; mk_desc 7 8192 2]
    (memregions_init (replicate 4 (mk_region 0 0 0)) 3) [] _ _ _) _).
  - constructor; [|constructor|done|done]. exists (replicate 4 (mk_region 0 0 0)). by repeat constructor.
  - by repeat constructor.
  - cbn. lia.
  - intros [[i|] s'] (_ & H); [done|]. specialize (H (mk_desc 7 0 1)). cbn in H.
    specialize (H ltac:(left) eq_refl). lia.
Defined.
