(* ===== verification/AllocPhys.v ===== *)
(** * lib/alloc_phys.c: the physical bump allocator

    The first allocator of a test program: it hands out consecutive blocks of
    one range of physical memory and logs the first 256 of them.  Both address
    and size are 64-bit numbers; [sizeof_long] distinguishes 32-bit from
    64-bit targets. *)

From S2P Require Import Prelude.
From S2P Require Import Bitops.

Definition PHYS_ALLOC_NR_REGIONS : Z := 256.
Definition DEFAULT_MINIMUM_ALIGNMENT : Z := 32.
Definition INVALID_PHYS_ADDR : Z := u64 (Z.lnot 0).

Record phys_alloc_region : Type := mk_pr { pr_base : Z; pr_size : Z }.

(** What the allocator prints. *)
Inductive phys_message : Type :=
| PhysFailed (size_orig align size free top top_safe : Z)
| PhysNoLog
| PhysAlign (align : Z)
| PhysUsed (first last : Z)
| PhysFree (first last : Z).

Record phys_state : Type := mk_phys {
  p_regions : list phys_alloc_region;  (** an array of 256 entries *)
  p_nr_regions : Z;
  p_lock : bool;
  p_base : Z;
  p_top : Z;
  p_align_min : Z;
  p_warned : bool;
  p_console : list phys_message;
}.

Definition set_p_lock (b : bool) (s : phys_state) : phys_state :=
  mk_phys (p_regions s) (p_nr_regions s) b (p_base s) (p_top s) (p_align_min s) (p_warned s) (p_console s).
Definition set_p_range (b t : Z) (s : phys_state) : phys_state :=
  mk_phys (p_regions s) (p_nr_regions s) (p_lock s) b t (p_align_min s) (p_warned s) (p_console s).
Definition set_p_align_min (a : Z) (s : phys_state) : phys_state :=
  mk_phys (p_regions s) (p_nr_regions s) (p_lock s) (p_base s) (p_top s) a (p_warned s) (p_console s).
Definition set_p_nr_regions (n : Z) (s : phys_state) : phys_state :=
  mk_phys (p_regions s) n (p_lock s) (p_base s) (p_top s) (p_align_min s) (p_warned s) (p_console s).
Definition set_p_warned (s : phys_state) : phys_state :=
  mk_phys (p_regions s) (p_nr_regions s) (p_lock s) (p_base s) (p_top s) (p_align_min s) true (p_console s).
Definition phys_print (m : list phys_message) (s : phys_state) : phys_state :=
  mk_phys (p_regions s) (p_nr_regions s) (p_lock s) (p_base s) (p_top s) (p_align_min s) (p_warned s) (p_console s ++ m).

Definition phys_spin_lock (s : phys_state) : res phys_state :=
  if p_lock s then Hang else Ret (set_p_lock true s).
Definition phys_spin_unlock (s : phys_state) : phys_state := set_p_lock false s.

(** [regions[nr_regions] = { b, n }; ++nr_regions;] *)
Definition log_region (b n : Z) (s : phys_state) : res phys_state :=
  valid! ((0 <=? p_nr_regions s) && (p_nr_regions s <? Z.of_nat (length (p_regions s))));
  Ret (mk_phys (<[Z.to_nat (p_nr_regions s) := mk_pr b n]> (p_regions s)) (p_nr_regions s + 1) (p_lock s)
         (p_base s) (p_top s) (p_align_min s) (p_warned s) (p_console s)).

Definition phys_alloc_show (s : phys_state) : res phys_state :=
  let* s := phys_spin_lock s in
  valid! (p_nr_regions s <=? Z.of_nat (length (p_regions s)));
  let s := phys_print (PhysAlign (p_align_min s) ::
      ((λ r, PhysUsed (pr_base r) (u64 (pr_base r + pr_size r - 1))) <$> take (Z.to_nat (p_nr_regions s)) (p_regions s))
      ++ [PhysFree (p_base s) (u64 (p_top s - 1))]) s in
  Ret (phys_spin_unlock s).

Definition phys_alloc_init (base_addr size : Z) (s : phys_state) : res phys_state :=
  let* s := phys_spin_lock s in
  let s := set_p_range base_addr (u64 (base_addr + size)) s in
  Ret (phys_spin_unlock (set_p_nr_regions 0 s)).

Definition phys_alloc_set_minimum_alignment (align : Z) (s : phys_state) : res phys_state :=
  assert! (negb (align =? 0) && (Z.land align (u64 (align - 1)) =? 0));
  let* s := phys_spin_lock s in
  Ret (phys_spin_unlock (set_p_align_min align s)).

Definition phys_alloc_aligned_safe (sizeof_long size align : Z) (safe : bool) (s : phys_state) :
    res (Z * phys_state) :=
  let size_orig := size in
  let* s := phys_spin_lock s in
  let top_safe := p_top s in
  let top_safe := if safe && (sizeof_long =? 4) then Z.min top_safe (2 ^ 32) else top_safe in
  assert! (p_base s <? top_safe);
  let align := if align <? p_align_min s then p_align_min s else align in
  let addr := ALIGN (p_base s) align in
  let size := u64 (size + u64 (addr - p_base s)) in
  if top_safe - p_base s <? size then
    let s := phys_print [PhysFailed size_orig align size (top_safe - p_base s) (p_top s) top_safe] s in
    Ret (INVALID_PHYS_ADDR, phys_spin_unlock s)
  else
    let s := set_p_range (u64 (p_base s + size)) (p_top s) s in
    let* s :=
      if p_nr_regions s <? PHYS_ALLOC_NR_REGIONS then log_region addr size_orig s
      else if negb (p_warned s) then Ret (set_p_warned (phys_print [PhysNoLog] s))
      else Ret s in
    Ret (addr, phys_spin_unlock s).

(** The pair [*p_base, *p_top]. *)
Definition phys_alloc_get_unused (s : phys_state) : res (Z * Z * phys_state) :=
  let p_base' := p_base s in
  let p_top' := p_top s in
  if p_base s =? p_top s then Ret (p_base', p_top', s) else
  let* s := phys_spin_lock s in
  let* s := log_region (p_base s) (u64 (p_top s - p_base s)) s in
  let s := set_p_range (p_top s) (p_top s) s in
  Ret (p_base', p_top', phys_spin_unlock s).

(** Null is 0; [phys_to_virt] is the identity. *)
Definition early_memalign (sizeof_long alignment size : Z) (s : phys_state) : res (Z * phys_state) :=
  assert! (negb (alignment =? 0) && (Z.land alignment (u64 (alignment - 1)) =? 0));
  let* '(addr, s) := phys_alloc_aligned_safe sizeof_long size alignment true s in
  if addr =? INVALID_PHYS_ADDR then Ret (0, s) else Ret (addr, s).
