(* ===== verification/AllocPhysProps.v ===== *)
(** * lib/alloc_phys.c: theorems

    Blocks are handed out in increasing order and never overlap; the log holds
    the first 256 of them.  The last section shows where the code leaves these
    guarantees. *)

From S2P Require Import Prelude.
From S2P Require Import Bitops.
From S2P Require Import AllocPhys.

(** ** Alignment with wrap-around *)

(** The distance to the next multiple. *)
Definition padding (x a : Z) : Z := (- x) mod a.

Lemma padding_range x a : 0 < a → 0 ≤ padding x a < a.
Proof. intros. by apply Z.mod_pos_bound. Qed.

Lemma padding_aligned x a : 0 < a → (x + padding x a) mod a = 0.
Proof.
  intros Ha. unfold padding. rewrite Z.add_mod_idemp_r by lia. by rewrite Z.add_opp_diag_r, Z.mod_0_l by lia.
Qed.

Lemma pow2_divides k n : 0 ≤ k ≤ n → (2 ^ k | 2 ^ n).
Proof. intros. exists (2 ^ (n - k)). rewrite <- Z.pow_add_r by lia. f_equal. lia. Qed.

(** Rounding down after the addition is rounding up. *)
Lemma round_up x a : 0 < a → (x + (a - 1)) - (x + (a - 1)) mod a = x + padding x a.
Proof.
  intros Ha. unfold padding. pose proof (Z.div_mod x a ltac:(lia)) as E.
  pose proof (Z.mod_pos_bound x a Ha) as Hb. set (q := x / a) in *. set (r := x mod a) in *.
  destruct (decide (r = 0)) as [Er|Er].
  - replace (x + (a - 1)) with (a - 1 + q * a) by lia. rewrite Z.mod_add, Z.mod_small by lia.
    replace (- x) with (0 + (- q) * a) by lia. rewrite Z.mod_add, Z.mod_0_l by lia. lia.
  - replace (x + (a - 1)) with (r - 1 + (q + 1) * a) by lia. rewrite Z.mod_add, Z.mod_small by lia.
    replace (- x) with (a - r + (- q - 1) * a) by lia. rewrite Z.mod_add, Z.mod_small by lia. lia.
Qed.

Lemma ALIGN_wrap x k : 0 ≤ k < 64 → 0 ≤ x < 2 ^ 64 → ALIGN x (2 ^ k) = u64 (x + padding x (2 ^ k)).
Proof.
  intros Hk Hx. pose proof (pow2_u64_range k Hk) as Hp.
  unfold ALIGN, ALIGN_MASK. rewrite (u64_small (2 ^ k - 1)) by lia.
  rewrite u64_lnot_ones by lia. rewrite land_high_ones by (lia || apply u64_range). unfold u64 at 1 2.
  rewrite <- (round_up x (2 ^ k)) by lia. set (y := x + (2 ^ k - 1)).
  assert (Hm : (y mod 2 ^ 64) mod 2 ^ k = y mod 2 ^ k) by (apply Z.mod_mod_divide, pow2_divides; lia).
  pose proof (Z.mod_pos_bound y (2 ^ k) ltac:(lia)). pose proof (Z.mod_pos_bound y (2 ^ 64) ltac:(lia)).
  pose proof (Z.mod_le (y mod 2 ^ 64) (2 ^ k) ltac:(lia) ltac:(lia)) as Hle. rewrite Hm in Hle. rewrite Hm.
  unfold u64. apply Z.mod_unique with (y / 2 ^ 64); [lia|]. pose proof (Z.div_mod y (2 ^ 64)). lia.
Qed.

Lemma ALIGN_distance x k : 0 ≤ k < 64 → 0 ≤ x < 2 ^ 64 →
  u64 (ALIGN x (2 ^ k) - x) = padding x (2 ^ k).
Proof.
  intros Hk Hx. rewrite ALIGN_wrap by done. unfold u64. rewrite Zminus_mod_idemp_l.
  pose proof (pow2_u64_range k Hk). pose proof (padding_range x (2 ^ k) ltac:(lia)).
  replace (x + padding x (2 ^ k) - x) with (padding x (2 ^ k)) by lia. apply Z.mod_small. lia.
Qed.

(** The two spellings of the power-of-two test. *)
Lemma pow2_test a : 0 ≤ a < 2 ^ 64 →
  negb (a =? 0) && (Z.land a (u64 (a - 1)) =? 0) = true ↔ ∃ k, 0 ≤ k < 64 ∧ a = 2 ^ k.
Proof.
  intros Ha. change (is_power_of_2 a = true ↔ ∃ k, 0 ≤ k < 64 ∧ a = 2 ^ k). rewrite is_power_of_2_spec by done. split.
  - intros [E H]. exists (Z.log2 a). split; [|done]. split; [apply Z.log2_nonneg|]. apply Z.log2_lt_pow2; lia.
  - intros (k & Hk & ->). rewrite Z.log2_pow2 by lia. lia.
Qed.

(** ** Invariant *)

(** The blocks [l] lie in increasing order between [lo] and [hi]. *)
Fixpoint chain (lo : Z) (l : list (Z * Z)) (hi : Z) : Prop :=
  match l with
  | [] => lo ≤ hi
  | (a, n) :: l => lo ≤ a ∧ 0 ≤ n ∧ chain (a + n) l hi
  end.

Lemma chain_le lo l hi : chain lo l hi → lo ≤ hi.
Proof.
  revert lo. induction l as [|[a n] l IH]; intros lo; [done|]. intros (? & ? & H%IH). lia.
Qed.

Lemma chain_snoc lo l hi a n : chain lo l hi → hi ≤ a → 0 ≤ n → chain lo (l ++ [(a, n)]) (a + n).
Proof.
  revert lo. induction l as [|[b k] l IH]; intros lo; cbn [app chain]; [intros; lia|].
  intros (? & ? & H) ? ?. split; [done|]. split; [done|]. by apply IH.
Qed.

Lemma chain_bound lo l hi a n : chain lo l hi → (a, n) ∈ l → lo ≤ a ∧ 0 ≤ n ∧ a + n ≤ hi.
Proof.
  revert lo. induction l as [|[b k] l IH]; intros lo; [intros _ H; by apply elem_of_nil in H|].
  intros (? & ? & H) [[= -> ->]|Hin]%elem_of_cons.
  - apply chain_le in H. lia.
  - destruct (IH _ H Hin). lia.
Qed.

(** Blocks of a chain do not overlap. *)
Lemma chain_disjoint lo l hi i j a n b k :
  chain lo l hi → l !! i = Some (a, n) → l !! j = Some (b, k) → (i < j)%nat → a + n ≤ b.
Proof.
  revert lo i j. induction l as [|[c m] l IH]; intros lo i j; [done|]. intros (? & ? & H) Hi Hj Hij.
  destruct j as [|j]; [lia|]. destruct i as [|i]; cbn in Hi, Hj.
  - simplify_eq. apply list_elem_of_lookup_2 in Hj. by destruct (chain_bound _ _ _ _ _ H Hj) as (? & _).
  - apply (IH _ i j H Hi Hj). lia.
Qed.

Definition logged (l : list (Z * Z)) : list phys_alloc_region := (λ '(a, n), mk_pr a n) <$> l.

Record phys_ok (lo : Z) (l : list (Z * Z)) (s : phys_state) : Prop := {
  po_unlocked : p_lock s = false;
  po_align : p_align_min s = 0 ∨ ∃ k, 0 ≤ k < 64 ∧ p_align_min s = 2 ^ k;
  po_range : 0 ≤ lo ∧ p_base s ≤ p_top s ∧ p_top s < 2 ^ 64;
  po_chain : chain lo l (p_base s);
  po_nr : p_nr_regions s = Z.min PHYS_ALLOC_NR_REGIONS (Z.of_nat (length l));
  po_len : Z.of_nat (length (p_regions s)) = PHYS_ALLOC_NR_REGIONS;
  po_log : take (Z.to_nat (p_nr_regions s)) (p_regions s) = logged (take 256 l);
}.

(** [ALIGN] to the larger of the two alignments, both powers of two. *)
Lemma effective_align k s lo l :
  phys_ok lo l s → 0 ≤ k < 64 →
  ∃ k', 0 ≤ k' < 64 ∧ k ≤ k' ∧ (if 2 ^ k <? p_align_min s then p_align_min s else 2 ^ k) = 2 ^ k' ∧
    2 ^ k' = Z.max (2 ^ k) (p_align_min s).
Proof.
  intros Hok Hk. destruct (Z.ltb_spec (2 ^ k) (p_align_min s)) as [Hlt|Hge].
  - destruct (po_align _ _ _ Hok) as [E|(k' & Hk' & E)]; [lia|]. exists k'. split; [done|]. split; [|lia].
    rewrite E in Hlt. apply Z.pow_lt_mono_r_iff in Hlt; lia.
  - exists k. split_and!; lia.
Qed.

Lemma logged_snoc l a n : logged (l ++ [(a, n)]) = logged l ++ [mk_pr a n].
Proof. unfold logged. by rewrite fmap_app. Qed.

Lemma take_insert_snoc {A} (x : A) (r : list A) n :
  (n < length r)%nat → take (S n) (<[n := x]> r) = take n r ++ [x].
Proof.
  intros Hn. rewrite (take_S_r _ _ x) by (by apply list_lookup_insert_eq). by rewrite take_insert_ge by lia.
Qed.

(** The log entry of a new block, when there is room. *)
Lemma log_region_spec lo l s a n b t :
  phys_ok lo l s → (length l < 256)%nat → p_base s ≤ a → 0 ≤ n → a + n ≤ b → b ≤ t → t < 2 ^ 64 → b = a + n →
  ∃ s', log_region a n (set_p_range b t (set_p_lock true s)) = Ret s' ∧
    phys_ok lo (l ++ [(a, n)]) (set_p_lock false s') ∧ p_base s' = b ∧ p_top s' = t.
Proof.
  intros [Hu Ha Hr Hc Hnr Hlen Hlog] Hl Hba Hn Hb Hbt Ht ->. unfold PHYS_ALLOC_NR_REGIONS in *.
  unfold log_region. cbn [p_nr_regions p_regions set_p_range set_p_lock].
  rewrite (proj2 (Z.leb_le 0 _)), (proj2 (Z.ltb_lt _ _)) by lia. cbn [andb]. eexists. split; [done|].
  split; [|done]. constructor; cbn [p_lock p_align_min p_base p_top p_nr_regions p_regions set_p_range set_p_lock]; try done.
  - lia.
  - by eapply chain_snoc.
  - rewrite length_app. cbn [length]. unfold PHYS_ALLOC_NR_REGIONS. lia.
  - rewrite length_insert. done.
  - replace (Z.to_nat (p_nr_regions s + 1)) with (S (Z.to_nat (p_nr_regions s))) by lia.
    rewrite take_insert_snoc, Hlog by lia. rewrite (take_ge l 256), (take_ge (l ++ _) 256) by (rewrite ?length_app; cbn; lia).
    by rewrite logged_snoc.
Qed.

(** A full log stays as it is. *)
Lemma full_log_ok lo l s a n b t w c :
  phys_ok lo l s → (256 ≤ length l)%nat → p_base s ≤ a → 0 ≤ n → b ≤ t → t < 2 ^ 64 → b = a + n →
  phys_ok lo (l ++ [(a, n)])
    (mk_phys (p_regions s) (p_nr_regions s) false b t (p_align_min s) w c).
Proof.
  intros [Hu Ha Hr Hc Hnr Hlen Hlog] Hl Hba Hn Hbt Ht ->. unfold PHYS_ALLOC_NR_REGIONS in *.
  constructor; cbn [p_lock p_align_min p_base p_top p_nr_regions p_regions]; try done.
  - lia.
  - by eapply chain_snoc.
  - rewrite length_app. cbn [length]. unfold PHYS_ALLOC_NR_REGIONS. lia.
  - rewrite Hlog. by rewrite take_app_le by lia.
Qed.

(** ** Allocation *)

Definition top_safe (sizeof_long : Z) (safe : bool) (s : phys_state) : Z :=
  if safe && (sizeof_long =? 4) then Z.min (p_top s) (2 ^ 32) else p_top s.

Lemma top_safe_le w safe s : top_safe w safe s ≤ p_top s.
Proof. unfold top_safe. destruct (_ && _); lia. Qed.

(** What one request does, on every branch. *)
Definition phys_outcome (lo : Z) (l : list (Z * Z)) (w size align : Z) (safe : bool) (s : phys_state) : Prop :=
  let a := p_base s + padding (p_base s) (Z.max align (p_align_min s)) in
  let r := phys_alloc_aligned_safe w size align safe s in
  if top_safe w safe s <=? p_base s then r = Abort
  else if top_safe w safe s <? a + size then
    post r (λ '(p, s'), p = INVALID_PHYS_ADDR ∧ phys_ok lo l s' ∧ p_base s' = p_base s ∧ p_top s' = p_top s)
  else post r (λ '(p, s'), p = a ∧ p ≠ INVALID_PHYS_ADDR ∧ phys_ok lo (l ++ [(a, size)]) s' ∧
                           p_base s' = a + size ∧ p_top s' = p_top s).

Lemma phys_alloc_aligned_safe_spec lo l w size k safe s :
  phys_ok lo l s → 0 < size < 2 ^ 63 → 0 ≤ k < 64 →
  phys_outcome lo l w size (2 ^ k) safe s.
Proof.
  intros Hok Hsize Hk. unfold phys_outcome. destruct (effective_align k s lo l Hok Hk) as (k' & Hk' & _ & Eal & Emax).
  rewrite <- Emax. pose proof (pow2_u64_range k' Hk') as Hp. pose proof (padding_range (p_base s) (2 ^ k') ltac:(lia)) as Hpad.
  pose proof (top_safe_le w safe s) as Hts. destruct (po_range _ _ _ Hok) as (Hlo & Hbt & Ht).
  pose proof (chain_le _ _ _ (po_chain _ _ _ Hok)) as Hlb.
  assert (Hpad63 : padding (p_base s) (2 ^ k') < 2 ^ 63).
  { destruct (decide (k' = 63)) as [->|]; [lia|]. assert (2 ^ k' ≤ 2 ^ 63) by (apply Z.pow_le_mono_r; lia). lia. }
  cbv zeta. unfold phys_alloc_aligned_safe, phys_spin_lock. rewrite (po_unlocked _ _ _ Hok). cbn [bind].
  cbn [p_top p_base p_align_min set_p_lock]. fold (top_safe w safe s). rewrite Eal, ALIGN_distance by lia.
  rewrite (u64_small (size + _)) by lia.
  destruct (Z.leb_spec (top_safe w safe s) (p_base s)) as [Hab|Hab].
  { by rewrite (proj2 (Z.ltb_ge _ _)) by lia. }
  rewrite (proj2 (Z.ltb_lt (p_base s) _)) by lia.
  destruct (Z.ltb_spec (top_safe w safe s) (p_base s + padding (p_base s) (2 ^ k') + size)) as [Hf|Hf].
  { rewrite (proj2 (Z.ltb_lt _ _)) by lia. cbn [post]. split; [done|]. split; [|done]. destruct Hok. by constructor. }
  rewrite (proj2 (Z.ltb_ge _ _)) by lia. rewrite ALIGN_wrap, !(u64_small (p_base s + _)) by lia.
  set (a := p_base s + padding (p_base s) (2 ^ k')) in *.
  assert (Hinv : a ≠ INVALID_PHYS_ADDR) by (change INVALID_PHYS_ADDR with (2 ^ 64 - 1); lia).
  cbn [p_nr_regions set_p_range set_p_lock]. rewrite (po_nr _ _ _ Hok).
  unfold PHYS_ALLOC_NR_REGIONS. destruct (Z.ltb_spec (Z.min 256 (Z.of_nat (length l))) 256) as [Hl|Hl].
  - destruct (log_region_spec lo l s a size (p_base s + (size + padding (p_base s) (2 ^ k'))) (p_top s) Hok)
      as (s' & E & Hok' & Hb' & Ht'); try lia.
    rewrite E. cbn [bind post]. split; [done|]. split; [done|]. split; [done|]. split; [cbn; lia|done].
  - cbn [p_warned set_p_range set_p_lock]. destruct (p_warned s); cbn [negb bind post];
      (split; [done|]; split; [done|]; split; [|cbn; lia]);
      apply (full_log_ok lo l s a size (p_base s + (size + padding (p_base s) (2 ^ k'))) (p_top s)); done || lia.
Qed.

(** Taking the rest of the range. *)
Lemma phys_alloc_get_unused_spec lo l s :
  phys_ok lo l s → (length l < 256)%nat →
  post (phys_alloc_get_unused s) (λ '(b, t, s'),
    b = p_base s ∧ t = p_top s ∧ p_base s' = t ∧ p_top s' = t ∧
    phys_ok lo (if b =? t then l else l ++ [(b, t - b)]) s').
Proof.
  intros Hok Hl. destruct (po_range _ _ _ Hok) as (Hlo & Hbt & Ht).
  pose proof (chain_le _ _ _ (po_chain _ _ _ Hok)) as Hlb.
  unfold phys_alloc_get_unused. destruct (Z.eqb_spec (p_base s) (p_top s)) as [E|E].
  { cbn [post]. by rewrite E, Z.eqb_refl. }
  unfold phys_spin_lock. rewrite (po_unlocked _ _ _ Hok). cbn [bind p_base p_top set_p_lock].
  rewrite u64_small by lia.
  destruct (log_region_spec lo l s (p_base s) (p_top s - p_base s) (p_top s) (p_top s) Hok) as (s' & E' & Hok' & Hb' & Ht'); try lia.
  unfold log_region in *. cbn [p_nr_regions p_regions set_p_range set_p_lock] in *.
  destruct (_ && _); [|done]. injection E' as <-. cbn [bind post p_base p_top set_p_range phys_spin_unlock set_p_lock].
  rewrite (proj2 (Z.eqb_neq _ _)) by done. split_and!; try done.
Qed.

(** ** Reachable states *)

Lemma phys_alloc_init_spec b size s :
  p_lock s = false → (p_align_min s = 0 ∨ ∃ k, 0 ≤ k < 64 ∧ p_align_min s = 2 ^ k) →
  Z.of_nat (length (p_regions s)) = PHYS_ALLOC_NR_REGIONS → 0 ≤ b → 0 ≤ size → b + size < 2 ^ 64 →
  post (phys_alloc_init b size s) (λ s', phys_ok b [] s' ∧ p_top s' = b + size).
Proof.
  intros Hu Ha Hlen Hb Hs Ht. unfold phys_alloc_init, phys_spin_lock. rewrite Hu. cbn [bind post].
  rewrite u64_small by lia. split; [|done]. constructor; cbn; try done; lia.
Qed.

Lemma phys_alloc_set_minimum_alignment_spec lo l a s :
  phys_ok lo l s → 0 ≤ a < 2 ^ 64 →
  match phys_alloc_set_minimum_alignment a s with
  | Ret s' => phys_ok lo l s' ∧ p_align_min s' = a
  | Abort => ¬ ∃ k, 0 ≤ k < 64 ∧ a = 2 ^ k
  | _ => False
  end.
Proof.
  intros Hok Ha. unfold phys_alloc_set_minimum_alignment. pose proof (pow2_test a Ha) as Ht.
  destruct (negb (a =? 0) && (Z.land a (u64 (a - 1)) =? 0)).
  - unfold phys_spin_lock. rewrite (po_unlocked _ _ _ Hok). cbn [bind]. split; [|done].
    destruct Hok. constructor; try done. right. by apply Ht.
  - intros H%Ht. done.
Qed.

(** [early_memalign], on every branch. *)
Lemma early_memalign_spec lo l w a size s :
  phys_ok lo l s → 0 < lo → 0 ≤ a < 2 ^ 64 → 0 < size < 2 ^ 63 →
  match early_memalign w a size s with
  | Ret (p, s') =>
      (∃ k, 0 ≤ k < 64 ∧ a = 2 ^ k) ∧ p_top s' = p_top s ∧
      let q := p_base s + padding (p_base s) (Z.max a (p_align_min s)) in
      ((p = 0 ∧ top_safe w true s < q + size ∧ phys_ok lo l s' ∧ p_base s' = p_base s) ∨
       (p = q ∧ q + size ≤ top_safe w true s ∧ phys_ok lo (l ++ [(p, size)]) s' ∧ p_base s' = q + size))
  | Abort => ¬ (∃ k, 0 ≤ k < 64 ∧ a = 2 ^ k) ∨ top_safe w true s ≤ p_base s
  | _ => False
  end.
Proof.
  intros Hok Hlo Ha Hsize. unfold early_memalign. pose proof (pow2_test a Ha) as Ht.
  destruct (negb (a =? 0) && (Z.land a (u64 (a - 1)) =? 0)); [|left; intros H%Ht; done].
  destruct (proj1 Ht eq_refl) as (k & Hk & ->).
  pose proof (phys_alloc_aligned_safe_spec lo l w size k true s Hok Hsize Hk) as H. unfold phys_outcome in H.
  destruct (Z.leb_spec (top_safe w true s) (p_base s)); [rewrite H; by right|].
  destruct (Z.ltb_spec (top_safe w true s) (p_base s + padding (p_base s) (Z.max (2 ^ k) (p_align_min s)) + size)).
  - apply post_inv in H as ([p s'] & -> & -> & Hok' & Hb & Ht'). cbn [bind]. rewrite Z.eqb_refl.
    split; [by exists k|]. split; [done|]. left. split_and!; done || lia.
  - apply post_inv in H as ([p s'] & -> & -> & Hne & Hok' & Hb & Ht'). cbn [bind].
    rewrite (proj2 (Z.eqb_neq _ _)) by done. split; [by exists k|]. split; [done|]. right. split_and!; done || lia.
Qed.

(** The states a program reaches from [phys_alloc_init], with the blocks it
    was handed out. *)
Inductive phys_reach (w lo hi : Z) : list (Z * Z) → phys_state → Prop :=
| reach_phys_init s s' :
    p_lock s = false → p_align_min s = 0 → length (p_regions s) = 256%nat →
    phys_alloc_init lo (hi - lo) s = Ret s' → phys_reach w lo hi [] s'
| reach_phys_align l s a s' :
    phys_reach w lo hi l s → 0 ≤ a < 2 ^ 64 →
    phys_alloc_set_minimum_alignment a s = Ret s' → phys_reach w lo hi l s'
| reach_phys_alloc l s a size p s' :
    phys_reach w lo hi l s → 0 ≤ a < 2 ^ 64 → 0 < size < 2 ^ 63 →
    early_memalign w a size s = Ret (p, s') →
    phys_reach w lo hi (if p =? 0 then l else l ++ [(p, size)]) s'
| reach_phys_unused l s b t s' :
    phys_reach w lo hi l s → (length l < 256)%nat → phys_alloc_get_unused s = Ret (b, t, s') →
    phys_reach w lo hi (if b =? t then l else l ++ [(b, t - b)]) s'.

Lemma phys_reach_ok w lo hi l s :
  0 < lo ≤ hi → hi < 2 ^ 64 → phys_reach w lo hi l s → phys_ok lo l s ∧ p_top s = hi.
Proof.
  intros Hlo Hhi. induction 1 as [s s' Hu Ha Hlen E|l s a s' _ [IH Htop] Ha E|l s a size p s' _ [IH Htop] Ha Hs E|l s b t s' _ [IH Htop] Hl E].
  - destruct (proj1 (post_inv _ _) (phys_alloc_init_spec lo (hi - lo) s Hu (or_introl Ha) ltac:(by rewrite Hlen) ltac:(lia) ltac:(lia) ltac:(lia)))
      as (x & Ex & Hok & Et). rewrite E in Ex. injection Ex as <-. split; [done|lia].
  - pose proof (phys_alloc_set_minimum_alignment_spec lo l a s IH Ha) as H. rewrite E in H. destruct H as [Hok _].
    split; [done|]. unfold phys_alloc_set_minimum_alignment, phys_spin_lock in E. destruct (_ && _); [|done].
    destruct (p_lock s); [done|]. injection E as <-. done.
  - pose proof (early_memalign_spec lo l w a size s IH ltac:(lia) Ha Hs) as H. rewrite E in H.
    destruct H as (_ & -> & [(-> & _ & Hok & _)|(Ep & _ & Hok & _)]); [done|].
    pose proof (chain_le _ _ _ (po_chain _ _ _ IH)). assert (Hp : 0 < p).
    { pose proof (Z.mod_pos_bound (- p_base s) (Z.max a (p_align_min s))) as Hm. unfold padding in Ep.
      assert (0 < Z.max a (p_align_min s)); [|lia].
      unfold early_memalign in E. destruct (Z.eqb_spec a 0); [done|]. lia. }
    by rewrite (proj2 (Z.eqb_neq p 0)) by lia.
  - destruct (proj1 (post_inv _ _) (phys_alloc_get_unused_spec lo l s IH Hl)) as ([[b' t'] x] & Ex & -> & -> & _ & Ht & Hok).
    rewrite E in Ex. injection Ex as -> -> ->. split; [done|]. by rewrite Ht.
Qed.

(** C26: the bump allocator.  Whatever requests of positive size below 2^63 a
    program makes, the blocks it was handed out lie in the range given to
    [phys_alloc_init], in front of the free part, and no two of them overlap;
    the log holds exactly the first 256 of them; the lock is free. *)
Theorem phys_alloc_reach_safe w lo hi l s :
  0 < lo ≤ hi → hi < 2 ^ 64 → phys_reach w lo hi l s →
  (∀ a n, (a, n) ∈ l → lo ≤ a ∧ a + n ≤ p_base s) ∧ p_base s ≤ p_top s ∧ p_top s = hi ∧
  (∀ i j a n b k, l !! i = Some (a, n) → l !! j = Some (b, k) → i ≠ j → a + n ≤ b ∨ b + k ≤ a) ∧
  take (Z.to_nat (p_nr_regions s)) (p_regions s) = logged (take 256 l) ∧ p_lock s = false.
Proof.
  intros Hlo Hhi [Hok Htop]%phys_reach_ok; [|done..]. destruct Hok as [Hu _ Hr Hc _ _ Hlog]. split_and!; try done; try lia.
  - intros a n Hin. destruct (chain_bound _ _ _ _ _ Hc Hin). lia.
  - intros i j a n b k Hi Hj Hne. destruct (decide (i < j)%nat).
    + left. by eapply (chain_disjoint lo l _ i j).
    + right. eapply (chain_disjoint lo l _ j i); [done..|lia].
Qed.

Definition demo_phys : phys_state :=
  mk_phys (replicate 256 (mk_pr 0 0)) 0 false 0 0 0 false [].

Definition after {A} (d : A) (r : res (Z * A)) : A := match r with Ret (_, s) => s | _ => d end.
Definition demo_phys1 : phys_state := ret_or demo_phys (phys_alloc_init 4096 8192 demo_phys).
Definition demo_phys2 : phys_state := after demo_phys (early_memalign 8 256 100 demo_phys1).
Definition demo_phys3 : phys_state := after demo_phys (early_memalign 8 4096 1 demo_phys2).

Lemma phys_alloc_reach_safe_witness : 4096 + 100 ≤ 8192 ∨ 8192 + 1 ≤ 4096.
Proof.
  destruct (phys_alloc_reach_safe 8 4096 12288 [(4096, 100); (8192, 1)] demo_phys3) as (_ & _ & _ & H & _).
  - lia.
  - lia.
  - apply (reach_phys_alloc 8 4096 12288 [(4096, 100)] demo_phys2 4096 1 8192 demo_phys3); [|lia|lia|by vm_compute].
    apply (reach_phys_alloc 8 4096 12288 [] demo_phys1 256 100 4096 demo_phys2); [|lia|lia|by vm_compute].
    apply (reach_phys_init 8 4096 12288 demo_phys demo_phys1); by vm_compute.
  - by apply (H 0%nat 1%nat).
Defined.

(** ** Unchecked cases *)

(** What is not checked.  [phys_alloc_get_unused] writes behind the log
    when the log is full and memory is left; a request whose size plus padding
    exceeds 64 bits wraps around and is granted, and the free range then
    begins in front of the block just handed out; [phys_alloc_init] does not
    set the minimum alignment. *)
Theorem phys_alloc_unchecked s :
  p_lock s = false → length (p_regions s) = 256%nat → p_nr_regions s = 256 → p_base s ≠ p_top s →
  phys_alloc_get_unused s = Fault ∧
  (∀ b n, post (phys_alloc_init b n s) (λ s', p_align_min s' = p_align_min s)) ∧
  (∀ w, p_base s mod 64 = 16 → p_align_min s = 0 → 0 ≤ p_base s → p_base s + 48 < p_top s → p_top s < 2 ^ 64 →
     post (phys_alloc_aligned_safe w (2 ^ 64 - 40) 64 false s) (λ '(a, s'),
       a = p_base s + 48 ∧ p_base s' = p_base s + 8)).
Proof.
  intros Hu Hlen Hnr Hne. split_and!.
  - unfold phys_alloc_get_unused, phys_spin_lock. rewrite (proj2 (Z.eqb_neq _ _) Hne), Hu. cbn [bind].
    unfold log_region. cbn [p_nr_regions p_regions set_p_lock]. by rewrite Hnr, Hlen.
  - intros b n. unfold phys_alloc_init, phys_spin_lock. by rewrite Hu.
  - intros w Hm Ha Hb Hbt Ht. unfold phys_alloc_aligned_safe, phys_spin_lock. rewrite Hu. cbn [bind andb].
    cbn [p_top p_base p_align_min set_p_lock]. rewrite (proj2 (Z.ltb_lt (p_base s) _)), Ha by lia.
    change (64 <? 0) with false. cbv iota.
    assert (Hpad : padding (p_base s) (2 ^ 6) = 48).
    { unfold padding. change (2 ^ 6) with 64. Z.div_mod_to_equations. lia. }
    assert (EB : u64 (ALIGN (p_base s) 64 - p_base s) = 48) by (rewrite <- Hpad; apply (ALIGN_distance _ 6); lia).
    assert (EA : ALIGN (p_base s) 64 = p_base s + 48).
    { change 64 with (2 ^ 6) at 1. rewrite ALIGN_wrap, Hpad, u64_small; lia. }
    rewrite EB, EA. change (u64 (2 ^ 64 - 40 + 48)) with 8. rewrite (proj2 (Z.ltb_ge _ _)), u64_small by lia.
    cbn [p_nr_regions set_p_range set_p_lock]. rewrite Hnr. cbn.
    by destruct (p_warned s).
Qed.

Lemma phys_alloc_unchecked_witness :
  let s := mk_phys (replicate 256 (mk_pr 0 0)) 256 false 4112 8192 0 false [] in
  phys_alloc_get_unused s = Fault ∧
  post (phys_alloc_aligned_safe 8 (2 ^ 64 - 40) 64 false s) (λ '(a, s'), a = 4160 ∧ p_base s' = 4120).
Proof.
  destruct (phys_alloc_unchecked (mk_phys (replicate 256 (mk_pr 0 0)) 256 false 4112 8192 0 false []))
    as (H1 & _ & H2); [done..|]. split; [exact H1|]. by apply (H2 8).
Defined.
