(* ===== verification/Alloc.v ===== *)
(** * lib/alloc.c: malloc, calloc, memalign and free

    The wrappers dispatch to the operations the pointer [alloc_ops] selects.
    [alloc_laws] states what the wrappers may rely on; the bump allocator of
    alloc_phys.c and the page allocator of alloc_page.c are instances, so what
    is proved of the wrappers holds at every stage of the boot. *)

From S2P Require Import Prelude.
From S2P Require Import Bitops.
From S2P Require Import LinkedList.
From S2P Require Import AllocPage.
From S2P Require Import AllocPageInv.
From S2P Require Import AllocPageSpec.
From S2P Require Import AllocPageInit.
From S2P Require Import AllocPageThm.
From S2P Require Import AllocPageReach.
From S2P Require Import CMem.
From S2P Require Import CString.
From S2P Require Import CStringSpec.
From S2P Require Import CStringMem.
From S2P Require Import AllocPhys.
From S2P Require Import AllocPhysProps.

(** ** The operations *)

(** [struct alloc_ops]: the function pointers may be null. *)
Record alloc_ops (S : Type) : Type := mk_ops {
  op_memalign : option (Z → Z → S → res (Z * S));
  op_free : option (Z → S → res S);
}.
Arguments mk_ops {S}.
Arguments op_memalign {S}.
Arguments op_free {S}.

Definition early_alloc_ops (sizeof_long : Z) : alloc_ops phys_state :=
  mk_ops (Some (early_memalign sizeof_long)) None.
Definition page_alloc_ops : alloc_ops page_alloc :=
  mk_ops (Some memalign_pages) (Some free_pages).

Section wrappers.
Context {S : Type}.
(** [*alloc_ops]; [None] for a null pointer *)
Variable ops : option (alloc_ops S).

Definition memalign (alignment size : Z) (s : S) : res (Z * S) :=
  if size =? 0 then Ret (0, s) else
  assert! (is_power_of_2 alignment);
  match ops with
  | None => Abort
  | Some o =>
      match op_memalign o with
      | None => Abort
      | Some f => let* '(p, s) := f alignment size s in assert! (negb (p =? 0)); Ret (p, s)
      end
  end.

Definition malloc (size : Z) (s : S) : res (Z * S) := memalign 8 size s.

Definition check_mul_overflow (a b : Z) : bool := 2 ^ 64 <=? a * b.

Definition calloc (nmemb size : Z) (m : memory) (s : S) : res (Z * memory * S) :=
  assert! (negb (check_mul_overflow nmemb size));
  let* '(ptr, s) := malloc (u64 (nmemb * size)) s in
  if negb (ptr =? 0) then
    let* '(_, m) := memset m ptr 0 (u64 (nmemb * size)) in Ret (ptr, m, s)
  else Ret (ptr, m, s).

Definition free (ptr : Z) (s : S) : res S :=
  match ops with
  | None => Fault
  | Some o => match op_free o with Some f => f ptr s | None => Ret s end
  end.
End wrappers.

(** [page_alloc_ops_enable]: the new value of [alloc_ops]. *)
Definition page_alloc_ops_enable (s : page_alloc) : res (option (alloc_ops page_alloc) * page_alloc) :=
  let* s := spin_lock s in
  assert! (page_alloc_initialized s);
  Ret (Some page_alloc_ops, spin_unlock s).

(** ** The interface *)

(** Blocks of [n] bytes at [p] and of [k] bytes at [q] share no byte. *)
Definition apart (p n q k : Z) : Prop := p + n ≤ q ∨ q + k ≤ p.

(** [I s A]: in the state [s] the live blocks are those of [A], a map from
    addresses to sizes.  [avail k n s]: there is room for [n] bytes aligned to
    2^[k]. *)
Class alloc_laws {S} (o : alloc_ops S) (I : S → gmap Z Z → Prop) (avail : Z → Z → S → Prop) : Prop := {
  law_memalign s A k n : I s A → 0 ≤ k < 64 → 0 < n < 2 ^ 63 →
    match op_memalign o with
    | None => False
    | Some f =>
        match f (2 ^ k) n s with
        | Ret (p, s') =>
            p = 0 ∧ I s' A ∨
            0 < p ∧ p mod 2 ^ k = 0 ∧ (∀ q j, A !! q = Some j → apart p n q j) ∧ I s' (<[p := n]> A)
        | Abort => True
        | _ => False
        end
    end;
  law_avail s A k n : I s A → 0 ≤ k < 64 → 0 < n < 2 ^ 63 → avail k n s →
    match op_memalign o with
    | None => False
    | Some f => post (f (2 ^ k) n s) (λ '(p, _), p ≠ 0)
    end;
  law_free s A p n : I s A → A !! p = Some n →
    match op_free o with
    | None => True
    | Some f => post (f p s) (λ s', I s' (delete p A))
    end;
}.

(** ** The bump allocator *)

Definition phys_live (s : phys_state) (A : gmap Z Z) : Prop :=
  ∃ lo l, 0 < lo ∧ phys_ok lo l s ∧ ∀ p n, A !! p = Some n → (p, n) ∈ l.

Definition phys_avail (w k n : Z) (s : phys_state) : Prop :=
  p_base s + padding (p_base s) (Z.max (2 ^ k) (p_align_min s)) + n ≤ top_safe w true s.

#[export] Instance early_alloc_laws w : alloc_laws (early_alloc_ops w) phys_live (phys_avail w).
Proof.
  split.
  - intros s A k n (lo & l & Hlo & Hok & HA) Hk Hn. cbn.
    pose proof (pow2_u64_range k Hk) as Hp.
    pose proof (early_memalign_spec lo l w (2 ^ k) n s Hok Hlo ltac:(lia) Hn) as H.
    destruct (early_memalign w (2 ^ k) n s) as [[p s']| | |]; try done.
    destruct H as (_ & _ & [(-> & _ & Hok' & _)|(Ep & _ & Hok' & Hb)]); [left; split; [done|]; by exists lo, l|].
    destruct (effective_align k s lo l Hok Hk) as (k' & Hk' & Hle & _ & Emax). rewrite <- Emax in *.
    pose proof (pow2_u64_range k' Hk') as Hp'. pose proof (padding_range (p_base s) (2 ^ k') ltac:(lia)).
    pose proof (chain_le _ _ _ (po_chain _ _ _ Hok)). right. split; [lia|]. split_and!.
    + rewrite Ep. destruct (pow2_divides k k' ltac:(lia)) as [c Hc].
      pose proof (padding_aligned (p_base s) (2 ^ k') ltac:(lia)) as Hal.
      apply Z.mod_divide in Hal as [d Hd]; [|lia]. rewrite Hd, Hc. apply Z.mod_divide; [lia|].
      exists (d * c). lia.
    + intros q j Hq%HA. destruct (chain_bound _ _ _ _ _ (po_chain _ _ _ Hok) Hq) as (_ & _ & Hqj).
      right. lia.
    + exists lo, (l ++ [(p, n)]). split; [done|]. split; [done|].
      intros q j. rewrite lookup_insert_Some. rewrite elem_of_app, list_elem_of_singleton. naive_solver.
  - intros s A k n (lo & l & Hlo & Hok & HA) Hk Hn Hav. cbn. unfold phys_avail in Hav.
    pose proof (pow2_u64_range k Hk) as Hp.
    pose proof (early_memalign_spec lo l w (2 ^ k) n s Hok Hlo ltac:(lia) Hn) as H.
    pose proof (padding_range (p_base s) (Z.max (2 ^ k) (p_align_min s)) ltac:(lia)).
    pose proof (chain_le _ _ _ (po_chain _ _ _ Hok)).
    destruct (early_memalign w (2 ^ k) n s) as [[p s']| | |]; try done.
    + destruct H as (_ & _ & [(-> & ? & _)|(-> & _)]); cbn [post]; lia.
    + destruct H as [H|H]; [|lia]. destruct H. by exists k.
  - done.
Qed.

(** ** The page allocator *)

Definition page_live (s : page_alloc) (A : gmap Z Z) : Prop :=
  ∃ B, pa_ok s ∧ lock s = false ∧ related s B ∧
    ∀ p n, A !! p = Some n → ∃ b o, p = vaddr (Page b) ∧ B !! b = Some o ∧ 0 ≤ o ∧ 0 < n ≤ 2 ^ o * PAGE_SIZE.

Lemma vaddr_mul b : vaddr (Page b) = b * PAGE_SIZE.
Proof. unfold vaddr, PAGE_SHIFT, PAGE_SIZE. by rewrite Z.shiftl_mul_pow2. Qed.

Lemma vaddr_inj b b' : vaddr (Page b) = vaddr (Page b') → b = b'.
Proof. rewrite !vaddr_mul. unfold PAGE_SIZE. lia. Qed.

(** Blocks without a common frame have no common byte. *)
Lemma blocks_apart b o n b' o' n' :
  0 ≤ o → 0 ≤ o' → (∀ q, in_block b' o' q → ¬ in_block b o q) →
  n ≤ 2 ^ o * PAGE_SIZE → n' ≤ 2 ^ o' * PAGE_SIZE → apart (vaddr (Page b)) n (vaddr (Page b')) n'.
Proof.
  intros Ho Ho' Hd Hn Hn'. rewrite !vaddr_mul. unfold apart, in_block, PAGE_SIZE in *.
  assert (0 < 2 ^ o) by lia. assert (0 < 2 ^ o') by lia.
  destruct (Z.le_gt_cases (b + 2 ^ o) b') as [|H1]; [left; lia|].
  destruct (Z.le_gt_cases (b' + 2 ^ o') b) as [|H2]; [right; lia|].
  exfalso. apply (Hd (Z.max b b')); lia.
Qed.

Definition page_avail (k n : Z) (s : page_alloc) : Prop :=
  ¬ exhausted (Z.max 0 (k - 12)) (order_for n) AREA_ANY s.

#[export] Instance page_alloc_laws : alloc_laws page_alloc_ops page_live page_avail.
Proof.
  split.
  - intros s A k n (B & Hpa & Hlk & Hrel & HA) Hk Hn. cbn. unfold memalign_pages.
    rewrite (memalign_pages_flags_unfold _ n AREA_ANY s k) by (done || lia).
    destruct (order_for_spec n ltac:(lia)) as (Ho & Hup & _). assert (HN : NLISTS = 52) by done.
    pose proof (memalign_flags_spec (Z.max 0 (k - 12)) (order_for n) AREA_ANY s B Hpa Hlk Hrel) as H.
    specialize (H ltac:(cbn; split_and!; done || lia)).
    destruct (page_memalign_order_flags _ _ _ _) as [[r s']| | |]; try done.
    destruct H as (B' & Hsp & Hpa' & Hlk' & Hrel' & _).
    inversion Hsp as [|? ? ? ? b Hb0 Hb Hd| |]; subst; [left; split; [done|]; by exists B'|right].
    split_and!.
    + rewrite vaddr_mul. unfold PAGE_SIZE. lia.
    + apply (vaddr_aligned b k (Z.max (Z.max 0 (k - 12)) (order_for n))); done || lia.
    + intros q j (b' & o' & -> & Hb' & Ho' & Hj)%HA. apply blocks_apart with (order_for n) o'; try lia; naive_solver.
    + exists (<[b := order_for n]> B). split_and!; try done. intros p j. rewrite lookup_insert_Some.
      intros [[<- <-]|[Hne Hp]]; [exists b, (order_for n); rewrite lookup_insert_eq; split_and!; done || lia|].
      destruct (HA _ _ Hp) as (b' & o' & -> & Hb' & ?). exists b', o'.
      rewrite lookup_insert_ne; [done|]. intros ->. done.
  - intros s A k n (B & Hpa & Hlk & Hrel & HA) Hk Hn Hav. cbn. unfold memalign_pages.
    rewrite (memalign_pages_flags_unfold _ n AREA_ANY s k) by (done || lia).
    destruct (order_for_spec n ltac:(lia)) as (Ho & _). assert (HN : NLISTS = 52) by done.
    eapply post_mono; [apply (memalign_flags_spec (Z.max 0 (k - 12)) (order_for n) AREA_ANY s B Hpa Hlk Hrel); cbn; split_and!; done || lia|].
    intros [r s'] (B' & _ & _ & _ & _ & _ & [(-> & _ & Hex)|(i & b & -> & Hb & _)]); [done|].
    rewrite vaddr_mul. unfold PAGE_SIZE. lia.
  - intros s A p n (B & Hpa & Hlk & Hrel & HA) Hp. cbn. destruct (HA _ _ Hp) as (b & o & -> & Hb & _).
    eapply post_mono; [apply (free_pages_spec _ s B); [done..|]; right; by exists b, o|].
    intros s' (B' & Hsp & Hpa' & Hlk' & Hrel' & _). exists B'. split_and!; try done.
    intros q j [Hne Hq]%lookup_delete_Some. destruct (HA _ _ Hq) as (b' & o' & -> & Hb' & ?). exists b', o'. split; [done|].
    inversion Hsp as [| |? b0 o0 Hb0 E|]; subst; [|done]. apply vaddr_inj in E as ->.
    rewrite lookup_delete_ne; [done|]. by intros ->.
Qed.

(** ** The wrappers against the interface *)

Section client.
Context {S : Type} (o : alloc_ops S) (I : S → gmap Z Z → Prop) (avail : Z → Z → S → Prop).
Context {Hlaws : alloc_laws o I avail}.

(** What a new block satisfies. *)
Definition fresh_block (A : gmap Z Z) (k n p : Z) : Prop :=
  0 < p ∧ p mod 2 ^ k = 0 ∧ ∀ q j, A !! q = Some j → apart p n q j.

Lemma memalign_laws s A k n :
  I s A → 0 ≤ k < 64 → 0 < n < 2 ^ 63 →
  match memalign (Some o) (2 ^ k) n s with
  | Ret (p, s') => fresh_block A k n p ∧ I s' (<[p := n]> A)
  | Abort => ¬ avail k n s
  | _ => False
  end.
Proof.
  intros Hs Hk Hn. unfold memalign. rewrite (proj2 (Z.eqb_neq n 0)), is_power_of_2_pow2 by lia.
  pose proof (law_memalign s A k n Hs Hk Hn) as H. pose proof (law_avail s A k n Hs Hk Hn) as Hav.
  destruct (op_memalign o) as [f|]; [|done].
  destruct (f (2 ^ k) n s) as [[p s']| | |]; cbn [bind post] in *; try done.
  destruct H as [[-> H]|(Hp & Hal & Hap & H)]; [intros Ha; by apply Hav|]. by rewrite (proj2 (Z.eqb_neq p 0)) by lia.
Qed.

(** [calloc] after the allocation: the block is cleared. *)
Lemma calloc_of_malloc a b m s p s' :
  0 < a * b < 2 ^ 64 → malloc (Some o) (a * b) s = Ret (p, s') → p ≠ 0 → mapped m p (a * b) →
  calloc (Some o) a b m s = Ret (p, upd m p (replicate (Z.to_nat (a * b)) 0), s').
Proof.
  clear Hlaws. intros Hab E Hp Hm. unfold calloc, check_mul_overflow. rewrite (proj2 (Z.leb_gt _ _)), u64_small by lia. cbn [negb].
  rewrite E. cbn [bind]. rewrite (proj2 (Z.eqb_neq p 0)) by done. cbn [negb].
  rewrite <- (Z2Nat.id (a * b)) in Hm |- * by lia. rewrite memset_spec by done. cbn [bind]. rewrite !Z2Nat.id by lia. done.
Qed.

(** C11: dynamic memory.  For every implementation that keeps the interface:
    a request for no bytes returns null and changes nothing; a request with an
    alignment that is not a power of 2 stops the program; a request for up to
    2^63 bytes at any power of 2 stops the program only when the
    implementation has no room, and otherwise yields a block that is aligned
    as asked and apart from all live blocks; [calloc] stops on a product above
    64 bits, returns null for an empty product, stops where [malloc] does, and
    otherwise returns the block of [malloc] with exactly its bytes cleared,
    provided the memory of that block is mapped; [free] releases a live block,
    or keeps it when the implementation cannot release. *)
Theorem malloc_correct s A m :
  I s A →
  (∀ a, memalign (Some o) a 0 s = Ret (0, s)) ∧
  (∀ a n, n ≠ 0 → is_power_of_2 a = false → memalign (Some o) a n s = Abort) ∧
  (∀ k n, 0 ≤ k < 64 → 0 < n < 2 ^ 63 →
     match memalign (Some o) (2 ^ k) n s with
     | Ret (p, s') => fresh_block A k n p ∧ I s' (<[p := n]> A)
     | Abort => ¬ avail k n s
     | _ => False
     end) ∧
  (∀ n, 0 < n < 2 ^ 63 →
     match malloc (Some o) n s with
     | Ret (p, s') => fresh_block A 3 n p ∧ I s' (<[p := n]> A)
     | Abort => ¬ avail 3 n s
     | _ => False
     end) ∧
  (∀ a b, 2 ^ 64 ≤ a * b → calloc (Some o) a b m s = Abort) ∧
  (∀ a b, a * b = 0 → calloc (Some o) a b m s = Ret (0, m, s)) ∧
  (∀ a b, 0 < a * b < 2 ^ 63 →
     match malloc (Some o) (a * b) s with
     | Ret (p, s') => mapped m p (a * b) →
         calloc (Some o) a b m s = Ret (p, upd m p (replicate (Z.to_nat (a * b)) 0), s')
     | Abort => calloc (Some o) a b m s = Abort
     | _ => False
     end) ∧
  (∀ p n, A !! p = Some n → post (free (Some o) p s) (λ s',
     match op_free o with Some _ => I s' (delete p A) | None => s' = s end)).
Proof.
  intros Hs. assert (Hmal : ∀ n, 0 < n < 2 ^ 63 → _) by (intros n Hn; apply (memalign_laws s A 3 n Hs); done || lia).
  split_and!; [done| |by intros k n Hk Hn; apply memalign_laws|exact Hmal|..].
  - intros a n Hn Ha. unfold memalign. by rewrite (proj2 (Z.eqb_neq n 0)), Ha by done.
  - intros a b Hab. unfold calloc, check_mul_overflow. by rewrite (proj2 (Z.leb_le _ _)) by lia.
  - intros a b Hab. unfold calloc, check_mul_overflow. rewrite Hab. done.
  - intros a b Hab. specialize (Hmal _ Hab). change (memalign (Some o) (2 ^ 3)) with (malloc (Some o)) in Hmal.
    destruct (malloc (Some o) (a * b) s) as [[p s']| | |] eqn:E; try done.
    + intros Hm. destruct Hmal as [(Hp & _) _]. by apply calloc_of_malloc; try lia.
    + unfold calloc, check_mul_overflow. rewrite (proj2 (Z.leb_gt _ _)), u64_small by lia. cbn [negb]. by rewrite E.
  - intros p n Hp. unfold free. pose proof (law_free s A p n Hs Hp) as H. by destruct (op_free o).
Qed.
End client.

(** Both allocators keep the interface; here the bump allocator at boot. *)
Definition boot_phys : phys_state := ret_or demo_phys (phys_alloc_init 4096 8192 demo_phys).

Lemma boot_phys_live : phys_live boot_phys ∅.
Proof.
  destruct (proj1 (post_inv _ _) (phys_alloc_init_spec 4096 8192 demo_phys eq_refl (or_introl eq_refl) eq_refl ltac:(lia) ltac:(lia) ltac:(lia)))
    as (s & E & Hok & _). unfold boot_phys. rewrite E. exists 4096, []. split; [lia|]. split; [done|]. by intros p n.
Qed.

(** Sixteen bytes that are not zero, where the allocator starts. *)
Definition boot_memory : memory := upd ∅ 4096 (replicate 16 170).

Lemma boot_memory_mapped : mapped boot_memory 4096 12.
Proof.
  intros i Hi. split; [apply addr_ok_iff; lia|]. unfold boot_memory. rewrite upd_lookup, decide_True by (cbn; lia).
  apply lookup_lt_is_Some. rewrite length_replicate. lia.
Qed.

Lemma malloc_correct_witness :
  match malloc (Some (early_alloc_ops 8)) 100 boot_phys with
  | Ret (p, s') => fresh_block ∅ 3 100 p | Abort => ¬ phys_avail 8 3 100 boot_phys | _ => False end ∧
  memalign (Some (early_alloc_ops 8)) 24 100 boot_phys = Abort ∧
  calloc (Some (early_alloc_ops 8)) (2 ^ 32) (2 ^ 32) ∅ boot_phys = Abort ∧
  boot_memory !! 4107 = Some 170 ∧ boot_memory !! 4108 = Some 170 ∧
  ∃ m' s', calloc (Some (early_alloc_ops 8)) 3 4 boot_memory boot_phys = Ret (4096, m', s') ∧
    m' !! 4107 = Some 0 ∧ m' !! 4108 = Some 170.
Proof.
  destruct (malloc_correct (early_alloc_ops 8) phys_live (phys_avail 8) boot_phys ∅ boot_memory boot_phys_live)
    as (_ & Ha & _ & H & H2 & _ & H3 & _).
  destruct (malloc_correct (early_alloc_ops 8) phys_live (phys_avail 8) boot_phys ∅ ∅ boot_phys_live)
    as (_ & _ & _ & _ & H4 & _).
  split; [|split; [by apply Ha|split; [by apply H4|split; [done|split; [done|]]]]].
  - specialize (H 100 ltac:(lia)). destruct (malloc _ _ _) as [[p s']| | |]; [apply H|exact H|exact H|exact H].
  - specialize (H3 3 4 ltac:(lia)). change (3 * 4) with 12 in H3.
    destruct (malloc (Some (early_alloc_ops 8)) 12 boot_phys) as [[p s']| | |] eqn:E; vm_compute in E; try discriminate E.
    injection E as <- <-. rewrite H3; [|exact boot_memory_mapped].
    eexists _, _. split; [reflexivity|]. split; vm_compute; reflexivity.
Defined.
