(* ===== verification/Cpumask.v ===== *)
(** * lib/cpumask.h and lib/riscv/bitops.c: sets of processors

    A mask is an array of 64-bit words; an access behind its end is a
    [Fault].  [nr_cpus] is the number of processors, a global variable of the
    setup code. *)

From S2P Require Import Prelude.
From S2P Require Import Bitops.

(** lib/riscv/asm/setup.h *)
Definition NR_CPUS : Z := 256.
Definition CPUMASK_NR_LONGS : Z := (NR_CPUS + BITS_PER_LONG - 1) / BITS_PER_LONG.

Abbreviation cpumask := (list Z).

(** ** Words and bits *)

Definition word (mask : cpumask) (i : Z) : res Z :=
  if i <? 0 then Fault else match mask !! Z.to_nat i with Some w => Ret w | None => Fault end.
Definition set_word (mask : cpumask) (i v : Z) : res cpumask :=
  let* _ := word mask i in Ret (<[Z.to_nat i := v]> mask).

Definition set_bit (nr : Z) (mask : cpumask) : res cpumask :=
  let* w := word mask (BIT_WORD nr) in set_word mask (BIT_WORD nr) (Z.lor w (BIT_MASK nr)).
Definition clear_bit (nr : Z) (mask : cpumask) : res cpumask :=
  let* w := word mask (BIT_WORD nr) in
  set_word mask (BIT_WORD nr) (Z.land w (u64 (Z.lnot (BIT_MASK nr)))).
Definition test_bit (nr : Z) (mask : cpumask) : res bool :=
  let* w := word mask (BIT_WORD nr) in Ret (negb (Z.land w (BIT_MASK nr) =? 0)).
Definition test_and_set_bit (nr : Z) (mask : cpumask) : res (bool * cpumask) :=
  let* old := word mask (BIT_WORD nr) in
  let* mask := set_word mask (BIT_WORD nr) (Z.lor old (BIT_MASK nr)) in
  Ret (negb (Z.land old (BIT_MASK nr) =? 0), mask).
Definition test_and_clear_bit (nr : Z) (mask : cpumask) : res (bool * cpumask) :=
  let* old := word mask (BIT_WORD nr) in
  let* mask := set_word mask (BIT_WORD nr) (Z.land old (u64 (Z.lnot (BIT_MASK nr)))) in
  Ret (negb (Z.land old (BIT_MASK nr) =? 0), mask).

Section cpumask.
Variable nr_cpus : Z.

Definition cpu_ok (cpu : Z) : bool := (0 <=? cpu) && (cpu <? nr_cpus).

(** ** Single processors *)

Definition cpumask_set_cpu (cpu : Z) (mask : cpumask) : res cpumask :=
  assert! (cpu_ok cpu); set_bit cpu mask.
Definition cpumask_clear_cpu (cpu : Z) (mask : cpumask) : res cpumask :=
  assert! (cpu_ok cpu); clear_bit cpu mask.
Definition cpumask_test_cpu (cpu : Z) (mask : cpumask) : res bool :=
  assert! (cpu_ok cpu); test_bit cpu mask.
Definition cpumask_test_and_set_cpu (cpu : Z) (mask : cpumask) : res (bool * cpumask) :=
  assert! (cpu_ok cpu); test_and_set_bit cpu mask.
Definition cpumask_test_and_clear_cpu (cpu : Z) (mask : cpumask) : res (bool * cpumask) :=
  assert! (cpu_ok cpu); test_and_clear_bit cpu mask.

(** ** Whole masks *)

(** [memset] with 0xff and 0: every byte of every word. *)
Definition cpumask_setall (mask : cpumask) : cpumask := replicate (length mask) ULONG_MAX.
Definition cpumask_clear (mask : cpumask) : cpumask := replicate (length mask) 0.
(** [memcpy] of all words. *)
Definition cpumask_copy (dst src : cpumask) : cpumask := src.

(** [BIT_MASK(nr_cpus) - 1] *)
Definition lastmask : Z := u64 (BIT_MASK nr_cpus - 1).
Definition last_word : Z := BIT_WORD nr_cpus.

(** [for (i = 0; i < BIT_WORD(nr_cpus); ++i) if (test(i)) return false;], as a
    boolean: true when the loop runs to its end. *)
Fixpoint all_words (n : nat) (i : Z) (test : Z → res bool) : res bool :=
  match n with
  | O => Ret true
  | S n => let* bad := test i in if bad then Ret false else all_words n (i + 1) test
  end.

Definition word_not (w : Z) : Z := u64 (Z.lnot w).

Definition cpumask_subset (src1 src2 : cpumask) : res bool :=
  let* b := all_words (Z.to_nat last_word) 0 (λ i,
    let* a := word src1 i in let* b := word src2 i in Ret (negb (Z.land a (word_not b) =? 0))) in
  if negb b then Ret false else
  if lastmask =? 0 then Ret true else
  let* a := word src1 last_word in
  let* b := word src2 last_word in
  Ret (Z.land (Z.land a (word_not b)) lastmask =? 0).

(** The loop of the binary operations: [dst[i] = op(src1[i], src2[i])]; the
    last component is the disjunction of the words written. *)
Fixpoint op_words (op : Z → Z → Z) (n : nat) (i : Z) (dst src1 src2 : cpumask) (acc : Z) :
    res (cpumask * Z) :=
  match n with
  | O => Ret (dst, acc)
  | S n =>
      let* a := word src1 i in
      let* b := word src2 i in
      let* dst := set_word dst i (op a b) in
      op_words op n (i + 1) dst src1 src2 (Z.lor acc (op a b))
  end.
Definition mask_op (op : Z → Z → Z) (dst src1 src2 : cpumask) : res (bool * cpumask) :=
  let* '(dst, ret) := op_words op (Z.to_nat last_word) 0 dst src1 src2 0 in
  let* a := word src1 last_word in
  let* b := word src2 last_word in
  let w := Z.land (op a b) lastmask in
  let* dst := set_word dst last_word w in
  Ret (negb (Z.lor ret w =? 0), dst).

Definition cpumask_and : cpumask → cpumask → cpumask → res (bool * cpumask) := mask_op Z.land.
Definition cpumask_andnot : cpumask → cpumask → cpumask → res (bool * cpumask) :=
  mask_op (λ a b, Z.land a (word_not b)).
Definition cpumask_or (dst src1 src2 : cpumask) : res cpumask :=
  let* '(_, dst) := mask_op Z.lor dst src1 src2 in Ret dst.
Definition cpumask_xor (dst src1 src2 : cpumask) : res cpumask :=
  let* '(_, dst) := mask_op Z.lxor dst src1 src2 in Ret dst.

Definition cpumask_equal (src1 src2 : cpumask) : res bool :=
  let* b := all_words (Z.to_nat last_word) 0 (λ i,
    let* a := word src1 i in let* b := word src2 i in Ret (negb (a =? b))) in
  if negb b then Ret false else
  if lastmask =? 0 then Ret true else
  let* a := word src1 last_word in
  let* b := word src2 last_word in
  Ret (Z.land a lastmask =? Z.land b lastmask).

Definition cpumask_empty (mask : cpumask) : res bool :=
  let* b := all_words (Z.to_nat last_word) 0 (λ i, let* a := word mask i in Ret (negb (a =? 0))) in
  if negb b then Ret false else
  if lastmask =? 0 then Ret true else
  let* a := word mask last_word in Ret (Z.land a lastmask =? 0).

Definition cpumask_full (mask : cpumask) : res bool :=
  let* b := all_words (Z.to_nat last_word) 0 (λ i, let* a := word mask i in Ret (negb (a =? ULONG_MAX))) in
  if negb b then Ret false else
  if lastmask =? 0 then Ret true else
  let* a := word mask last_word in Ret (Z.land a lastmask =? lastmask).

Definition cpumask_weight (mask : cpumask) : res Z :=
  for_ (Z.to_nat nr_cpus) 0 (λ i w, let* b := cpumask_test_cpu i mask in Ret (if b then w + 1 else w)) 0.

(** [while (++cpu < nr_cpus && !test(cpu)) ;]: [fuel] bounds the iterations,
    the callers use [nr_cpus + 1]. *)
Fixpoint next_loop (f : nat) (cpu : Z) (mask : cpumask) : res Z :=
  match f with
  | O => Hang
  | S f =>
      let cpu := cpu + 1 in
      if negb (cpu <? nr_cpus) then Ret cpu else
      let* b := cpumask_test_cpu cpu mask in
      if b then Ret cpu else next_loop f cpu mask
  end.
Definition cpumask_next (cpu : Z) (mask : cpumask) : res Z :=
  next_loop (Z.to_nat (nr_cpus + 1)) cpu mask.

(** [for_each_cpu(cpu, mask) body(cpu)] *)
Fixpoint for_each_loop {S} (f : nat) (cpu : Z) (mask : cpumask) (body : Z → S → res S) (s : S) : res S :=
  match f with
  | O => Hang
  | Datatypes.S f =>
      if negb (cpu <? nr_cpus) then Ret s else
      let* s := body cpu s in
      let* cpu := cpumask_next cpu mask in
      for_each_loop f cpu mask body s
  end.
Definition for_each_cpu {S} (mask : cpumask) (body : Z → S → res S) (s : S) : res S :=
  let* cpu := cpumask_next (-1) mask in
  for_each_loop (Z.to_nat (nr_cpus + 1)) cpu mask body s.
End cpumask.

(** ** The three global masks *)

Record cpu_masks : Type := mk_cpus {
  cpu_present_mask : cpumask; cpu_online_mask : cpumask; cpu_idle_mask : cpumask;
}.

Definition cpu_present (nr_cpus cpu : Z) (s : cpu_masks) : res bool := cpumask_test_cpu nr_cpus cpu (cpu_present_mask s).
Definition cpu_online (nr_cpus cpu : Z) (s : cpu_masks) : res bool := cpumask_test_cpu nr_cpus cpu (cpu_online_mask s).
Definition cpu_idle (nr_cpus cpu : Z) (s : cpu_masks) : res bool := cpumask_test_cpu nr_cpus cpu (cpu_idle_mask s).

Definition set_cpu_present (nr_cpus cpu : Z) (present : bool) (s : cpu_masks) : res cpu_masks :=
  let* m := if present then cpumask_set_cpu nr_cpus cpu (cpu_present_mask s)
            else cpumask_clear_cpu nr_cpus cpu (cpu_present_mask s) in
  Ret (mk_cpus m (cpu_online_mask s) (cpu_idle_mask s)).
Definition set_cpu_online (nr_cpus cpu : Z) (online : bool) (s : cpu_masks) : res cpu_masks :=
  let* m := if online then cpumask_set_cpu nr_cpus cpu (cpu_online_mask s)
            else cpumask_clear_cpu nr_cpus cpu (cpu_online_mask s) in
  Ret (mk_cpus (cpu_present_mask s) m (cpu_idle_mask s)).
Definition set_cpu_idle (nr_cpus cpu : Z) (idle : bool) (s : cpu_masks) : res cpu_masks :=
  let* m := if idle then cpumask_set_cpu nr_cpus cpu (cpu_idle_mask s)
            else cpumask_clear_cpu nr_cpus cpu (cpu_idle_mask s) in
  Ret (mk_cpus (cpu_present_mask s) (cpu_online_mask s) m).
