(* ===== verification/CpumaskProps.v ===== *)
(** * lib/cpumask.h: masks implement finite sets

    [cpus nr mask] is the set of processors below [nr] whose bit is set; every
    operation of the header is an operation on that set. *)

From S2P Require Import Prelude.
From S2P Require Import Bitops.
From S2P Require Import Cpumask.

(** ** Bits of a 64-bit word *)

Definition is_u64 (x : Z) : Prop := 0 ≤ x < 2 ^ 64.

Lemma u64_bits_high x j : is_u64 x → 64 ≤ j → Z.testbit x j = false.
Proof. intros Hx Hj. rewrite <- (Z.mod_small x (2 ^ 64)) by done. by apply Z.mod_pow2_bits_high. Qed.

Lemma u64_eq_bits a b : is_u64 a → is_u64 b → (a = b ↔ ∀ j, 0 ≤ j < 64 → Z.testbit a j = Z.testbit b j).
Proof.
  intros Ha Hb. split; [by intros ->|]. intros H. apply Z.bits_inj'. intros j Hj.
  destruct (decide (j < 64)); [apply H; lia|]. by rewrite !u64_bits_high by (done || lia).
Qed.

Lemma u64_zero_bits a : is_u64 a → (a = 0 ↔ ∀ j, 0 ≤ j < 64 → Z.testbit a j = false).
Proof.
  intros Ha. rewrite (u64_eq_bits a 0) by (done || by split). by setoid_rewrite Z.testbit_0_l.
Qed.

(** A number without bits above 63. *)
Lemma is_u64_bits x : 0 ≤ x → (∀ j, 64 ≤ j → Z.testbit x j = false) → is_u64 x.
Proof.
  intros Hx Hb. split; [done|]. destruct (decide (x = 0)) as [->|]; [done|].
  apply Z.log2_lt_pow2; [lia|]. destruct (Z.lt_ge_cases (Z.log2 x) 64) as [|Hl]; [done|].
  specialize (Hb _ Hl). rewrite Z.bit_log2 in Hb by lia. done.
Qed.

Lemma is_u64_u64 x : is_u64 (u64 x).
Proof. apply u64_range. Qed.

Lemma is_u64_land a b : is_u64 a → 0 ≤ b → is_u64 (Z.land a b).
Proof.
  intros Ha Hb. apply is_u64_bits; [apply Z.land_nonneg; left; apply Ha|].
  intros j Hj. by rewrite Z.land_spec, u64_bits_high.
Qed.
Lemma is_u64_lor a b : is_u64 a → is_u64 b → is_u64 (Z.lor a b).
Proof.
  intros Ha Hb. apply is_u64_bits; [apply Z.lor_nonneg; split; [apply Ha|apply Hb]|].
  intros j Hj. by rewrite Z.lor_spec, !u64_bits_high.
Qed.
Lemma is_u64_lxor a b : is_u64 a → is_u64 b → is_u64 (Z.lxor a b).
Proof.
  intros Ha Hb. apply is_u64_bits; [apply Z.lxor_nonneg; pose proof (proj1 Ha); pose proof (proj1 Hb); tauto|].
  intros j Hj. by rewrite Z.lxor_spec, !u64_bits_high.
Qed.

Lemma word_not_bit b j : 0 ≤ j < 64 → Z.testbit (word_not b) j = negb (Z.testbit b j).
Proof. intros Hj. unfold word_not, u64. rewrite Z.mod_pow2_bits_low by lia. by rewrite Z.lnot_spec by lia. Qed.
Lemma is_u64_word_not b : is_u64 (word_not b).
Proof. apply u64_range. Qed.

Lemma ULONG_MAX_bit j : 0 ≤ j < 64 → Z.testbit ULONG_MAX j = true.
Proof. intros Hj. change ULONG_MAX with (Z.ones 64). by apply Z.ones_spec_low. Qed.

Lemma BIT_MASK_bit nr j : 0 ≤ j < 64 → Z.testbit (BIT_MASK nr) j = (j =? nr mod 64).
Proof.
  intros Hj. unfold BIT_MASK, u64. change BITS_PER_LONG with 64. rewrite Z.mod_pow2_bits_low by lia.
  rewrite Z.shiftl_1_l, Z.pow2_bits_eqb by (apply Z.mod_pos_bound; lia). apply Z.eqb_sym.
Qed.
Lemma BIT_MASK_pow nr : BIT_MASK nr = 2 ^ (nr mod 64).
Proof.
  unfold BIT_MASK. change BITS_PER_LONG with 64. pose proof (Z.mod_pos_bound nr 64 ltac:(lia)).
  rewrite Z.shiftl_1_l, u64_small; [done|]. by apply pow2_u64_range in H as [??]; lia.
Qed.
Lemma is_u64_BIT_MASK nr : is_u64 (BIT_MASK nr).
Proof. apply u64_range. Qed.

Lemma lastmask_ones nr : lastmask nr = Z.ones (nr mod 64).
Proof.
  unfold lastmask. rewrite BIT_MASK_pow, Z.ones_equiv, <- Z.sub_1_r. pose proof (Z.mod_pos_bound nr 64 ltac:(lia)) as H.
  pose proof (pow2_u64_range _ H). by rewrite u64_small by lia.
Qed.
Lemma lastmask_bit nr j : 0 ≤ j → Z.testbit (lastmask nr) j = (j <? nr mod 64).
Proof.
  intros Hj. rewrite lastmask_ones. pose proof (Z.mod_pos_bound nr 64 ltac:(lia)).
  destruct (Z.ltb_spec j (nr mod 64)); [apply Z.ones_spec_low|apply Z.ones_spec_high]; lia.
Qed.
Lemma lastmask_nonneg nr : 0 ≤ lastmask nr.
Proof. apply u64_range. Qed.
Lemma lastmask_zero nr : lastmask nr = 0 ↔ nr mod 64 = 0.
Proof.
  rewrite lastmask_ones, Z.ones_equiv. pose proof (Z.mod_pos_bound nr 64 ltac:(lia)) as H. split.
  - intros E. destruct (decide (nr mod 64 = 0)); [done|]. pose proof (Z.pow_gt_1 2 (nr mod 64) ltac:(lia)). lia.
  - by intros ->.
Qed.

#[export] Hint Resolve is_u64_u64 is_u64_land is_u64_lor is_u64_lxor is_u64_word_not is_u64_BIT_MASK lastmask_nonneg : cint.

(** ** Membership *)

Definition mask_ok (mask : cpumask) : Prop := Forall is_u64 mask.
Definition has (mask : cpumask) (i : Z) : bool :=
  match mask !! Z.to_nat (i / 64) with Some w => Z.testbit w (i mod 64) | None => false end.

(** The mask has the bits of [nr] processors. *)
Definition covers (nr : Z) (mask : cpumask) : Prop := mask_ok mask ∧ 0 ≤ nr ≤ 64 * Z.of_nat (length mask).

Lemma word_spec mask i :
  mask_ok mask → 0 ≤ i < Z.of_nat (length mask) →
  ∃ w, word mask i = Ret w ∧ mask !! Z.to_nat i = Some w ∧ is_u64 w.
Proof.
  intros Hm Hi. unfold word. rewrite (proj2 (Z.ltb_ge i 0)) by lia.
  destruct (lookup_lt_is_Some_2 mask (Z.to_nat i)) as [w Hw]; [lia|]. exists w. rewrite Hw.
  split_and!; [done|done|]. exact (proj1 (Forall_lookup _ _) Hm _ _ Hw).
Qed.

Lemma has_word mask i w j :
  0 ≤ i → 0 ≤ j < 64 → mask !! Z.to_nat i = Some w → has mask (64 * i + j) = Z.testbit w j.
Proof.
  intros Hi Hj Hw. unfold has.
  replace ((64 * i + j) / 64) with i by (Z.div_mod_to_equations; lia).
  replace ((64 * i + j) mod 64) with j by (Z.div_mod_to_equations; lia). by rewrite Hw.
Qed.

Lemma cpu_split i : i = 64 * (i / 64) + i mod 64.
Proof. apply Z.div_mod. lia. Qed.

Lemma set_word_spec mask i v :
  0 ≤ i < Z.of_nat (length mask) → mask_ok mask → is_u64 v →
  ∃ mask', set_word mask i v = Ret mask' ∧ mask_ok mask' ∧ length mask' = length mask ∧
    mask' !! Z.to_nat i = Some v ∧ ∀ k, 0 ≤ k → k ≠ i → mask' !! Z.to_nat k = mask !! Z.to_nat k.
Proof.
  intros Hi Hm Hv. destruct (word_spec mask i Hm Hi) as (w & E & Hw & _). unfold set_word. rewrite E. cbn [bind].
  eexists. split; [done|]. split_and!.
  - by apply Forall_insert.
  - apply length_insert.
  - apply list_lookup_insert_eq. lia.
  - intros k Hk Hne. apply list_lookup_insert_ne. lia.
Qed.

(** ** Single bits *)

Lemma BIT_WORD_range nr mask cpu :
  covers nr mask → 0 ≤ cpu < nr → 0 ≤ BIT_WORD cpu < Z.of_nat (length mask).
Proof. intros [_ Hn] Hc. unfold BIT_WORD, BITS_PER_LONG. Z.div_mod_to_equations. lia. Qed.

Lemma test_bit_spec nr mask cpu :
  covers nr mask → 0 ≤ cpu < nr → test_bit cpu mask = Ret (has mask cpu).
Proof.
  intros Hm Hc. destruct (word_spec mask (BIT_WORD cpu) (proj1 Hm) (BIT_WORD_range _ _ _ Hm Hc)) as (w & E & Hw & Hu).
  unfold test_bit. rewrite E. cbn [bind]. f_equal. unfold has. change (cpu / 64) with (BIT_WORD cpu). rewrite Hw.
  pose proof (Z.mod_pos_bound cpu 64 ltac:(lia)) as Hj.
  destruct (Z.testbit w (cpu mod 64)) eqn:Eb.
  - apply negb_true_iff, Z.eqb_neq. intros E0. assert (H : Z.testbit (Z.land w (BIT_MASK cpu)) (cpu mod 64) = false) by (by rewrite E0, Z.testbit_0_l).
    rewrite Z.land_spec, BIT_MASK_bit, Eb, Z.eqb_refl in H by lia. done.
  - apply negb_false_iff, Z.eqb_eq, u64_zero_bits; [eauto using u64_range with cint|].
    { apply is_u64_land; [done|apply u64_range]. }
    intros j Hjr. rewrite Z.land_spec, BIT_MASK_bit by lia. destruct (Z.eqb_spec j (cpu mod 64)) as [->|]; [by rewrite Eb|apply andb_false_r].
Qed.

(** Updating one word by a bit operation that only touches the bit of [cpu]. *)
Lemma update_bit_spec nr mask cpu (f : Z → Z) (b : bool) :
  covers nr mask → 0 ≤ cpu < nr →
  (∀ w, is_u64 w → is_u64 (f w) ∧ ∀ j, 0 ≤ j < 64 → Z.testbit (f w) j = if j =? cpu mod 64 then b else Z.testbit w j) →
  ∃ w mask', word mask (BIT_WORD cpu) = Ret w ∧ set_word mask (BIT_WORD cpu) (f w) = Ret mask' ∧
    covers nr mask' ∧ length mask' = length mask ∧
    (∀ i, 0 ≤ i → has mask' i = if i =? cpu then b else has mask i).
Proof.
  intros Hm Hc Hf. pose proof (BIT_WORD_range _ _ _ Hm Hc) as Hr. destruct Hm as [Hm Hn].
  destruct (word_spec mask _ Hm Hr) as (w & E & Hw & Hu). destruct (Hf w Hu) as [Hfu Hfb].
  destruct (set_word_spec mask _ (f w) Hr Hm Hfu) as (mask' & E' & Hm' & Hl & Hnew & Hold).
  exists w, mask'. split_and!; try done; [by split; [|rewrite Hl]|].
  intros i Hi. unfold has. change (cpu mod 64) with (cpu mod 64) in *. unfold BIT_WORD, BITS_PER_LONG in *.
  destruct (decide (i / 64 = cpu / 64)) as [Ew|Ew].
  - rewrite Ew, Hnew, Hw, Hfb by (apply Z.mod_pos_bound; lia).
    destruct (Z.eqb_spec i cpu) as [->|Hne]; [by rewrite Z.eqb_refl|].
    rewrite (proj2 (Z.eqb_neq _ _)); [done|]. rewrite (cpu_split i), (cpu_split cpu) in Hne. lia.
  - rewrite Hold by (try apply Z.div_pos; lia). rewrite (proj2 (Z.eqb_neq i cpu)); [done|]. by intros ->.
Qed.

Lemma set_bit_word cpu w : is_u64 w →
  is_u64 (Z.lor w (BIT_MASK cpu)) ∧ ∀ j, 0 ≤ j < 64 →
    Z.testbit (Z.lor w (BIT_MASK cpu)) j = if j =? cpu mod 64 then true else Z.testbit w j.
Proof.
  intros Hw. split; [auto with cint|]. intros j Hj. rewrite Z.lor_spec, BIT_MASK_bit by done.
  destruct (j =? cpu mod 64); [apply orb_true_r|apply orb_false_r].
Qed.
Lemma clear_bit_word cpu w : is_u64 w →
  is_u64 (Z.land w (u64 (Z.lnot (BIT_MASK cpu)))) ∧ ∀ j, 0 ≤ j < 64 →
    Z.testbit (Z.land w (u64 (Z.lnot (BIT_MASK cpu)))) j = if j =? cpu mod 64 then false else Z.testbit w j.
Proof.
  intros Hw. split; [apply is_u64_land; [done|apply u64_range]|]. intros j Hj.
  rewrite Z.land_spec. fold (word_not (BIT_MASK cpu)). rewrite word_not_bit, BIT_MASK_bit by done.
  destruct (j =? cpu mod 64); [apply andb_false_r|apply andb_true_r].
Qed.

Lemma cpu_ok_true nr cpu : 0 ≤ cpu < nr → cpu_ok nr cpu = true.
Proof. intros. unfold cpu_ok. by rewrite (proj2 (Z.leb_le _ _)), (proj2 (Z.ltb_lt _ _)) by lia. Qed.
Lemma cpu_ok_false nr cpu : ¬ 0 ≤ cpu < nr → cpu_ok nr cpu = false.
Proof. intros. unfold cpu_ok. apply andb_false_iff. rewrite Z.leb_gt, Z.ltb_ge. lia. Qed.

Lemma cpumask_test_cpu_spec nr mask cpu :
  covers nr mask → 0 ≤ cpu < nr → cpumask_test_cpu nr cpu mask = Ret (has mask cpu).
Proof. intros Hm Hc. unfold cpumask_test_cpu. rewrite cpu_ok_true by done. by apply (test_bit_spec nr). Qed.

(** ** Tests of whole masks *)

Lemma all_words_spec n i test (t : Z → bool) :
  (∀ k, i ≤ k < i + Z.of_nat n → test k = Ret (t k)) →
  ∃ b, all_words n i test = Ret b ∧ (b = true ↔ ∀ k, i ≤ k < i + Z.of_nat n → t k = false).
Proof.
  revert i. induction n as [|n IH]; intros i Ht; cbn [all_words]; [exists true; split; [done|]; split; [lia|done]|].
  rewrite Ht by lia. cbn [bind]. destruct (t i) eqn:E.
  - exists false. split; [done|]. split; [done|]. intros H. rewrite H in E by lia. done.
  - destruct (IH (i + 1)) as (b & Eb & Hb); [intros k Hk; apply Ht; lia|]. exists b. split; [done|]. rewrite Hb. split.
    + intros H k Hk. destruct (decide (k = i)) as [->|]; [done|]. apply H. lia.
    + intros H k Hk. apply H. lia.
Qed.

(** A statement about all processors, word by word. *)
Lemma all_cpus_split nr (Q : Z → Prop) : 0 ≤ nr →
  (∀ i, 0 ≤ i < nr → Q i) ↔
  (∀ w, 0 ≤ w < BIT_WORD nr → ∀ j, 0 ≤ j < 64 → Q (64 * w + j)) ∧
  (∀ j, 0 ≤ j < nr mod 64 → Q (64 * BIT_WORD nr + j)).
Proof.
  intros Hn. unfold BIT_WORD, BITS_PER_LONG. pose proof (cpu_split nr) as En. pose proof (Z.mod_pos_bound nr 64 ltac:(lia)).
  split.
  - intros H1. split; [intros w Hw j Hj|intros j Hj]; apply H1; lia.
  - intros [H1 H2] i Hi. rewrite (cpu_split i). pose proof (Z.mod_pos_bound i 64 ltac:(lia)).
    destruct (decide (i / 64 < nr / 64)) as [Hlt|Hge].
    + apply H1; [split; [apply Z.div_pos; lia|done]|done].
    + assert (Ew : i / 64 = nr / 64) by (apply Z.le_antisymm; [apply Z.div_le_mono; lia|lia]).
      pose proof (cpu_split i) as Ei. rewrite Ew in *. apply H2. lia.
Qed.

(** The common shape of [cpumask_subset], [_equal], [_empty] and [_full]. *)
Definition check_mask (nr : Z) (test : Z → res bool) (last : res bool) : res bool :=
  let* b := all_words (Z.to_nat (last_word nr)) 0 test in
  if negb b then Ret false else if lastmask nr =? 0 then Ret true else last.

Lemma check_mask_spec nr test last (t : Z → bool) (c : bool) (Q : Z → Prop) :
  0 ≤ nr →
  (∀ w, 0 ≤ w < BIT_WORD nr → test w = Ret (t w) ∧ (t w = false ↔ ∀ j, 0 ≤ j < 64 → Q (64 * w + j))) →
  (nr mod 64 ≠ 0 → last = Ret c ∧ (c = true ↔ ∀ j, 0 ≤ j < nr mod 64 → Q (64 * BIT_WORD nr + j))) →
  ∃ b, check_mask nr test last = Ret b ∧ (b = true ↔ ∀ i, 0 ≤ i < nr → Q i).
Proof.
  intros Hn Ht Hl. assert (Hw : 0 ≤ BIT_WORD nr) by (apply Z.div_pos; [done|by unfold BITS_PER_LONG]).
  destruct (all_words_spec (Z.to_nat (last_word nr)) 0 test t) as (b & Eb & Hb).
  { intros k Hk. apply Ht. unfold last_word in Hk. lia. }
  unfold last_word in Hb. rewrite Z2Nat.id, Z.add_0_l in Hb by done.
  unfold check_mask. rewrite Eb. cbn [bind]. setoid_rewrite (all_cpus_split nr Q Hn).
  assert (Hwords : (∀ k, 0 ≤ k < BIT_WORD nr → t k = false) ↔ (∀ w, 0 ≤ w < BIT_WORD nr → ∀ j, 0 ≤ j < 64 → Q (64 * w + j))).
  { split; intros H w Hwr; by apply Ht, H. }
  destruct b; cbn [negb]; [|exists false; split; [done|]; rewrite <- Hwords, <- Hb; by split; [|intros [? _]]].
  destruct (Z.eqb_spec (lastmask nr) 0) as [E|E]; rewrite lastmask_zero in E.
  - exists true. split; [done|]. split; [|done]. intros _. split; [by apply Hwords, Hb|]. rewrite E. lia.
  - destruct (Hl E) as [-> Hc]. exists c. split; [done|]. rewrite Hc, <- Hwords. split; [|tauto]. intros. split; [by apply Hb|done].
Qed.

(** [x & lastmask] is zero, or equal for two words, as far as the processors
    of the last word go. *)
Lemma last_zero nr x : is_u64 x →
  (Z.land x (lastmask nr) =? 0) = true ↔ ∀ j, 0 ≤ j < nr mod 64 → Z.testbit x j = false.
Proof.
  intros Hx. pose proof (Z.mod_pos_bound nr 64 ltac:(lia)). rewrite Z.eqb_eq, u64_zero_bits by auto with cint.
  split; intros H1 j Hj; specialize (H1 j); rewrite Z.land_spec, lastmask_bit in *; try lia.
  - rewrite (proj2 (Z.ltb_lt _ _)) in H1 by lia. rewrite andb_true_r in H1. apply H1. lia.
  - destruct (Z.ltb_spec j (nr mod 64)); [rewrite H1 by lia; done|apply andb_false_r].
Qed.
Lemma last_equal nr x y : is_u64 x → is_u64 y →
  (Z.land x (lastmask nr) =? Z.land y (lastmask nr)) = true ↔
  ∀ j, 0 ≤ j < nr mod 64 → Z.testbit x j = Z.testbit y j.
Proof.
  intros Hx Hy. pose proof (Z.mod_pos_bound nr 64 ltac:(lia)). rewrite Z.eqb_eq, u64_eq_bits by auto with cint.
  split; intros H1 j Hj; specialize (H1 j); rewrite !Z.land_spec, !lastmask_bit in *; try lia.
  - rewrite (proj2 (Z.ltb_lt _ _)) in H1 by lia. rewrite !andb_true_r in H1. apply H1. lia.
  - destruct (Z.ltb_spec j (nr mod 64)); [rewrite H1 by lia; done|by rewrite !andb_false_r].
Qed.

(** The words of two masks, below and at the last one. *)
Definition word_at (mask : cpumask) (i : Z) : Z := default 0 (mask !! Z.to_nat i).

Lemma word_at_spec nr mask i :
  covers nr mask → 0 ≤ i → 64 * i < nr →
  word mask i = Ret (word_at mask i) ∧ is_u64 (word_at mask i) ∧
  ∀ j, 0 ≤ j < 64 → has mask (64 * i + j) = Z.testbit (word_at mask i) j.
Proof.
  intros [Hm Hn] Hi Hr. destruct (word_spec mask i Hm ltac:(lia)) as (w & E & Hw & Hu).
  unfold word_at. rewrite Hw. split; [done|]. split; [done|]. intros j Hj. by apply has_word.
Qed.

Lemma words_below nr mask i : covers nr mask → 0 ≤ i < BIT_WORD nr → 64 * i < nr.
Proof. intros _ Hi. unfold BIT_WORD, BITS_PER_LONG in Hi. Z.div_mod_to_equations. lia. Qed.
Lemma word_last nr : 0 ≤ nr → nr mod 64 ≠ 0 → 0 ≤ BIT_WORD nr ∧ 64 * BIT_WORD nr < nr.
Proof. intros. unfold BIT_WORD, BITS_PER_LONG. Z.div_mod_to_equations. lia. Qed.

Lemma cpumask_subset_spec nr a b : covers nr a → covers nr b →
  ∃ r, cpumask_subset nr a b = Ret r ∧ (r = true ↔ ∀ i, 0 ≤ i < nr → has a i = true → has b i = true).
Proof.
  intros Ha Hb. set (d := λ i, Z.land (word_at a i) (word_not (word_at b i))).
  assert (Hd : ∀ i, is_u64 (word_at a i) → ∀ j, 0 ≤ j < 64 →
    Z.testbit (d i) j = false ↔ (Z.testbit (word_at a i) j = true → Z.testbit (word_at b i) j = true)).
  { intros i _ j Hj. subst d. cbn. rewrite Z.land_spec, word_not_bit by done.
    destruct (Z.testbit (word_at a i) j), (Z.testbit (word_at b i) j); cbn; naive_solver. }
  apply (check_mask_spec nr _ _ (λ i, negb (d i =? 0)) (Z.land (d (BIT_WORD nr)) (lastmask nr) =? 0)).
  - apply Ha.
  - intros w Hw. destruct (word_at_spec nr a w Ha) as (-> & Hua & Hba); [lia|by apply (words_below nr a)|].
    destruct (word_at_spec nr b w Hb) as (-> & Hub & Hbb); [lia|by apply (words_below nr b)|]. split; [done|].
    rewrite negb_false_iff, Z.eqb_eq, u64_zero_bits by (apply is_u64_land; [done|apply u64_range]).
    split; intros H j Hj; specialize (H j Hj); rewrite ?Hba, ?Hbb in * by done; by apply Hd.
  - intros Hm. destruct (word_last nr) as [Hw0 Hw]; [apply Ha|done|]. unfold last_word.
    destruct (word_at_spec nr a _ Ha Hw0 Hw) as (-> & Hua & Hba). destruct (word_at_spec nr b _ Hb Hw0 Hw) as (-> & Hub & Hbb).
    split; [done|]. rewrite last_zero by (apply is_u64_land; [done|apply u64_range]).
    pose proof (Z.mod_pos_bound nr 64 ltac:(lia)).
    split; intros H1 j Hj; specialize (H1 j Hj); rewrite ?Hba, ?Hbb in * by lia; apply Hd; done || lia.
Qed.

Lemma cpumask_equal_spec nr a b : covers nr a → covers nr b →
  ∃ r, cpumask_equal nr a b = Ret r ∧ (r = true ↔ ∀ i, 0 ≤ i < nr → has a i = has b i).
Proof.
  intros Ha Hb. apply (check_mask_spec nr _ _ (λ i, negb (word_at a i =? word_at b i))
    (Z.land (word_at a (BIT_WORD nr)) (lastmask nr) =? Z.land (word_at b (BIT_WORD nr)) (lastmask nr))).
  - apply Ha.
  - intros w Hw. destruct (word_at_spec nr a w Ha) as (-> & Hua & Hba); [lia|by apply (words_below nr a)|].
    destruct (word_at_spec nr b w Hb) as (-> & Hub & Hbb); [lia|by apply (words_below nr b)|]. split; [done|].
    rewrite negb_false_iff, Z.eqb_eq, u64_eq_bits by done.
    split; intros H j Hj; specialize (H j Hj); rewrite ?Hba, ?Hbb in * by done; done.
  - intros Hm. destruct (word_last nr) as [Hw0 Hw]; [apply Ha|done|]. unfold last_word.
    destruct (word_at_spec nr a _ Ha Hw0 Hw) as (-> & Hua & Hba). destruct (word_at_spec nr b _ Hb Hw0 Hw) as (-> & Hub & Hbb).
    split; [done|]. rewrite last_equal by done. pose proof (Z.mod_pos_bound nr 64 ltac:(lia)).
    split; intros H1 j Hj; specialize (H1 j Hj); rewrite ?Hba, ?Hbb in * by lia; done.
Qed.

Lemma cpumask_empty_spec nr a : covers nr a →
  ∃ r, cpumask_empty nr a = Ret r ∧ (r = true ↔ ∀ i, 0 ≤ i < nr → has a i = false).
Proof.
  intros Ha. apply (check_mask_spec nr _ _ (λ i, negb (word_at a i =? 0)) (Z.land (word_at a (BIT_WORD nr)) (lastmask nr) =? 0)).
  - apply Ha.
  - intros w Hw. destruct (word_at_spec nr a w Ha) as (-> & Hua & Hba); [lia|by apply (words_below nr a)|]. split; [done|].
    rewrite negb_false_iff, Z.eqb_eq, u64_zero_bits by done.
    split; intros H j Hj; specialize (H j Hj); rewrite ?Hba in * by done; done.
  - intros Hm. destruct (word_last nr) as [Hw0 Hw]; [apply Ha|done|]. unfold last_word.
    destruct (word_at_spec nr a _ Ha Hw0 Hw) as (-> & Hua & Hba). split; [done|]. rewrite last_zero by done.
    pose proof (Z.mod_pos_bound nr 64 ltac:(lia)).
    split; intros H1 j Hj; specialize (H1 j Hj); rewrite ?Hba in * by lia; done.
Qed.

Lemma cpumask_full_spec nr a : covers nr a →
  ∃ r, cpumask_full nr a = Ret r ∧ (r = true ↔ ∀ i, 0 ≤ i < nr → has a i = true).
Proof.
  intros Ha. assert (HU : is_u64 ULONG_MAX) by (by split). assert (Elm : Z.land ULONG_MAX (lastmask nr) = lastmask nr).
  { apply u64_eq_bits; [auto with cint|apply u64_range|]. intros j Hj. by rewrite Z.land_spec, ULONG_MAX_bit. }
  apply (check_mask_spec nr _ _ (λ i, negb (word_at a i =? ULONG_MAX))
    (Z.land (word_at a (BIT_WORD nr)) (lastmask nr) =? Z.land ULONG_MAX (lastmask nr))).
  - apply Ha.
  - intros w Hw. destruct (word_at_spec nr a w Ha) as (-> & Hua & Hba); [lia|by apply (words_below nr a)|]. split; [done|].
    rewrite negb_false_iff, Z.eqb_eq, u64_eq_bits by done.
    split; intros H j Hj; specialize (H j Hj); rewrite ?Hba, ?ULONG_MAX_bit in * by done; done.
  - intros Hm. destruct (word_last nr) as [Hw0 Hw]; [apply Ha|done|]. unfold last_word.
    destruct (word_at_spec nr a _ Ha Hw0 Hw) as (-> & Hua & Hba). split; [cbn [bind]; by rewrite Elm|]. rewrite last_equal by done.
    pose proof (Z.mod_pos_bound nr 64 ltac:(lia)).
    split; intros H1 j Hj; specialize (H1 j Hj); rewrite ?Hba, ?ULONG_MAX_bit in * by lia; done.
Qed.

(** ** Binary operations *)

(** [op] works bit by bit as [f]. *)
Definition bitwise (op : Z → Z → Z) (f : bool → bool → bool) : Prop :=
  ∀ a b, is_u64 a → is_u64 b → is_u64 (op a b) ∧
    ∀ j, 0 ≤ j < 64 → Z.testbit (op a b) j = f (Z.testbit a j) (Z.testbit b j).

Lemma bitwise_land : bitwise Z.land andb.
Proof. intros a b Ha Hb. split; [apply is_u64_land; [done|apply Hb]|]. intros. apply Z.land_spec. Qed.
Lemma bitwise_lor : bitwise Z.lor orb.
Proof. intros a b Ha Hb. split; [by apply is_u64_lor|]. intros. apply Z.lor_spec. Qed.
Lemma bitwise_lxor : bitwise Z.lxor xorb.
Proof. intros a b Ha Hb. split; [by apply is_u64_lxor|]. intros. apply Z.lxor_spec. Qed.
Lemma bitwise_andnot : bitwise (λ a b, Z.land a (word_not b)) (λ x y, x && negb y).
Proof.
  intros a b Ha Hb. split; [apply is_u64_land; [done|apply u64_range]|]. intros j Hj.
  by rewrite Z.land_spec, word_not_bit.
Qed.

Section mask_op.
Context (op : Z → Z → Z) (f : bool → bool → bool) (Hop : bitwise op f).
Context (a b : cpumask) (Ha : mask_ok a) (Hb : mask_ok b).

Lemma op_words_spec n i dst acc :
  mask_ok dst → is_u64 acc → 0 ≤ i → i + Z.of_nat n ≤ Z.of_nat (length dst) →
  length a = length dst → length b = length dst →
  ∃ dst' acc', op_words op n i dst a b acc = Ret (dst', acc') ∧ mask_ok dst' ∧ length dst' = length dst ∧
    is_u64 acc' ∧
    (∀ k, 0 ≤ k → dst' !! Z.to_nat k = if decide (i ≤ k < i + Z.of_nat n) then Some (op (word_at a k) (word_at b k)) else dst !! Z.to_nat k) ∧
    (acc' = 0 ↔ acc = 0 ∧ ∀ k, i ≤ k < i + Z.of_nat n → op (word_at a k) (word_at b k) = 0).
Proof.
  revert i dst acc. induction n as [|n IH]; intros i dst acc Hd Hacc Hi Hr La Lb; cbn [op_words].
  { exists dst, acc. split_and!; try done; [intros k Hk; by rewrite decide_False by lia|]. split; [|tauto]. intros ->. split; [done|lia]. }
  destruct (word_spec a i Ha) as (wa & -> & Hwa & Hua); [lia|]. destruct (word_spec b i Hb) as (wb & -> & Hwb & Hub); [lia|].
  cbn [bind]. destruct (Hop wa wb Hua Hub) as [Hu _].
  destruct (set_word_spec dst i (op wa wb)) as (dst1 & -> & Hd1 & Hl1 & Hnew & Hold); [lia|done|done|]. cbn [bind].
  destruct (IH (i + 1) dst1 (Z.lor acc (op wa wb))) as (dst2 & acc2 & E & Hd2 & Hl2 & Hu2 & Hk2 & Hacc2);
    [done|by apply is_u64_lor|lia|lia|lia|lia|].
  assert (Ewa : word_at a i = wa) by (unfold word_at; by rewrite Hwa). assert (Ewb : word_at b i = wb) by (unfold word_at; by rewrite Hwb).
  exists dst2, acc2. split_and!; try done; [lia| |].
  - intros k Hk. rewrite Hk2 by done. destruct (decide (k = i)) as [->|Hne].
    + rewrite decide_False, decide_True by lia. by rewrite Ewa, Ewb.
    + rewrite Hold by done. destruct (decide (i + 1 ≤ k < i + 1 + Z.of_nat n)); [rewrite decide_True by lia; done|by rewrite decide_False by lia].
  - rewrite Hacc2, Z.lor_eq_0_iff. split.
    + intros [[H0 H1] H2]. split; [done|]. intros k Hk. destruct (decide (k = i)) as [->|]; [by rewrite Ewa, Ewb|apply H2; lia].
    + intros [H0 H1]. split; [split; [done|]|intros k Hk; apply H1; lia]. rewrite <- Ewa, <- Ewb. apply H1. lia.
Qed.

Lemma mask_op_spec nr dst :
  covers nr dst → nr < 64 * Z.of_nat (length dst) → length a = length dst → length b = length dst →
  ∃ r dst', mask_op nr op dst a b = Ret (r, dst') ∧ covers nr dst' ∧ length dst' = length dst ∧
    (∀ i, 0 ≤ i < nr → has dst' i = f (has a i) (has b i)) ∧
    (r = false ↔ ∀ i, 0 ≤ i < nr → has dst' i = false).
Proof.
  intros [Hd Hn] Hlt La Lb. assert (Hw : 0 ≤ BIT_WORD nr < Z.of_nat (length dst)).
  { unfold BIT_WORD, BITS_PER_LONG. Z.div_mod_to_equations. lia. }
  unfold mask_op, last_word. destruct (op_words_spec (Z.to_nat (BIT_WORD nr)) 0 dst 0) as (d1 & acc & -> & Hd1 & Hl1 & Hu1 & Hk1 & Hacc);
    [done|by split|lia|lia|done|done|]. rewrite Z2Nat.id, Z.add_0_l in Hk1, Hacc by lia. cbn [bind].
  destruct (word_spec a (BIT_WORD nr) Ha) as (wa & -> & Hwa & Hua); [lia|].
  destruct (word_spec b (BIT_WORD nr) Hb) as (wb & -> & Hwb & Hub); [lia|]. cbn [bind]. destruct (Hop wa wb Hua Hub) as [Hu Hbits].
  set (w := Z.land (op wa wb) (lastmask nr)). assert (Huw : is_u64 w) by (apply is_u64_land; [done|apply lastmask_nonneg]).
  destruct (set_word_spec d1 (BIT_WORD nr) w) as (d2 & -> & Hd2 & Hl2 & Hnew & Hold); [lia|done|done|]. cbn [bind].
  assert (Hc2 : covers nr d2) by (split; [done|]; rewrite Hl2, Hl1; lia).
  assert (Hword : ∀ k, 0 ≤ k < BIT_WORD nr → d2 !! Z.to_nat k = Some (op (word_at a k) (word_at b k)) ∧ is_u64 (word_at a k) ∧ is_u64 (word_at b k)).
  { intros k Hk. rewrite Hold, Hk1, decide_True by lia. destruct (word_spec a k Ha) as (x & _ & Hx & ?); [lia|].
    destruct (word_spec b k Hb) as (y & _ & Hy & ?); [lia|]. unfold word_at. by rewrite Hx, Hy. }
  exists (negb (Z.lor acc w =? 0)), d2. split; [done|]. split; [done|]. split; [lia|]. split.
  - apply (all_cpus_split nr (λ i, has d2 i = f (has a i) (has b i))); [lia|]. split.
    + intros k Hk j Hj. destruct (Hword k Hk) as (E & Hxa & Hxb). destruct (word_spec a k Ha) as (x & _ & Hx & ?); [lia|].
      destruct (word_spec b k Hb) as (y & _ & Hy & ?); [lia|]. unfold word_at in *. rewrite Hx, Hy in *. cbn in *.
      rewrite (has_word d2 k _ j ltac:(lia) Hj E), (has_word a k x j), (has_word b k y j) by (done || lia). by apply Hop.
    + intros j Hj. pose proof (Z.mod_pos_bound nr 64 ltac:(lia)).
      rewrite (has_word d2 _ w), (has_word a _ wa), (has_word b _ wb) by (done || lia). unfold w.
      rewrite Z.land_spec, lastmask_bit, (proj2 (Z.ltb_lt _ _)), andb_true_r by lia. apply Hbits. lia.
  - rewrite negb_false_iff, Z.eqb_eq, Z.lor_eq_0_iff, Hacc, (all_cpus_split nr (λ i, has d2 i = false)) by lia. split.
    + intros [[_ H1] H2]. split.
      * intros k Hk j Hj. destruct (Hword k Hk) as (E & _ & _). rewrite (has_word d2 k _ j ltac:(lia) Hj E), H1 by done. apply Z.testbit_0_l.
      * intros j Hj. pose proof (Z.mod_pos_bound nr 64 ltac:(lia)). rewrite (has_word d2 _ w) by (done || lia). by rewrite H2, Z.testbit_0_l.
    + intros [H1 H2]. split; [split; [done|]|].
      * intros k Hk. destruct (Hword k Hk) as (E & Hxa & Hxb). apply u64_zero_bits; [by apply Hop|]. intros j Hj.
        by rewrite <- (has_word d2 k _ j ltac:(lia) Hj E), H1.
      * apply u64_zero_bits; [done|]. intros j Hj. destruct (Z.lt_ge_cases j (nr mod 64)).
        -- rewrite <- (has_word d2 (BIT_WORD nr) w j ltac:(lia) Hj Hnew). apply H2. lia.
        -- unfold w. rewrite Z.land_spec, lastmask_bit, (proj2 (Z.ltb_ge _ _)) by lia. apply andb_false_r.
Qed.
End mask_op.

(** ** Enumeration *)

Definition members_from (mask : cpumask) (c nr : Z) : list Z :=
  base.filter (λ i, has mask i = true) (seqZ c (nr - c)).
Definition cpu_list (nr : Z) (mask : cpumask) : list Z := members_from mask 0 nr.
Definition cpus (nr : Z) (mask : cpumask) : gset Z := list_to_set (cpu_list nr mask).

Lemma elem_of_cpus nr mask i : i ∈ cpus nr mask ↔ 0 ≤ i < nr ∧ has mask i = true.
Proof.
  unfold cpus, cpu_list, members_from. rewrite elem_of_list_to_set, list_elem_of_filter, elem_of_seqZ.
  replace (0 + (nr - 0)) with nr by lia. tauto.
Qed.

Lemma members_from_step mask c nr : c < nr →
  members_from mask c nr = (if has mask c then [c] else []) ++ members_from mask (c + 1) nr.
Proof.
  intros Hc. unfold members_from. rewrite seqZ_cons by lia. rewrite filter_cons.
  replace (Z.pred (nr - c)) with (nr - (c + 1)) by lia. rewrite <- Z.add_1_r.
  destruct (has mask c); [by rewrite decide_True|by rewrite decide_False].
Qed.
Lemma members_from_end mask c nr : nr ≤ c → members_from mask c nr = [].
Proof. intros Hc. unfold members_from. by rewrite seqZ_nil by lia. Qed.

Lemma size_cpus nr mask : Z.of_nat (size (cpus nr mask)) = Z.of_nat (length (cpu_list nr mask)).
Proof.
  unfold cpus. rewrite size_list_to_set; [done|]. unfold cpu_list, members_from. apply NoDup_filter, NoDup_seqZ.
Qed.

Lemma next_loop_spec nr mask f c :
  covers nr mask → -1 ≤ c < nr → nr - c ≤ Z.of_nat f →
  ∃ r, next_loop nr f c mask = Ret r ∧ c < r ≤ nr ∧
    members_from mask (c + 1) nr = if r <? nr then r :: members_from mask (r + 1) nr else [].
Proof.
  intros Hm. revert c. induction f as [|f IH]; intros c Hc Hf; [lia|]. cbn [next_loop].
  destruct (Z.ltb_spec (c + 1) nr) as [Hlt|Hge]; cbn [negb].
  - rewrite cpumask_test_cpu_spec by (done || lia). cbn [bind]. rewrite members_from_step by lia.
    destruct (has mask (c + 1)).
    + exists (c + 1). split; [done|]. split; [lia|]. by rewrite (proj2 (Z.ltb_lt _ _)) by lia.
    + destruct (IH (c + 1)) as (r & E & Hr & Hmem); [lia|lia|]. exists r. split; [done|]. split; [lia|done].
  - exists (c + 1). split; [done|]. split; [lia|]. rewrite (proj2 (Z.ltb_ge _ _)), members_from_end by lia. done.
Qed.

(** Running [body] for the elements of a list. *)
Fixpoint fold_res {S} (l : list Z) (body : Z → S → res S) (s : S) : res S :=
  match l with [] => Ret s | x :: l => let* s := body x s in fold_res l body s end.

Lemma for_each_loop_spec {S} nr mask (body : Z → S → res S) f c s :
  covers nr mask → 0 ≤ c ≤ nr → nr - c < Z.of_nat f →
  for_each_loop nr f c mask body s =
    fold_res (if c <? nr then c :: members_from mask (c + 1) nr else []) body s.
Proof.
  intros Hm. revert c s. induction f as [|f IH]; intros c s Hc Hf; [lia|]. cbn [for_each_loop].
  destruct (Z.ltb_spec c nr) as [Hlt|Hge]; cbn [negb fold_res]; [|done].
  destruct (body c s) as [s'| | |]; cbn [bind]; try done. unfold cpumask_next.
  destruct (next_loop_spec nr mask (Z.to_nat (nr + 1)) c Hm) as (r & -> & Hr & ->); [lia|lia|].
  cbn [bind]. apply IH; lia.
Qed.

Lemma for_each_cpu_spec {S} nr mask (body : Z → S → res S) s :
  covers nr mask → for_each_cpu nr mask body s = fold_res (cpu_list nr mask) body s.
Proof.
  intros Hm. pose proof (proj2 Hm) as Hn. unfold for_each_cpu, cpumask_next.
  destruct (decide (nr = 0)) as [->|].
  { unfold cpu_list. rewrite members_from_end by lia. done. }
  destruct (next_loop_spec nr mask (Z.to_nat (nr + 1)) (-1) Hm) as (r & -> & Hr & E); [lia|lia|]. cbn [bind].
  rewrite for_each_loop_spec by (done || lia). unfold cpu_list. change (-1 + 1) with 0 in E. by rewrite E.
Qed.

Lemma cpumask_weight_spec nr mask :
  covers nr mask → cpumask_weight nr mask = Ret (Z.of_nat (size (cpus nr mask))).
Proof.
  intros Hm. rewrite size_cpus. apply post_ret. unfold cpumask_weight. pose proof (proj2 Hm) as Hn.
  eapply post_mono; [apply (for_inv (λ i w, 0 ≤ i ≤ nr ∧ w + Z.of_nat (length (members_from mask i nr)) = Z.of_nat (length (cpu_list nr mask))))|].
  - split; [lia|]. done.
  - intros i w Hi [_ Hw]. rewrite cpumask_test_cpu_spec by (done || lia). cbn [bind post]. split; [lia|].
    rewrite members_from_step, length_app in Hw by lia. destruct (has mask i); cbn [length] in Hw; lia.
  - intros w [Hi Hw]. rewrite members_from_end in Hw by lia. cbn [length] in Hw. lia.
Qed.

(** ** The interface *)

Lemma has_setall mask i : 0 ≤ i < 64 * Z.of_nat (length mask) → has (cpumask_setall mask) i = true.
Proof.
  intros Hi. unfold has, cpumask_setall. rewrite lookup_replicate_2 by (Z.div_mod_to_equations; lia).
  apply ULONG_MAX_bit, Z.mod_pos_bound. lia.
Qed.
Lemma has_clear mask i : has (cpumask_clear mask) i = false.
Proof.
  unfold has, cpumask_clear. destruct (replicate (length mask) 0 !! Z.to_nat (i / 64)) as [w|] eqn:E; [|done].
  apply lookup_replicate in E as [-> _]. apply Z.testbit_0_l.
Qed.

Lemma cpus_ext nr a b : cpus nr a = cpus nr b ↔ ∀ i, 0 ≤ i < nr → has a i = has b i.
Proof.
  rewrite set_eq. split.
  - intros H i Hi. specialize (H i). rewrite !elem_of_cpus in H. destruct (has a i), (has b i); naive_solver.
  - intros H i. rewrite !elem_of_cpus. split; intros [Hi ?]; (split; [done|]); [by rewrite <- H|by rewrite H].
Qed.

Definition all_cpus (nr : Z) : gset Z := list_to_set (seqZ 0 nr).
Lemma elem_of_all_cpus nr i : i ∈ all_cpus nr ↔ 0 ≤ i < nr.
Proof. unfold all_cpus. rewrite elem_of_list_to_set, elem_of_seqZ. lia. Qed.

(** A mask of [CPUMASK_NR_LONGS] words. *)
Definition wf_mask (mask : cpumask) : Prop := mask_ok mask ∧ Z.of_nat (length mask) = CPUMASK_NR_LONGS.

Lemma wf_covers nr mask : wf_mask mask → 0 ≤ nr ≤ NR_CPUS → covers nr mask.
Proof. intros [Hm Hl] Hn. split; [done|]. rewrite Hl. change CPUMASK_NR_LONGS with 4. unfold NR_CPUS in Hn. lia. Qed.

(** A test that decides [P] decides every equivalent proposition. *)
Lemma decides (P Q : Prop) `{!Decision Q} (r : res bool) :
  (∃ c, r = Ret c ∧ (c = true ↔ P)) → (P ↔ Q) → r = Ret (bool_decide Q).
Proof. intros (c & -> & Hc) HPQ. f_equal. apply eq_true_iff_eq. by rewrite bool_decide_eq_true, Hc. Qed.

(** One bit changed is one element added or removed. *)
Lemma one_cpu nr a cpu v m :
  wf_mask a → covers nr m → length m = length a → 0 ≤ cpu < nr →
  (∀ i, 0 ≤ i → has m i = if i =? cpu then v else has a i) →
  wf_mask m ∧ ∀ i, i ∈ cpus nr m ↔ if decide (i = cpu) then v = true else i ∈ cpus nr a.
Proof.
  intros Hwa Hm Hl Hc Hi. split; [by split; [apply Hm|rewrite Hl; apply Hwa]|].
  intros i. rewrite elem_of_cpus. destruct (decide (i = cpu)) as [->|Hne].
  - rewrite Hi, Z.eqb_refl by lia. tauto.
  - rewrite elem_of_cpus. destruct (decide (0 ≤ i)); [|split; intros [? _]; lia]. by rewrite Hi, (proj2 (Z.eqb_neq i cpu)) by done.
Qed.

Lemma cpumask_set_cpu_spec nr a cpu :
  wf_mask a → 0 ≤ nr ≤ NR_CPUS → 0 ≤ cpu < nr →
  post (cpumask_set_cpu nr cpu a) (λ a', wf_mask a' ∧ cpus nr a' = {[cpu]} ∪ cpus nr a).
Proof.
  intros Hwa Hnr Hc. pose proof (wf_covers nr a Hwa Hnr) as Ha.
  destruct (update_bit_spec nr a cpu _ true Ha Hc (set_bit_word cpu)) as (w & m & Ew & Es & Hm & Hl & Hi).
  unfold cpumask_set_cpu, set_bit. rewrite cpu_ok_true, Ew by done. cbn [bind]. rewrite Es. cbn [post].
  destruct (one_cpu nr a cpu true m) as [Hw' Hset]; try done. split; [done|].
  apply set_eq. intros i. rewrite Hset. destruct (decide (i = cpu)); set_solver.
Qed.

Lemma cpumask_clear_cpu_spec nr a cpu :
  wf_mask a → 0 ≤ nr ≤ NR_CPUS → 0 ≤ cpu < nr →
  post (cpumask_clear_cpu nr cpu a) (λ a', wf_mask a' ∧ cpus nr a' = cpus nr a ∖ {[cpu]}).
Proof.
  intros Hwa Hnr Hc. pose proof (wf_covers nr a Hwa Hnr) as Ha.
  destruct (update_bit_spec nr a cpu _ false Ha Hc (clear_bit_word cpu)) as (w & m & Ew & Es & Hm & Hl & Hi).
  unfold cpumask_clear_cpu, clear_bit. rewrite cpu_ok_true, Ew by done. cbn [bind]. rewrite Es. cbn [post].
  destruct (one_cpu nr a cpu false m) as [Hw' Hset]; try done. split; [done|].
  apply set_eq. intros i. rewrite Hset. destruct (decide (i = cpu)); set_solver.
Qed.

Lemma cpumask_test_cpu_decides nr a cpu :
  wf_mask a → 0 ≤ nr ≤ NR_CPUS → 0 ≤ cpu < nr →
  cpumask_test_cpu nr cpu a = Ret (bool_decide (cpu ∈ cpus nr a)).
Proof.
  intros Hwa Hnr Hc. rewrite cpumask_test_cpu_spec by (done || by apply wf_covers). f_equal. apply eq_true_iff_eq.
  rewrite bool_decide_eq_true, elem_of_cpus. tauto.
Qed.

Lemma cpumask_subset_decides nr a b :
  wf_mask a → wf_mask b → 0 ≤ nr ≤ NR_CPUS →
  cpumask_subset nr a b = Ret (bool_decide (cpus nr a ⊆ cpus nr b)).
Proof.
  intros Ha Hb Hnr. eapply decides; [by apply cpumask_subset_spec; apply wf_covers|].
  rewrite elem_of_subseteq. setoid_rewrite elem_of_cpus. naive_solver.
Qed.

(** C29: masks are sets.  For up to [NR_CPUS] processors, setting and clearing
    adds and removes one element, the tests decide membership, inclusion,
    equality, emptiness and fullness, the weight is the cardinality, and
    iteration visits the elements in increasing order. *)
Theorem cpumask_refines_set nr a b :
  wf_mask a → wf_mask b → 0 ≤ nr ≤ NR_CPUS →
  (∀ cpu, 0 ≤ cpu < nr →
     cpumask_test_cpu nr cpu a = Ret (bool_decide (cpu ∈ cpus nr a)) ∧
     post (cpumask_set_cpu nr cpu a) (λ a', wf_mask a' ∧ cpus nr a' = {[cpu]} ∪ cpus nr a) ∧
     post (cpumask_clear_cpu nr cpu a) (λ a', wf_mask a' ∧ cpus nr a' = cpus nr a ∖ {[cpu]})) ∧
  (∀ cpu, ¬ 0 ≤ cpu < nr → cpumask_test_cpu nr cpu a = Abort ∧ cpumask_set_cpu nr cpu a = Abort) ∧
  cpus nr (cpumask_setall a) = all_cpus nr ∧ cpus nr (cpumask_clear a) = ∅ ∧
  cpumask_subset nr a b = Ret (bool_decide (cpus nr a ⊆ cpus nr b)) ∧
  cpumask_equal nr a b = Ret (bool_decide (cpus nr a = cpus nr b)) ∧
  cpumask_empty nr a = Ret (bool_decide (cpus nr a = ∅)) ∧
  cpumask_full nr a = Ret (bool_decide (cpus nr a = all_cpus nr)) ∧
  cpumask_weight nr a = Ret (Z.of_nat (size (cpus nr a))) ∧
  (∀ S (body : Z → S → res S) s, for_each_cpu nr a body s = fold_res (cpu_list nr a) body s).
Proof.
  intros Hwa Hwb Hnr. pose proof (wf_covers nr a Hwa Hnr) as Ha. pose proof (wf_covers nr b Hwb Hnr) as Hb.
  split_and!.
  - intros cpu Hc. split_and!; [by apply cpumask_test_cpu_decides|by apply cpumask_set_cpu_spec|by apply cpumask_clear_cpu_spec].
  - intros cpu Hc. unfold cpumask_test_cpu, cpumask_set_cpu. by rewrite cpu_ok_false.
  - apply set_eq. intros i. rewrite elem_of_cpus, elem_of_all_cpus. split; [tauto|]. intros Hi. split; [done|].
    apply has_setall. destruct Ha as [_ Hl]. lia.
  - apply set_eq. intros i. rewrite elem_of_cpus, has_clear. set_solver.
  - by apply cpumask_subset_decides.
  - eapply decides; [by apply cpumask_equal_spec|]. by rewrite cpus_ext.
  - eapply decides; [by apply cpumask_empty_spec|]. rewrite set_eq. setoid_rewrite elem_of_cpus. split.
    + intros H i. split; [|set_solver]. intros [Hi Hh]. rewrite H in Hh; done.
    + intros H i Hi. destruct (has a i) eqn:E; [|done]. by destruct (not_elem_of_empty (C := gset Z) i (proj1 (H i) (conj Hi E))).
  - eapply decides; [by apply cpumask_full_spec|]. rewrite set_eq. setoid_rewrite elem_of_cpus. setoid_rewrite elem_of_all_cpus. naive_solver.
  - by apply cpumask_weight_spec.
  - intros S body s. by apply for_each_cpu_spec.
Qed.

Lemma cpumask_refines_set_witness :
  cpumask_subset 100 [5; 1; 0; 0] [7; 3; 0; 0] = Ret (bool_decide (cpus 100 [5; 1; 0; 0] ⊆ cpus 100 [7; 3; 0; 0])).
Proof.
  destruct (cpumask_refines_set 100 [5; 1; 0; 0] [7; 3; 0; 0]) as (_ & _ & _ & _ & H & _);
    [split; [by repeat constructor|done]|split; [by repeat constructor|done]|done|exact H].
Defined.

(** Set operations.  For fewer than [NR_CPUS] processors the four binary
    operations compute intersection, difference, union and symmetric
    difference, and the first two report whether the result is empty; with
    exactly [NR_CPUS] processors they access the word behind the mask. *)
Theorem cpumask_set_operations nr d a b :
  wf_mask d → wf_mask a → wf_mask b → 0 ≤ nr ≤ NR_CPUS →
  (nr < NR_CPUS →
     post (cpumask_and nr d a b) (λ '(r, d'), wf_mask d' ∧ cpus nr d' = cpus nr a ∩ cpus nr b ∧ (r = false ↔ cpus nr d' = ∅)) ∧
     post (cpumask_andnot nr d a b) (λ '(r, d'), wf_mask d' ∧ cpus nr d' = cpus nr a ∖ cpus nr b ∧ (r = false ↔ cpus nr d' = ∅)) ∧
     post (cpumask_or nr d a b) (λ d', wf_mask d' ∧ cpus nr d' = cpus nr a ∪ cpus nr b) ∧
     post (cpumask_xor nr d a b) (λ d', wf_mask d' ∧ cpus nr d' = (cpus nr a ∖ cpus nr b) ∪ (cpus nr b ∖ cpus nr a))) ∧
  (nr = NR_CPUS → cpumask_and nr d a b = Fault ∧ cpumask_or nr d a b = Fault ∧
     cpumask_xor nr d a b = Fault ∧ cpumask_andnot nr d a b = Fault).
Proof.
  intros Hwd Hwa Hwb Hnr. pose proof Hwd as [_ Ld]. pose proof Hwa as [Hma La]. pose proof Hwb as [Hmb Lb].
  assert (H4 : CPUMASK_NR_LONGS = 4) by done. assert (HN : NR_CPUS = 256) by done. split.
  - intros Hlt. assert (H : ∀ op f, bitwise op f → ∃ r d', mask_op nr op d a b = Ret (r, d') ∧ wf_mask d' ∧
      (∀ i, i ∈ cpus nr d' ↔ 0 ≤ i < nr ∧ f (has a i) (has b i) = true) ∧ (r = false ↔ cpus nr d' = ∅)).
    { intros op f Hop. destruct (mask_op_spec op f Hop a b Hma Hmb nr d) as (r & d' & E & Hc & Hl & Hi & Hr);
        [by apply wf_covers|lia|lia|lia|]. exists r, d'. split; [done|]. split; [split; [apply Hc|lia]|]. split.
      - intros i. rewrite elem_of_cpus. split; intros [Hir H]; (split; [done|]); [by rewrite <- Hi|by rewrite Hi].
      - rewrite Hr, set_eq. setoid_rewrite elem_of_cpus. split.
        + intros H i. split; [|set_solver]. intros [Hir Hh]. by rewrite H in Hh.
        + intros H i Hir. destruct (has d' i) eqn:E'; [|done]. by destruct (not_elem_of_empty (C := gset Z) i (proj1 (H i) (conj Hir E'))). }
    split_and!.
    + destruct (H _ _ bitwise_land) as (r & d' & E & Hw & Hi & Hr). unfold cpumask_and. rewrite E. cbn [post].
      split; [done|]. split; [|done]. apply set_eq. intros i. rewrite Hi, elem_of_intersection, !elem_of_cpus, andb_true_iff. tauto.
    + destruct (H _ _ bitwise_andnot) as (r & d' & E & Hw & Hi & Hr). unfold cpumask_andnot. rewrite E. cbn [post].
      split; [done|]. split; [|done]. apply set_eq. intros i. rewrite Hi, elem_of_difference, !elem_of_cpus, andb_true_iff, negb_true_iff.
      rewrite <- not_true_iff_false. tauto.
    + destruct (H _ _ bitwise_lor) as (r & d' & E & Hw & Hi & _). unfold cpumask_or. rewrite E. cbn [bind post].
      split; [done|]. apply set_eq. intros i. rewrite Hi, elem_of_union, !elem_of_cpus, orb_true_iff. tauto.
    + destruct (H _ _ bitwise_lxor) as (r & d' & E & Hw & Hi & _). unfold cpumask_xor. rewrite E. cbn [bind post].
      split; [done|]. apply set_eq. intros i. rewrite Hi, elem_of_union, !elem_of_difference, !elem_of_cpus.
      destruct (has a i), (has b i); cbn; naive_solver.
  - intros ->. assert (H : ∀ op f, bitwise op f → mask_op NR_CPUS op d a b = Fault).
    { intros op f Hop. unfold mask_op. destruct (op_words_spec op f Hop a b Hma Hmb (Z.to_nat (last_word NR_CPUS)) 0 d 0)
        as (d1 & acc & -> & _); [apply Hwd|by split|lia|change (last_word NR_CPUS) with 4; lia|lia|lia|].
      cbn [bind]. unfold word. change (last_word NR_CPUS) with 4. change (4 <? 0) with false. cbv iota.
      by rewrite lookup_ge_None_2 by lia. }
    unfold cpumask_and, cpumask_or, cpumask_xor, cpumask_andnot.
    by rewrite (H _ _ bitwise_land), (H _ _ bitwise_lor), (H _ _ bitwise_lxor), (H _ _ bitwise_andnot).
Qed.

Lemma cpumask_set_operations_witness :
  cpumask_and 256 [0; 0; 0; 0] [1; 0; 0; 0] [1; 0; 0; 0] = Fault ∧
  post (cpumask_or 64 [0; 0; 0; 0] [1; 0; 0; 0] [2; 0; 0; 0]) (λ d', wf_mask d').
Proof.
  assert (H : wf_mask [0; 0; 0; 0] ∧ wf_mask [1; 0; 0; 0] ∧ wf_mask [2; 0; 0; 0])
    by (split_and!; (split; [by repeat constructor|done])).
  destruct H as (H0 & H1 & H2). split.
  - by apply (cpumask_set_operations 256 [0; 0; 0; 0] [1; 0; 0; 0] [1; 0; 0; 0]).
  - destruct (cpumask_set_operations 64 [0; 0; 0; 0] [1; 0; 0; 0] [2; 0; 0; 0] H0 H1 H2) as [H _]; [done|].
    destruct H as (_ & _ & H & _); [done|]. eapply post_mono; [exact H|]. by intros d' [? _].
Defined.
