(* ===== verification/OnCpus.v ===== *)
(** * lib/on-cpus.c: running functions on other processors

    The code of several processors runs interleaved.  Each C function is
    translated to the sequence of its shared accesses ([instr]); [step] lets
    one processor perform its next access, and a schedule is the list of the
    processors that move.  Memory is sequentially consistent, as the barriers
    of the source demand; waiting for an event may return at any time. *)

From S2P Require Import Prelude.
From S2P Require Import Bitops.
From S2P Require Import Cpumask.
From S2P Require Import CpumaskProps.

(** ** Instructions *)

Inductive instr : Type :=
| BootSecondary (cpu : Z)           (** [assert_msg], [smp_boot_secondary_nofail] *)
| SetWaiter (cpu : Z)               (** [cpumask_set_cpu(me, waiters)] *)
| DeadlockCheck (cpu : Z)
| WaitIdle (cpu : Z)                (** [while (!cpu_idle(cpu)) smp_wait_for_event()] *)
| ClearWaiter (cpu : Z)
| Lock
| Recheck (cpu f d : Z)             (** [if (cpu_idle(cpu)) break; spin_unlock()] *)
| SetFunc (cpu f : Z)
| SetData (cpu d : Z)
| SetBusy (cpu f d : Z)             (** [set_cpu_idle(cpu, false)] *)
| Unlock
| RunLocal (f d : Z)                (** [func(data)] on the calling processor *)
| WaitSubset (tmp : cpumask)        (** [while (!cpumask_subset(tmp, idle))] *)
| Cpu0Idles                         (** [cpu0_calls_idle = true] *)
| SetIdle
| WaitBusy                          (** [while (cpu_idle(cpu)) smp_wait_for_event()] *)
| RunInfo.                          (** [on_cpu_info[cpu].func(...)], then around the loop *)

#[global] Instance instr_eq_dec : EqDecision instr.
Proof. solve_decision. Defined.

(** ** The functions *)

Definition cpu_wait (me cpu : Z) : list instr :=
  if cpu =? me then [] else [SetWaiter cpu; DeadlockCheck cpu; WaitIdle cpu; ClearWaiter cpu].

(** One round of the loop of [on_cpu_async]. *)
Definition acquire (me cpu f d : Z) : list instr := cpu_wait me cpu ++ [Lock; Recheck cpu f d].
(** What follows it. *)
Definition submit (cpu f d : Z) : list instr := [SetFunc cpu f; SetData cpu d; SetBusy cpu f d; Unlock].

Definition on_cpu_async (me cpu f d : Z) : list instr :=
  if cpu =? me then [RunLocal f d] else BootSecondary cpu :: acquire me cpu f d.

Definition on_cpu (me cpu f d : Z) : list instr := on_cpu_async me cpu f d ++ cpu_wait me cpu.

Definition idle_loop : list instr := [SetIdle; WaitBusy; RunInfo].
Definition do_idle (me : Z) : list instr := (if me =? 0 then [Cpu0Idles] else []) ++ idle_loop.

Section masks.
Variable nr_cpus : Z.

Definition on_cpumask_async (me : Z) (mask : cpumask) (f d : Z) : res (list instr) :=
  let calls := concat ((λ cpu, if cpu =? me then [] else on_cpu_async me cpu f d) <$> cpu_list nr_cpus mask) in
  let* b := cpumask_test_cpu nr_cpus me mask in
  Ret (calls ++ (if b then [RunLocal f d] else [])).

Definition on_cpumask (me : Z) (mask : cpumask) (f d : Z) : res (list instr) :=
  let* tmp := cpumask_clear_cpu nr_cpus me (cpumask_copy mask mask) in
  let* b := cpumask_test_cpu nr_cpus me mask in
  Ret (concat ((λ cpu, on_cpu_async me cpu f d) <$> cpu_list nr_cpus tmp) ++
       (if b then [RunLocal f d] else []) ++
       concat ((λ cpu, [SetWaiter cpu; DeadlockCheck cpu]) <$> cpu_list nr_cpus tmp) ++
       [WaitSubset tmp] ++ (ClearWaiter <$> cpu_list nr_cpus tmp)).
End masks.

(** ** State *)

(** What happened: a request was handed to a processor, a function ran. *)
Inductive oc_event : Type :=
| Submitted (me cpu f d : Z)
| Ran (cpu f d : Z)
| RanLocally (me f d : Z).

Record oc_state : Type := mk_oc {
  oc_masks : cpu_masks;
  oc_func : Z → Z;
  oc_data : Z → Z;
  oc_waiters : Z → cpumask;
  oc_lock : option Z;
  cpu0_calls_idle : bool;
  oc_prog : Z → list instr;   (** what each processor has left to do *)
  oc_log : list oc_event;
}.

Definition set_masks (m : cpu_masks) (s : oc_state) : oc_state :=
  mk_oc m (oc_func s) (oc_data s) (oc_waiters s) (oc_lock s) (cpu0_calls_idle s) (oc_prog s) (oc_log s).
Definition set_func (c f : Z) (s : oc_state) : oc_state :=
  mk_oc (oc_masks s) (<[c := f]> (oc_func s)) (oc_data s) (oc_waiters s) (oc_lock s) (cpu0_calls_idle s) (oc_prog s) (oc_log s).
Definition set_data (c d : Z) (s : oc_state) : oc_state :=
  mk_oc (oc_masks s) (oc_func s) (<[c := d]> (oc_data s)) (oc_waiters s) (oc_lock s) (cpu0_calls_idle s) (oc_prog s) (oc_log s).
Definition set_waiters (c : Z) (m : cpumask) (s : oc_state) : oc_state :=
  mk_oc (oc_masks s) (oc_func s) (oc_data s) (<[c := m]> (oc_waiters s)) (oc_lock s) (cpu0_calls_idle s) (oc_prog s) (oc_log s).
Definition set_oc_lock (l : option Z) (s : oc_state) : oc_state :=
  mk_oc (oc_masks s) (oc_func s) (oc_data s) (oc_waiters s) l (cpu0_calls_idle s) (oc_prog s) (oc_log s).
Definition set_cpu0 (s : oc_state) : oc_state :=
  mk_oc (oc_masks s) (oc_func s) (oc_data s) (oc_waiters s) (oc_lock s) true (oc_prog s) (oc_log s).
Definition set_prog (p : Z) (l : list instr) (s : oc_state) : oc_state :=
  mk_oc (oc_masks s) (oc_func s) (oc_data s) (oc_waiters s) (oc_lock s) (cpu0_calls_idle s) (<[p := l]> (oc_prog s)) (oc_log s).
Definition record (e : oc_event) (s : oc_state) : oc_state :=
  mk_oc (oc_masks s) (oc_func s) (oc_data s) (oc_waiters s) (oc_lock s) (cpu0_calls_idle s) (oc_prog s) (oc_log s ++ [e]).

(** ** Deadlock check *)

Section step.
Variable nr_cpus : Z.

(** [found] is the result; the recursion follows the waiters of waiters, at
    most [f] deep. *)
Fixpoint __deadlock_check (f : nat) (cpu : Z) (waiters : cpumask) (info : Z → cpumask) : res bool :=
  match f with
  | O => Hang
  | S f =>
      (fix loop (l : list Z) : res bool :=
         match l with
         | [] => Ret false
         | i :: l =>
             if i =? cpu then Ret true else
             let* found := __deadlock_check f cpu (info i) info in
             if found then Ret true else loop l
         end) (cpu_list nr_cpus waiters)
  end.
Definition deadlock_check (me cpu : Z) (s : oc_state) : res oc_state :=
  let* found := __deadlock_check (S (Z.to_nat nr_cpus)) cpu (oc_waiters s me) (oc_waiters s) in
  if found then Abort else Ret s.

(** [smp_boot_secondary_nofail(cpu, do_idle)]: a processor that is not online
    starts with [do_idle]; the call returns when it is. *)
Definition boot_secondary (cpu : Z) (s : oc_state) : res oc_state :=
  let* on := cpu_online nr_cpus cpu (oc_masks s) in
  if on then Ret s else
  let* m := set_cpu_online nr_cpus cpu true (oc_masks s) in
  Ret (set_prog cpu (do_idle cpu) (set_masks m s)).

(** The next access of processor [me]. *)
Definition step (me : Z) (s : oc_state) : res oc_state :=
  match oc_prog s me with
  | [] => Ret s
  | i :: rest =>
      let next (s : oc_state) := set_prog me rest s in
      match i with
      | BootSecondary cpu =>
          assert! (negb (cpu =? 0) || cpu0_calls_idle s);
          boot_secondary cpu (next s)
      | SetWaiter cpu =>
          let* w := cpumask_set_cpu nr_cpus me (oc_waiters s cpu) in Ret (next (set_waiters cpu w s))
      | DeadlockCheck cpu => let* s := deadlock_check me cpu s in Ret (next s)
      | WaitIdle cpu =>
          let* b := cpu_idle nr_cpus cpu (oc_masks s) in Ret (if b then next s else s)
      | ClearWaiter cpu =>
          let* w := cpumask_clear_cpu nr_cpus me (oc_waiters s cpu) in Ret (next (set_waiters cpu w s))
      | Lock =>
          match oc_lock s with Some _ => Ret s | None => Ret (next (set_oc_lock (Some me) s)) end
      | Recheck cpu f d =>
          let* b := cpu_idle nr_cpus cpu (oc_masks s) in
          Ret (set_prog me ((if b then submit cpu f d else Unlock :: acquire me cpu f d) ++ rest) s)
      | SetFunc cpu f => Ret (next (set_func cpu f s))
      | SetData cpu d => Ret (next (set_data cpu d s))
      | SetBusy cpu f d =>
          let* m := set_cpu_idle nr_cpus cpu false (oc_masks s) in
          Ret (next (record (Submitted me cpu f d) (set_masks m s)))
      | Unlock => Ret (next (set_oc_lock None s))
      | RunLocal f d => Ret (next (record (RanLocally me f d) s))
      | WaitSubset tmp =>
          let* b := cpumask_subset nr_cpus tmp (cpu_idle_mask (oc_masks s)) in Ret (if b then next s else s)
      | Cpu0Idles => Ret (next (set_cpu0 s))
      | SetIdle =>
          let* m := set_cpu_idle nr_cpus me true (oc_masks s) in Ret (next (set_masks m s))
      | WaitBusy =>
          let* b := cpu_idle nr_cpus me (oc_masks s) in Ret (if b then s else next s)
      | RunInfo =>
          Ret (set_prog me idle_loop (record (Ran me (oc_func s me) (oc_data s me)) s))
      end
  end.

(** An interleaving: the processors in the order in which they move. *)
Fixpoint run (sched : list Z) (s : oc_state) : res oc_state :=
  match sched with [] => Ret s | p :: sched => let* s := step p s in run sched s end.
End step.

Definition on_cpus (nr_cpus me f d : Z) (s : oc_state) : res (list instr) :=
  on_cpumask nr_cpus me (cpu_present_mask (oc_masks s)) f d.
