(* ===== verification/OnCpusProps.v ===== *)
(** * lib/on-cpus.c: no request is lost

    An invariant over all interleavings: a processor runs exactly the requests
    handed to it, in order, at most one is outstanding, and whoever sees a
    processor idle knows that everything handed to it has run. *)

From S2P Require Import Prelude.
From S2P Require Import Bitops.
From S2P Require Import Cpumask.
From S2P Require Import CpumaskProps.
From S2P Require Import OnCpus.

Section on_cpus.
Context (nr : Z) (Hnr : 0 ≤ nr ≤ NR_CPUS).

(** ** Programs *)

(** Programs outside the critical section and outside the idle loop. *)
Inductive clean (me : Z) : list instr → Prop :=
| clean_nil : clean me []
| clean_boot c l : c ≠ me → clean me l → clean me (BootSecondary c :: l)
| clean_set_waiter c l : clean me l → clean me (SetWaiter c :: l)
| clean_deadlock c l : clean me l → clean me (DeadlockCheck c :: l)
| clean_wait_idle c l : clean me l → clean me (WaitIdle c :: l)
| clean_clear_waiter c l : clean me l → clean me (ClearWaiter c :: l)
| clean_acquire c f d l : c ≠ me → clean me l → clean me (Lock :: Recheck c f d :: l)
| clean_local f d l : clean me l → clean me (RunLocal f d :: l)
| clean_subset m l : clean me l → clean me (WaitSubset m :: l)
| clean_cpu0 l : clean me l → clean me (Cpu0Idles :: l)
| clean_idle : clean me idle_loop.
#[local] Hint Constructors clean : core.

Lemma clean_cpu_wait me c l : clean me l → clean me (cpu_wait me c ++ l).
Proof. intros H. unfold cpu_wait. destruct (c =? me); cbn; auto. Qed.
#[local] Hint Resolve clean_cpu_wait : core.

Lemma clean_acquire_app me c f d l : c ≠ me → clean me l → clean me (acquire me c f d ++ l).
Proof. intros Hc H. unfold acquire. rewrite <- app_assoc. apply clean_cpu_wait. cbn. auto. Qed.
#[local] Hint Resolve clean_acquire_app : core.

Lemma clean_on_cpu_async me c f d l : clean me l → clean me (on_cpu_async me c f d ++ l).
Proof. intros H. unfold on_cpu_async. destruct (Z.eqb_spec c me); cbn; auto. Qed.
#[local] Hint Resolve clean_on_cpu_async : core.

Lemma clean_on_cpu me c f d l : clean me l → clean me (on_cpu me c f d ++ l).
Proof. intros H. unfold on_cpu. rewrite <- app_assoc. auto. Qed.

Lemma clean_concat {A} me (g : A → list instr) (cs : list A) l :
  (∀ c l, clean me l → clean me (g c ++ l)) → clean me l → clean me (concat (g <$> cs) ++ l).
Proof. intros Hg H. induction cs as [|c cs IH]; cbn; [done|]. rewrite <- app_assoc. auto. Qed.

Lemma clean_on_cpumask_async me m f d l :
  clean me l → match on_cpumask_async nr me m f d with Ret p => clean me (p ++ l) | _ => True end.
Proof.
  intros H. unfold on_cpumask_async. destruct (cpumask_test_cpu nr me m) as [b| | |]; cbn [bind]; try done.
  rewrite <- app_assoc. apply clean_concat; [intros c l' Hl; destruct (c =? me); auto|]. destruct b; cbn; auto.
Qed.

Lemma clean_on_cpumask me m f d l :
  clean me l → match on_cpumask nr me m f d with Ret p => clean me (p ++ l) | _ => True end.
Proof.
  intros H. unfold on_cpumask. destruct (cpumask_clear_cpu nr me (cpumask_copy m m)) as [tmp| | |]; cbn [bind]; try done.
  destruct (cpumask_test_cpu nr me m) as [b| | |]; cbn [bind]; try done.
  rewrite <- !app_assoc. apply clean_concat; [auto|].
  assert (Hrest : clean me (concat ((λ c, [SetWaiter c; DeadlockCheck c]) <$> cpu_list nr tmp) ++
    ([WaitSubset tmp] ++ (ClearWaiter <$> cpu_list nr tmp) ++ l))).
  { apply clean_concat; [intros c l' Hl; cbn; auto|]. cbn. apply clean_subset.
    induction (cpu_list nr tmp); cbn; auto. }
  destruct b; cbn; auto.
Qed.

Lemma clean_do_idle me : clean me (do_idle me).
Proof. unfold do_idle. destruct (me =? 0); cbn; repeat constructor. Qed.

(** ** Invariant *)

Definition idle (s : oc_state) (c : Z) : Prop := c ∈ cpus nr (cpu_idle_mask (oc_masks s)).
Definition online (s : oc_state) (c : Z) : Prop := c ∈ cpus nr (cpu_online_mask (oc_masks s)).

#[local] Instance idle_dec s c : Decision (idle s c).
Proof. unfold idle. apply _. Defined.

Definition waiting_busy : list instr := [WaitBusy; RunInfo].
Definition about_to_run : list instr := [RunInfo].
Definition serving (l : list instr) : Prop := l = waiting_busy ∨ l = about_to_run.
#[local] Instance serving_dec l : Decision (serving l).
Proof. unfold serving. apply _. Defined.

(** The request a processor has been handed and has not run yet. *)
Definition pending (s : oc_state) (c : Z) : list (Z * Z) :=
  if decide (idle s c) then []
  else if decide (serving (oc_prog s c)) then [(oc_func s c, oc_data s c)] else [].

Definition submits (c : Z) (log : list oc_event) : list (Z * Z) :=
  omap (λ e, match e with Submitted _ c' f d => if c' =? c then Some (f, d) else None | _ => None end) log.
Definition runs (c : Z) (log : list oc_event) : list (Z * Z) :=
  omap (λ e, match e with Ran c' f d => if c' =? c then Some (f, d) else None | _ => None end) log.

(** The processor that holds the lock is between [Recheck] and [Unlock]; once
    past the test, its target is idle. *)
Definition holding (s : oc_state) (p : Z) : Prop :=
  ∃ w, clean p w ∧
   (oc_prog s p = Unlock :: w ∨
    ∃ c f d, c ≠ p ∧
     (oc_prog s p = Recheck c f d :: w ∨
      idle s c ∧
       (oc_prog s p = SetFunc c f :: SetData c d :: SetBusy c f d :: Unlock :: w ∨
        oc_func s c = f ∧
         (oc_prog s p = SetData c d :: SetBusy c f d :: Unlock :: w ∨
          oc_data s c = d ∧ oc_prog s p = SetBusy c f d :: Unlock :: w)))).

Definition free_of_lock (s : oc_state) (p : Z) : Prop := clean p (oc_prog s p) ∨ serving (oc_prog s p).

Record oc_inv (s : oc_state) : Prop := {
  oi_idle_wf : wf_mask (cpu_idle_mask (oc_masks s));
  oi_online_wf : wf_mask (cpu_online_mask (oc_masks s));
  oi_waiters_wf c : wf_mask (oc_waiters s c);
  oi_prog p : if decide (oc_lock s = Some p) then holding s p else free_of_lock s p;
  oi_idle c : idle s c → oc_prog s c = waiting_busy;
  oi_offline c : 0 ≤ c < nr → ¬ online s c → oc_prog s c = [];
  oi_log c : submits c (oc_log s) = runs c (oc_log s) ++ pending s c;
}.

Lemma not_clean_serving me l : clean me l → serving l → False.
Proof. intros H [->| ->]; inversion H. Qed.

Lemma holding_not_serving s p : holding s p → ¬ serving (oc_prog s p).
Proof.
  intros (w & _ & [E|(c & f & d & _ & [E|(_ & [E|(_ & [E|(_ & E)])])])]) [H|H]; rewrite E in H; discriminate.
Qed.

Lemma holder_not_idle s p : oc_inv s → oc_lock s = Some p → ¬ idle s p.
Proof.
  intros Hinv Hl Hi%(oi_idle _ Hinv). pose proof (oi_prog _ Hinv p) as H. rewrite decide_True in H by done.
  apply holding_not_serving in H. apply H. by left.
Qed.

Lemma submits_app c l1 l2 : submits c (l1 ++ l2) = submits c l1 ++ submits c l2.
Proof. apply omap_app. Qed.
Lemma runs_app c l1 l2 : runs c (l1 ++ l2) = runs c l1 ++ runs c l2.
Proof. apply omap_app. Qed.

(** ** Steps that concern one processor only *)

(** [s'] has the same requests in its slots as [s]. *)
Record same_slots (s s' : oc_state) : Prop := {
  ss_idle c : idle s' c ↔ idle s c;
  ss_func c : ¬ idle s c → oc_func s' c = oc_func s c;
  ss_data c : ¬ idle s c → oc_data s' c = oc_data s c;
  ss_log c : submits c (oc_log s') = submits c (oc_log s) ∧ runs c (oc_log s') = runs c (oc_log s);
}.

Lemma pending_same s s' c :
  same_slots s s' → (serving (oc_prog s' c) ↔ serving (oc_prog s c)) → pending s' c = pending s c.
Proof.
  intros [Hi Hf Hd _] Hp. unfold pending.
  destruct (decide (idle s' c)) as [H|H], (decide (idle s c)) as [H'|H']; rewrite Hi in H; try done.
  rewrite Hf, Hd by done. destruct (decide (serving (oc_prog s' c))) as [H2|H2], (decide (serving (oc_prog s c))) as [H3|H3]; try done; tauto.
Qed.

Lemma holding_same s s' p :
  same_slots s s' → oc_func s' = oc_func s → oc_data s' = oc_data s → oc_prog s' p = oc_prog s p →
  holding s p → holding s' p.
Proof.
  intros [Hi _ _ _] Hf Hd Hp. unfold holding. setoid_rewrite Hi. by rewrite Hf, Hd, Hp.
Qed.

(** [p] moves from [i :: rest] to [l]; the lock may change hands with it. *)
Lemma local_step s s' p l :
  oc_inv s → same_slots s s' →
  wf_mask (cpu_idle_mask (oc_masks s')) → wf_mask (cpu_online_mask (oc_masks s')) →
  (∀ c, wf_mask (oc_waiters s' c)) →
  (∀ c, online s c → online s' c) → online s' p ∨ ¬ 0 ≤ p < nr →
  oc_prog s' = <[p := l]> (oc_prog s) → ¬ serving (oc_prog s p) → ¬ serving l →
  (∀ q, q ≠ p → oc_lock s' = Some q ↔ oc_lock s = Some q) →
  oc_lock s' = Some p ∨ (oc_func s' = oc_func s ∧ oc_data s' = oc_data s) →
  (if decide (oc_lock s' = Some p) then holding s' p else clean p l) →
  oc_inv s'.
Proof.
  intros Hinv Hss Hw1 Hw2 Hw3 Hon Hp Hprog Hns Hnl Hlock Hslots Hmine.
  assert (Hother : ∀ q, q ≠ p → oc_prog s' q = oc_prog s q) by (intros q Hq; by rewrite Hprog, fn_lookup_insert_ne).
  assert (Hself : oc_prog s' p = l) by (by rewrite Hprog, fn_lookup_insert).
  constructor; try done.
  - intros q. destruct (decide (q = p)) as [->|Hq].
    + destruct (decide (oc_lock s' = Some p)); [done|]. left. by rewrite Hself.
    + pose proof (oi_prog _ Hinv q) as H. specialize (Hlock q Hq).
      destruct (decide (oc_lock s' = Some q)) as [E|E]; rewrite Hlock in E.
      * rewrite decide_True in H by done. destruct Hslots as [E'|[Ef Ed]]; [apply Hlock in E; congruence|].
        apply (holding_same s); [done|done|done|by apply Hother|done].
      * rewrite decide_False in H by done. unfold free_of_lock. by rewrite Hother.
  - intros c Hc%Hss. apply (oi_idle _ Hinv) in Hc. destruct (decide (c = p)) as [->|]; [|by rewrite Hother].
    destruct Hns. rewrite Hc. by left.
  - intros c Hc Hoff. destruct (decide (c = p)) as [->|]; [by destruct Hp|]. rewrite Hother by done.
    apply (oi_offline _ Hinv); [done|]. by intros ?%Hon.
  - intros c. destruct (ss_log _ _ Hss c) as [-> ->]. rewrite (oi_log _ Hinv c). f_equal. symmetry.
    apply pending_same; [done|]. destruct (decide (c = p)) as [->|]; [by rewrite Hself|by rewrite Hother].
Qed.

Lemma same_slots_refl s s' :
  oc_masks s' = oc_masks s → oc_func s' = oc_func s → oc_data s' = oc_data s →
  (oc_log s' = oc_log s ∨ ∃ p f d, oc_log s' = oc_log s ++ [RanLocally p f d]) → same_slots s s'.
Proof.
  intros Hm Hf Hd Hl. constructor; [|by rewrite Hf|by rewrite Hd|].
  - intros c. unfold idle. by rewrite Hm.
  - intros c. destruct Hl as [->|(p & f & d & ->)]; [done|]. rewrite submits_app, runs_app. cbn. by rewrite !app_nil_r.
Qed.

(** A processor with work to do is online, or outside the range. *)
Lemma working_online s p i rest :
  oc_inv s → oc_prog s p = i :: rest → online s p ∨ ¬ 0 ≤ p < nr.
Proof.
  intros Hinv E. destruct (decide (0 ≤ p < nr)) as [Hp|]; [|by right]. left.
  destruct (decide (p ∈ cpus nr (cpu_online_mask (oc_masks s)))) as [|Hn]; [done|].
  rewrite (oi_offline _ Hinv p Hp Hn) in E. done.
Qed.

(** A step that changes at most the waiters, the flag of processor 0 and the
    local log, and leads to a clean program. *)
Lemma plain_step s s' p i rest l :
  oc_inv s → oc_lock s ≠ Some p → oc_prog s p = i :: rest → clean p (i :: rest) → clean p l →
  oc_masks s' = oc_masks s → oc_func s' = oc_func s → oc_data s' = oc_data s →
  (oc_log s' = oc_log s ∨ ∃ p f d, oc_log s' = oc_log s ++ [RanLocally p f d]) →
  (∀ c, wf_mask (oc_waiters s' c)) → oc_lock s' = oc_lock s → oc_prog s' = <[p := l]> (oc_prog s) →
  oc_inv s'.
Proof.
  intros Hinv Hlk Hi Hc Hl Hm Hf Hd Hlog Hw Hlk' Hprog.
  apply (local_step s s' p l); try done.
  - by apply same_slots_refl.
  - rewrite Hm. apply Hinv.
  - rewrite Hm. apply Hinv.
  - unfold online. by rewrite Hm.
  - unfold online. rewrite Hm. by apply (working_online _ _ i rest).
  - rewrite Hi. exact (not_clean_serving p _ Hc).
  - exact (not_clean_serving p _ Hl).
  - by rewrite Hlk'.
  - by right.
  - rewrite decide_False by (by rewrite Hlk'). done.
Qed.

Lemma waiters_insert s c w : (∀ c, wf_mask (oc_waiters s c)) → wf_mask w → ∀ c', wf_mask (<[c := w]> (oc_waiters s) c').
Proof.
  intros H Hw c'. destruct (decide (c' = c)) as [->|]; [by rewrite fn_lookup_insert|by rewrite fn_lookup_insert_ne].
Qed.

Lemma set_cpu_wf (f : Z → Z → cpumask → res cpumask) me m w :
  (∀ cpu, 0 ≤ cpu < nr → post (f nr cpu m) wf_mask) → (∀ cpu, ¬ 0 ≤ cpu < nr → f nr cpu m = Abort) →
  f nr me m = Ret w → wf_mask w ∧ 0 ≤ me < nr.
Proof.
  intros H1 H2 E. destruct (decide (0 ≤ me < nr)) as [Hr|Hr]; [|by rewrite H2 in E].
  split; [|done]. specialize (H1 me Hr). by rewrite E in H1.
Qed.

Lemma cpumask_set_cpu_wf me m w : wf_mask m → cpumask_set_cpu nr me m = Ret w → wf_mask w ∧ 0 ≤ me < nr.
Proof.
  intros Hm. apply (set_cpu_wf cpumask_set_cpu).
  - intros cpu Hc. eapply post_mono; [by apply cpumask_set_cpu_spec|]. by intros ? [? _].
  - intros cpu Hc. unfold cpumask_set_cpu. by rewrite cpu_ok_false.
Qed.
Lemma cpumask_clear_cpu_wf me m w : wf_mask m → cpumask_clear_cpu nr me m = Ret w → wf_mask w ∧ 0 ≤ me < nr.
Proof.
  intros Hm. apply (set_cpu_wf cpumask_clear_cpu).
  - intros cpu Hc. eapply post_mono; [by apply cpumask_clear_cpu_spec|]. by intros ? [? _].
  - intros cpu Hc. unfold cpumask_clear_cpu. by rewrite cpu_ok_false.
Qed.

Lemma cpu_idle_decides s c b :
  oc_inv s → cpu_idle nr c (oc_masks s) = Ret b → (b = true ↔ idle s c).
Proof.
  intros Hinv E. unfold cpu_idle in E. destruct (decide (0 ≤ c < nr)) as [Hc|Hc].
  - rewrite cpumask_test_cpu_decides in E by (done || apply Hinv). injection E as <-. by rewrite bool_decide_eq_true.
  - unfold cpumask_test_cpu in E. by rewrite cpu_ok_false in E.
Qed.

Lemma cpu_online_decides s c b :
  oc_inv s → cpu_online nr c (oc_masks s) = Ret b → (b = true ↔ online s c).
Proof.
  intros Hinv E. unfold cpu_online in E. destruct (decide (0 ≤ c < nr)) as [Hc|Hc].
  - rewrite cpumask_test_cpu_decides in E by (done || apply Hinv). injection E as <-. by rewrite bool_decide_eq_true.
  - unfold cpumask_test_cpu in E. by rewrite cpu_ok_false in E.
Qed.

(** ** Every step keeps the invariant *)

(** Waiting: the processor stays where it is, or goes on. *)
Lemma wait_step s me i rest (b : bool) :
  oc_inv s → oc_lock s ≠ Some me → oc_prog s me = i :: rest → clean me (i :: rest) → clean me rest →
  oc_inv (if b then set_prog me rest s else s).
Proof. intros Hinv Hlk Hi Hc Hr. destruct b; [|done]. apply (plain_step s _ me i rest rest); auto; apply Hinv. Qed.

Lemma step_lock s me c f d rest :
  oc_inv s → oc_prog s me = Lock :: Recheck c f d :: rest → c ≠ me → clean me rest →
  oc_lock s = None → oc_inv (set_prog me (Recheck c f d :: rest) (set_oc_lock (Some me) s)).
Proof.
  intros Hinv Hi Hc Hr Hl. apply (local_step s _ me (Recheck c f d :: rest)); try apply Hinv; auto.
  - by apply same_slots_refl; auto.
  - by apply (working_online s me Lock (Recheck c f d :: rest)).
  - rewrite Hi. intros [H|H]; discriminate.
  - intros [H|H]; discriminate.
  - intros q Hq. cbn. rewrite Hl. split; [by intros [= ->]|done].
  - rewrite decide_True by done. exists rest. split; [done|]. right. exists c, f, d. split; [done|]. left.
    cbn. by rewrite fn_lookup_insert.
Qed.

(** A processor announces that it is idle: nothing was pending. *)
Lemma step_set_idle s me m :
  oc_inv s → oc_lock s ≠ Some me → oc_prog s me = idle_loop →
  set_cpu_idle nr me true (oc_masks s) = Ret m →
  oc_inv (set_prog me waiting_busy (set_masks m s)).
Proof.
  intros Hinv Hlk Hi E. unfold set_cpu_idle in E.
  destruct (cpumask_set_cpu nr me (cpu_idle_mask (oc_masks s))) as [w| | |] eqn:Ew; cbn [bind] in E; try done.
  injection E as <-. destruct (cpumask_set_cpu_wf me _ w (oi_idle_wf _ Hinv) Ew) as [Hw Hr].
  pose proof (cpumask_set_cpu_spec nr _ me (oi_idle_wf _ Hinv) Hnr Hr) as H. rewrite Ew in H. destruct H as [_ Hset].
  set (s' := set_prog _ _ _).
  assert (Hid : ∀ c, idle s' c ↔ c = me ∨ idle s c) by (intros c; unfold idle; cbn; rewrite Hset; set_solver).
  assert (Hother : ∀ q, q ≠ me → oc_prog s' q = oc_prog s q) by (intros q Hq; cbn; by rewrite fn_lookup_insert_ne).
  assert (Hself : oc_prog s' me = waiting_busy) by (cbn; by rewrite fn_lookup_insert).
  constructor; try apply Hinv; try done.
  - intros q. destruct (decide (q = me)) as [->|Hq].
    + rewrite decide_False by done. right. rewrite Hself. by left.
    + pose proof (oi_prog _ Hinv q) as Hp. change (oc_lock s') with (oc_lock s).
      destruct (decide (oc_lock s = Some q)); [|unfold free_of_lock; by rewrite Hother].
      unfold holding in *. rewrite Hother by done. setoid_rewrite Hid. cbn. naive_solver.
  - intros c [->|Hc]%Hid; [done|]. destruct (decide (c = me)) as [->|]; [done|]. rewrite Hother by done. by apply Hinv.
  - intros c Hc Hoff. destruct (decide (c = me)) as [->|]; [|rewrite Hother by done; by apply Hinv].
    destruct (working_online s me SetIdle waiting_busy Hinv Hi); done.
  - intros c. change (oc_log s') with (oc_log s). rewrite (oi_log _ Hinv c). f_equal. unfold pending. destruct (decide (c = me)) as [->|Hne].
    + rewrite (decide_True (P := idle s' me)) by (apply Hid; by left). rewrite decide_False; [rewrite decide_False; [done|]|].
      * rewrite Hi. intros [H|H]; discriminate.
      * intros Hx%(oi_idle _ Hinv). rewrite Hi in Hx. done.
    + rewrite Hother by done. destruct (decide (idle s c)) as [Hx|Hx], (decide (idle s' c)) as [Hy|Hy]; rewrite Hid in Hy; naive_solver.
Qed.

(** Starting a processor that is not online. *)
Lemma step_boot s me c rest m :
  oc_inv s → oc_lock s ≠ Some me → oc_prog s me = BootSecondary c :: rest → c ≠ me → clean me rest →
  ¬ online s c → set_cpu_online nr c true (oc_masks s) = Ret m →
  oc_inv (set_prog c (do_idle c) (set_masks m (set_prog me rest s))).
Proof.
  intros Hinv Hlk Hi Hc Hr Hoff E.
  assert (H1 : oc_inv (set_prog me rest s)) by (apply (wait_step s me (BootSecondary c) rest true); auto).
  unfold set_cpu_online in E. destruct (cpumask_set_cpu nr c (cpu_online_mask (oc_masks s))) as [w| | |] eqn:Ew; cbn [bind] in E; try done.
  injection E as <-. destruct (cpumask_set_cpu_wf c _ w (oi_online_wf _ Hinv) Ew) as [Hw Hcr].
  pose proof (cpumask_set_cpu_spec nr _ c (oi_online_wf _ Hinv) Hnr Hcr) as H. rewrite Ew in H. destruct H as [_ Hset].
  pose proof (oi_offline _ H1 c Hcr Hoff) as Hempty. pose proof (clean_do_idle c) as Hcl.
  apply (local_step (set_prog me rest s) _ c (do_idle c)).
  - done.
  - by constructor.
  - apply Hinv.
  - done.
  - apply Hinv.
  - intros q. unfold online. cbn. rewrite Hset. set_solver.
  - left. unfold online. cbn. rewrite Hset. set_solver.
  - done.
  - rewrite Hempty. intros [H|H]; discriminate.
  - exact (not_clean_serving c _ Hcl).
  - done.
  - by right.
  - rewrite decide_False; [done|]. cbn. intros Hlc. pose proof (oi_prog _ H1 c) as Hp. rewrite decide_True in Hp by done.
    destruct Hp as (w' & _ & [Hx|(c' & f & d & _ & [Hx|(_ & [Hx|(_ & [Hx|(_ & Hx)])])])]); rewrite Hempty in Hx; done.
Qed.

(** An instruction outside the critical section. *)
Lemma step_clean s s' me :
  oc_inv s → oc_lock s ≠ Some me → clean me (oc_prog s me) → step nr me s = Ret s' → oc_inv s'.
Proof.
  intros Hinv Hlk Hcl. unfold step. pose proof (oi_waiters_wf _ Hinv) as Hww.
  remember (oc_prog s me) as P eqn:E. symmetry in E. pose proof Hcl as Hcl'.
  destruct Hcl' as [|c l Hc Hl|c l Hl|c l Hl|c l Hl|c l Hl|c f d l Hc Hl|f d l Hl|m l Hl|l Hl|];
    unfold idle_loop; cbn [bind].
  - by intros [= <-].
  - destruct (negb (c =? 0) || cpu0_calls_idle s); [|done]. unfold boot_secondary.
    change (oc_masks (set_prog me l s)) with (oc_masks s).
    destruct (cpu_online nr c (oc_masks s)) as [on| | |] eqn:Eon; cbn [bind]; try done.
    pose proof (cpu_online_decides s c on Hinv Eon) as Hd. destruct on.
    + intros [= <-]. by apply (wait_step s me (BootSecondary c) l true).
    + destruct (set_cpu_online nr c true (oc_masks s)) as [m| | |] eqn:Em; cbn [bind]; try done. intros [= <-].
      apply (step_boot s me c l m); try done. intros H. by apply Hd in H.
  - destruct (cpumask_set_cpu nr me (oc_waiters s c)) as [w| | |] eqn:Ew; cbn [bind]; try done. intros [= <-].
    apply (plain_step s _ me (SetWaiter c) l l); auto. apply waiters_insert; [done|].
    by eapply cpumask_set_cpu_wf.
  - unfold deadlock_check. destruct (__deadlock_check _ _ _ _ _) as [[]| | |]; cbn [bind]; try done. intros [= <-].
    by apply (wait_step s me (DeadlockCheck c) l true).
  - destruct (cpu_idle nr c (oc_masks s)) as [b| | |]; cbn [bind]; try done. intros [= <-].
    by apply (wait_step s me (WaitIdle c) l b).
  - destruct (cpumask_clear_cpu nr me (oc_waiters s c)) as [w| | |] eqn:Ew; cbn [bind]; try done. intros [= <-].
    apply (plain_step s _ me (ClearWaiter c) l l); auto. apply waiters_insert; [done|].
    by eapply cpumask_clear_cpu_wf.
  - destruct (oc_lock s) as [q|] eqn:El; intros [= <-]; [done|]. by apply step_lock.
  - intros [= <-]. apply (plain_step s _ me (RunLocal f d) l l); eauto.
  - destruct (cpumask_subset nr m _) as [b| | |]; cbn [bind]; try done. intros [= <-].
    by apply (wait_step s me (WaitSubset m) l b).
  - intros [= <-]. by apply (plain_step s _ me Cpu0Idles l l); auto.
  - destruct (set_cpu_idle nr me true (oc_masks s)) as [m| | |] eqn:Em; cbn [bind]; try done. intros [= <-].
    by apply (step_set_idle s me m).
Qed.

(** The holder of the lock moves on inside the critical section, or leaves it. *)
Lemma holder_step s s' me l :
  oc_inv s → oc_lock s = Some me → same_slots s s' →
  oc_masks s' = oc_masks s → oc_waiters s' = oc_waiters s →
  oc_prog s' = <[me := l]> (oc_prog s) → ¬ serving l →
  (oc_lock s' = Some me ∧ holding s' me) ∨
  (oc_lock s' = None ∧ oc_func s' = oc_func s ∧ oc_data s' = oc_data s ∧ clean me l) →
  oc_inv s'.
Proof.
  intros Hinv Hlk Hss Hm Hw Hprog Hnl Hcase.
  pose proof (oi_prog _ Hinv me) as Hh. rewrite decide_True in Hh by done.
  assert (Hne : ∃ i rest, oc_prog s me = i :: rest).
  { destruct Hh as (w & _ & [E|(c & f & d & _ & [E|(_ & [E|(_ & [E|(_ & E)])])])]); rewrite E; eauto. }
  destruct Hne as (i & rest & Hi).
  apply (local_step s s' me l); try done.
  - rewrite Hm. apply Hinv.
  - rewrite Hm. apply Hinv.
  - rewrite Hw. apply Hinv.
  - unfold online. by rewrite Hm.
  - unfold online. rewrite Hm. by apply (working_online _ _ i rest).
  - by apply holding_not_serving.
  - intros q Hq. rewrite Hlk. destruct Hcase as [[-> _]|[-> _]]; split; congruence.
  - destruct Hcase as [[-> _]|(_ & ? & ? & _)]; auto.
  - destruct Hcase as [[E H]|(E & _ & _ & H)]; [by rewrite decide_True|rewrite decide_False by (rewrite E; done); done].
Qed.

(** The request is handed over: the target stops being idle. *)
Lemma step_busy s me c f d w m :
  oc_inv s → oc_lock s = Some me → c ≠ me → idle s c → oc_func s c = f → oc_data s c = d →
  oc_prog s me = SetBusy c f d :: Unlock :: w → clean me w → set_cpu_idle nr c false (oc_masks s) = Ret m →
  oc_inv (set_prog me (Unlock :: w) (record (Submitted me c f d) (set_masks m s))).
Proof.
  intros Hinv Hlk Hne Hic Hf Hd Hi Hcl E. unfold set_cpu_idle in E.
  destruct (cpumask_clear_cpu nr c (cpu_idle_mask (oc_masks s))) as [w'| | |] eqn:Ew; cbn [bind] in E; try done.
  injection E as <-. destruct (cpumask_clear_cpu_wf c _ w' (oi_idle_wf _ Hinv) Ew) as [Hw Hr].
  pose proof (cpumask_clear_cpu_spec nr _ c (oi_idle_wf _ Hinv) Hnr Hr) as H. rewrite Ew in H. destruct H as [_ Hset].
  set (s' := set_prog _ _ _).
  assert (Hid : ∀ q, idle s' q ↔ q ≠ c ∧ idle s q) by (intros q; unfold idle; cbn; rewrite Hset; set_solver).
  assert (Hother : ∀ q, q ≠ me → oc_prog s' q = oc_prog s q) by (intros q Hq; cbn; by rewrite fn_lookup_insert_ne).
  assert (Hself : oc_prog s' me = Unlock :: w) by (cbn; by rewrite fn_lookup_insert).
  pose proof (holder_not_idle s me Hinv Hlk) as Hnm.
  constructor; try apply Hinv; try done.
  - intros q. change (oc_lock s') with (oc_lock s). destruct (decide (q = me)) as [->|Hq].
    + rewrite decide_True by done. exists w. split; [done|]. by left.
    + pose proof (oi_prog _ Hinv q) as Hp. rewrite decide_False in Hp |- * by congruence.
      unfold free_of_lock. by rewrite Hother.
  - intros q [Hq Hx]%Hid. rewrite Hother by (by intros ->). by apply Hinv.
  - intros q Hq Hoff. destruct (decide (q = me)) as [->|]; [|rewrite Hother by done; by apply Hinv].
    destruct (working_online s me _ _ Hinv Hi); done.
  - intros q. change (oc_log s') with (oc_log s ++ [Submitted me c f d]). rewrite submits_app, runs_app. cbn.
    rewrite app_nil_r, (oi_log _ Hinv q), <- app_assoc. f_equal. unfold pending.
    change (oc_func s') with (oc_func s). change (oc_data s') with (oc_data s).
    destruct (Z.eqb_spec c q) as [<-|Hcq].
    + rewrite decide_True by done. rewrite decide_False by (rewrite Hid; tauto).
      rewrite decide_True by (rewrite Hother, (oi_idle _ Hinv) by done; by left). by subst f d.
    + rewrite app_nil_r. rewrite (decide_ext (idle s' q) (idle s q)) by (rewrite Hid; naive_solver).
      destruct (decide (q = me)) as [->|]; [|by rewrite Hother].
      rewrite Hself, Hi. rewrite !decide_False; try done; intros [H|H]; discriminate.
Qed.

Lemma slot_update s s' :
  oc_masks s' = oc_masks s → oc_log s' = oc_log s →
  (∀ c, ¬ idle s c → oc_func s' c = oc_func s c ∧ oc_data s' c = oc_data s c) → same_slots s s'.
Proof.
  intros Hm Hl H. constructor.
  - intros c. unfold idle. by rewrite Hm.
  - intros c Hc. by apply H.
  - intros c Hc. by apply H.
  - intros c. by rewrite Hl.
Qed.

Ltac not_serving := let H := fresh in intros [H|H]; discriminate H.

(** The holder goes from one point of the critical section to the next. *)
Lemma step_inside s s' me c f d w l :
  oc_inv s → oc_lock s = Some me → c ≠ me → clean me w → idle s c →
  oc_masks s' = oc_masks s → oc_waiters s' = oc_waiters s → oc_log s' = oc_log s → oc_lock s' = Some me →
  oc_prog s' = <[me := l]> (oc_prog s) →
  (∀ q, q ≠ c → oc_func s' q = oc_func s q ∧ oc_data s' q = oc_data s q) →
  l = submit c f d ++ w ∨
  oc_func s' c = f ∧ (l = SetData c d :: SetBusy c f d :: Unlock :: w ∨
                      oc_data s' c = d ∧ l = SetBusy c f d :: Unlock :: w) →
  oc_inv s'.
Proof.
  intros Hinv Hlk Hc Hcl Hid Hm Hw Hlog Hlk' Hprog Hsame Hcase.
  assert (Hp : oc_prog s' me = l) by (by rewrite Hprog, fn_lookup_insert).
  apply (holder_step s s' me l); try done.
  - apply slot_update; [done|done|]. intros q Hq. apply Hsame. by intros ->.
  - destruct Hcase as [->|[_ [->|[_ ->]]]]; not_serving.
  - left. split; [done|]. exists w. split; [done|]. right. exists c, f, d. split; [done|]. right.
    split; [unfold idle; by rewrite Hm|]. rewrite Hp. destruct Hcase as [->|[? [->|[? ->]]]]; auto.
Qed.

Lemma step_holding s s' me :
  oc_inv s → oc_lock s = Some me → step nr me s = Ret s' → oc_inv s'.
Proof.
  intros Hinv Hlk. pose proof (oi_prog _ Hinv me) as Hh. rewrite decide_True in Hh by done.
  unfold step. destruct Hh as (w & Hcl & [E|(c & f & d & Hc & Hh)]).
  { rewrite E. intros [= <-]. apply (holder_step s _ me w Hinv Hlk); [by apply slot_update|done..| |by right].
    exact (not_clean_serving me w Hcl). }
  destruct Hh as [E|(Hid & [E|(Hf & [E|(Hd & E)])])]; rewrite E.
  - destruct (cpu_idle nr c (oc_masks s)) as [b| | |] eqn:Eb; cbn [bind]; try done. intros [= <-].
    pose proof (cpu_idle_decides s c b Hinv Eb) as Hb. destruct b.
    + apply (step_inside s _ me c f d w (submit c f d ++ w)); try done; [by apply Hb|by left].
    + apply (holder_step s _ me (Unlock :: acquire me c f d ++ w) Hinv Hlk); [by apply slot_update|done..|not_serving|].
      left. split; [done|]. exists (acquire me c f d ++ w). split; [by apply clean_acquire_app|]. left.
      cbn. by rewrite fn_lookup_insert.
  - intros [= <-]. eapply (step_inside s _ me c f d w); try done; [intros q Hq; cbn; by rewrite fn_lookup_insert_ne|].
    right. cbn. rewrite fn_lookup_insert. auto.
  - intros [= <-]. eapply (step_inside s _ me c f d w); try done; [intros q Hq; cbn; by rewrite fn_lookup_insert_ne|].
    right. cbn. rewrite fn_lookup_insert. auto.
  - destruct (set_cpu_idle nr c false (oc_masks s)) as [m| | |] eqn:Em; cbn [bind]; try done. intros [= <-].
    by apply (step_busy s me c f d w m).
Qed.

(** A processor that is not idle and does not hold the lock moves on in the idle loop. *)
Lemma serve_step s s' me l :
  oc_inv s → oc_lock s ≠ Some me → ¬ idle s me → serving (oc_prog s me) →
  oc_masks s' = oc_masks s → oc_func s' = oc_func s → oc_data s' = oc_data s →
  oc_waiters s' = oc_waiters s → oc_lock s' = oc_lock s → oc_prog s' = <[me := l]> (oc_prog s) →
  clean me l ∨ serving l →
  (∀ c, submits c (oc_log s') = submits c (oc_log s)) →
  (∀ c, c ≠ me → runs c (oc_log s') = runs c (oc_log s)) →
  runs me (oc_log s') ++ pending s' me = runs me (oc_log s) ++ pending s me →
  oc_inv s'.
Proof.
  intros Hinv Hlk Hni Hsv Hm Hf Hd Hw Hl Hprog Hfree Hsub Hrun Hme.
  assert (Hid : ∀ q, idle s' q ↔ idle s q) by (intros q; unfold idle; by rewrite Hm).
  assert (Hon : ∀ q, online s' q ↔ online s q) by (intros q; unfold online; by rewrite Hm).
  assert (Hother : ∀ q, q ≠ me → oc_prog s' q = oc_prog s q) by (intros q Hq; by rewrite Hprog, fn_lookup_insert_ne).
  assert (Hself : oc_prog s' me = l) by (by rewrite Hprog, fn_lookup_insert).
  constructor.
  - rewrite Hm. apply Hinv.
  - rewrite Hm. apply Hinv.
  - rewrite Hw. apply Hinv.
  - intros q. rewrite Hl. pose proof (oi_prog _ Hinv q) as Hp. destruct (decide (q = me)) as [->|Hq].
    + rewrite decide_False by done. unfold free_of_lock. by rewrite Hself.
    + destruct (decide (oc_lock s = Some q)); [|unfold free_of_lock; by rewrite Hother].
      unfold holding in *. rewrite Hf, Hd, Hother by done. by setoid_rewrite Hid.
  - intros q Hq%Hid. rewrite Hother by (by intros ->). by apply Hinv.
  - intros q Hq Hoff. rewrite Hon in Hoff. pose proof (oi_offline _ Hinv q Hq Hoff) as He.
    destruct (decide (q = me)) as [->|]; [|by rewrite Hother]. rewrite He in Hsv. destruct Hsv; discriminate.
  - intros q. rewrite Hsub, (oi_log _ Hinv q). destruct (decide (q = me)) as [->|Hq]; [done|].
    rewrite Hrun by done. f_equal. unfold pending. rewrite Hf, Hd, Hother by done.
    by rewrite (decide_ext (idle s' q) (idle s q)) by apply Hid.
Qed.

Lemma pending_serving s c : ¬ idle s c → serving (oc_prog s c) → pending s c = [(oc_func s c, oc_data s c)].
Proof. intros H1 H2. unfold pending. by rewrite decide_False, decide_True. Qed.

Lemma pending_other s c : ¬ serving (oc_prog s c) → pending s c = [].
Proof. intros H. unfold pending. case_decide; [done|]. by rewrite decide_False. Qed.

(** A processor in the idle loop takes its request and runs it. *)
Lemma step_serving s s' me :
  oc_inv s → oc_lock s ≠ Some me → serving (oc_prog s me) → step nr me s = Ret s' → oc_inv s'.
Proof.
  intros Hinv Hlk Hs. unfold step. pose proof Hs as [E|E]; rewrite E; unfold waiting_busy, about_to_run.
  - destruct (cpu_idle nr me (oc_masks s)) as [b| | |] eqn:Eb; cbn [bind]; try done. intros [= <-].
    pose proof (cpu_idle_decides s me b Hinv Eb) as Hb. destruct b; [done|].
    assert (Hni : ¬ idle s me) by (intros H; by apply Hb in H).
    apply (serve_step s _ me about_to_run Hinv Hlk); try done; [by right; right|].
    rewrite !pending_serving; try done. right. cbn. by rewrite fn_lookup_insert.
  - intros [= <-]. assert (Hni : ¬ idle s me) by (intros H%(oi_idle _ Hinv); rewrite E in H; discriminate).
    apply (serve_step s _ me idle_loop Hinv Hlk); try done; cbn [oc_log set_prog record].
    + left. constructor.
    + intros c. by rewrite submits_app, app_nil_r.
    + intros c Hc. rewrite runs_app. cbn. rewrite (proj2 (Z.eqb_neq me c)) by done. by rewrite app_nil_r.
    + rewrite runs_app, (pending_serving s me) by done. cbn. rewrite Z.eqb_refl, pending_other, app_nil_r; [done|].
      cbn. rewrite fn_lookup_insert. not_serving.
Qed.

Lemma step_inv s s' me : oc_inv s → step nr me s = Ret s' → oc_inv s'.
Proof.
  intros Hinv. destruct (decide (oc_lock s = Some me)) as [Hl|Hl]; [by apply step_holding|].
  pose proof (oi_prog _ Hinv me) as H. rewrite decide_False in H by done.
  destruct H; [by apply step_clean|by apply step_serving].
Qed.

Lemma run_inv sched s s' : oc_inv s → run nr sched s = Ret s' → oc_inv s'.
Proof.
  revert s. induction sched as [|p sched IH]; cbn; intros s Hinv; [by intros [= <-]|].
  destruct (step nr p s) as [s1| | |] eqn:E; cbn [bind]; try done. apply IH. by eapply step_inv.
Qed.

(** ** What the processors execute *)

Inductive oc_call : Type :=
| CallAsync (cpu f d : Z)
| Call (cpu f d : Z)
| CallMaskAsync (mask : cpumask) (f d : Z)
| CallMask (mask : cpumask) (f d : Z)
| RunHere (f d : Z).

Definition call_code (me : Z) (k : oc_call) : res (list instr) :=
  match k with
  | CallAsync cpu f d => Ret (on_cpu_async me cpu f d)
  | Call cpu f d => Ret (on_cpu me cpu f d)
  | CallMaskAsync mask f d => on_cpumask_async nr me mask f d
  | CallMask mask f d => on_cpumask nr me mask f d
  | RunHere f d => Ret [RunLocal f d]
  end.

(** A sequence of calls, after which the processor stops or goes idle. *)
Fixpoint client (me : Z) (ks : list oc_call) (idles : bool) : res (list instr) :=
  match ks with
  | [] => Ret (if idles then do_idle me else [])
  | k :: ks => let* p := call_code me k in let* q := client me ks idles in Ret (p ++ q)
  end.

Lemma clean_client me ks idles l : client me ks idles = Ret l → clean me l.
Proof.
  revert l. induction ks as [|k ks IH]; intros l; cbn [client].
  - intros [= <-]. destruct idles; [apply clean_do_idle|constructor].
  - destruct (call_code me k) as [p| | |] eqn:Ek; cbn [bind]; try done.
    destruct (client me ks idles) as [q| | |]; cbn [bind]; try done. intros [= <-]. specialize (IH q eq_refl).
    destruct k as [c f d|c f d|m f d|m f d|f d]; cbn in Ek.
    + injection Ek as <-. by apply clean_on_cpu_async.
    + injection Ek as <-. by apply clean_on_cpu.
    + pose proof (clean_on_cpumask_async me m f d q IH) as H. by rewrite Ek in H.
    + pose proof (clean_on_cpumask me m f d q IH) as H. by rewrite Ek in H.
    + injection Ek as <-. cbn. by constructor.
Qed.

(** Before anything ran: no processor is idle, the lock is free, offline
    processors do nothing and the others have calls to make. *)
Record oc_initial (s : oc_state) : Prop := {
  oi0_idle_wf : wf_mask (cpu_idle_mask (oc_masks s));
  oi0_online_wf : wf_mask (cpu_online_mask (oc_masks s));
  oi0_waiters_wf c : wf_mask (oc_waiters s c);
  oi0_idle : cpus nr (cpu_idle_mask (oc_masks s)) = ∅;
  oi0_prog p : ∃ ks idles, client p ks idles = Ret (oc_prog s p);
  oi0_offline c : 0 ≤ c < nr → ¬ online s c → oc_prog s c = [];
  oi0_lock : oc_lock s = None;
  oi0_log : oc_log s = [];
}.

Lemma initial_inv s : oc_initial s → oc_inv s.
Proof.
  intros H. assert (Hcl : ∀ p, clean p (oc_prog s p)).
  { intros p. destruct (oi0_prog _ H p) as (ks & idles & E). by eapply clean_client. }
  constructor; try apply H.
  - intros p. rewrite decide_False by (rewrite (oi0_lock _ H); done). left. apply Hcl.
  - intros c. unfold idle. rewrite (oi0_idle _ H). set_solver.
  - intros c. rewrite (oi0_log _ H), pending_other; [done|]. exact (not_clean_serving c _ (Hcl c)).
Qed.

(** An idle processor has run everything it was handed. *)
Lemma idle_all_run s c : oc_inv s → idle s c → submits c (oc_log s) = runs c (oc_log s).
Proof. intros Hinv Hi. rewrite (oi_log _ Hinv c). unfold pending. rewrite decide_True by done. by rewrite app_nil_r. Qed.

Lemma submit_prefix s c : oc_inv s → runs c (oc_log s) `prefix_of` submits c (oc_log s).
Proof. intros Hinv. rewrite (oi_log _ Hinv c). by exists (pending s c). Qed.

(** Passing the wait of [cpu_wait] or of [on_cpumask] means that the targets are idle. *)
Lemma passes_wait s s' p c rest :
  oc_inv s → oc_prog s p = WaitIdle c :: rest → step nr p s = Ret s' → oc_prog s' p = rest → idle s c.
Proof.
  intros Hinv E. unfold step. rewrite E. destruct (cpu_idle nr c (oc_masks s)) as [b| | |] eqn:Eb; cbn [bind]; try done.
  intros [= <-] H. apply (cpu_idle_decides s c b Hinv Eb). destruct b; [done|]. rewrite E in H.
  apply (f_equal length) in H. cbn in H. lia.
Qed.

Lemma passes_subset s s' p tmp rest :
  oc_inv s → wf_mask tmp → oc_prog s p = WaitSubset tmp :: rest → step nr p s = Ret s' → oc_prog s' p = rest →
  ∀ c, c ∈ cpus nr tmp → idle s c.
Proof.
  intros Hinv Ht E. unfold step. rewrite E, cpumask_subset_decides by (done || apply Hinv). cbn [bind].
  case_bool_decide as Hs; intros [= <-] H; [by intros c Hc; apply Hs|]. rewrite E in H.
  apply (f_equal length) in H. cbn in H. lia.
Qed.

(** ** Progress *)

Ltac step_cases H :=
  repeat (match type of H with
    | bind (bind ?e _) _ = _ => destruct e; cbn [bind] in H; try discriminate H
    | bind (if ?b then _ else _) _ = _ => destruct b; cbn [bind] in H; try discriminate H
    | bind ?e _ = _ => let E := fresh "E" in destruct e eqn:E; cbn [bind] in H; try discriminate H
    | (if ?b then _ else _) = _ => destruct b; cbn [bind] in H; try discriminate H
    | match ?o with Some _ => _ | None => _ end = _ => destruct o end);
  try discriminate H; injection H as <-.

Lemma step_log s s' q : step nr q s = Ret s' → ∃ ev, oc_log s' = oc_log s ++ ev.
Proof.
  unfold step, boot_secondary, deadlock_check. intros H.
  destruct (oc_prog s q) as [|i rest]; [injection H as <-; exists []; by rewrite app_nil_r|].
  destruct i; step_cases H; try case_match; (by eexists) || (exists []; by rewrite app_nil_r).
Qed.

Lemma set_cpu_idle_keeps s q v a c :
  oc_inv s → set_cpu_idle nr q v (oc_masks s) = Ret a → (v = true → q ≠ c) → ¬ idle s c →
  c ∉ cpus nr (cpu_idle_mask a).
Proof.
  intros Hinv E Hq Hni. pose proof (oi_idle_wf _ Hinv) as Hw. unfold set_cpu_idle in E. destruct v.
  - destruct (cpumask_set_cpu nr q _) as [w| | |] eqn:Ew; cbn [bind] in E; try done. injection E as <-.
    destruct (cpumask_set_cpu_wf q _ w Hw Ew) as [_ Hr].
    pose proof (cpumask_set_cpu_spec nr _ q Hw Hnr Hr) as H. rewrite Ew in H. destruct H as [_ Hset]. cbn. rewrite Hset.
    specialize (Hq eq_refl). unfold idle in Hni. set_solver.
  - destruct (cpumask_clear_cpu nr q _) as [w| | |] eqn:Ew; cbn [bind] in E; try done. injection E as <-.
    destruct (cpumask_clear_cpu_wf q _ w Hw Ew) as [_ Hr].
    pose proof (cpumask_clear_cpu_spec nr _ q Hw Hnr Hr) as H. rewrite Ew in H. destruct H as [_ Hset]. cbn. rewrite Hset.
    unfold idle in Hni. set_solver.
Qed.

Lemma set_cpu_online_idle q v m a : set_cpu_online nr q v m = Ret a → cpu_idle_mask a = cpu_idle_mask m.
Proof. unfold set_cpu_online. intros E. step_cases E; done. Qed.

(** A processor that has a request keeps it while the others move. *)
Lemma step_keeps_request s s' q c :
  oc_inv s → q ≠ c → ¬ idle s c → serving (oc_prog s c) → step nr q s = Ret s' →
  oc_prog s' c = oc_prog s c ∧ ¬ idle s' c.
Proof.
  intros Hinv Hq Hni Hsv H.
  assert (Hon : ∀ b, cpu_online nr c (oc_masks s) = Ret b → b = true).
  { intros b Eb. apply (cpu_online_decides s c b Hinv Eb).
    assert (∃ i l, oc_prog s c = i :: l) as (i & l & E) by (destruct Hsv as [E|E]; rewrite E; unfold waiting_busy; eauto).
    destruct (working_online s c i l Hinv E) as [|Hr]; [done|]. unfold cpu_online, cpumask_test_cpu in Eb.
    by rewrite cpu_ok_false in Eb. }
  unfold step, boot_secondary, deadlock_check in H.
  destruct (oc_prog s q) as [|i rest]; [injection H as <-; done|].
  destruct i; cbn [oc_masks set_prog] in H; step_cases H; try case_match;
    try (split; [cbn; by rewrite ?fn_lookup_insert_ne by done|done]).
  - assert (cpu ≠ c) by (intros ->; by specialize (Hon _ E)).
    split; [cbn; by rewrite !fn_lookup_insert_ne|]. unfold idle. cbn. by rewrite (set_cpu_online_idle _ _ _ _ E0).
  - split; [cbn; by rewrite fn_lookup_insert_ne|]. by apply (set_cpu_idle_keeps s cpu false).
  - split; [cbn; by rewrite fn_lookup_insert_ne|]. by apply (set_cpu_idle_keeps s q true).
Qed.
Lemma run_log sched s s' : run nr sched s = Ret s' → ∃ ev, oc_log s' = oc_log s ++ ev.
Proof.
  revert s. induction sched as [|p sched IH]; cbn; intros s; [intros [= <-]; exists []; by rewrite app_nil_r|].
  destruct (step nr p s) as [s1| | |] eqn:E; cbn [bind]; try done. intros [ev ->]%IH.
  destruct (step_log _ _ _ E) as [ev' ->]. exists (ev' ++ ev). by rewrite app_assoc.
Qed.

Lemma submits_mono c l l' : (∃ ev, l' = l ++ ev) → submits c l `prefix_of` submits c l'.
Proof. intros [ev ->]. rewrite submits_app. by eexists. Qed.
Lemma runs_mono c l l' : (∃ ev, l' = l ++ ev) → runs c l `prefix_of` runs c l'.
Proof. intros [ev ->]. rewrite runs_app. by eexists. Qed.

(** How often [c] moves in a schedule, and how often it must to run its request. *)
Fixpoint moves (c : Z) (sched : list Z) : nat :=
  match sched with [] => 0%nat | p :: sched => ((if (p =? c)%Z then 1 else 0) + moves c sched)%nat end.
Definition needed (l : list instr) : nat := length l.

Lemma step_takes s c :
  oc_inv s → 0 ≤ c < nr → ¬ idle s c → oc_prog s c = waiting_busy → step nr c s = Ret (set_prog c about_to_run s).
Proof.
  intros Hinv Hc Hni E. unfold step. rewrite E. unfold waiting_busy, cpu_idle.
  rewrite cpumask_test_cpu_decides by (done || apply Hinv). cbn [bind]. by rewrite bool_decide_eq_false_2.
Qed.

Lemma step_runs s c :
  oc_inv s → oc_prog s c = about_to_run → ∃ s', step nr c s = Ret s' ∧ runs c (oc_log s') = submits c (oc_log s).
Proof.
  intros Hinv E. eexists. split; [unfold step; by rewrite E|]. cbn [oc_log set_prog record]. rewrite runs_app. cbn. rewrite Z.eqb_refl.
  rewrite (oi_log _ Hinv c), pending_serving; [done| |by right].
  intros H%(oi_idle _ Hinv). rewrite E in H. discriminate.
Qed.

Lemma run_serves sched s s' c :
  oc_inv s → 0 ≤ c < nr → ¬ idle s c → serving (oc_prog s c) →
  run nr sched s = Ret s' → (needed (oc_prog s c) ≤ moves c sched)%nat →
  submits c (oc_log s) `prefix_of` runs c (oc_log s').
Proof.
  intros Hinv Hc. revert s Hinv. induction sched as [|p sched IH]; intros s Hinv Hni Hsv; cbn [run moves].
  { intros _ Hk. destruct Hsv as [E|E]; rewrite E in Hk; cbn in Hk; lia. }
  destruct (step nr p s) as [s1| | |] eqn:E1; cbn [bind]; try done. intros Hrun Hk.
  pose proof (step_inv _ _ _ Hinv E1) as Hinv1.
  destruct (Z.eqb_spec p c) as [->|Hp].
  - destruct Hsv as [E|E].
    + rewrite step_takes in E1 by done. injection E1 as <-. apply (IH (set_prog c about_to_run s)); try done.
      * right. cbn. by rewrite fn_lookup_insert.
      * rewrite E in Hk. cbn in Hk |- *. rewrite fn_lookup_insert. cbn. lia.
    + destruct (step_runs s c Hinv E) as (s2 & E2 & Hr). rewrite E1 in E2. injection E2 as <-. rewrite <- Hr.
      apply runs_mono. by eapply run_log.
  - destruct (step_keeps_request s s1 p c Hinv Hp Hni Hsv E1) as [Hpr Hni1].
    etrans; [apply submits_mono; by eapply step_log|]. apply IH; try done; rewrite Hpr; [done|lia].
Qed.
End on_cpus.

(** ** Properties *)

(** C3: no request is lost, duplicated or reordered.  Whatever the
    interleaving of processors that execute [on_cpu], [on_cpu_async],
    [on_cpumask], [on_cpumask_async] and [do_idle], the functions a processor
    has run are those it was handed, in that order, with at most one still
    outstanding; an idle processor has run them all, so when [cpu_wait] or the
    wait of [on_cpumask] lets the caller pass, every request of the awaited
    processors has been executed. *)
Theorem on_cpus_no_lost_request nr s s' sched :
  0 ≤ nr ≤ NR_CPUS → oc_initial nr s → run nr sched s = Ret s' →
  (∀ c, submits c (oc_log s') = runs c (oc_log s') ∨
        ∃ f d, submits c (oc_log s') = runs c (oc_log s') ++ [(f, d)]) ∧
  (∀ c, idle nr s' c → submits c (oc_log s') = runs c (oc_log s')) ∧
  (∀ p c rest s'', oc_prog s' p = WaitIdle c :: rest → step nr p s' = Ret s'' → oc_prog s'' p = rest →
     submits c (oc_log s') = runs c (oc_log s')) ∧
  (∀ p tmp rest s'', wf_mask tmp → oc_prog s' p = WaitSubset tmp :: rest → step nr p s' = Ret s'' →
     oc_prog s'' p = rest → ∀ c, c ∈ cpus nr tmp → submits c (oc_log s') = runs c (oc_log s')).
Proof.
  intros Hnr H0 Hrun. assert (Hinv : oc_inv nr s') by (eapply run_inv; [done|by apply initial_inv|done]).
  split_and!.
  - intros c. rewrite (oi_log _ _ Hinv c). unfold pending. repeat case_decide; rewrite ?app_nil_r; eauto.
  - intros c Hc. by apply (idle_all_run nr).
  - intros p c rest s'' Hp Hs Hr. apply (idle_all_run nr); [done|]. by apply (passes_wait nr Hnr s' s'' p c rest).
  - intros p tmp rest s'' Ht Hp Hs Hr c Hc. apply (idle_all_run nr); [done|].
    by apply (passes_subset nr Hnr s' s'' p tmp rest).
Qed.

(** C7: every request is served.  From any reachable state in which processor
    [c] was handed a request that it has not run, at most two moves of [c] run it: at
    once when nobody else moves, and also under every schedule in which the
    others move in between. *)
Theorem on_cpus_request_served nr s s' sched c :
  0 ≤ nr ≤ NR_CPUS → oc_initial nr s → run nr sched s = Ret s' → 0 ≤ c < nr →
  submits c (oc_log s') ≠ runs c (oc_log s') →
  (∃ k s'', (k ≤ 2)%nat ∧ run nr (replicate k c) s' = Ret s'' ∧ runs c (oc_log s'') = submits c (oc_log s')) ∧
  (∀ sched' s'', run nr sched' s' = Ret s'' → (2 ≤ moves c sched')%nat →
     submits c (oc_log s') `prefix_of` runs c (oc_log s'')).
Proof.
  intros Hnr H0 Hrun Hc Hpend.
  assert (Hinv : oc_inv nr s') by (eapply run_inv; [done|by apply initial_inv|done]).
  assert (Hni : ¬ idle nr s' c) by (intros H; by apply Hpend, (idle_all_run nr)).
  assert (Hsv : serving (oc_prog s' c)).
  { destruct (decide (serving (oc_prog s' c))) as [|Hn]; [done|]. destruct Hpend.
    rewrite (oi_log _ _ Hinv c), (pending_other nr) by done. by rewrite app_nil_r. }
  split.
  - destruct Hsv as [E|E].
    + assert (H1 : oc_inv nr (set_prog c about_to_run s')) by (eapply step_inv; [done|done|by apply step_takes]).
      destruct (step_runs nr _ c H1) as (s2 & E2 & Hr); [cbn; by rewrite fn_lookup_insert|].
      exists 2%nat, s2. split; [done|]. split; [|done]. cbn [run replicate].
      rewrite (step_takes nr Hnr s' c Hinv Hc Hni E). cbn [bind]. by rewrite E2.
    + destruct (step_runs nr s' c Hinv E) as (s2 & E2 & Hr). exists 1%nat, s2. split; [lia|]. split; [|done].
      cbn. by rewrite E2.
  - intros sched' s'' Hr Hm. apply (run_serves nr Hnr sched' s' s'' c); try done.
    destruct Hsv as [E|E]; rewrite E; cbn; lia.
Qed.

(** Processor 0 calls processor 1 and waits, processor 2 submits to it as well. *)
Definition demo_state : oc_state :=
  mk_oc (mk_cpus [7; 0; 0; 0] [5; 0; 0; 0] [0; 0; 0; 0]) (λ _, 0) (λ _, 0) (λ _, [0; 0; 0; 0]) None false
    (λ p, if p =? 0 then on_cpu 0 1 10 20 else if p =? 2 then on_cpu_async 2 1 11 21 else []) [].

Lemma demo_initial : oc_initial 3 demo_state.
Proof.
  assert (Hw : ∀ m, m ∈ [[5; 0; 0; 0]; [0; 0; 0; 0]] → wf_mask m).
  { intros m Hm. split; [|by repeat (apply elem_of_cons in Hm as [->|Hm]; [done|]); apply elem_of_nil in Hm].
    unfold mask_ok, is_u64. repeat (apply elem_of_cons in Hm as [->|Hm]; [repeat constructor; lia|]).
    by apply elem_of_nil in Hm. }
  constructor; try done.
  - apply Hw. set_solver.
  - apply Hw. set_solver.
  - intros c. apply Hw. set_solver.
  - intros p. cbn. destruct (Z.eqb_spec p 0) as [->|]; [by exists [Call 1 10 20], false|].
    destruct (Z.eqb_spec p 2) as [->|]; [by exists [CallAsync 1 11 21], false|]. by exists [], false.
  - intros c Hc Hoff. cbn. destruct (Z.eqb_spec c 0) as [->|]; [destruct Hoff; by vm_compute|].
    destruct (Z.eqb_spec c 2) as [->|]; [destruct Hoff; by vm_compute|done].
Qed.

Definition demo_run (sched : list Z) : oc_state :=
  match run 3 sched demo_state with Ret s => s | _ => demo_state end.
(** Processor 1 idles, 0 hands it a request, 2 waits for its turn. *)
Definition demo_busy : list Z := [0; 1; 2; 2; 0; 0; 0; 0; 0; 0; 0; 0; 0; 2; 2; 2].
(** Processor 1 runs it, goes idle, gets the one of 2, runs it and goes idle. *)
Definition demo_done : list Z := demo_busy ++ [0; 0; 0; 1; 1; 1; 2; 2; 2; 2; 2; 2; 2; 2; 1; 1; 1].

Lemma on_cpus_no_lost_request_witness :
  runs 1 (oc_log (demo_run demo_done)) = [(10, 20); (11, 21)] ∧
  oc_prog (demo_run demo_done) 0 = [WaitIdle 1; ClearWaiter 1] ∧
  submits 1 (oc_log (demo_run demo_done)) = runs 1 (oc_log (demo_run demo_done)).
Proof.
  split; [by vm_compute|]. split; [by vm_compute|].
  apply (on_cpus_no_lost_request 3 demo_state (demo_run demo_done) demo_done).
  - unfold NR_CPUS. lia.
  - exact demo_initial.
  - unfold demo_run. assert (H : match run 3 demo_done demo_state with Ret _ => true | _ => false end = true) by by vm_compute.
    destruct (run 3 demo_done demo_state); done.
  - by vm_compute.
Defined.

Lemma on_cpus_request_served_witness :
  submits 1 (oc_log (demo_run demo_busy)) = [(10, 20)] ∧ runs 1 (oc_log (demo_run demo_busy)) = [] ∧
  ∃ k s'', (k ≤ 2)%nat ∧ run 3 (replicate k 1) (demo_run demo_busy) = Ret s'' ∧
    runs 1 (oc_log s'') = submits 1 (oc_log (demo_run demo_busy)).
Proof.
  split; [by vm_compute|]. split; [by vm_compute|].
  apply (on_cpus_request_served 3 demo_state (demo_run demo_busy) demo_busy 1).
  - unfold NR_CPUS. lia.
  - exact demo_initial.
  - unfold demo_run. assert (H : match run 3 demo_busy demo_state with Ret _ => true | _ => false end = true) by by vm_compute.
    destruct (run 3 demo_busy demo_state); done.
  - lia.
  - by vm_compute.
Defined.
