(* ===== verification/PageMem.v ===== *)
(** * Page tables: what the architectures share

    The words of physical memory, the pages in it, and the interface between
    the page tables of lib/x86/vm.c and lib/riscv/mmu.c and the page allocator
    they take their tables from. *)

From S2P Require Import Prelude.
From S2P Require Import Bitops.
From S2P Require Import LinkedList.
From S2P Require Import AllocPage.
From S2P Require Import AllocPageInv.
From S2P Require Import AllocPageSpec.
From S2P Require Import AllocPageThm.
From S2P Require Import AllocPageReach.
From S2P Require Import AllocPageProps.
From S2P Require Import Alloc.

(** ** Physical memory *)

(** The 64-bit words of physical memory, by address. *)
Abbreviation pmem := (gmap Z Z).

Definition rd (m : pmem) (a : Z) : res Z := match m !! a with Some v => Ret v | None => Fault end.
Definition wr (m : pmem) (a v : Z) : res pmem :=
  match m !! a with Some _ => Ret (<[a := v]> m) | None => Fault end.

(** [memset(p, 0, PAGE_SIZE)] *)
Definition zero_page (m : pmem) (p : Z) : res pmem := for_ 512 0 (λ i m, wr m (p + 8 * i) 0) m.

(** A page that the entries of page tables can name. *)
Definition page_addr (p : Z) : Prop := p mod PAGE_SIZE = 0 ∧ 0 ≤ p < 2 ^ 52.

(** Words of different pages, or different words of a page, are different. *)
Lemma slot_inj p p' i i' : page_addr p → page_addr p' → 0 ≤ i < 512 → 0 ≤ i' < 512 →
  p + 8 * i = p' + 8 * i' → p = p' ∧ i = i'.
Proof.
  intros [H1 _] [H2 _] Hi Hi' E. change PAGE_SIZE with 4096 in *.
  apply Z.mod_divide in H1 as [a ->], H2 as [b ->]; lia.
Qed.

Definition words (m : pmem) (q : Z) : Prop := ∀ i, 0 ≤ i < 512 → is_Some (m !! (q + 8 * i)).

(** The first [k] words of the page [q] are those of [f], nothing else changes. *)
Definition filled_upto (k q : Z) (f : Z → Z) (m m' : pmem) : Prop :=
  (∀ i, 0 ≤ i < k → m' !! (q + 8 * i) = Some (f i)) ∧
  (∀ a, (∀ i, 0 ≤ i < k → a ≠ q + 8 * i) → m' !! a = m !! a).
Definition filled (q : Z) (f : Z → Z) (m m' : pmem) : Prop := filled_upto 512 q f m m'.

Lemma wr_next k q f m m' :
  filled_upto k q f m m' → 0 ≤ k < 512 → words m q →
  ∃ m'', wr m' (q + 8 * k) (f k) = Ret m'' ∧ filled_upto (k + 1) q f m m''.
Proof.
  intros [H1 H2] Hk Hw. destruct (Hw k Hk) as [x Hx].
  assert (Hx' : m' !! (q + 8 * k) = Some x) by (rewrite H2; [done|intros; lia]).
  exists (<[q + 8 * k := f k]> m'). split; [unfold wr; by rewrite Hx'|]. split.
  - intros i Hi. destruct (decide (i = k)) as [->|]; [apply lookup_insert_eq|].
    rewrite lookup_insert_ne by lia. apply H1. lia.
  - intros a Ha. rewrite lookup_insert_ne by (intros <-; apply (Ha k); lia). apply H2. intros i Hi. apply Ha. lia.
Qed.

Lemma zero_page_spec q m : words m q → ∃ m', zero_page m q = Ret m' ∧ filled q (λ _, 0) m m'.
Proof.
  intros Hw. assert (H : post (zero_page m q) (filled_upto 512 q (λ _, 0) m)).
  { apply (for_inv (λ k, filled_upto k q (λ _, 0) m) 512 0); [split; [lia|done]|].
    intros k m' Hk Hf. destruct (wr_next k q (λ _, 0) m m' Hf) as (m'' & -> & Hf'); [lia|done|done]. }
  apply post_inv in H as (m' & -> & Hf). by exists m'.
Qed.

Lemma filled_other q f m m' p i : filled q f m m' → page_addr q → page_addr p → p ≠ q → 0 ≤ i < 512 →
  m' !! (p + 8 * i) = m !! (p + 8 * i).
Proof. intros [_ H] Hq Hp Hne Hi. apply H. intros j Hj E. by apply slot_inj in E as [-> _]. Qed.

Lemma filled_words q f m m' p : filled q f m m' → words m p → words m' p.
Proof.
  intros [H1 H2] Hw i Hi. set (d := p + 8 * i - q). destruct (decide (d mod 8 = 0 ∧ 0 ≤ d / 8 < 512)) as [[Hd Hr]|Hn].
  - replace (p + 8 * i) with (q + 8 * (d / 8)) by (subst d; Z.div_mod_to_equations; lia). rewrite H1; eauto.
  - rewrite H2; [by apply Hw|]. intros j Hj E. apply Hn. replace d with (j * 8) by (subst d; lia).
    rewrite Z.mod_mul, Z.div_mul by done. done.
Qed.

Lemma words_insert m p a x : words m p → words (<[a := x]> m) p.
Proof. intros Hw i Hi. apply lookup_insert_is_Some. destruct (decide (a = p + 8 * i)); [by left|right]. split; [done|by apply Hw]. Qed.

(** ** Bits of entries *)

Lemma lor_bound n p f : 0 ≤ p < 2 ^ n → 0 ≤ f < 2 ^ n → 0 ≤ Z.lor p f < 2 ^ n.
Proof.
  intros Hp Hf. assert (Hn : 0 ≤ n) by (apply Z.nlt_ge; intros Hn; rewrite (Z.pow_neg_r 2 n) in Hp by done; lia).
  split; [apply Z.lor_nonneg; lia|]. destruct (decide (Z.lor p f = 0)) as [->|]; [lia|].
  assert (0 ≤ Z.lor p f) by (apply Z.lor_nonneg; lia). apply Z.log2_lt_pow2; [lia|]. rewrite Z.log2_lor by lia.
  assert (Hl : ∀ x, 0 ≤ x < 2 ^ n → x ≠ 0 → Z.log2 x < n) by (intros x Hx Hne; apply Z.log2_lt_pow2; lia).
  destruct (decide (f = 0)) as [->|Hf0], (decide (p = 0)) as [->|Hp0]; [done|..].
  - apply Z.max_lub_lt; [by apply Hl|]. cbn. specialize (Hl p Hp Hp0). pose proof (Z.log2_nonneg p). lia.
  - apply Z.max_lub_lt; [|by apply Hl]. cbn. specialize (Hl f Hf Hf0). pose proof (Z.log2_nonneg f). lia.
  - apply Z.max_lub_lt; by apply Hl.
Qed.
Lemma lor_word p f : 0 ≤ p < 2 ^ 64 → 0 ≤ f < 2 ^ 64 → 0 ≤ Z.lor p f < 2 ^ 64.
Proof. apply lor_bound. Qed.

Lemma land_bit_test e k : 0 ≤ k < 64 → negb (Z.land e (u64 (Z.shiftl 1 k)) =? 0) = Z.testbit e k.
Proof.
  intros Hk. rewrite Z.shiftl_1_l, u64_small by (split; [lia|apply Z.pow_lt_mono_r; lia]).
  destruct (Z.eqb_spec (Z.land e (2 ^ k)) 0) as [E|E]; cbn.
  - apply (f_equal (λ x, Z.testbit x k)) in E. rewrite Z.land_spec, Z.pow2_bits_true, andb_true_r, Z.bits_0 in E by lia. done.
  - destruct (Z.testbit e k) eqn:Hb; [done|]. destruct E. apply Z.bits_inj'. intros j Hj.
    rewrite Z.land_spec, Z.bits_0. destruct (decide (j = k)) as [->|]; [by rewrite Hb|].
    rewrite Z.pow2_bits_false by done. apply andb_false_r.
Qed.

Lemma page_low_bits p k : page_addr p → 0 ≤ k < 12 → Z.testbit p k = false.
Proof.
  intros [Hp _] Hk. change PAGE_SIZE with (2 ^ 12) in Hp.
  rewrite <- (Z.mod_pow2_bits_low p 12 k) by lia. rewrite Hp. apply Z.bits_0.
Qed.

(** ** The interface to the page allocator *)

(** What the page tables need of it. *)
Record page_ops (A : Type) : Type := mk_page_ops {
  op_alloc_page : A → res (Z * A);
  op_free_page : Z → A → res A;
}.
Arguments mk_page_ops {A}.
Arguments op_alloc_page {A}.
Arguments op_free_page {A}.

(** [I a P]: in the state [a] exactly the pages of [P] are in use.  [full a]:
    there is no free page.  [ram]: the pages that can be handed out. *)
Class page_laws {A} (o : page_ops A) (I : A → gset Z → Prop) (full : A → Prop) (ram : Z → Prop) : Prop := {
  law_alloc_page a P : I a P →
    post (op_alloc_page o a) (λ '(p, a'),
      (p = 0 ∧ full a) ∨ ((p ∉ P) ∧ ram p ∧ page_addr p ∧ 0 < p ∧ I a' ({[p]} ∪ P)));
  law_free_page a P p : I a P → p ∈ P → post (op_free_page o p a) (λ a', I a' (P ∖ {[p]}));
  law_exact a P P' : I a P → I a P' → P = P';
}.

Section budget.
Context {A : Type} (ops : page_ops A) (full : A → Prop).
Implicit Types a b c : A.

(** The allocator hands out at most [n] pages, one after the other. *)
Inductive chain : nat → A → A → Prop :=
| chain_refl n a : chain n a a
| chain_step n a p a' a'' : op_alloc_page ops a = Ret (p, a') → chain n a' a'' → chain (S n) a a''.

Lemma chain_trans n k a b c : chain n a b → chain k b c → chain (n + k) a c.
Proof.
  induction 1 as [n a|]; intros Hk; [|econstructor; eauto]. revert Hk. clear. revert a.
  intros a H. induction H as [k a|k a p a' a'' E _ IH]; [constructor|].
  rewrite Nat.add_succ_r. by econstructor.
Qed.
Lemma chain_weaken n k a b : chain n a b → (n ≤ k)%nat → chain k a b.
Proof. intros H Hle. replace k with (n + (k - n))%nat by lia. eapply chain_trans; [done|constructor]. Qed.
Lemma chain_once a p a' : op_alloc_page ops a = Ret (p, a') → chain 1 a a'.
Proof. intros E. econstructor; [done|constructor]. Qed.

(** One of the next [n] requests for a page is answered with null, since no
    page is left. *)
Definition out_of_pages (n : nat) a : Prop :=
  ∃ k a' a'', (k < n)%nat ∧ chain k a a' ∧ full a' ∧ op_alloc_page ops a' = Ret (0, a'').

Lemma out_later n k N a b : chain k a b → (k + n ≤ N)%nat → out_of_pages n b → out_of_pages N a.
Proof.
  intros Hc HN (i & a' & a'' & Hi & Hb & H). exists (k + i)%nat, a', a''.
  split; [lia|]. split; [by eapply chain_trans|done].
Qed.
Lemma out_le n N a : (n ≤ N)%nat → out_of_pages n a → out_of_pages N a.
Proof. intros H. apply (out_later n 0); [constructor|lia]. Qed.

(** The call returns with [Q]; it fails only if the allocator runs out of pages
    within [n] requests, and it always returns. *)
Definition may (n : nat) a {R} (r : res R) (Q : R → Prop) : Prop :=
  match r with Ret x => Q x | Hang => False | _ => out_of_pages n a end.

Lemma may_bind n a {R T} (r : res R) (f : R → res T) (Q : T → Prop) :
  may n a (bind r f) Q ↔ may n a r (λ x, may n a (f x) Q).
Proof. by destruct r. Qed.
Lemma may_later n k N a b {R} (r : res R) (Q : R → Prop) :
  chain k a b → (k + n ≤ N)%nat → may n b r Q → may N a r Q.
Proof. intros Hc HN. pose proof (out_later n k N a b Hc HN). destruct r; cbn; auto. Qed.
Lemma may_le n N a {R} (r : res R) (Q : R → Prop) : (n ≤ N)%nat → may n a r Q → may N a r Q.
Proof. intros H. apply (may_later n 0); [constructor|lia]. Qed.
Lemma may_mono n a {R} (r : res R) (Q Q' : R → Prop) : may n a r Q → (∀ x, Q x → Q' x) → may n a r Q'.
Proof. destruct r; cbn; auto. Qed.
Lemma may_post n a {R} (r : res R) (Q : R → Prop) : post r Q → may n a r Q.
Proof. by destruct r. Qed.

(** The call succeeds with [Q], unless the allocator runs out of pages within
    [n] requests. *)
Definition unless_full (n : nat) a {R} (r : res R) (Q : R → Prop) : Prop := out_of_pages n a ∨ post r Q.

Lemma may_unless n a {R} (r : res R) Q : may n a r Q → unless_full n a r Q.
Proof. destruct r; cbn; [by right|by left|by left|done]. Qed.
Lemma unless_bind n a {R T} (r : res R) (f : R → res T) (Q : T → Prop) :
  unless_full n a r (λ x, unless_full n a (f x) Q) → unless_full n a (bind r f) Q.
Proof. intros [|H]; [by left|]. apply post_inv in H as (x & -> & [|H]); [by left|by right]. Qed.
Lemma unless_later n k N a b {R} (r : res R) Q :
  chain k a b → (k + n ≤ N)%nat → unless_full n b r Q → unless_full N a r Q.
Proof. intros Hc HN [H|H]; [left; by eapply out_later|by right]. Qed.
Lemma unless_mono n a {R} (r : res R) (Q Q' : R → Prop) :
  unless_full n a r Q → (∀ x, Q x → Q' x) → unless_full n a r Q'.
Proof. intros [|H] HQ; [by left|]. right. by eapply post_mono. Qed.

(** The next [n] requests are answered with a page. *)
Fixpoint plenty (n : nat) a : bool :=
  match n with
  | O => true
  | S n => match op_alloc_page ops a with Ret (p, a') => negb (p =? 0) && plenty n a' | _ => false end
  end.

Lemma plenty_not_out n a : plenty n a = true → ¬ out_of_pages n a.
Proof.
  intros Hp (k & a' & a'' & Hk & Hc & _ & E). revert n Hp Hk.
  induction Hc as [k a|k a p b a' E' _ IH]; intros [|n] Hp Hk; try lia; cbn in Hp.
  - rewrite E in Hp. done.
  - rewrite E' in Hp. apply andb_true_iff in Hp as [_ Hp]. apply (IH E n Hp). lia.
Qed.

Lemma plenty_le n k a : plenty n a = true → (k ≤ n)%nat → plenty k a = true.
Proof.
  revert k a. induction n as [|n IH]; intros [|k] a H Hk; try done; [lia|]. cbn in *.
  destruct (op_alloc_page ops a) as [[p a']| | |]; [|done..]. apply andb_true_iff in H as [-> H]. apply IH; [done|lia].
Qed.

(** With enough pages the call succeeds. *)
Lemma may_plenty n a {R} (r : res R) Q : plenty n a = true → may n a r Q → post r Q.
Proof. intros H%plenty_not_out. by destruct r; cbn. Qed.
Lemma unless_plenty n a {R} (r : res R) Q : plenty n a = true → unless_full n a r Q → post r Q.
Proof. by intros H%plenty_not_out [|]. Qed.
End budget.

(** ** How many tables a range needs *)

(** The tables on [d] levels that hold the entries [lo] to [hi], beyond one on each level. *)
Fixpoint more_tables (d : nat) (lo hi : Z) : Z :=
  match d with
  | O => 0
  | S d => (hi / 512 - lo / 512) + more_tables d (lo / 512) (hi / 512)
  end.
(** The tables to add for [n] entries from [v] on, of which the first needs at most [b]. *)
Definition tables_for (b d : nat) (v n : Z) : nat :=
  if n <=? 0 then O else (b + Z.to_nat (more_tables d v (v + n - 1)))%nat.

Lemma more_tables_trans d a b c : more_tables d a b + more_tables d b c = more_tables d a c.
Proof. revert a b c. induction d as [|d IH]; intros a b c; cbn [more_tables]; [done|]. specialize (IH (a / 512) (b / 512) (c / 512)). lia. Qed.
Lemma more_tables_pos d a b : a ≤ b → 0 ≤ more_tables d a b.
Proof.
  revert a b. induction d as [|d IH]; intros a b H; cbn [more_tables]; [done|].
  pose proof (Z.div_le_mono a b 512 ltac:(lia) H). specialize (IH _ _ H0). lia.
Qed.

(** A bound on their number for [c] entries, wherever they are. *)
Fixpoint more_tables_max (d : nat) (c : Z) : Z :=
  match d with
  | O => 0
  | S d => (c + 510) / 512 + more_tables_max d ((c + 510) / 512 + 1)
  end.
Definition tables_max (d : nat) (c : Z) : nat := (d + Z.to_nat (more_tables_max d c))%nat.

Lemma more_tables_bound d lo hi c : lo ≤ hi → hi - lo + 1 ≤ c → more_tables d lo hi ≤ more_tables_max d c.
Proof.
  revert lo hi c. induction d as [|d IH]; intros lo hi c Hle Hc; cbn [more_tables more_tables_max]; [done|].
  assert (hi / 512 - lo / 512 ≤ (c + 510) / 512) by (Z.div_mod_to_equations; lia).
  pose proof (Z.div_le_mono lo hi 512 ltac:(lia) Hle).
  specialize (IH (lo / 512) (hi / 512) ((c + 510) / 512 + 1) ltac:(lia) ltac:(lia)). lia.
Qed.
Lemma tables_for_max d v n c : n ≤ c → (tables_for d d v n ≤ tables_max d c)%nat.
Proof.
  intros Hn. unfold tables_for, tables_max. destruct (Z.leb_spec n 0); [lia|].
  pose proof (more_tables_bound d v (v + n - 1) c ltac:(lia) ltac:(lia)). lia.
Qed.

Lemma tables_for_step b b' d v n : 0 ≤ n → Z.of_nat b' ≤ more_tables d v (v + 1) →
  (b + tables_for b' d (v + 1) n ≤ tables_for b d v (n + 1))%nat.
Proof.
  intros Hn Hb. unfold tables_for. rewrite (proj2 (Z.leb_gt (n + 1) 0)) by lia. destruct (Z.leb_spec n 0); [lia|].
  pose proof (more_tables_trans d v (v + 1) (v + n)). pose proof (more_tables_pos d (v + 1) (v + n) ltac:(lia)).
  replace (v + 1 + n - 1) with (v + n) by lia. replace (v + (n + 1) - 1) with (v + n) by lia. lia.
Qed.

(** ** The page allocator as a source of page tables *)

Definition page_alloc_pages : page_ops page_alloc := mk_page_ops alloc_page free_page.

(** [R]: the pages of the areas.  [P]: the allocated blocks of one page. *)
Definition pages_live (R : Z → Prop) (s : page_alloc) (P : gset Z) : Prop :=
  ∃ B, pa_ok s ∧ lock s = false ∧ related s B ∧
    (∀ p, p ∈ P ↔ ∃ b, p = vaddr (Page b) ∧ B !! b = Some 0) ∧
    (∀ n f, active s n → usable_frame (areas s n) f → R (vaddr (Page f))).
Definition pages_full (s : page_alloc) : Prop := exhausted 0 0 AREA_ANY s.

(** Pages that page tables can name. *)
Class table_pages (R : Z → Prop) : Prop := table_page p : R p → page_addr p ∧ 0 < p.

Lemma same_areas_pages R s s' :
  same_areas s s' → (∀ n f, active s n → usable_frame (areas s n) f → R (vaddr (Page f))) →
  ∀ n f, active s' n → usable_frame (areas s' n) f → R (vaddr (Page f)).
Proof. intros Hs H n f Ha Hf. destruct (Hs n) as [Hx Hl]. apply (H n); [by apply Hx|]. by apply (same_layout_frame _ _ _ Hl). Qed.

#[export] Instance page_alloc_page_laws R `{!table_pages R} :
  page_laws page_alloc_pages (pages_live R) pages_full R.
Proof.
  split.
  - intros s P (B & Hpa & Hlk & Hrel & HP & HR). cbn.
    change (alloc_page s) with (page_memalign_order_flags 0 0 AREA_ANY s).
    eapply post_mono; [apply (memalign_flags_spec 0 0 AREA_ANY s B Hpa Hlk Hrel); by vm_compute|].
    intros [r s'] (B' & Hsp & Hpa' & Hlk' & Hrel' & Hsame & [(-> & _ & Hex)|(n & b & -> & Hb & Hact & _ & Hblk)]); [by left|].
    right. assert (Hnz : vaddr (Page b) ≠ 0) by (rewrite vaddr_mul; change PAGE_SIZE with 4096; lia).
    inversion Hsp as [? ? ? ? E1 E2 E3|? ? ? ? b' Hb0 Hb' Hd E1 E2 E3| |]; [by destruct Hnz|].
    apply (vaddr_inj b' b) in E3 as ->. subst B'.
    assert (Hram : R (vaddr (Page b))).
    { apply (HR n); [done|]. destruct (Hsame n) as [_ Hl]. apply (same_layout_frame _ _ _ Hl).
      destruct Hblk as (_ & _ & Hlo & Hhi & _). unfold usable_frame. cbn in Hhi. lia. }
    destruct (table_page _ Hram) as [Hpg Hpos]. split_and!; try done; try apply Hpg.
    + intros Hin. apply HP in Hin as (b2 & E & HB). apply vaddr_inj in E as ->.
      apply (Hd b2 0 b2 HB); unfold in_block; lia.
    + exists (<[b := 0]> B). split_and!; try done; [|by eapply same_areas_pages].
      intros p. rewrite elem_of_union, elem_of_singleton, HP. split.
      * intros [->|(b2 & -> & HB)]; [exists b; by rewrite lookup_insert_eq|]. exists b2. split; [done|]. rewrite lookup_insert_ne; [done|]. intros ->.
        apply (Hd b2 0 b2 HB); unfold in_block; lia.
      * intros (b2 & -> & [[<- _]|[_ HB]]%lookup_insert_Some); [by left|right; eauto].
  - intros s P p (B & Hpa & Hlk & Hrel & HP & HR) Hp. cbn. apply HP in Hp as (b & -> & HB).
    change (free_page (vaddr (Page b)) s) with (free_pages (vaddr (Page b)) s).
    eapply post_mono; [apply (free_pages_spec _ s B Hpa Hlk Hrel); right; by exists b, 0|].
    intros s' (B' & Hsp & Hpa' & Hlk' & Hrel' & Hsame). exists B'. split_and!; try done; [|by eapply same_areas_pages].
    assert (Hnz : vaddr (Page b) ≠ 0).
    { assert (Hram : ∃ n, active s n ∧ usable_frame (areas s n) b).
      { apply Hrel in HB as (n & Hn & _ & _ & Hlo & Hhi & _). exists n. split; [done|]. unfold usable_frame. cbn in Hhi. lia. }
      destruct Hram as (n & Hn & Hu). pose proof (table_page _ (HR n b Hn Hu)) as [_ ?]. lia. }
    inversion Hsp as [| |? b0 o0 Hb0 E|? E]; subst; [|done]. apply vaddr_inj in E as ->.
    intros q. rewrite elem_of_difference, elem_of_singleton, HP. split.
    + intros [(b2 & -> & HB2) Hne]. exists b2. split; [done|]. rewrite lookup_delete_ne; [done|]. by intros ->.
    + intros (b2 & -> & [Hne HB2]%lookup_delete_Some). split; [by eauto|]. by intros ->%vaddr_inj.
  - intros s P P' (B & _ & _ & Hrel & HP & _) (B' & _ & _ & Hrel' & HP' & _).
    assert (B = B') as <- by (apply map_eq; intros b; apply option_eq; intros o; by rewrite (Hrel b o), (Hrel' b o)).
    apply set_eq. intros p. by rewrite HP, HP'.
Qed.

(** ** An instance: the page allocator with one area of 32 pages *)

Definition demo_page (p : Z) : Prop := p mod PAGE_SIZE = 0 ∧ 16 * PAGE_SIZE ≤ p < 48 * PAGE_SIZE.

#[export] Instance demo_table_pages : table_pages demo_page.
Proof. intros p [Ha Hr]. unfold page_addr. change PAGE_SIZE with 4096 in *. split; [split; [done|lia]|lia]. Qed.

Definition demo_words : pmem := list_to_map ((λ i, (8 * i, 0)) <$> seqZ 0 (48 * 512)).

Lemma demo_words_at p i : demo_page p → 0 ≤ i < 512 → demo_words !! (p + 8 * i) = Some 0.
Proof.
  intros [Ha Hr] Hi. change PAGE_SIZE with 4096 in *. unfold demo_words.
  apply elem_of_list_to_map_1.
  - rewrite <- list_fmap_compose. apply NoDup_fmap_2; [intros x y; cbn; lia|apply NoDup_seqZ].
  - apply list_elem_of_fmap. exists ((p + 8 * i) / 8). rewrite elem_of_seqZ. split; [f_equal|]; Z.div_mod_to_equations; lia.
Qed.

Lemma demo_plenty : plenty page_alloc_pages 20 demo = true.
Proof. vm_compute. reflexivity. Qed.

#[local] Opaque demo demo_words.

Lemma demo_live : pages_live demo_page demo ∅.
Proof.
  destruct (reach_inv demo ∅ demo_reach) as (Hpa & Hlk & Hrel).
  exists ∅. split; [exact Hpa|]. split; [exact Hlk|]. split; [exact Hrel|].
  split; [intros p; split; [done|by intros (b & _ & ?)]|]. intros n f Hn Hf.
  assert (Em : areas_mask demo = 1) by (vm_compute; reflexivity).
  assert (n = 0) as ->.
  { destruct Hn as [Hn Hb]. unfold MAX_AREAS in Hn. rewrite Em in Hb.
    assert (n = 0 ∨ n = 1 ∨ n = 2 ∨ n = 3) as [->|[->|[->| ->]]] by lia; [done|..]; destruct Hb; by vm_compute. }
  assert (Eb : base (areas demo 0) = 16) by (vm_compute; reflexivity). assert (Et : top (areas demo 0) = 48) by (vm_compute; reflexivity).
  unfold usable_frame in Hf. rewrite Eb, Et in Hf. rewrite vaddr_mul. unfold demo_page. change PAGE_SIZE with 4096.
  split; [by apply Z.mod_mul|lia].
Qed.
