(* ===== verification/X86Vm.v ===== *)
(** * lib/x86/vm.c: page tables of the 64-bit x86 guest

    Physical memory is a map from the addresses of 64-bit words to their
    values; [virt_to_phys] and [phys_to_virt] are the identity (asm/io.h).
    Page tables are allocated through [page_ops] of PageMem.v, an interface the
    page allocator implements.  The build without CONFIG_EFI is modelled; the TLB
    is not, so [flush_tlb] has no effect. *)

From S2P Require Import Prelude.
From S2P Require Import Bitops.
From S2P Require Import LinkedList.
From S2P Require Import AllocPage.
From S2P Require Import PageMem.

(** ** asm/page.h *)

Definition LARGE_PAGE_SIZE : Z := 512 * PAGE_SIZE.
Definition PT_PRESENT_MASK : Z := u64 (Z.shiftl 1 0).
Definition PT_WRITABLE_MASK : Z := u64 (Z.shiftl 1 1).
Definition PT_USER_MASK : Z := u64 (Z.shiftl 1 2).
Definition PT_PAGE_SIZE_MASK : Z := u64 (Z.shiftl 1 7).
Definition PT_ADDR_UPPER_BOUND : Z := 51.
Definition PT_ADDR_LOWER_BOUND : Z := PAGE_SHIFT.
Definition PT_ADDR_MASK : Z := GENMASK_ULL PT_ADDR_UPPER_BOUND PT_ADDR_LOWER_BOUND.
Definition PAGE_LEVEL : nat := 4.
Definition PGDIR_WIDTH : Z := 9.
Definition PGDIR_MASK : Z := 511.
Definition PGDIR_BITS (lvl : Z) : Z := (lvl - 1) * PGDIR_WIDTH + PAGE_SHIFT.
Definition PGDIR_OFFSET (va lvl : Z) : Z := Z.land (Z.shiftr va (PGDIR_BITS lvl)) PGDIR_MASK.

(** ** State *)

Record vm_vcpu_info : Type := mk_info { info_cr3 : Z; info_cr4 : Z; info_cr0 : Z }.

(** The state of vm.c, the control registers, and the part of the state of
    vmalloc.c that [setup_mmu] sets. *)
Record vm_state (A : Type) : Type := mk_vm {
  vm_mem : pmem;
  vm_pages : A;
  pte_opt_mask : Z;
  vm_regs : Z → vm_vcpu_info;   (** per processor *)
  vm_lock : bool;
  vfree_top : Z;
  vm_ops_enabled : bool;        (** [alloc_ops == &vmalloc_ops] *)
}.
Arguments mk_vm {A}.
Arguments vm_mem {A}.
Arguments vm_pages {A}.
Arguments pte_opt_mask {A}.
Arguments vm_regs {A}.
Arguments vm_lock {A}.
Arguments vfree_top {A}.
Arguments vm_ops_enabled {A}.

Record pte_search : Type := mk_search { ps_level : Z; ps_pte : Z }.

Section vm.
Context {A : Type} (ops : page_ops A).
Implicit Types s : vm_state A.

Definition set_mem (m : pmem) s : vm_state A :=
  mk_vm m (vm_pages s) (pte_opt_mask s) (vm_regs s) (vm_lock s) (vfree_top s) (vm_ops_enabled s).
Definition set_pages (a : A) s : vm_state A :=
  mk_vm (vm_mem s) a (pte_opt_mask s) (vm_regs s) (vm_lock s) (vfree_top s) (vm_ops_enabled s).
Definition set_opt_mask (x : Z) s : vm_state A :=
  mk_vm (vm_mem s) (vm_pages s) x (vm_regs s) (vm_lock s) (vfree_top s) (vm_ops_enabled s).
Definition set_regs (i : Z) (r : vm_vcpu_info) s : vm_state A :=
  mk_vm (vm_mem s) (vm_pages s) (pte_opt_mask s) (<[i := r]> (vm_regs s)) (vm_lock s) (vfree_top s) (vm_ops_enabled s).
Definition set_vfree_top (p : Z) s : vm_state A :=
  mk_vm (vm_mem s) (vm_pages s) (pte_opt_mask s) (vm_regs s) (vm_lock s) p (vm_ops_enabled s).
Definition set_vm_lock (b : bool) s : vm_state A :=
  mk_vm (vm_mem s) (vm_pages s) (pte_opt_mask s) (vm_regs s) b (vfree_top s) (vm_ops_enabled s).
Definition set_vm_ops (b : bool) s : vm_state A :=
  mk_vm (vm_mem s) (vm_pages s) (pte_opt_mask s) (vm_regs s) (vm_lock s) (vfree_top s) b.

Definition vm_alloc_page s : res (Z * vm_state A) :=
  let* '(p, a) := op_alloc_page ops (vm_pages s) in Ret (p, set_pages a s).
Definition load (a : Z) s : res Z := rd (vm_mem s) a.
Definition store (a v : Z) s : res (vm_state A) := let* m := wr (vm_mem s) a v in Ret (set_mem m s).

(** [memset(p, 0, PAGE_SIZE)]; a null pointer is not an object. *)
Definition clear_page (p : Z) s : res (vm_state A) :=
  valid! (negb (p =? 0)); let* m := zero_page (vm_mem s) p in Ret (set_mem m s).

Definition present (pte : Z) : bool := negb (Z.land pte PT_PRESENT_MASK =? 0).
Definition large (pte : Z) : bool := negb (Z.land pte PT_PAGE_SIZE_MASK =? 0).
Definition pte_addr (pte : Z) : Z := Z.land pte PT_ADDR_MASK.

(** ** Installing an entry *)

(** The loop: from [level] down to [pte_level]; the table at [pte_level]. *)
Fixpoint install_walk (level : nat) (pte_level virt pt pt_page : Z) s : res (Z * vm_state A) :=
  if Z.of_nat level <=? pte_level then Ret (pt, s) else
  match level with
  | O => Fault
  | S level' =>
      let a := pt + 8 * PGDIR_OFFSET virt (Z.of_nat level) in
      let* e := load a s in
      let* '(pt_page, s) :=
        if present e then Ret (pt_page, s) else
        let* '(new_pt, pt_page, s) :=
          if pt_page =? 0 then let* '(p, s) := vm_alloc_page s in Ret (p, pt_page, s)
          else Ret (pt_page, 0, s) in
        let* s := clear_page new_pt s in
        let* s := store a (Z.lor (Z.lor (Z.lor new_pt PT_PRESENT_MASK) PT_WRITABLE_MASK) (pte_opt_mask s)) s in
        Ret (pt_page, s) in
      let* e := load a s in
      install_walk level' pte_level virt (pte_addr e) pt_page s
  end.

(** Returns the address of the entry. *)
Definition install_pte (cr3 pte_level virt pte pt_page : Z) s : res (Z * vm_state A) :=
  let* '(pt, s) := install_walk PAGE_LEVEL pte_level virt cr3 pt_page s in
  let a := pt + 8 * PGDIR_OFFSET virt pte_level in
  let* s := store a pte s in
  Ret (a, s).

(** ** Searching *)

Fixpoint find_pte_walk (level : nat) (virt lowest_level pt : Z) s : res pte_search :=
  match level with
  | O => Fault
  | S level' =>
      let shift := (Z.of_nat level - 1) * PGDIR_WIDTH + 12 in
      let offset := Z.land (Z.shiftr virt shift) PGDIR_MASK in
      let r := mk_search (Z.of_nat level) (pt + 8 * offset) in
      let* pte := load (ps_pte r) s in
      if negb (present pte) then Ret r else
      if ((ps_level r =? 2) || (ps_level r =? 3)) && large pte then Ret r else
      if ps_level r =? lowest_level then Ret r else
      find_pte_walk level' virt lowest_level (pte_addr pte) s
  end.

Definition find_pte_level (cr3 virt lowest_level : Z) s : res pte_search :=
  assert! ((1 <=? lowest_level) && (lowest_level <=? Z.of_nat PAGE_LEVEL));
  find_pte_walk PAGE_LEVEL virt lowest_level cr3 s.

Definition found_huge_pte (search : pte_search) s : res bool :=
  if (ps_level search =? 2) || (ps_level search =? 3) then
    let* pte := load (ps_pte search) s in Ret (present pte && large pte)
  else Ret false.

Definition found_leaf_pte (search : pte_search) s : res bool :=
  if ps_level search =? 1 then Ret true else found_huge_pte search s.

(** Null is 0. *)
Definition get_pte (cr3 virt : Z) s : res Z :=
  let* search := find_pte_level cr3 virt 1 s in
  let* b := found_leaf_pte search s in
  Ret (if b then ps_pte search else 0).

Definition get_pte_level (cr3 virt pte_level : Z) s : res Z :=
  let* search := find_pte_level cr3 virt pte_level s in
  Ret (if ps_level search =? pte_level then ps_pte search else 0).

(** ** Mapping ranges *)

Definition install_large_page (cr3 phys virt : Z) s : res (Z * vm_state A) :=
  let flags := Z.lor (Z.lor (Z.lor PT_PRESENT_MASK PT_WRITABLE_MASK) (pte_opt_mask s)) PT_PAGE_SIZE_MASK in
  install_pte cr3 2 virt (Z.lor phys flags) 0 s.

Definition install_page (cr3 phys virt : Z) s : res (Z * vm_state A) :=
  let flags := Z.lor (Z.lor PT_PRESENT_MASK PT_WRITABLE_MASK) (pte_opt_mask s) in
  install_pte cr3 1 virt (Z.lor phys flags) 0 s.

(** The loop of [install_pages]: at most [len / PAGE_SIZE] iterations. *)
Fixpoint install_pages_loop (fuel : nat) (cr3 phys max virt : Z) s : res (vm_state A) :=
  match fuel with
  | O => Hang
  | S fuel =>
      if u64 (phys + PAGE_SIZE) <=? max then
        let* '(_, s) := install_page cr3 phys virt s in
        install_pages_loop fuel cr3 (u64 (phys + PAGE_SIZE)) max (u64 (virt + PAGE_SIZE)) s
      else Ret s
  end.

Definition install_pages (cr3 phys len virt : Z) s : res (vm_state A) :=
  let max := u64 (len + phys) in
  assert! (phys mod PAGE_SIZE =? 0);
  assert! (virt mod PAGE_SIZE =? 0);
  assert! (len mod PAGE_SIZE =? 0);
  install_pages_loop (S (Z.to_nat (len / PAGE_SIZE))) cr3 phys max virt s.

Fixpoint any_present_loop (fuel : nat) (cr3 curr max : Z) s : res bool :=
  match fuel with
  | O => Hang
  | S fuel =>
      if curr <? max then
        let* ptep := get_pte cr3 curr s in
        let* b := if negb (ptep =? 0) then let* e := load ptep s in Ret (present e) else Ret false in
        if b then Ret true else any_present_loop fuel cr3 (u64 (curr + PAGE_SIZE)) max s
      else Ret false
  end.

Definition any_present_pages (cr3 virt len : Z) s : res bool :=
  any_present_loop (S (S (Z.to_nat (len / PAGE_SIZE)))) cr3 virt (u64 (virt + len)) s.

Definition X86_MMU_MAP_USER : Z := BIT 0.
Definition X86_MMU_MAP_HUGE : Z := BIT 1.

Fixpoint large_pages_loop (fuel : nat) (cr3 phys max : Z) s : res (Z * vm_state A) :=
  match fuel with
  | O => Hang
  | S fuel =>
      if u64 (phys + LARGE_PAGE_SIZE) <=? max then
        let* '(_, s) := install_large_page cr3 phys phys s in
        large_pages_loop fuel cr3 (u64 (phys + LARGE_PAGE_SIZE)) max s
      else Ret (phys, s)
  end.

Definition __setup_mmu_range (cr3 start len mmu_flags : Z) s : res (vm_state A) :=
  let orig_opt_mask := pte_opt_mask s in
  let max := u64 (len + start) in
  let s := if negb (Z.land mmu_flags X86_MMU_MAP_USER =? 0)
           then set_opt_mask (Z.lor (pte_opt_mask s) PT_USER_MASK) s else s in
  let* '(phys, s) :=
    if negb (Z.land mmu_flags X86_MMU_MAP_HUGE =? 0)
    then large_pages_loop (S (Z.to_nat (len / LARGE_PAGE_SIZE))) cr3 start max s else Ret (start, s) in
  let* s := install_pages cr3 phys (u64 (max - phys)) phys s in
  Ret (set_opt_mask orig_opt_mask s).

Definition setup_mmu_range (cr3 start len : Z) s : res (vm_state A) :=
  __setup_mmu_range cr3 start len X86_MMU_MAP_HUGE s.

(** ** Translation and splitting *)

Definition virt_to_pte_phys (cr3 mem : Z) s : res Z :=
  let* ptep := get_pte cr3 mem s in
  valid! (negb (ptep =? 0));
  let* e := load ptep s in
  Ret (u64 (pte_addr e + Z.land mem (PAGE_SIZE - 1))).

Definition split_large_page (ptep level : Z) s : res (vm_state A) :=
  let* pte := load ptep s in
  assert! (present pte);
  assert! (large pte);
  assert! ((level =? 2) || (level =? 3));
  let* '(new_pt, s) := vm_alloc_page s in
  assert! (negb (new_pt =? 0));
  let prototype := Z.land pte (u64 (Z.lnot PT_ADDR_MASK)) in
  let prototype := if level =? 2 then Z.land prototype (u64 (Z.lnot PT_PAGE_SIZE_MASK)) else prototype in
  let pa := pte_addr pte in
  let* '(_, s) := for_ 512 0 (λ i '(pa, s),
      let* s := store (new_pt + 8 * i) (Z.lor prototype pa) s in
      Ret (u64 (pa + Z.shiftl 1 (PGDIR_BITS (level - 1))), s)) (pa, s) in
  let pte := Z.land pte (u64 (Z.lnot PT_PAGE_SIZE_MASK)) in
  let pte := Z.land pte (u64 (Z.lnot PT_ADDR_MASK)) in
  let pte := Z.lor pte new_pt in
  store ptep pte s.

(** The processor that executes the code. *)
Variable me : Z.

Definition current_page_table s : Z := info_cr3 (vm_regs s me).

(** One half of [force_4k_page]. *)
Definition force_level (cr3 addr level : Z) s : res (vm_state A) :=
  let* ptep := get_pte_level cr3 addr level s in
  assert! (negb (ptep =? 0));
  let* pte := load ptep s in
  assert! (present pte);
  if large pte then split_large_page ptep level s else Ret s.

Definition force_4k_page (addr : Z) s : res (vm_state A) :=
  let cr3 := current_page_table s in
  let* s := force_level cr3 addr 3 s in
  force_level cr3 addr 2 s.

Fixpoint walk_pte_loop (fuel : nat) (cr3 curr end_ : Z)
    (callback : pte_search → Z → vm_state A → res (vm_state A)) s : res (vm_state A) :=
  match fuel with
  | O => Hang
  | S fuel =>
      if curr <? end_ then
        let* search := find_pte_level cr3 curr 1 s in
        let* leaf := found_leaf_pte search s in
        assert! (leaf);
        let page_size := u64 (Z.shiftl 1 (PGDIR_BITS (ps_level search))) in
        let* s := callback search curr s in
        walk_pte_loop fuel cr3 (ALIGN_DOWN (u64 (curr + page_size)) page_size) end_ callback s
      else Ret s
  end.

Definition walk_pte (virt len : Z) (callback : pte_search → Z → vm_state A → res (vm_state A)) s : res (vm_state A) :=
  walk_pte_loop (S (S (Z.to_nat (len / PAGE_SIZE)))) (current_page_table s) virt (u64 (virt + len)) callback s.

(** ** Enabling paging *)

Definition X86_CR0_PE : Z := BIT 0.
Definition X86_CR0_WP : Z := BIT 16.
Definition X86_CR0_PG : Z := BIT 31.

Definition vm_spin_lock s : res (vm_state A) := if vm_lock s then Hang else Ret (set_vm_lock true s).
Definition vm_spin_unlock s : vm_state A := set_vm_lock false s.

Definition init_alloc_vpage (top : Z) s : res (vm_state A) :=
  let* s := vm_spin_lock s in
  assert! (negb (vm_ops_enabled s));
  Ret (vm_spin_unlock (set_vfree_top top s)).

Definition set_additional_vcpu_vmregs (i : Z) (info : vm_vcpu_info) s : vm_state A := set_regs i info s.

(** [opt_mask] is the value pointed to, if the pointer is not null. *)
Definition setup_mmu (cpu_count end_of_memory : Z) (opt_mask : option Z) s : res (Z * vm_state A) :=
  let* '(cr3, s) := vm_alloc_page s in
  let s := set_opt_mask (match opt_mask with Some x => x | None => PT_USER_MASK end) s in
  let* s := clear_page cr3 s in
  let end_of_memory := if end_of_memory <? 2 ^ 32 then 2 ^ 32 else end_of_memory in
  let* s := setup_mmu_range cr3 0 end_of_memory s in
  let* s := init_alloc_vpage (u64 (Z.lnot (PAGE_SIZE - 1))) s in
  let info := mk_info cr3 (info_cr4 (vm_regs s me)) (Z.lor (Z.lor X86_CR0_PG X86_CR0_PE) X86_CR0_WP) in
  let s := set_regs me info s in
  let* s := for_ (Z.to_nat (cpu_count - 1)) 1 (λ i s, Ret (set_additional_vcpu_vmregs i info s)) s in
  Ret (cr3, s).
End vm.
