(* ===== verification/X86VmProps.v ===== *)
(** * lib/x86/vm.c: page tables and the translation they define

    [hw_walk] is the page walk of the processor; the theorems relate the
    functions of vm.c to it. *)

From S2P Require Import Prelude.
From S2P Require Import Bitops.
From S2P Require Import LinkedList.
From S2P Require Import AllocPage.
From S2P Require Import PageMem.
From S2P Require Import X86Vm.

(** ** Entries and indices *)

Lemma PT_ADDR_MASK_shift : PT_ADDR_MASK = Z.shiftl (Z.ones 40) 12.
Proof. by vm_compute. Qed.

Lemma pte_addr_eq e : pte_addr e = (e / 2 ^ 12) mod 2 ^ 40 * 2 ^ 12.
Proof.
  unfold pte_addr. rewrite PT_ADDR_MASK_shift.
  transitivity (Z.shiftl (Z.land (Z.shiftr e 12) (Z.ones 40)) 12).
  - apply Z.bits_inj'. intros k Hk. rewrite Z.land_spec, !Z.shiftl_spec by done.
    destruct (Z.lt_ge_cases k 12).
    + rewrite !(Z.testbit_neg_r _ (k - 12)) by lia. by rewrite andb_false_r.
    + rewrite Z.land_spec, Z.shiftr_spec by lia. by replace (k - 12 + 12) with k by lia.
  - by rewrite Z.land_ones, Z.shiftr_div_pow2, Z.shiftl_mul_pow2 by lia.
Qed.

Lemma pte_addr_page e : page_addr (pte_addr e).
Proof. rewrite pte_addr_eq. unfold page_addr, PAGE_SIZE, PAGE_SHIFT. change (u64 _) with 4096. Z.div_mod_to_equations. lia. Qed.

Lemma pte_addr_id p : page_addr p → pte_addr p = p.
Proof. rewrite pte_addr_eq. unfold page_addr. change PAGE_SIZE with 4096. intros [H1 H2]. Z.div_mod_to_equations. lia. Qed.

(** Flags that do not touch the address. *)
Definition flags_ok (f : Z) : Prop := 0 ≤ f < 2 ^ 64 ∧ pte_addr f = 0.

Lemma pte_addr_lor p f : page_addr p → flags_ok f → pte_addr (Z.lor p f) = p.
Proof.
  intros Hp [_ Hf]. unfold pte_addr in *. rewrite Z.land_lor_distr_l, Hf, Z.lor_0_r. by apply pte_addr_id.
Qed.

Lemma flags_lor f g : flags_ok f → flags_ok g → flags_ok (Z.lor f g).
Proof.
  intros [Hf Ef] [Hg Eg]. split; [by apply lor_word|]. unfold pte_addr in *. by rewrite Z.land_lor_distr_l, Ef, Eg.
Qed.

Definition vpn (va : Z) (l : Z) : Z := va mod 2 ^ 48 / 2 ^ (12 + 9 * l).

Lemma PGDIR_OFFSET_eq va l : 1 ≤ l → PGDIR_OFFSET va l = va / 2 ^ (12 + 9 * (l - 1)) mod 512.
Proof.
  intros Hl. unfold PGDIR_OFFSET, PGDIR_BITS, PGDIR_WIDTH, PGDIR_MASK, PAGE_SHIFT. change 511 with (Z.ones 9).
  rewrite Z.land_ones, Z.shiftr_div_pow2 by lia. do 3 f_equal. lia.
Qed.

Lemma PGDIR_OFFSET_range va l : 1 ≤ l → 0 ≤ PGDIR_OFFSET va l < 512.
Proof. intros Hl. rewrite PGDIR_OFFSET_eq by done. apply Z.mod_pos_bound. lia. Qed.

Lemma level_cases (l : Z) : 1 ≤ l ≤ 4 → l = 1 ∨ l = 2 ∨ l = 3 ∨ l = 4.
Proof. lia. Qed.

Lemma vpn_step va l : 1 ≤ l ≤ 4 → vpn va (l - 1) = vpn va l * 512 + PGDIR_OFFSET va l.
Proof.
  intros Hl. rewrite PGDIR_OFFSET_eq by lia. unfold vpn.
  destruct (level_cases l Hl) as [->|[->|[->| ->]]]; cbn -[Z.div Z.modulo]; Z.div_mod_to_equations; lia.
Qed.

Lemma vpn_top va : vpn va 4 = 0.
Proof. unfold vpn. apply Z.div_small. apply Z.mod_pos_bound. lia. Qed.

(** ** The page walk of the processor *)

(** An entry that ends the walk: of the last level, or a large page. *)
Definition leaf (l : Z) (e : Z) : bool := (l =? 1) || (((l =? 2) || (l =? 3)) && large e).

(** Level, address and value of the leaf entry that maps [va]. *)
Fixpoint hw_walk (n : nat) (m : pmem) (p va : Z) : option (Z * Z * Z) :=
  match n with
  | O => None
  | S n' =>
      let a := p + 8 * PGDIR_OFFSET va (Z.of_nat n) in
      e ← m !! a;
      if negb (present e) then None else
      if leaf (Z.of_nat n) e then Some (Z.of_nat n, a, e) else hw_walk n' m (pte_addr e) va
  end.

(** The physical address a leaf entry of level [l] gives to [va]. *)
Definition leaf_phys (l e va : Z) : Z :=
  pte_addr e / 2 ^ PGDIR_BITS l * 2 ^ PGDIR_BITS l + va mod 2 ^ PGDIR_BITS l.
Definition translate (m : pmem) (root va : Z) : option Z :=
  '(l, _, e) ← hw_walk 4 m root va; Some (leaf_phys l e va).

(** ** Well-formed tables *)

(** [tabs] names the pages used as tables, with their level and the upper
    part of the addresses they translate.  Every table the processor reaches is
    in [tabs]; a page may stay in [tabs] without being reached, since the
    source never releases a table, also when an entry for a large page
    replaces the entry that pointed to it.  Where the difference matters,
    [walks_through] says that a table is reached. *)
Record pt_ok (root : Z) (tabs : gmap Z (Z * Z)) (m : pmem) : Prop := {
  po_root : tabs !! root = Some (4, 0);
  po_page p l v : tabs !! p = Some (l, v) → 1 ≤ l ≤ 4 ∧ page_addr p ∧ 0 < p;
  po_entry p l v i : tabs !! p = Some (l, v) → 0 ≤ i < 512 → ∃ e, m !! (p + 8 * i) = Some e ∧ 0 ≤ e < 2 ^ 64;
  po_child p l v i e : tabs !! p = Some (l, v) → 0 ≤ i < 512 → m !! (p + 8 * i) = Some e →
    present e = true → leaf l e = false → tabs !! pte_addr e = Some (l - 1, v * 512 + i);
}.

(** The table of level [L] on the path of [va]. *)
Fixpoint tab_at (n : nat) (L : nat) (m : pmem) (p va : Z) : option Z :=
  if (n =? L)%nat then Some p else
  match n with
  | O => None
  | S n' =>
      e ← m !! (p + 8 * PGDIR_OFFSET va (Z.of_nat n));
      if present e && negb (leaf (Z.of_nat n) e) then tab_at n' L m (pte_addr e) va else None
  end.

Lemma hw_walk_tab n L m p va q : tab_at n L m p va = Some q → hw_walk n m p va = hw_walk L m q va.
Proof.
  revert p. induction n as [|n IH]; intros p; cbn [tab_at].
  - destruct L; [by intros [= ->]|done].
  - destruct (Nat.eqb_spec (S n) L) as [<-|]; [by intros [= ->]|]. cbn [hw_walk].
    destruct (m !! _) as [e|]; [|done]. cbn [mbind option_bind]. destruct (present e); [|done].
    destruct (leaf _ e); [done|]. apply IH.
Qed.

Section tables.
Context (root : Z) (tabs : gmap Z (Z * Z)) (m : pmem) (Hok : pt_ok root tabs m).

Lemma walk_child n p va e :
  tabs !! p = Some (Z.of_nat (S n), vpn va (Z.of_nat (S n))) →
  m !! (p + 8 * PGDIR_OFFSET va (Z.of_nat (S n))) = Some e → present e = true → leaf (Z.of_nat (S n)) e = false →
  tabs !! pte_addr e = Some (Z.of_nat n, vpn va (Z.of_nat n)).
Proof.
  intros Hp He Hpr Hl. destruct (po_page _ _ _ Hok _ _ _ Hp) as [Hr _].
  rewrite (po_child _ _ _ Hok p _ _ _ e Hp (PGDIR_OFFSET_range va (Z.of_nat (S n)) ltac:(lia)) He Hpr Hl).
  rewrite <- vpn_step by lia. do 2 f_equal; [lia|f_equal; lia].
Qed.

Lemma tab_at_tabs n L p va q :
  tabs !! p = Some (Z.of_nat n, vpn va (Z.of_nat n)) → tab_at n L m p va = Some q →
  tabs !! q = Some (Z.of_nat L, vpn va (Z.of_nat L)).
Proof.
  revert p. induction n as [|n IH]; intros p Hp; cbn [tab_at].
  - destruct L; [by intros [= ->]|done].
  - destruct (Nat.eqb_spec (S n) L) as [<-|]; [by intros [= ->]|].
    destruct (m !! _) as [e|] eqn:He; [|done]. cbn [mbind option_bind]. destruct (present e) eqn:Hpr; [|done].
    destruct (leaf _ e) eqn:Hl; [done|]. apply IH. by apply (walk_child n p).
Qed.

(** Writing entry [i] of the table [p] does not concern the walk of an
    address outside the range of the entry. *)
Lemma walk_write n q va p l v i e :
  tabs !! q = Some (Z.of_nat n, vpn va (Z.of_nat n)) → tabs !! p = Some (l, v) → 0 ≤ i < 512 →
  vpn va (l - 1) ≠ v * 512 + i →
  hw_walk n (<[p + 8 * i := e]> m) q va = hw_walk n m q va.
Proof.
  intros Hq Hp Hi Hva. revert q Hq. induction n as [|n IH]; intros q Hq; cbn [hw_walk]; [done|].
  destruct (po_page _ _ _ Hok _ _ _ Hq) as (Hr & Hqp & _). destruct (po_page _ _ _ Hok _ _ _ Hp) as (Hr' & Hpp & _).
  pose proof (PGDIR_OFFSET_range va (Z.of_nat (S n)) ltac:(lia)) as Ho.
  rewrite lookup_insert_ne.
  2:{ intros E. apply slot_inj in E as [-> ->]; [|done..]. rewrite Hq in Hp. injection Hp as <- <-.
      apply Hva. rewrite vpn_step by lia. done. }
  destruct (m !! (q + _)) as [e'|] eqn:He; [|done]. cbn [mbind option_bind].
  destruct (present e') eqn:Hpr; [|done]. destruct (leaf _ e') eqn:Hl; [done|]. cbn [negb].
  apply IH. by apply (walk_child n q).
Qed.
End tables.

(** ** Flags of entries *)

Lemma present_bit e : present e = Z.testbit e 0.
Proof. apply land_bit_test. lia. Qed.
Lemma large_bit e : large e = Z.testbit e 7.
Proof. apply land_bit_test. lia. Qed.
Lemma present_lor a b : present (Z.lor a b) = present a || present b.
Proof. rewrite !present_bit. apply Z.lor_spec. Qed.
Lemma large_lor a b : large (Z.lor a b) = large a || large b.
Proof. rewrite !large_bit. apply Z.lor_spec. Qed.

Lemma page_not_large p : page_addr p → large p = false.
Proof. intros Hp. rewrite large_bit. apply page_low_bits; [done|lia]. Qed.

(** The option mask adds flags only, and never makes a page large. *)
Definition opt_ok (f : Z) : Prop := flags_ok f ∧ large f = false.

(** The flags of a new table, and of a mapped page. *)
Definition table_entry (p f : Z) : Z := Z.lor (Z.lor (Z.lor p PT_PRESENT_MASK) PT_WRITABLE_MASK) f.

Lemma table_entry_ok p f : page_addr p → opt_ok f →
  0 ≤ table_entry p f < 2 ^ 64 ∧ present (table_entry p f) = true ∧ large (table_entry p f) = false ∧
  pte_addr (table_entry p f) = p.
Proof.
  intros Hp [Hf Hl]. unfold table_entry. split; [|split_and!].
  - pose proof Hp as [_ ?]. destruct Hf as [Hf _]. change PT_PRESENT_MASK with 1. change PT_WRITABLE_MASK with 2.
    repeat apply lor_word; lia.
  - rewrite !present_lor. change (present PT_PRESENT_MASK) with true. by rewrite orb_true_r.
  - by rewrite !large_lor, page_not_large, Hl.
  - rewrite <- !Z.lor_assoc. apply pte_addr_lor; [done|]. repeat apply flags_lor; [by split|by split|done].
Qed.

(** ** Adding a table *)

Section link.
Context (root : Z) (tabs : gmap Z (Z * Z)) (m m' : pmem) (Hok : pt_ok root tabs m).
Context (p l v i q e : Z).
Context (Hp : tabs !! p = Some (l, v)) (Hl : 1 < l) (Hi : 0 ≤ i < 512).
Context (Hq : page_addr q) (Hq0 : 0 < q) (Hfresh : tabs !! q = None).
Context (f : Z → Z) (Hm : filled q f m m').
Context (He : 0 ≤ e < 2 ^ 64) (Hpr : present e = true) (Hlg : leaf l e = false) (Ha : pte_addr e = q).

Definition linked : pmem := <[p + 8 * i := e]> m'.
Definition linked_tabs : gmap Z (Z * Z) := <[q := (l - 1, v * 512 + i)]> tabs.

Lemma tab_not_q p' x : tabs !! p' = Some x → p' ≠ q.
Proof. intros H ->. by rewrite H in Hfresh. Qed.

Lemma linked_new j : 0 ≤ j < 512 → linked !! (q + 8 * j) = Some (f j).
Proof.
  intros Hj. unfold linked. rewrite lookup_insert_ne; [by apply Hm|].
  intros E. apply slot_inj in E as [E _]; [by apply (tab_not_q p (l, v))|by eapply po_page|done..].
Qed.

Lemma linked_slot : linked !! (p + 8 * i) = Some e.
Proof. apply lookup_insert_eq. Qed.

Lemma linked_old p' x j : tabs !! p' = Some x → 0 ≤ j < 512 → (p', j) ≠ (p, i) →
  linked !! (p' + 8 * j) = m !! (p' + 8 * j).
Proof.
  destruct x as [l' v']. intros Hp' Hj Hne. pose proof (po_page _ _ _ Hok _ _ _ Hp') as (_ & Hpa & _).
  pose proof (po_page _ _ _ Hok _ _ _ Hp) as (_ & Hpa' & _).
  unfold linked. rewrite lookup_insert_ne.
  - apply (filled_other q f); try done. by apply (tab_not_q p' (l', v')).
  - intros E. apply slot_inj in E as [-> ->]; done.
Qed.

Lemma linked_ok :
  (∀ j, 0 ≤ j < 512 → 0 ≤ f j < 2 ^ 64 ∧ (present (f j) = true → leaf (l - 1) (f j) = true)) →
  pt_ok root linked_tabs linked.
Proof.
  intros Hf. constructor; unfold linked_tabs.
  - rewrite lookup_insert_ne; [apply Hok|]. intros <-. by rewrite (po_root _ _ _ Hok) in Hfresh.
  - intros p' l' v' [[<- [= <- <-]]|[_ H]]%lookup_insert_Some; [|by eapply po_page].
    destruct (po_page _ _ _ Hok _ _ _ Hp). split; [lia|done].
  - intros p' l' v' j [[<- [= <- <-]]|[_ H]]%lookup_insert_Some Hj.
    + exists (f j). split; [by apply linked_new|by apply Hf].
    + destruct (decide ((p', j) = (p, i))) as [[= -> ->]|Hne]; [exists e; split; [apply lookup_insert_eq|done]|].
      rewrite (linked_old _ _ _ H) by done. by eapply po_entry.
  - intros p' l' v' j e' [[<- [= <- <-]]|[_ H]]%lookup_insert_Some Hj.
    + rewrite linked_new by done. intros [= <-] Hpr' Hl'. destruct (Hf j Hj) as [_ Hx]. by rewrite Hx in Hl'.
    + destruct (decide ((p', j) = (p, i))) as [[= -> ->]|Hne].
      * unfold linked. rewrite lookup_insert_eq. intros [= <-] _ _. rewrite Ha, lookup_insert_eq. by simplify_eq.
      * rewrite (linked_old _ _ _ H) by done. intros He' Hpr' Hl'.
        pose proof (po_child _ _ _ Hok _ _ _ _ _ H Hj He' Hpr' Hl') as Hc. rewrite lookup_insert_ne; [done|].
        intros E. rewrite <- E in Hc. by rewrite Hc in Hfresh.
Qed.

(** Walks that do not use the entry stay; those that do go on in the new table. *)
Lemma linked_walk n p' va : (∀ e0, m !! (p + 8 * i) = Some e0 → present e0 = true → leaf l e0 = true) →
  tabs !! p' = Some (Z.of_nat n, vpn va (Z.of_nat n)) →
  hw_walk n linked p' va = hw_walk n m p' va ∨
  (vpn va (l - 1) = v * 512 + i ∧ hw_walk n linked p' va = hw_walk (Z.to_nat (l - 1)) linked q va ∧
   ∃ e0, m !! (p + 8 * i) = Some e0 ∧
     hw_walk n m p' va = if present e0 then Some (l, p + 8 * i, e0) else None).
Proof.
  intros He0. revert p'. induction n as [|n IH]; intros p' Hp'; [by left|]. cbn [hw_walk].
  destruct (po_page _ _ _ Hok _ _ _ Hp') as (Hr & _). pose proof (PGDIR_OFFSET_range va (Z.of_nat (S n)) ltac:(lia)) as Ho.
  destruct (decide ((p', PGDIR_OFFSET va (Z.of_nat (S n))) = (p, i))) as [[= -> E]|Hne].
  - right. assert (El : l = Z.of_nat (S n)) by congruence. assert (Ev : v = vpn va (Z.of_nat (S n))) by congruence.
    rewrite E. destruct (po_entry _ _ _ Hok _ _ _ i Hp Hi) as (e0 & E0 & _). rewrite E0, linked_slot. cbn [mbind option_bind].
    rewrite Hpr, <- El, Hlg, Ha. replace (Z.to_nat (l - 1)) with n by lia. cbn [negb]. split; [|split; [done|]].
    + rewrite vpn_step by lia. by rewrite El, Ev, E.
    + exists e0. split; [done|]. destruct (present e0) eqn:Hp0; cbn [negb]; [|done]. by rewrite (He0 e0 E0 Hp0).
  - rewrite (linked_old _ _ _ Hp') by done. destruct (m !! (p' + _)) as [e'|] eqn:He'; [|by left]. cbn [mbind option_bind].
    destruct (present e') eqn:Hpr'; [|by left]. destruct (leaf _ e') eqn:Hl'; [by left|]. cbn [negb].
    apply IH. by apply (walk_child root tabs m Hok n p').
Qed.

(** An empty table below an unused entry: no address is mapped differently. *)
Lemma linked_empty n p' va : (∀ j, 0 ≤ j < 512 → f j = 0) → (∀ e0, m !! (p + 8 * i) = Some e0 → present e0 = false) →
  tabs !! p' = Some (Z.of_nat n, vpn va (Z.of_nat n)) → hw_walk n linked p' va = hw_walk n m p' va.
Proof.
  intros Hf He0 Hp'. destruct (linked_walk n p' va) as [|(_ & E1 & e0 & E0 & E2)]; [|done|done|].
  { intros e0 E0 H. by rewrite (He0 e0 E0) in H. }
  rewrite E1, E2, (He0 e0 E0). destruct (Z.to_nat (l - 1)) as [|k] eqn:Ek; [done|]. cbn [hw_walk].
  rewrite linked_new by (apply PGDIR_OFFSET_range; lia). by rewrite Hf by (apply PGDIR_OFFSET_range; lia).
Qed.
End link.

(** ** Writing a leaf entry *)

Lemma vpn_up va va' l : 1 ≤ l ≤ 4 → vpn va (l - 1) = vpn va' (l - 1) →
  vpn va l = vpn va' l ∧ PGDIR_OFFSET va l = PGDIR_OFFSET va' l.
Proof.
  intros Hl. rewrite !vpn_step by done. pose proof (PGDIR_OFFSET_range va l ltac:(lia)).
  pose proof (PGDIR_OFFSET_range va' l ltac:(lia)). lia.
Qed.

Lemma vpn_up_div va l : 1 ≤ l ≤ 4 → vpn va (l - 1) / 512 = vpn va l.
Proof. intros Hl. rewrite vpn_step by done. pose proof (PGDIR_OFFSET_range va l ltac:(lia)). Z.div_mod_to_equations. lia. Qed.

Lemma vpn_above va va' L l : 0 ≤ L → L < l ≤ 4 → vpn va L = vpn va' L →
  vpn va l = vpn va' l ∧ PGDIR_OFFSET va l = PGDIR_OFFSET va' l.
Proof.
  intros HL Hl E. replace l with (L + 1 + Z.of_nat (Z.to_nat (l - L - 1))) by lia.
  assert (Hb : L + 1 + Z.of_nat (Z.to_nat (l - L - 1)) ≤ 4) by lia. revert Hb.
  induction (Z.to_nat (l - L - 1)) as [|k IH]; intros Hb.
  - rewrite Z.add_0_r. apply vpn_up; [lia|]. by replace (L + 1 - 1) with L by lia.
  - apply vpn_up; [lia|]. replace (L + 1 + Z.of_nat (S k) - 1) with (L + 1 + Z.of_nat k) by lia. apply IH. lia.
Qed.

Lemma tab_at_same n L m p va va' : (1 ≤ L ≤ n)%nat → (n ≤ 4)%nat →
  vpn va (Z.of_nat L) = vpn va' (Z.of_nat L) → tab_at n L m p va = tab_at n L m p va'.
Proof.
  intros HL Hn E. revert p HL Hn. induction n as [|n IH]; intros p HL Hn; cbn [tab_at]; [done|].
  destruct (Nat.eqb_spec (S n) L) as [|Hne]; [done|].
  destruct (vpn_above va va' (Z.of_nat L) (Z.of_nat (S n)) ltac:(lia) ltac:(lia) E) as [_ ->].
  destruct (m !! _) as [e|]; [|done]. cbn [mbind option_bind]. destruct (_ && _); [|done]. apply IH; lia.
Qed.

Section write.
Context (root : Z) (tabs : gmap Z (Z * Z)) (m : pmem) (Hok : pt_ok root tabs m).
Context (q l v i pte : Z) (Hq : tabs !! q = Some (l, v)) (Hi : 0 ≤ i < 512).
Context (Hr : 0 ≤ pte < 2 ^ 64) (Hleaf : present pte = true → leaf l pte = true).

Lemma write_other p x j : tabs !! p = Some x → 0 ≤ j < 512 → (p, j) ≠ (q, i) →
  <[q + 8 * i := pte]> m !! (p + 8 * j) = m !! (p + 8 * j).
Proof.
  destruct x as [l' v']. intros Hp Hj Hne. apply lookup_insert_ne. intros E.
  destruct (po_page _ _ _ Hok _ _ _ Hp) as (_ & ? & _). destruct (po_page _ _ _ Hok _ _ _ Hq) as (_ & ? & _).
  by apply slot_inj in E as [-> ->].
Qed.

Lemma write_ok : pt_ok root tabs (<[q + 8 * i := pte]> m).
Proof.
  constructor; try apply Hok.
  - intros p l' v' j Hp Hj. destruct (decide ((p, j) = (q, i))) as [[= -> ->]|Hne]; [exists pte; by rewrite lookup_insert_eq|].
    rewrite (write_other p (l', v')) by done. by eapply po_entry.
  - intros p l' v' j e Hp Hj. destruct (decide ((p, j) = (q, i))) as [[= -> ->]|Hne].
    + rewrite lookup_insert_eq. intros [= <-] Hpr Hl. rewrite Hp in Hq. injection Hq as <- <-. rewrite Hleaf in Hl by done. done.
    + rewrite (write_other p (l', v')) by done. by apply Hok.
Qed.

(** The path down to the level of the entry is as before. *)
Lemma write_tab_at n L p va : l ≤ Z.of_nat L → (L ≤ n)%nat →
  tabs !! p = Some (Z.of_nat n, vpn va (Z.of_nat n)) →
  tab_at n L (<[q + 8 * i := pte]> m) p va = tab_at n L m p va.
Proof.
  intros HL. revert p. induction n as [|n IH]; intros p Hn Hp; cbn [tab_at]; [done|].
  destruct (Nat.eqb_spec (S n) L) as [|Hne]; [done|].
  pose proof (po_page _ _ _ Hok _ _ _ Hp) as (Hlv & _).
  rewrite (write_other p (Z.of_nat (S n), vpn va (Z.of_nat (S n)))); [|done|apply PGDIR_OFFSET_range; lia|].
  - destruct (m !! _) as [e|] eqn:He; [|done]. cbn [mbind option_bind]. destruct (present e) eqn:Hpr; [|done].
    destruct (leaf _ e) eqn:Hl; [done|]. apply IH; [lia|]. by apply (walk_child root tabs m Hok n p).
  - intros [= -> _]. rewrite Hp in Hq. injection Hq as E _. lia.
Qed.
End write.

(** No large page on the way of [va] down to level [L]. *)
Fixpoint open_path (n : nat) (L : nat) (m : pmem) (p va : Z) : bool :=
  if (n =? L)%nat then true else
  match n with
  | O => true
  | S n' =>
      match m !! (p + 8 * PGDIR_OFFSET va (Z.of_nat n)) with
      | Some e => if present e then negb (leaf (Z.of_nat n) e) && open_path n' L m (pte_addr e) va else true
      | None => true
      end
  end.

(** How many tables have to be added on the path of [va] down to level [L]. *)
Fixpoint missing (n : nat) (L : nat) (m : pmem) (p va : Z) : nat :=
  if (n =? L)%nat then O else
  match n with
  | O => O
  | S n' =>
      match m !! (p + 8 * PGDIR_OFFSET va (Z.of_nat n)) with
      | Some e => if present e then missing n' L m (pte_addr e) va else n - L
      | None => O
      end
  end.

Lemma missing_le n L m p va : (missing n L m p va ≤ n - L)%nat.
Proof.
  revert p. induction n as [|n IH]; intros p; cbn [missing]; [by case_match; lia|].
  destruct (Nat.eqb_spec (S n) L); [lia|]. destruct (m !! _) as [e|]; [|lia].
  destruct (present e); [|lia]. specialize (IH (pte_addr e)). destruct (decide (L ≤ n)%nat); [lia|].
  replace (n - L)%nat with 0%nat in IH by lia. lia.
Qed.

Lemma missing_up n L m p va : (S L ≤ n)%nat → (missing n L m p va ≤ S (missing n (S L) m p va))%nat.
Proof.
  revert p. induction n as [|n IH]; intros p HL; [lia|]. cbn [missing].
  rewrite (proj2 (Nat.eqb_neq (S n) L)) by lia. destruct (m !! _) as [e|]; [|lia].
  destruct (Nat.eqb_spec (S n) (S L)) as [E|E].
  - injection E as ->. destruct (present e); [|lia]. pose proof (missing_le L L m (pte_addr e) va). lia.
  - destruct (present e); [|lia]. apply IH. lia.
Qed.

Lemma tab_at_missing n L m p va q : tab_at n L m p va = Some q → missing n L m p va = O.
Proof.
  revert p. induction n as [|n IH]; intros p; cbn [tab_at missing]; [by destruct L|].
  destruct (Nat.eqb_spec (S n) L); [done|]. destruct (m !! _) as [e|]; [|done]. cbn [mbind option_bind].
  destruct (present e); [|done]. destruct (leaf _ e); [done|]. apply IH.
Qed.

Lemma tab_at_up n L m p va q : (S L ≤ n)%nat → tab_at n L m p va = Some q → ∃ q', tab_at n (S L) m p va = Some q'.
Proof.
  revert p. induction n as [|n IH]; intros p HL; [lia|]. cbn [tab_at]. rewrite (proj2 (Nat.eqb_neq (S n) L)) by lia.
  destruct (Nat.eqb_spec (S n) (S L)); [by eauto|]. destruct (m !! _) as [e|]; [|done]. cbn [mbind option_bind].
  destruct (_ && _); [|done]. apply IH. lia.
Qed.

(** Next to an address whose tables are there. *)
Lemma missing_next d L m root va0 va q : (L + d = 4)%nat → (1 ≤ L)%nat → tab_at 4 L m root va0 = Some q →
  vpn va0 (Z.of_nat L - 1) ≤ vpn va (Z.of_nat L - 1) →
  Z.of_nat (missing 4 L m root va) ≤ more_tables d (vpn va0 (Z.of_nat L - 1)) (vpn va (Z.of_nat L - 1)).
Proof.
  revert L q. induction d as [|d IH]; intros L q HL H1 Hq Hle; cbn [more_tables].
  { pose proof (missing_le 4 L m root va). lia. }
  rewrite !vpn_up_div by lia. assert (Hle' : vpn va0 (Z.of_nat L) ≤ vpn va (Z.of_nat L)).
  { rewrite <- (vpn_up_div va0), <- (vpn_up_div va) by lia. apply Z.div_le_mono; lia. }
  destruct (decide (vpn va0 (Z.of_nat L) = vpn va (Z.of_nat L))) as [E|E].
  - rewrite (tab_at_same 4 L m root va0 va) in Hq by (done || lia). rewrite (tab_at_missing _ _ _ _ _ _ Hq).
    pose proof (more_tables_pos d _ _ Hle'). lia.
  - destruct (tab_at_up 4 L m root va0 q ltac:(lia) Hq) as [q' Hq'].
    specialize (IH (S L) q' ltac:(lia) ltac:(lia) Hq'). replace (Z.of_nat (S L) - 1) with (Z.of_nat L) in IH by lia.
    specialize (IH Hle'). pose proof (missing_up 4 L m root va ltac:(lia)). lia.
Qed.

Lemma open_path_walk n L m p va : (L ≤ n)%nat →
  (∀ l a e, hw_walk n m p va = Some (l, a, e) → l ≤ Z.of_nat L) → open_path n L m p va = true.
Proof.
  revert p. induction n as [|n IH]; intros p HL; cbn [open_path hw_walk]; [by case_match|].
  destruct (Nat.eqb_spec (S n) L) as [|Hne]; [done|]. intros H.
  destruct (m !! _) as [e|]; [|done]. cbn [mbind option_bind] in H. destruct (present e); [|done]. cbn [negb] in H.
  destruct (leaf (Z.of_nat (S n)) e) eqn:Hl; cbn [negb andb]; [specialize (H _ _ _ eq_refl); lia|].
  apply IH; [lia|done].
Qed.

Section vm.
Context {A : Type} (ops : page_ops A) (I : A → gset Z → Prop) (full : A → Prop) (ram : Z → Prop).
Context {Hlaws : page_laws ops I full ram}.
#[local] Abbreviation may := (may ops full).
Implicit Types s : vm_state A.

(** ** Filling a page *)

Lemma set_mem_mem s : set_mem (vm_mem s) s = s.
Proof. by destruct s. Qed.

Lemma clear_page_spec q s : 0 < q → words (vm_mem s) q →
  ∃ m', clear_page q s = Ret (set_mem m' s) ∧ filled q (λ _, 0) (vm_mem s) m'.
Proof.
  intros Hq Hw. unfold clear_page. rewrite (proj2 (Z.eqb_neq q 0)) by lia. cbn [negb].
  destruct (zero_page_spec q (vm_mem s) Hw) as (m' & -> & Hf). by exists m'.
Qed.

(** ** The invariant *)

Record vm_inv (root : Z) (tabs : gmap Z (Z * Z)) (P : gset Z) s : Prop := {
  vi_tables : pt_ok root tabs (vm_mem s);
  vi_pages : I (vm_pages s) P;
  vi_owned p : is_Some (tabs !! p) → p ∈ P;
  vi_ram p : ram p → words (vm_mem s) p;
  vi_opt : opt_ok (pte_opt_mask s);
}.

(** Tables are added, at most [n]; nothing changes but tables. *)
Record grows (n : nat) (tabs : gmap Z (Z * Z)) (P : gset Z) s (tabs' : gmap Z (Z * Z)) (P' : gset Z) s' : Prop := {
  gr_tabs : tabs ⊆ tabs';
  gr_pages : P ⊆ P';
  gr_new p : p ∈ P' → p ∈ P ∨ is_Some (tabs' !! p);
  gr_fresh p : is_Some (tabs' !! p) → is_Some (tabs !! p) ∨ (p ∉ P);
  gr_frame a : (∀ p i, is_Some (tabs' !! p) → 0 ≤ i < 512 → a ≠ p + 8 * i) → vm_mem s' !! a = vm_mem s !! a;
  gr_rest : s' = set_mem (vm_mem s') (set_pages (vm_pages s') s);
  gr_chain : chain ops n (vm_pages s) (vm_pages s');
}.

(** The used entries of [tabs] stay as they are. *)
Definition keeps (tabs : gmap Z (Z * Z)) (m m' : pmem) : Prop :=
  ∀ p i e, is_Some (tabs !! p) → 0 ≤ i < 512 → m !! (p + 8 * i) = Some e → present e = true → m' !! (p + 8 * i) = Some e.

Lemma grows_refl n tabs P s : grows n tabs P s tabs P s.
Proof. constructor; auto; [by destruct s|constructor]. Qed.

Lemma tabs_mono (tabs tabs' : gmap Z (Z * Z)) p : tabs ⊆ tabs' → is_Some (tabs !! p) → is_Some (tabs' !! p).
Proof. intros H [x Hx]. exists x. by apply (lookup_weaken _ _ _ _ Hx). Qed.

Lemma grows_trans n k tabs P s tabs' P' s' tabs'' P'' s'' :
  grows n tabs P s tabs' P' s' → grows k tabs' P' s' tabs'' P'' s'' → grows (n + k) tabs P s tabs'' P'' s''.
Proof.
  clear Hlaws I full ram. intros [A1 A2 A3 A8 A4 A6 A7] [B1 B2 B3 B8 B4 B6 B7]. constructor.
  - by etrans.
  - by etrans.
  - intros p [H|H]%B3; [|by right]. apply A3 in H as [|H]; [by left|right; by eapply tabs_mono].
  - intros p [H|H]%B8; [by apply A8|right; set_solver].
  - intros a Ha. rewrite B4 by done. apply A4. intros p i Hp. apply Ha. by eapply tabs_mono.
  - rewrite B6, A6. by destruct s.
  - by eapply chain_trans.
Qed.

Lemma grows_le n k tabs P s tabs' P' s' : grows n tabs P s tabs' P' s' → (n ≤ k)%nat → grows k tabs P s tabs' P' s'.
Proof. intros [] Hle. constructor; try done. by eapply chain_weaken. Qed.

Lemma keeps_trans tabs tabs' m m' m'' : tabs ⊆ tabs' → keeps tabs m m' → keeps tabs' m' m'' → keeps tabs m m''.
Proof. intros Ht H1 H2 p i e Hp Hi He Hpr. apply H2; auto. by eapply tabs_mono. Qed.

(** ** Installing an entry *)

(** A page is not in use, or there is none. *)
Lemma vm_alloc_page_spec root tabs P s :
  vm_inv root tabs P s →
  post (vm_alloc_page ops s) (λ '(q, s'), ∃ a, s' = set_pages a s ∧ chain ops 1 (vm_pages s) a ∧
    ((q = 0 ∧ ∀ n, out_of_pages ops full (S n) (vm_pages s)) ∨
     (tabs !! q = None ∧ (q ∉ P) ∧ ram q ∧ page_addr q ∧ 0 < q ∧ I a ({[q]} ∪ P)))).
Proof.
  intros Hinv. unfold vm_alloc_page. apply post_bind.
  pose proof (law_alloc_page _ _ (vi_pages _ _ _ _ Hinv)) as H. apply post_inv in H as ([q a] & E & H). rewrite E. cbn [post].
  exists a. split; [done|]. split; [by eapply chain_once|].
  destruct H as [[-> Hfull]|(Hq & Hram & Hpa & Hpos & HI)].
  - left. split; [done|]. intros n. exists 0%nat, (vm_pages s), a. split_and!; [lia|constructor|done|done].
  - right. split_and!; try done; try apply Hpa. apply eq_None_not_Some. by intros ?%(vi_owned _ _ _ _ Hinv).
Qed.

(** A new table below entry [i] of the table [p]. *)
Lemma link_inv root tabs P s p l v i q a m' f e :
  vm_inv root tabs P s → tabs !! p = Some (l, v) → 1 < l → 0 ≤ i < 512 →
  tabs !! q = None → q ∉ P → page_addr q → 0 < q → chain ops 1 (vm_pages s) a → I a ({[q]} ∪ P) → filled q f (vm_mem s) m' →
  0 ≤ e < 2 ^ 64 → present e = true → leaf l e = false → pte_addr e = q →
  (∀ j, 0 ≤ j < 512 → 0 ≤ f j < 2 ^ 64 ∧ (present (f j) = true → leaf (l - 1) (f j) = true)) →
  let s' := set_mem (<[p + 8 * i := e]> m') (set_pages a s) in
  let tabs' := <[q := (l - 1, v * 512 + i)]> tabs in
  vm_inv root tabs' ({[q]} ∪ P) s' ∧ grows 1 tabs P s tabs' ({[q]} ∪ P) s'.
Proof.
  intros Hinv Hp Hl Hi Hq HqP Hpa Hpos Hch HI Hf He Hpr Hlf Had Hfs s' tabs'. subst tabs'.
  pose proof (vi_tables _ _ _ _ Hinv) as Hok. split.
  - constructor; cbn.
    + by apply (linked_ok root tabs (vm_mem s) m' Hok p l v i q e Hp Hl Hi Hpa Hpos Hq f Hf).
    + done.
    + intros p' [x [[<- _]|[_ H]]%lookup_insert_Some]; [set_solver|]. apply elem_of_union_r. apply (vi_owned _ _ _ _ Hinv). eauto.
    + intros p' Hr. apply words_insert. eapply filled_words; [done|]. by apply Hinv.
    + apply Hinv.
  - constructor; cbn.
    + by apply insert_subseteq.
    + set_solver.
    + intros p' [->%elem_of_singleton|]%elem_of_union; [right; rewrite lookup_insert_eq; eauto|by left].
    + intros p' [x [[<- _]|[_ H]]%lookup_insert_Some]; [by right|left; eauto].
    + intros b Hb. rewrite lookup_insert_ne.
      * apply Hf. intros j Hj. apply Hb; [|done]. rewrite lookup_insert_eq. eauto.
      * intros E. apply (Hb p i); [|done..]. exists (l, v). rewrite lookup_insert_ne; [done|].
        intros ->. by rewrite Hp in Hq.
    + by destruct s.
    + done.
Qed.

(** An empty table below an unused entry. *)
Lemma link_spec root tabs P s p l v i q a m' :
  vm_inv root tabs P s → tabs !! p = Some (l, v) → 1 < l → 0 ≤ i < 512 →
  (∀ e0, vm_mem s !! (p + 8 * i) = Some e0 → present e0 = false) →
  tabs !! q = None → q ∉ P → page_addr q → 0 < q → chain ops 1 (vm_pages s) a → I a ({[q]} ∪ P) → filled q (λ _, 0) (vm_mem s) m' →
  let e := table_entry q (pte_opt_mask s) in
  let s' := set_mem (<[p + 8 * i := e]> m') (set_pages a s) in
  let tabs' := <[q := (l - 1, v * 512 + i)]> tabs in
  vm_inv root tabs' ({[q]} ∪ P) s' ∧ grows 1 tabs P s tabs' ({[q]} ∪ P) s' ∧ keeps tabs (vm_mem s) (vm_mem s') ∧
  ∀ va, hw_walk 4 (vm_mem s') root va = hw_walk 4 (vm_mem s) root va.
Proof.
  intros Hinv Hp Hl Hi He0 Hq HqP Hpa Hpos Hch HI Hf e s' tabs'.
  destruct (table_entry_ok q _ Hpa (vi_opt _ _ _ _ Hinv)) as (He & Hpr & Hlg & Had).
  assert (Hlf : leaf l e = false).
  { unfold leaf. fold e in Hlg. rewrite Hlg, andb_false_r, orb_false_r. apply Z.eqb_neq. lia. }
  pose proof (vi_tables _ _ _ _ Hinv) as Hok.
  destruct (link_inv root tabs P s p l v i q a m' (λ _, 0) e) as [H1 H2]; try done.
  split; [done|]. split; [done|]. split.
  - intros p' j e' [[l' v'] Hp'] Hj He' Hpr'.
    rewrite <- (linked_old root tabs (vm_mem s) m' Hok p l v i q e Hp Hi Hpa Hq (λ _, 0) Hf p' (l', v') j Hp' Hj) in He'; [done|].
    intros [= -> ->]. apply He0 in He'. congruence.
  - intros va. apply (linked_empty root tabs (vm_mem s) m' Hok p l v i q e Hp Hl Hi Hpa Hq (λ _, 0) Hf Hpr Hlf Had 4 root va); [done|done|].
    rewrite (po_root _ _ _ Hok). f_equal. f_equal. symmetry. apply vpn_top.
Qed.

Lemma load_entry root tabs P s p l v i :
  vm_inv root tabs P s → tabs !! p = Some (l, v) → 0 ≤ i < 512 →
  ∃ e, load (p + 8 * i) s = Ret e ∧ vm_mem s !! (p + 8 * i) = Some e ∧ 0 ≤ e < 2 ^ 64.
Proof.
  intros Hinv Hp Hi. destruct (po_entry _ _ _ (vi_tables _ _ _ _ Hinv) _ _ _ i Hp Hi) as (e & He & Hr).
  exists e. split; [|done]. unfold load, rd. by rewrite He.
Qed.

Lemma open_fresh n L m q va :
  1 ≤ Z.of_nat n → (∀ j, 0 ≤ j < 512 → m !! (q + 8 * j) = Some 0) → open_path n L m q va = true.
Proof.
  intros Hn H. destruct n as [|n]; [lia|]. cbn [open_path]. case_match; [done|].
  rewrite H by (apply PGDIR_OFFSET_range; lia). done.
Qed.

Lemma tab_at_step n m p va e :
  m !! (p + 8 * PGDIR_OFFSET va (Z.of_nat (S n))) = Some e → present e = true → leaf (Z.of_nat (S n)) e = false →
  ∀ L, (L ≤ n)%nat → tab_at (S n) L m p va = tab_at n L m (pte_addr e) va.
Proof.
  intros He Hpr Hl L HL. cbn [tab_at]. rewrite (proj2 (Nat.eqb_neq (S n) L)) by lia. rewrite He. cbn [mbind option_bind].
  by rewrite Hpr, Hl.
Qed.

(** ** Tables in use *)

(** The processor uses the page [p] as a table of level [L] or above, for some
    address. *)
Definition walks_through (L : nat) (m : pmem) (root p : Z) : Prop :=
  ∃ L' va, (L ≤ L' ≤ 4)%nat ∧ tab_at 4 L' m root va = Some p.

(** The paths of the processor down to tables of level [L] stay, and the tables
    that are new are on such paths. *)
Record paths_grow (L : nat) (root : Z) (tabs tabs' : gmap Z (Z * Z)) (m m' : pmem) : Prop := {
  pg_keep L' va q : (L ≤ L' ≤ 4)%nat → tab_at 4 L' m root va = Some q → tab_at 4 L' m' root va = Some q;
  pg_new p : is_Some (tabs' !! p) → is_Some (tabs !! p) ∨ walks_through L m' root p;
}.

Lemma paths_refl L root tabs m : paths_grow L root tabs tabs m m.
Proof. split; auto. Qed.

Lemma paths_trans L root tabs1 tabs2 tabs3 m1 m2 m3 :
  paths_grow L root tabs1 tabs2 m1 m2 → paths_grow L root tabs2 tabs3 m2 m3 → paths_grow L root tabs1 tabs3 m1 m3.
Proof.
  intros [K1 N1] [K2 N2]. split; [auto|]. intros p [[|(L' & va & HL & Ht)]%N1|]%N2; auto.
  right. exists L', va. auto.
Qed.

Lemma keeps_tab_at root tabs m m' n L p va q : pt_ok root tabs m → keeps tabs m m' →
  tabs !! p = Some (Z.of_nat n, vpn va (Z.of_nat n)) → tab_at n L m p va = Some q → tab_at n L m' p va = Some q.
Proof.
  intros Hok Hk. revert p. induction n as [|n IH]; intros p Hp; cbn [tab_at]; [done|].
  destruct (Nat.eqb_spec (S n) L) as [|Hne]; [done|].
  destruct (m !! _) as [e|] eqn:He; [|done]. cbn [mbind option_bind]. destruct (present e) eqn:Hpr; [|done].
  destruct (leaf _ e) eqn:Hl; [done|]. cbn [negb andb]. intros H.
  rewrite (Hk p (PGDIR_OFFSET va (Z.of_nat (S n))) e) by (done || (by eexists) || (apply PGDIR_OFFSET_range; lia)).
  cbn [mbind option_bind]. rewrite Hpr, Hl. cbn [negb andb]. apply IH; [|done]. by apply (walk_child root tabs m Hok n p).
Qed.

(** The loop of [install_pte]: it reaches the table of level [L] for [va],
    adding tables where there are none; no translation changes. *)
Lemma install_walk_spec n (L : nat) va pt root tabs P s :
  (1 ≤ L ≤ n)%nat → vm_inv root tabs P s → tabs !! pt = Some (Z.of_nat n, vpn va (Z.of_nat n)) →
  open_path n L (vm_mem s) pt va = true →
  let k := missing n L (vm_mem s) pt va in
  may k (vm_pages s) (install_walk ops n (Z.of_nat L) va pt 0 s) (λ '(q, s'), ∃ tabs' P',
    vm_inv root tabs' P' s' ∧ grows k tabs P s tabs' P' s' ∧ keeps tabs (vm_mem s) (vm_mem s') ∧
    (∀ va', hw_walk 4 (vm_mem s') root va' = hw_walk 4 (vm_mem s) root va') ∧
    tab_at n L (vm_mem s') pt va = Some q ∧
    (∀ p, is_Some (tabs' !! p) → is_Some (tabs !! p) ∨ ∃ L', (L ≤ L' ≤ n)%nat ∧ tab_at n L' (vm_mem s') pt va = Some p)).
Proof.
  revert pt tabs P s. induction n as [|n IH]; intros pt tabs P s HL Hinv Hpt Hopen; [lia|]. cbn [install_walk missing].
  destruct (Z.leb_spec (Z.of_nat (S n)) (Z.of_nat L)) as [Hle|Hlt].
  { assert (L = S n) as -> by lia. cbn [may]. exists tabs, P. split_and!; try done; [apply grows_refl|by intros ?|..].
    - cbn [tab_at]. by rewrite Nat.eqb_refl.
    - auto. }
  set (l := Z.of_nat (S n)) in *. set (i := PGDIR_OFFSET va l).
  pose proof (PGDIR_OFFSET_range va l ltac:(lia) : 0 ≤ i < 512) as Hi.
  destruct (load_entry root tabs P s pt l (vpn va l) i Hinv Hpt Hi) as (e & Ee & Em & Her).
  rewrite Ee. cbn [bind]. cbn [open_path] in Hopen. fold l i in Hopen. rewrite Em in Hopen.
  rewrite (proj2 (Nat.eqb_neq (S n) L)) in Hopen |- * by lia. rewrite Em.
  destruct (present e) eqn:Hpr.
  - cbn [bind]. rewrite Ee. cbn [bind]. apply andb_true_iff in Hopen as [Hlf Hopen]. apply negb_true_iff in Hlf.
    eapply may_mono; [apply (IH (pte_addr e) tabs P s ltac:(lia) Hinv); [|done]|].
    { apply (walk_child root tabs (vm_mem s) (vi_tables _ _ _ _ Hinv) n pt); done. }
    intros [q s'] (tabs' & P' & Hinv' & Hext & Hk & Hw & Ht & Hnew). exists tabs', P'.
    pose proof (tab_at_step n (vm_mem s') pt va e) as Hstep. fold l i in Hstep.
    specialize (Hstep (Hk pt i e ltac:(eauto) Hi Em Hpr) Hpr Hlf). split_and!; try done.
    + rewrite Hstep by lia. done.
    + intros p [|(L' & HL' & Hp)]%Hnew; [by left|right; exists L']. rewrite Hstep by lia. split; [lia|done].
  - pose proof (vm_alloc_page_spec root tabs P s Hinv) as H.
    apply post_inv in H as ([q s1] & Ea & a & -> & Hch & H). rewrite Z.eqb_refl, Ea. cbn [bind].
    destruct H as [[-> Hout]|(Hq & HqP & Hram & Hpa & Hpos & HI)].
    { replace (S n - L)%nat with (S (n - L)) by lia. apply Hout. }
    destruct (clear_page_spec q (set_pages a s) Hpos) as (m' & -> & Hf); [by apply Hinv|]. cbn [bind].
    assert (Em' : m' !! (pt + 8 * i) = Some e).
    { rewrite (filled_other q (λ _, 0) (vm_mem s)); try done; [by eapply po_page; [apply Hinv|]|]. intros ->. by rewrite Hpt in Hq. }
    unfold store, wr. cbn [vm_mem set_mem]. rewrite Em'. cbn [bind]. unfold load, rd. cbn [vm_mem set_mem].
    rewrite lookup_insert_eq. cbn [bind].
    destruct (link_spec root tabs P s pt l (vpn va l) i q a m') as (Hinv' & Hext' & Hk' & Hw'); try done; [lia|by intros e0 E0; simplify_eq|].
    set (e1 := table_entry q (pte_opt_mask s)) in *. set (s1 := set_mem (<[pt + 8 * i := e1]> m') (set_pages a s)) in *.
    destruct (table_entry_ok q _ Hpa (vi_opt _ _ _ _ Hinv)) as (He' & Hpr' & Hlg' & Had'). fold e1 in He', Hpr', Hlg', Had'.
    match goal with |- PageMem.may _ _ _ _ (install_walk _ _ _ _ ?x 0 ?st) _ => change st with s1; change x with (pte_addr e1) end.
    assert (Hq1 : <[q := (l - 1, vpn va l * 512 + i)]> tabs !! q = Some (Z.of_nat n, vpn va (Z.of_nat n))).
    { destruct (po_page _ _ _ (vi_tables _ _ _ _ Hinv) _ _ _ Hpt) as [Hl4 _].
      rewrite lookup_insert_eq. subst i. rewrite <- vpn_step by lia. do 2 f_equal; [lia|f_equal; lia]. }
    assert (Hlf : leaf l e1 = false) by (unfold leaf; rewrite Hlg', andb_false_r, orb_false_r; apply Z.eqb_neq; lia).
    rewrite Had'. pose proof (missing_le n L (vm_mem s1) q va) as Hms.
    eapply (may_later _ _ (missing n L (vm_mem s1) q va) 1 _ _ (vm_pages s1)); [exact Hch|lia|].
    eapply may_mono; [apply (IH q _ _ s1 ltac:(lia) Hinv' Hq1)|].
    { apply open_fresh; [lia|]. intros j Hj. unfold s1. cbn. rewrite lookup_insert_ne; [by apply Hf|].
      intros E. apply slot_inj in E as [-> _]; try done; [by rewrite Hpt in Hq|by eapply po_page; [apply Hinv|]]. }
    intros [q' s'] (tabs' & P' & Hinv'' & Hext & Hk & Hw & Ht & Hnew). exists tabs', P'.
    pose proof (tab_at_step n (vm_mem s') pt va e1) as Hst. fold l i in Hst. rewrite Had' in Hst.
    assert (Eslot : vm_mem s' !! (pt + 8 * i) = Some e1).
    { apply Hk; try done; [apply lookup_insert_is_Some'; right; eauto|unfold s1; cbn; apply lookup_insert_eq]. }
    specialize (Hst Eslot Hpr' Hlf). split_and!; try done.
    + eapply grows_le; [by eapply grows_trans|lia].
    + eapply keeps_trans; [|done..]. apply Hext'.
    + intros va'. by rewrite Hw, Hw'.
    + rewrite Hst by lia. done.
    + intros p [[<-|Hp]%lookup_insert_is_Some'|(L' & HL' & Hp)]%Hnew; [right|by left|right].
      * exists n. rewrite Hst by lia. split; [lia|]. destruct n; [lia|]. cbn [tab_at]. by rewrite Nat.eqb_refl.
      * exists L'. rewrite Hst by lia. split; [lia|done].
Qed.

Lemma root_vpn root tabs m va : pt_ok root tabs m → tabs !! root = Some (Z.of_nat 4, vpn va (Z.of_nat 4)).
Proof. intros H. rewrite (po_root _ _ _ H). do 2 f_equal. symmetry. apply vpn_top. Qed.

(** Writing a leaf entry: the addresses below it get it, the others keep their translation. *)
Lemma write_walk root tabs m (L : nat) va q pte :
  pt_ok root tabs m → (1 ≤ L ≤ 4)%nat → tab_at 4 L m root va = Some q →
  (present pte = true → leaf (Z.of_nat L) pte = true) →
  let a := q + 8 * PGDIR_OFFSET va (Z.of_nat L) in
  ∀ va', hw_walk 4 (<[a := pte]> m) root va' =
    if decide (vpn va' (Z.of_nat L - 1) = vpn va (Z.of_nat L - 1))
    then if present pte then Some (Z.of_nat L, a, pte) else None else hw_walk 4 m root va'.
Proof.
  intros Hok HL Hq Hleaf a va'.
  pose proof (tab_at_tabs root tabs m Hok 4 L root va q (root_vpn _ _ _ va Hok) Hq) as Htq.
  pose proof (PGDIR_OFFSET_range va (Z.of_nat L) ltac:(lia)) as Hi. case_decide as E.
  - destruct (vpn_above va' va (Z.of_nat L - 1) (Z.of_nat L) ltac:(lia) ltac:(lia) E) as [Eu Eo].
    assert (Hq' : tab_at 4 L (<[a := pte]> m) root va' = Some q).
    { rewrite <- Hq, (tab_at_same 4 L m root va va') by (done || lia).
      apply (write_tab_at root tabs m Hok q _ _ _ pte Htq Hi); [lia|lia|by apply (root_vpn _ _ m)]. }
    rewrite (hw_walk_tab _ _ _ _ _ _ Hq'). destruct L as [|L']; [lia|]. cbn [hw_walk]. rewrite Eo. fold a.
    rewrite lookup_insert_eq. cbn [mbind option_bind]. destruct (present pte); cbn [negb]; [|done]. by rewrite Hleaf.
  - apply (walk_write root tabs m Hok 4 root va' q _ _ _ pte (root_vpn _ _ _ va' Hok) Htq Hi).
    intros E'. apply E. by rewrite E', (vpn_step va) by lia.
Qed.

(** ** [install_pte] *)

Definition no_larger (L : Z) s (root va : Z) : Prop :=
  ∀ l a e, hw_walk 4 (vm_mem s) root va = Some (l, a, e) → l ≤ L.

Lemma install_pte_spec (L : nat) va pte root tabs P s :
  (1 ≤ L ≤ 4)%nat → vm_inv root tabs P s → no_larger (Z.of_nat L) s root va → 0 ≤ pte < 2 ^ 64 →
  (present pte = true → leaf (Z.of_nat L) pte = true) →
  let k := missing 4 L (vm_mem s) root va in
  may k (vm_pages s) (install_pte ops root (Z.of_nat L) va pte 0 s) (λ '(a, s'), ∃ tabs' P',
    vm_inv root tabs' P' s' ∧ grows k tabs P s tabs' P' s' ∧ is_Some (tab_at 4 L (vm_mem s') root va) ∧
    paths_grow L root tabs tabs' (vm_mem s) (vm_mem s') ∧
    ∀ va', hw_walk 4 (vm_mem s') root va' =
      if decide (vpn va' (Z.of_nat L - 1) = vpn va (Z.of_nat L - 1))
      then if present pte then Some (Z.of_nat L, a, pte) else None else hw_walk 4 (vm_mem s) root va').
Proof.
  intros HL Hinv Hno Hr Hleaf k. unfold install_pte. apply may_bind.
  eapply may_mono; [apply (install_walk_spec 4 L va root root tabs P s); [lia|done| |by apply open_path_walk; [lia|]]|].
  { apply (root_vpn root tabs (vm_mem s)), Hinv. }
  intros [q s1] (tabs1 & P1 & Hinv1 & Hg & Hk & Hw & Ht & Hnew). pose proof (vi_tables _ _ _ _ Hinv1) as Hok.
  pose proof (PGDIR_OFFSET_range va (Z.of_nat L) ltac:(lia)) as Hi.
  pose proof (tab_at_tabs root tabs1 _ Hok 4 L root va q (root_vpn _ _ _ va Hok) Ht) as Htq.
  destruct (po_entry _ _ _ Hok _ _ _ _ Htq Hi) as (e & He & _). unfold store, wr. rewrite He. cbn [bind may].
  pose proof (λ L' va' HL', write_tab_at root tabs1 (vm_mem s1) Hok q _ _ _ pte Htq Hi 4 L' root va' HL') as Hpath.
  exists tabs1, P1. split; [|split; [|split; [|split]]].
  - constructor; try apply Hinv1.
    + by apply (write_ok root tabs1 (vm_mem s1) Hok q (Z.of_nat L) (vpn va (Z.of_nat L))).
    + intros p Hp. apply words_insert. by apply Hinv1.
  - rewrite <- (Nat.add_0_r k). eapply grows_trans; [done|]. constructor; try done; [by left|by left| |constructor].
    intros a Ha. cbn. apply lookup_insert_ne. intros E. by apply (Ha q (PGDIR_OFFSET va (Z.of_nat L))).
  - exists q. rewrite <- Ht. cbn [vm_mem set_mem]. apply Hpath; [lia|lia|by apply (root_vpn _ _ (vm_mem s1))].
  - split; cbn [vm_mem set_mem].
    + intros L' va' q' HL' Hq'. rewrite Hpath by (lia || by apply (root_vpn _ _ (vm_mem s1))).
      by apply (keeps_tab_at root tabs (vm_mem s)); [apply Hinv|done|apply (root_vpn _ _ (vm_mem s)), Hinv|].
    + intros p [|(L' & HL' & Hp)]%Hnew; [by left|right]. exists L', va. split; [done|].
      rewrite Hpath by (lia || by apply (root_vpn _ _ (vm_mem s1))). done.
  - intros va'. cbn [vm_mem set_mem]. rewrite (write_walk root tabs1 (vm_mem s1) L va q pte) by done. by rewrite Hw.
Qed.

(** ** Mapping ranges *)

(** The [n] regions of level [L] from [v0] on get the entries [f 0], [f 1], ...;
    the other addresses keep their translation. *)
Definition mapped_range (L : Z) s s' (root v0 n : Z) (f : Z → Z) : Prop :=
  ∀ va, let k := vpn va (L - 1) - v0 in
    if decide (0 ≤ k < n) then ∃ a, hw_walk 4 (vm_mem s') root va = Some (L, a, f k)
    else hw_walk 4 (vm_mem s') root va = hw_walk 4 (vm_mem s) root va.

Lemma mapped_range_nil L s root v0 f : mapped_range L s s root v0 0 f.
Proof. intros va. cbv zeta. rewrite decide_False; [done|lia]. Qed.

Lemma mapped_range_cons L s s1 s2 root v0 n f : 0 ≤ n →
  mapped_range L s s1 root v0 1 f → mapped_range L s1 s2 root (v0 + 1) n (λ k, f (k + 1)) →
  mapped_range L s s2 root v0 (n + 1) f.
Proof.
  intros Hn H1 H2 va. specialize (H1 va). specialize (H2 va). cbv zeta in *.
  destruct (decide (0 ≤ vpn va (L - 1) - (v0 + 1) < n)) as [Hk|Hk].
  - rewrite decide_True by lia. destruct H2 as [a Ha]. exists a. rewrite Ha. do 3 f_equal. lia.
  - rewrite H2. destruct (decide (0 ≤ vpn va (L - 1) - v0 < 1)) as [Hk'|Hk'].
    + by rewrite decide_True by lia.
    + rewrite decide_False by lia. done.
Qed.

Lemma mapped_range_ext L s s' root v0 n f g :
  (∀ k, 0 ≤ k < n → f k = g k) → mapped_range L s s' root v0 n f → mapped_range L s s' root v0 n g.
Proof. intros H Hm va. specialize (Hm va). cbv zeta in *. case_decide; [|done]. by rewrite <- H. Qed.

(** The flags of a mapped page. *)
Definition page_flags (opt : Z) : Z := Z.lor (Z.lor PT_PRESENT_MASK PT_WRITABLE_MASK) opt.

Lemma page_flags_ok opt : opt_ok opt → flags_ok (page_flags opt) ∧ present (page_flags opt) = true ∧ large (page_flags opt) = false.
Proof.
  intros [Hf Hl]. unfold page_flags. split; [|split].
  - repeat apply flags_lor; [by split|by split|done].
  - rewrite !present_lor. done.
  - rewrite !large_lor, Hl. done.
Qed.

Lemma page_entry_range phys f : page_addr phys → flags_ok f → 0 ≤ Z.lor phys f < 2 ^ 64.
Proof. intros [_ H] [Hf _]. apply lor_word; lia. Qed.

Lemma one_region L s s' root va a e :
  (∀ va', hw_walk 4 (vm_mem s') root va' =
      if decide (vpn va' (L - 1) = vpn va (L - 1)) then Some (L, a, e) else hw_walk 4 (vm_mem s) root va') →
  mapped_range L s s' root (vpn va (L - 1)) 1 (λ _, e).
Proof.
  intros H va'. cbv zeta. rewrite H. case_decide as E.
  - rewrite decide_True by lia. eauto.
  - by rewrite decide_False by lia.
Qed.

Lemma install_page_spec phys va root tabs P s :
  vm_inv root tabs P s → no_larger 1 s root va → page_addr phys →
  let k := missing 4 1 (vm_mem s) root va in
  may k (vm_pages s) (install_page ops root phys va s) (λ '(a, s'), ∃ tabs' P',
    vm_inv root tabs' P' s' ∧ grows k tabs P s tabs' P' s' ∧ is_Some (tab_at 4 1 (vm_mem s') root va) ∧
    paths_grow 1 root tabs tabs' (vm_mem s) (vm_mem s') ∧
    mapped_range 1 s s' root (vpn va 0) 1 (λ _, Z.lor phys (page_flags (pte_opt_mask s)))).
Proof.
  intros Hinv Hno Hp k. destruct (page_flags_ok _ (vi_opt _ _ _ _ Hinv)) as (Hf & Hpr & _).
  unfold install_page. fold (page_flags (pte_opt_mask s)).
  eapply may_mono; [apply (install_pte_spec 1 va _ root tabs P s); [lia|done|done|by apply page_entry_range|done]|].
  intros [a s'] (tabs' & P' & Hinv' & Hg & Hta & Hpg & Hw). exists tabs', P'. split_and!; try done.
  apply (one_region 1 s s' root va a). intros va'. rewrite Hw, present_lor, Hpr, orb_true_r. done.
Qed.

Lemma install_large_page_spec phys va root tabs P s :
  vm_inv root tabs P s → no_larger 2 s root va → page_addr phys →
  let k := missing 4 2 (vm_mem s) root va in
  may k (vm_pages s) (install_large_page ops root phys va s) (λ '(a, s'), ∃ tabs' P',
    vm_inv root tabs' P' s' ∧ grows k tabs P s tabs' P' s' ∧ is_Some (tab_at 4 2 (vm_mem s') root va) ∧
    mapped_range 2 s s' root (vpn va 1) 1 (λ _, Z.lor phys (Z.lor (page_flags (pte_opt_mask s)) PT_PAGE_SIZE_MASK))).
Proof.
  intros Hinv Hno Hp k. destruct (page_flags_ok _ (vi_opt _ _ _ _ Hinv)) as (Hf & Hpr & _).
  unfold install_large_page. fold (page_flags (pte_opt_mask s)).
  assert (Hf' : flags_ok (Z.lor (page_flags (pte_opt_mask s)) PT_PAGE_SIZE_MASK)) by (apply flags_lor; [done|by split]).
  assert (Hlg : large (Z.lor phys (Z.lor (page_flags (pte_opt_mask s)) PT_PAGE_SIZE_MASK)) = true)
    by (rewrite !large_lor, !orb_true_iff; tauto).
  eapply may_mono; [apply (install_pte_spec 2 va _ root tabs P s); [lia|done|done|by apply page_entry_range|]|].
  { intros _. unfold leaf. by rewrite Hlg. }
  intros [a s'] (tabs' & P' & Hinv' & Hg & Hta & _ & Hw). exists tabs', P'. split_and!; try done.
  apply (one_region 2 s s' root va a). intros va'. rewrite Hw, !present_lor, Hpr, orb_true_r. done.
Qed.

Lemma vpn_next va l : 0 ≤ l ≤ 3 → va mod 2 ^ (12 + 9 * l) = 0 → vpn va l + 1 < 2 ^ (36 - 9 * l) →
  vpn (u64 (va + 2 ^ (12 + 9 * l))) l = vpn va l + 1.
Proof.
  intros Hl. unfold vpn, u64. assert (l = 0 ∨ l = 1 ∨ l = 2 ∨ l = 3) as [->|[->|[->| ->]]] by lia;
    cbn -[Z.div Z.modulo]; intros; Z.div_mod_to_equations; lia.
Qed.

Lemma grows_opt n tabs P s tabs' P' s' : grows n tabs P s tabs' P' s' → pte_opt_mask s' = pte_opt_mask s.
Proof. intros [_ _ _ _ _ -> _]. done. Qed.

(** No address in the [n] regions of level [L] from [v0] on has a larger page. *)
Definition range_free (L : Z) s (root v0 n : Z) : Prop :=
  ∀ va, v0 ≤ vpn va (L - 1) < v0 + n → no_larger L s root va.

Lemma range_free_cons L s s' root v0 n f :
  range_free L s root v0 (n + 1) → mapped_range L s s' root v0 1 f → range_free L s' root (v0 + 1) n.
Proof.
  intros Hfree Hm va Hva l a e Hw. specialize (Hm va). cbv zeta in Hm. rewrite decide_False in Hm by lia.
  rewrite Hm in Hw. apply (Hfree va ltac:(lia) _ _ _ Hw).
Qed.

Lemma install_pages_loop_spec (n : nat) b phys va v0 root tabs P s :
  vm_inv root tabs P s → phys mod PAGE_SIZE = 0 → 0 ≤ phys → phys + PAGE_SIZE * Z.of_nat n ≤ 2 ^ 52 →
  va mod PAGE_SIZE = 0 → ((0 < n)%nat → vpn va 0 = v0) → v0 + Z.of_nat n ≤ 2 ^ 36 →
  range_free 1 s root v0 (Z.of_nat n) → ((0 < n)%nat → (missing 4 1 (vm_mem s) root va ≤ b)%nat) →
  let k := tables_for b 3 v0 (Z.of_nat n) in
  may k (vm_pages s) (install_pages_loop ops (S n) root phys (phys + PAGE_SIZE * Z.of_nat n) va s) (λ s', ∃ tabs' P',
    vm_inv root tabs' P' s' ∧ grows k tabs P s tabs' P' s' ∧
    mapped_range 1 s s' root v0 (Z.of_nat n) (λ k, Z.lor (phys + PAGE_SIZE * k) (page_flags (pte_opt_mask s)))).
Proof.
  change PAGE_SIZE with 4096. revert b phys va v0 tabs P s. induction n as [|n IH]; intros b phys va v0 tabs P s Hinv Ha Hr Hb Hva Hv0 Hv Hfree Hmiss k; subst k;
    cbn [install_pages_loop]; change PAGE_SIZE with 4096 in *; rewrite !(u64_small (phys + 4096)) by lia.
  { rewrite (proj2 (Z.leb_gt _ _)) by lia. exists tabs, P. split_and!; [done|apply grows_refl|apply mapped_range_nil]. }
  rewrite (proj2 (Z.leb_le _ _)) by lia. specialize (Hv0 ltac:(lia)). subst v0. specialize (Hmiss ltac:(lia)).
  set (b' := Z.to_nat (more_tables 3 (vpn va 0) (vpn va 0 + 1))). pose proof (more_tables_pos 3 (vpn va 0) (vpn va 0 + 1) ltac:(lia)) as Hpos.
  pose proof (tables_for_step b b' 3 (vpn va 0) (Z.of_nat n) ltac:(lia) ltac:(lia)) as Hstep.
  replace (Z.of_nat (S n)) with (Z.of_nat n + 1) in Hfree |- * by lia.
  apply may_bind. eapply may_le, may_mono; [|apply (install_page_spec phys va root tabs P s Hinv); [apply Hfree; change (1 - 1) with 0; lia|split; [done|lia]]|]; [lia|].
  intros [a s1] (tabs1 & P1 & Hinv1 & Hg & [q Hta] & _ & Hm).
  replace (phys + 4096 * (Z.of_nat n + 1)) with (phys + 4096 + 4096 * Z.of_nat n) by lia.
  eapply may_later; [apply Hg| |eapply may_mono; [apply (IH b' (phys + 4096) _ (vpn va 0 + 1) tabs1 P1 s1 Hinv1)|]]; [lia|..].
  - Z.div_mod_to_equations. lia.
  - lia.
  - lia.
  - unfold u64. Z.div_mod_to_equations. lia.
  - intros Hn. apply (vpn_next va 0); [lia|done|lia].
  - lia.
  - by eapply range_free_cons.
  - intros Hn. assert (E : vpn (u64 (va + 4096)) 0 = vpn va 0 + 1) by (apply (vpn_next va 0); [lia|done|lia]).
    pose proof (missing_next 3 1 (vm_mem s1) root va (u64 (va + 4096)) q ltac:(lia) ltac:(lia) Hta) as H.
    change (Z.of_nat 1 - 1) with 0 in H. rewrite E in H. specialize (H ltac:(lia)). lia.
  - intros s' (tabs' & P' & Hinv' & Hg' & Hm'). exists tabs', P'. split_and!; [done|eapply grows_le; [by eapply grows_trans|lia]|].
    rewrite (grows_opt _ _ _ _ _ _ _ Hg) in Hm'.
    eapply mapped_range_cons; [lia|eapply mapped_range_ext; [|done]|eapply mapped_range_ext; [|done]];
      intros k Hk; cbn; f_equal; lia.
Qed.

(** The entry of the large page at [phys]. *)
Definition large_entry (opt phys : Z) : Z := Z.lor phys (Z.lor (page_flags opt) PT_PAGE_SIZE_MASK).

Lemma large_pages_loop_spec (n : nat) b phys r root tabs P s :
  vm_inv root tabs P s → phys mod LARGE_PAGE_SIZE = 0 → 0 ≤ phys → 0 ≤ r < LARGE_PAGE_SIZE →
  phys + LARGE_PAGE_SIZE * Z.of_nat n + r ≤ 2 ^ 48 →
  range_free 2 s root (phys / LARGE_PAGE_SIZE) (Z.of_nat n) → ((0 < n)%nat → (missing 4 2 (vm_mem s) root phys ≤ b)%nat) →
  let k := tables_for b 2 (phys / LARGE_PAGE_SIZE) (Z.of_nat n) in
  may k (vm_pages s) (large_pages_loop ops (S n) root phys (phys + LARGE_PAGE_SIZE * Z.of_nat n + r) s) (λ '(phys', s'), ∃ tabs' P',
    phys' = phys + LARGE_PAGE_SIZE * Z.of_nat n ∧
    vm_inv root tabs' P' s' ∧ grows k tabs P s tabs' P' s' ∧
    mapped_range 2 s s' root (phys / LARGE_PAGE_SIZE) (Z.of_nat n)
      (λ k, large_entry (pte_opt_mask s) (phys + LARGE_PAGE_SIZE * k))).
Proof.
  revert b phys tabs P s. induction n as [|n IH]; intros b phys tabs P s Hinv Ha Hr0 Hr Hb Hfree Hmiss k; subst k;
    cbn [large_pages_loop]; change LARGE_PAGE_SIZE with (2 ^ 21) in *; rewrite !(u64_small (phys + 2 ^ 21)) by lia.
  { rewrite (proj2 (Z.leb_gt _ _)) by lia. exists tabs, P. split_and!; [lia|done|apply grows_refl|apply mapped_range_nil]. }
  rewrite (proj2 (Z.leb_le _ _)) by lia.
  assert (Hv : vpn phys 1 = phys / 2 ^ 21) by (unfold vpn; rewrite Z.mod_small by lia; done).
  assert (Hd : (phys + 2 ^ 21) / 2 ^ 21 = phys / 2 ^ 21 + 1) by (Z.div_mod_to_equations; lia). specialize (Hmiss ltac:(lia)).
  set (v := phys / 2 ^ 21) in *. set (b' := Z.to_nat (more_tables 2 v (v + 1))). pose proof (more_tables_pos 2 v (v + 1) ltac:(lia)) as Hpos.
  pose proof (tables_for_step b b' 2 v (Z.of_nat n) ltac:(lia) ltac:(lia)) as Hstep.
  replace (Z.of_nat (S n)) with (Z.of_nat n + 1) in Hfree |- * by lia.
  apply may_bind. eapply may_le, may_mono; [|apply (install_large_page_spec phys phys root tabs P s Hinv)|]; [lia|..].
  { apply Hfree. change (2 - 1) with 1. lia. }
  { split; [|lia]. change PAGE_SIZE with (2 ^ 12). apply Z.mod_divide in Ha as [c Hc]; [|lia].
    rewrite Hc. replace (c * 2 ^ 21) with (c * 2 ^ 9 * 2 ^ 12) by lia. by apply Z.mod_mul. }
  intros [a s1] (tabs1 & P1 & Hinv1 & Hg & [q Hta] & Hm). rewrite Hv in Hm.
  replace (phys + 2 ^ 21 * (Z.of_nat n + 1)) with (phys + 2 ^ 21 + 2 ^ 21 * Z.of_nat n) by lia.
  pose proof (IH b' (phys + 2 ^ 21) tabs1 P1 s1 Hinv1) as H. rewrite Hd in H.
  eapply may_later; [apply Hg| |eapply may_mono; [apply H|]]; [lia|..]; clear H.
  - Z.div_mod_to_equations. lia.
  - lia.
  - done.
  - lia.
  - by eapply range_free_cons.
  - intros Hn. assert (E : vpn (phys + 2 ^ 21) 1 = v + 1) by (unfold vpn; rewrite Z.mod_small by lia; done).
    pose proof (missing_next 2 2 (vm_mem s1) root phys (phys + 2 ^ 21) q ltac:(lia) ltac:(lia) Hta) as H.
    change (Z.of_nat 2 - 1) with 1 in H. rewrite E, Hv in H. specialize (H ltac:(lia)). lia.
  - intros [phys' s'] (tabs' & P' & -> & Hinv' & Hg' & Hm'). exists tabs', P'.
    split_and!; [lia|done|eapply grows_le; [by eapply grows_trans|lia]|].
    rewrite (grows_opt _ _ _ _ _ _ _ Hg) in Hm'.
    eapply mapped_range_cons; [lia|eapply mapped_range_ext; [|done]|eapply mapped_range_ext; [|done]];
      intros k Hk; cbn; unfold large_entry; f_equal; lia.
Qed.

Lemma leaf_phys_page l phys f va :
  1 ≤ l → page_addr phys → phys mod 2 ^ PGDIR_BITS l = 0 → flags_ok f →
  leaf_phys l (Z.lor phys f) va = phys + va mod 2 ^ PGDIR_BITS l.
Proof.
  intros Hl Hp Hm Hf. unfold leaf_phys. rewrite pte_addr_lor by done. f_equal.
  assert (2 ^ PGDIR_BITS l ≠ 0) by (apply Z.pow_nonzero; unfold PGDIR_BITS, PGDIR_WIDTH, PAGE_SHIFT; lia).
  pose proof (Z.div_mod phys _ H). lia.
Qed.

(** ** [__setup_mmu_range] *)

Definition is_huge (flags : Z) : bool := negb (Z.land flags X86_MMU_MAP_HUGE =? 0).
Definition is_user (flags : Z) : bool := negb (Z.land flags X86_MMU_MAP_USER =? 0).

(** [va] is mapped to the address [pa], writable, for user mode as told. *)
Definition maps s (root va pa : Z) (user : bool) : Prop :=
  ∃ l a e, hw_walk 4 (vm_mem s) root va = Some (l, a, e) ∧ leaf_phys l e va = pa ∧
    Z.testbit e 1 = true ∧ Z.testbit e 2 = user.

Lemma maps_translate s root va pa user : maps s root va pa user → translate (vm_mem s) root va = Some pa.
Proof. intros (l & a & e & Hw & <- & _). unfold translate. by rewrite Hw. Qed.

Lemma page_flags_bits opt phys f :
  page_addr phys → Z.testbit f 1 = false → Z.testbit f 2 = false →
  Z.testbit (Z.lor phys (Z.lor (page_flags opt) f)) 1 = true ∧
  Z.testbit (Z.lor phys (Z.lor (page_flags opt) f)) 2 = Z.testbit opt 2.
Proof.
  intros Hp H1 H2. unfold page_flags. rewrite !Z.lor_spec, H2, (page_low_bits phys 2) by (done || lia).
  change (Z.testbit PT_WRITABLE_MASK 1) with true. change (Z.testbit PT_WRITABLE_MASK 2) with false.
  change (Z.testbit PT_PRESENT_MASK 2) with false. 
  split; by repeat match goal with |- context [Z.testbit ?x ?y] => destruct (Z.testbit x y) end.
Qed.

Lemma maps_page s s' root v0 n phys va opt :
  mapped_range 1 s s' root v0 n (λ k, Z.lor (phys + PAGE_SIZE * k) (page_flags opt)) → opt_ok opt →
  phys mod PAGE_SIZE = 0 → 0 ≤ phys → phys + PAGE_SIZE * n ≤ 2 ^ 52 → 0 ≤ vpn va 0 - v0 < n →
  maps s' root va (phys + PAGE_SIZE * (vpn va 0 - v0) + va mod PAGE_SIZE) (Z.testbit opt 2).
Proof.
  intros Hm Hopt Ha Hp Hb Hk. specialize (Hm va). cbv zeta in Hm. change (1 - 1) with 0 in Hm.
  rewrite decide_True in Hm by done. destruct Hm as [a Hw]. destruct (page_flags_ok opt Hopt) as (Hf & _ & _).
  set (k := vpn va 0 - v0) in *. change PAGE_SIZE with 4096 in *.
  assert (Hpa : page_addr (phys + 4096 * k)) by (split; [change PAGE_SIZE with 4096; Z.div_mod_to_equations; lia|lia]).
  eexists 1, a, _. split; [done|]. split.
  - apply (leaf_phys_page 1); try done. apply Hpa.
  - rewrite <- (Z.lor_0_r (page_flags opt)). by apply page_flags_bits.
Qed.

Lemma maps_large s s' root v0 n phys va opt :
  mapped_range 2 s s' root v0 n (λ k, large_entry opt (phys + LARGE_PAGE_SIZE * k)) → opt_ok opt →
  phys mod LARGE_PAGE_SIZE = 0 → 0 ≤ phys → phys + LARGE_PAGE_SIZE * n ≤ 2 ^ 52 → 0 ≤ vpn va 1 - v0 < n →
  maps s' root va (phys + LARGE_PAGE_SIZE * (vpn va 1 - v0) + va mod LARGE_PAGE_SIZE) (Z.testbit opt 2).
Proof.
  intros Hm Hopt Ha Hp Hb Hk. specialize (Hm va). cbv zeta in Hm. change (2 - 1) with 1 in Hm.
  rewrite decide_True in Hm by done. destruct Hm as [a Hw]. destruct (page_flags_ok opt Hopt) as (Hf & _ & _).
  set (k := vpn va 1 - v0) in *. change LARGE_PAGE_SIZE with (2 ^ 21) in *.
  assert (Hal : (phys + 2 ^ 21 * k) mod 2 ^ 21 = 0) by (Z.div_mod_to_equations; lia).
  assert (Hpa : page_addr (phys + 2 ^ 21 * k)).
  { split; [|lia]. change PAGE_SIZE with (2 ^ 12). apply Z.mod_divide in Hal as [c Hc]; [|lia].
    rewrite Hc. replace (c * 2 ^ 21) with (c * 2 ^ 9 * 2 ^ 12) by lia. by apply Z.mod_mul. }
  eexists 2, a, _. split; [done|]. unfold large_entry. split.
  - apply (leaf_phys_page 2); try done. apply flags_lor; [done|by split].
  - by apply page_flags_bits.
Qed.

Definition opt_with (flags opt : Z) : Z := if is_user flags then Z.lor opt PT_USER_MASK else opt.

Lemma opt_with_ok flags opt : opt_ok opt → opt_ok (opt_with flags opt).
Proof.
  intros [Hf Hl]. unfold opt_with. destruct (is_user flags); [|done].
  split; [apply flags_lor; [done|by split]|]. by rewrite large_lor, Hl.
Qed.

Lemma vm_inv_opt root tabs P s x : opt_ok x → vm_inv root tabs P s → vm_inv root tabs P (set_opt_mask x s).
Proof. intros Hx [H1 H2 H3 H4 H5]. by constructor. Qed.

(** Restoring the option mask at the end. *)
Lemma grows_restore k tabs P s x tabs' P' s' :
  grows k tabs P (set_opt_mask x s) tabs' P' s' → grows k tabs P s tabs' P' (set_opt_mask (pte_opt_mask s) s').
Proof. intros [H1 H2 H3 H4 H5 H6 H7]. constructor; try done. rewrite H6. by destruct s. Qed.

(** How many large pages there are in a range, and how many tables the range needs at most. *)
Definition range_large (flags len : Z) : Z := if is_huge flags then len / LARGE_PAGE_SIZE else 0.
Definition range_tables (flags start len : Z) : nat :=
  let n := range_large flags len in
  tables_for 2 2 (start / LARGE_PAGE_SIZE) n +
  tables_for 3 3 ((start + LARGE_PAGE_SIZE * n) / PAGE_SIZE) ((len - LARGE_PAGE_SIZE * n) / PAGE_SIZE).

(** The large pages of the range, if there are any. *)
Lemma setup_large_spec flags start len root tabs P s :
  vm_inv root tabs P s → 0 ≤ start → 0 ≤ len → start + len ≤ 2 ^ 48 →
  start mod (if is_huge flags then LARGE_PAGE_SIZE else PAGE_SIZE) = 0 →
  (∀ va, start ≤ va mod 2 ^ 48 < start + len → hw_walk 4 (vm_mem s) root va = None) →
  let n := range_large flags len in
  let k := tables_for 2 2 (start / LARGE_PAGE_SIZE) n in
  may k (vm_pages s) (if is_huge flags
       then large_pages_loop ops (S (Z.to_nat (len / LARGE_PAGE_SIZE))) root start (start + len) s
       else Ret (start, s)) (λ '(phys, s'), ∃ tabs' P',
    0 ≤ n ∧ phys = start + LARGE_PAGE_SIZE * n ∧ phys ≤ start + len ∧ (0 < n → start mod LARGE_PAGE_SIZE = 0) ∧
    vm_inv root tabs' P' s' ∧ grows k tabs P s tabs' P' s' ∧
    mapped_range 2 s s' root (start / LARGE_PAGE_SIZE) n (λ k, large_entry (pte_opt_mask s) (start + LARGE_PAGE_SIZE * k))).
Proof.
  intros Hinv Hs Hl Hb Ha Hfree n0 k0. subst k0 n0. unfold range_large. destruct (is_huge flags).
  - change LARGE_PAGE_SIZE with (2 ^ 21) in *. set (n := Z.to_nat (len / 2 ^ 21)).
    assert (Hz : len / 2 ^ 21 = Z.of_nat n) by (subst n; Z.div_mod_to_equations; lia). rewrite Hz.
    assert (Hn : len = 2 ^ 21 * Z.of_nat n + len mod 2 ^ 21) by (subst n; Z.div_mod_to_equations; lia).
    pose proof (Z.mod_pos_bound len (2 ^ 21)). replace (start + len) with (start + 2 ^ 21 * Z.of_nat n + len mod 2 ^ 21) by lia.
    eapply may_mono; [apply (large_pages_loop_spec n 2 start (len mod 2 ^ 21) root tabs P s); try done; change LARGE_PAGE_SIZE with (2 ^ 21); try lia|].
    { intros va Hva l a e Hw. rewrite Hfree in Hw; [done|]. unfold vpn in Hva. change (2 - 1) with 1 in Hva. change (12 + 9 * 1) with 21 in Hva.
      Z.div_mod_to_equations. lia. }
    { intros _. apply (missing_le 4 2). }
    intros [phys s'] (tabs' & P' & -> & Hinv' & Hg & Hm). exists tabs', P'.
    change LARGE_PAGE_SIZE with (2 ^ 21) in *. split_and!; try done; lia.
  - exists tabs, P. split_and!; try done; try lia; [apply grows_refl|apply mapped_range_nil].
Qed.

Lemma install_pages_spec phys len va root tabs P s :
  vm_inv root tabs P s → phys mod PAGE_SIZE = 0 → va mod PAGE_SIZE = 0 → len mod PAGE_SIZE = 0 →
  0 ≤ phys → 0 ≤ len → phys + len ≤ 2 ^ 52 → va mod 2 ^ 48 + len ≤ 2 ^ 48 →
  range_free 1 s root (vpn va 0) (len / PAGE_SIZE) →
  let k := tables_for 3 3 (vpn va 0) (len / PAGE_SIZE) in
  may k (vm_pages s) (install_pages ops root phys len va s) (λ s', ∃ tabs' P',
    vm_inv root tabs' P' s' ∧ grows k tabs P s tabs' P' s' ∧
    mapped_range 1 s s' root (vpn va 0) (len / PAGE_SIZE) (λ k, Z.lor (phys + PAGE_SIZE * k) (page_flags (pte_opt_mask s)))).
Proof.
  intros Hinv Hp Hv Hl Hp0 Hl0 Hb Hvb Hfree k. subst k. unfold install_pages. rewrite Hp, Hv, Hl. cbn [Z.eqb].
  change PAGE_SIZE with 4096 in *. rewrite u64_small by lia.
  assert (Hn : len = 4096 * Z.of_nat (Z.to_nat (len / 4096))) by (Z.div_mod_to_equations; lia).
  replace (len + phys) with (phys + PAGE_SIZE * Z.of_nat (Z.to_nat (len / 4096))) by (change PAGE_SIZE with 4096; lia).
  assert (Hz : Z.of_nat (Z.to_nat (len / 4096)) = len / 4096) by (Z.div_mod_to_equations; lia).
  clear Hl. revert Hn Hz. generalize (Z.to_nat (len / 4096)). intros n Hn Hz. rewrite <- Hz in Hfree |- *.
  eapply may_mono; [apply (install_pages_loop_spec n 3 phys va (vpn va 0) root tabs P s); try done; change PAGE_SIZE with 4096|].
  - lia.
  - unfold vpn. change (2 ^ (12 + 9 * 0)) with 4096. Z.div_mod_to_equations. lia.
  - intros _. apply (missing_le 4 1).
  - intros s' (tabs' & P' & Hinv' & Hg & Hm). by exists tabs', P'.
Qed.

(** Large pages first, then small ones: the whole range is mapped to itself. *)
Lemma range_walk s s1 s2 root start len n phys opt :
  0 ≤ start → 0 ≤ n → phys = start + 2 ^ 21 * n → phys ≤ start + len → start + len ≤ 2 ^ 48 →
  (0 < n → start mod 2 ^ 21 = 0) → phys mod 4096 = 0 → len mod 4096 = 0 → start mod 4096 = 0 → opt_ok opt →
  mapped_range 2 s s1 root (start / 2 ^ 21) n (λ k, large_entry opt (start + 2 ^ 21 * k)) →
  mapped_range 1 s1 s2 root (vpn phys 0) ((start + len - phys) / 4096) (λ k, Z.lor (phys + 4096 * k) (page_flags opt)) →
  ∀ va, if decide (start ≤ va mod 2 ^ 48 < start + len) then maps s2 root va (va mod 2 ^ 48) (Z.testbit opt 2)
        else hw_walk 4 (vm_mem s2) root va = hw_walk 4 (vm_mem s) root va.
Proof.
  intros Hs Hn Hphys Hle Hb Hal Hap Hlen Hst Hopt H2 H1 va.
  assert (E0 : vpn va 0 = va mod 2 ^ 48 / 4096) by done. assert (E1 : vpn va 1 = va mod 2 ^ 48 / 2 ^ 21) by done.
  assert (Hv : phys < 2 ^ 48 → vpn phys 0 = phys / 4096) by (intros; unfold vpn; rewrite Z.mod_small by lia; done).
  pose proof (H1 va) as H1'. pose proof (H2 va) as H2'. cbv zeta in H1', H2'. change (1 - 1) with 0 in H1'. change (2 - 1) with 1 in H2'.
  destruct (decide (start ≤ va mod 2 ^ 48 < start + len)) as [Hva|Hva]; [destruct (Z.lt_ge_cases (va mod 2 ^ 48) phys) as [Hlo|Hhi]|].
  - assert (Hk : 0 ≤ vpn va 1 - start / 2 ^ 21 < n).
    { rewrite E1. specialize (Hal ltac:(lia)). Z.div_mod_to_equations. lia. }
    rewrite decide_False in H1'. 2:{ destruct (decide (phys = 2 ^ 48)) as [->|]; [rewrite (Z.div_small (start + len - 2 ^ 48)) by lia; lia|].
      rewrite E0, Hv by lia. Z.div_mod_to_equations. lia. }
    specialize (Hal ltac:(lia)).
    destruct (maps_large s s1 root _ n start va opt H2 Hopt) as (l & a & e & Hw & Hp & Hbits);
      try done; change LARGE_PAGE_SIZE with (2 ^ 21); try lia.
    exists l, a, e. rewrite H1'. split; [done|]. split; [|done]. rewrite Hp, E1.
    change LARGE_PAGE_SIZE with (2 ^ 21). Z.div_mod_to_equations. lia.
  - rewrite E0, Hv in H1' by lia. rewrite decide_True in H1' by (Z.div_mod_to_equations; lia).
    rewrite Hv in H1 by lia.
    destruct (maps_page s1 s2 root _ _ phys va opt H1 Hopt) as (l & a & e & Hw & Hp & Hbits);
      try done; change PAGE_SIZE with 4096; rewrite ?E0; try (Z.div_mod_to_equations; lia).
    exists l, a, e. split; [done|]. split; [|done]. rewrite Hp, E0. change PAGE_SIZE with 4096. Z.div_mod_to_equations. lia.
  - rewrite decide_False in H1'. 2:{ destruct (decide (phys = 2 ^ 48)) as [->|]; [rewrite (Z.div_small (start + len - 2 ^ 48)) by lia; lia|].
      rewrite E0, Hv by lia. Z.div_mod_to_equations. lia. }
    rewrite H1'. rewrite decide_False in H2'; [done|]. rewrite E1. destruct (decide (0 < n)) as [Hpos|]; [|lia].
    specialize (Hal Hpos). Z.div_mod_to_equations. lia.
Qed.

Lemma setup_range_spec flags start len root tabs P s :
  vm_inv root tabs P s → 0 ≤ start → 0 ≤ len → start + len ≤ 2 ^ 48 → len mod PAGE_SIZE = 0 →
  start mod (if is_huge flags then LARGE_PAGE_SIZE else PAGE_SIZE) = 0 →
  (∀ va, start ≤ va mod 2 ^ 48 < start + len → hw_walk 4 (vm_mem s) root va = None) →
  let k := range_tables flags start len in
  may k (vm_pages s) (__setup_mmu_range ops root start len flags s) (λ s', ∃ tabs' P',
    vm_inv root tabs' P' s' ∧ grows k tabs P s tabs' P' s' ∧
    ∀ va, if decide (start ≤ va mod 2 ^ 48 < start + len)
          then maps s' root va (va mod 2 ^ 48) (is_user flags || Z.testbit (pte_opt_mask s) 2)
          else hw_walk 4 (vm_mem s') root va = hw_walk 4 (vm_mem s) root va).
Proof.
  intros Hinv Hs Hl Hb Hlen Ha Hfree k. unfold __setup_mmu_range. fold (is_huge flags) (is_user flags).
  set (opt := opt_with flags (pte_opt_mask s)). rewrite (u64_small (len + start)) by lia.
  replace (len + start) with (start + len) by lia.
  replace (if is_user flags then set_opt_mask (Z.lor (pte_opt_mask s) PT_USER_MASK) s else s) with (set_opt_mask opt s)
    by (subst opt; unfold opt_with; destruct (is_user flags); [done|by destruct s]).
  pose proof (opt_with_ok flags _ (vi_opt _ _ _ _ Hinv) : opt_ok opt) as Hopt.
  set (n := range_large flags len).
  apply may_bind. eapply may_le, may_mono; [|apply (setup_large_spec flags start len root tabs P (set_opt_mask opt s)); try done; by apply vm_inv_opt|];
    [subst k n; unfold range_tables; lia|]. fold n.
  intros [phys s1] (tabs1 & P1 & Hn & Hphys & Hle & Hal & Hinv1 & Hg1 & Hm1). cbn [pte_opt_mask set_opt_mask] in Hm1.
  change LARGE_PAGE_SIZE with (2 ^ 21) in *. rewrite u64_small by lia.
  assert (Hap : phys mod 4096 = 0).
  { destruct (is_huge flags); [|change PAGE_SIZE with 4096 in *]; subst phys; Z.div_mod_to_equations; lia. }
  assert (Hlow : ∀ va, phys ≤ va mod 2 ^ 48 → vpn va 1 - start / 2 ^ 21 < n → False).
  { intros va Hva. unfold vpn. change (12 + 9 * 1) with 21. destruct (decide (0 < n)) as [Hpos|].
    - specialize (Hal Hpos). Z.div_mod_to_equations. lia.
    - assert (start / 2 ^ 21 ≤ va mod 2 ^ 48 / 2 ^ 21) by (apply Z.div_le_mono; lia). lia. }
  assert (Hk : (tables_for 2 2 (start / 2 ^ 21) n + tables_for 3 3 (vpn phys 0) ((start + len - phys) / 4096) = k)%nat).
  { subst k. unfold range_tables. fold n. f_equal. change LARGE_PAGE_SIZE with (2 ^ 21). change PAGE_SIZE with 4096. rewrite <- Hphys.
    replace (len - 2 ^ 21 * n) with (start + len - phys) by lia. destruct (decide (phys = 2 ^ 48)) as [E|E].
    - rewrite (Z.div_small (start + len - phys)) by lia. done.
    - unfold vpn. rewrite Z.mod_small by lia. done. }
  eapply may_later; [apply Hg1|rewrite Hk; lia|].
  apply may_bind. eapply may_mono; [apply (install_pages_spec phys (start + len - phys) phys root tabs1 P1 s1 Hinv1);
    change PAGE_SIZE with 4096 in *; try done; try lia|].
  - destruct (is_huge flags); Z.div_mod_to_equations; lia.
  - destruct (decide (phys = 2 ^ 48)) as [->|]; [rewrite Z_mod_same_full; lia|]. rewrite Z.mod_small; lia.
  - intros va Hva. change (1 - 1) with 0 in Hva. intros l a e Hw.
    assert (Hlt : phys < 2 ^ 48) by (destruct (decide (phys = 2 ^ 48)) as [->|]; [|lia]; rewrite (Z.div_small (start + len - 2 ^ 48)) in Hva; lia).
    assert (Hr : phys ≤ va mod 2 ^ 48 < start + len).
    { unfold vpn in Hva. change (2 ^ (12 + 9 * 0)) with 4096 in Hva. rewrite (Z.mod_small phys) in Hva by lia.
      Z.div_mod_to_equations. lia. }
    specialize (Hm1 va). cbv zeta in Hm1. change (2 - 1) with 1 in Hm1. rewrite decide_False in Hm1.
    + rewrite Hm1 in Hw. cbn [vm_mem set_opt_mask] in Hw. rewrite Hfree in Hw; [done|lia].
    + intros [_ H]. by apply (Hlow va); [lia|].
  - intros s2 (tabs2 & P2 & Hinv2 & Hg2 & Hm2). exists tabs2, P2. cbn [may].
    pose proof (grows_trans _ _ _ _ _ _ _ _ _ _ _ Hg1 Hg2) as Hg. cbv zeta in Hg. change PAGE_SIZE with 4096 in Hg. rewrite Hk in Hg.
    split; [apply vm_inv_opt; [apply Hinv|done]|]. split; [by eapply grows_restore|].
    replace (is_user flags || Z.testbit (pte_opt_mask s) 2) with (Z.testbit opt 2)
      by (subst opt; unfold opt_with; destruct (is_user flags); [rewrite Z.lor_spec; apply orb_true_r|done]).
    rewrite (grows_opt _ _ _ _ _ _ _ Hg1) in Hm2.
    apply (range_walk (set_opt_mask opt s) s1 s2 root start len n phys opt); try done.
    destruct (is_huge flags); Z.div_mod_to_equations; lia.
Qed.
End vm.
