(* ===== verification/X86VmSplit.v ===== *)
(** * lib/x86/vm.c: searching page tables and splitting large pages *)

From S2P Require Import Prelude.
From S2P Require Import Bitops.
From S2P Require Import LinkedList.
From S2P Require Import AllocPage.
From S2P Require Import PageMem.
From S2P Require Import X86Vm.
From S2P Require Import X86VmProps.

Section search.
Context {A : Type}.
Implicit Types s : vm_state A.
Context (root : Z) (tabs : gmap Z (Z * Z)) (s : vm_state A) (Hok : pt_ok root tabs (vm_mem s)).

Lemma search_offset va n :
  Z.land (Z.shiftr va ((Z.of_nat n - 1) * PGDIR_WIDTH + 12)) PGDIR_MASK = PGDIR_OFFSET va (Z.of_nat n).
Proof. done. Qed.

(** What the search returns: an entry on the path of [va], at or above the
    level asked for; the walk goes through it, and it is unused, a large
    page, or of the level asked for. *)
Definition on_path (n : nat) (pt va : Z) (r : pte_search) (e : Z) : Prop :=
  ∃ (L : nat) q, (1 ≤ L ≤ n)%nat ∧ ps_level r = Z.of_nat L ∧ ps_pte r = q + 8 * PGDIR_OFFSET va (Z.of_nat L) ∧
    tab_at n L (vm_mem s) pt va = Some q ∧ tabs !! q = Some (Z.of_nat L, vpn va (Z.of_nat L)) ∧
    vm_mem s !! ps_pte r = Some e ∧ 0 ≤ e < 2 ^ 64.

Definition is_leaf_huge (l e : Z) : bool := ((l =? 2) || (l =? 3)) && large e.

Lemma find_pte_walk_spec n pt va lowest :
  tabs !! pt = Some (Z.of_nat n, vpn va (Z.of_nat n)) → 1 ≤ lowest ≤ Z.of_nat n →
  post (find_pte_walk n va lowest pt s) (λ r, ∃ e, on_path n pt va r e ∧ lowest ≤ ps_level r ∧
    (present e = false ∨ is_leaf_huge (ps_level r) e = true ∨ ps_level r = lowest)).
Proof.
  revert pt. induction n as [|n IH]; intros pt Hpt Hlow; [lia|]. cbn [find_pte_walk]. rewrite search_offset.
  set (l := Z.of_nat (S n)) in *. pose proof (PGDIR_OFFSET_range va l ltac:(lia)) as Hi.
  destruct (po_entry _ _ _ Hok _ _ _ _ Hpt Hi) as (e & He & Hr). cbn [ps_pte ps_level].
  unfold load, rd at 1. rewrite He. cbn [bind].
  assert (Hon : on_path (S n) pt va (mk_search l (pt + 8 * PGDIR_OFFSET va l)) e).
  { exists (S n), pt. split_and!; try done; try lia. cbn [tab_at]. by rewrite Nat.eqb_refl. }
  destruct (present e) eqn:Hpr; cbn [negb]; [|exists e; split_and!; try done; cbn; [lia|auto]].
  destruct (((l =? 2) || (l =? 3)) && large e) eqn:Hlg; [exists e; split_and!; try done; cbn; [lia|auto]|].
  destruct (Z.eqb_spec l lowest) as [<-|Hne]; [exists e; split_and!; try done; auto|].
  assert (Hlf : leaf l e = false) by (unfold leaf; rewrite Hlg, orb_false_r; apply Z.eqb_neq; lia).
  eapply post_mono; [apply (IH (pte_addr e)); [by apply (walk_child root tabs (vm_mem s) Hok n pt)|lia]|].
  intros r (e' & (L & q & HL & E1 & E2 & Ht & Hrest) & Hlw & Hcase). exists e'. split; [|done].
  exists L, q. split_and!; try done; try lia; try apply Hrest. cbn [tab_at].
  rewrite (proj2 (Nat.eqb_neq (S n) L)) by lia. fold l. rewrite He. cbn [mbind option_bind]. by rewrite Hpr, Hlf.
Qed.

(** The walk of the processor from an entry on the path. *)
Lemma on_path_walk n pt va r e :
  on_path n pt va r e → hw_walk n (vm_mem s) pt va =
    if negb (present e) then None else
    if leaf (ps_level r) e then Some (ps_level r, ps_pte r, e)
    else hw_walk (Z.to_nat (ps_level r - 1)) (vm_mem s) (pte_addr e) va.
Proof.
  intros (L & q & HL & E1 & E2 & Ht & _ & He & _). rewrite (hw_walk_tab _ _ _ _ _ _ Ht), E1.
  destruct L as [|L]; [lia|]. cbn [hw_walk]. rewrite <- E2, He. cbn [mbind option_bind].
  replace (Z.to_nat (Z.of_nat (S L) - 1)) with L by lia. done.
Qed.

Lemma find_pte_level_spec va lowest : 1 ≤ lowest ≤ 4 →
  post (find_pte_level root va lowest s) (λ r, ∃ e, on_path 4 root va r e ∧ lowest ≤ ps_level r ∧
    (present e = false ∨ is_leaf_huge (ps_level r) e = true ∨ ps_level r = lowest)).
Proof.
  intros Hl. unfold find_pte_level. change (Z.of_nat PAGE_LEVEL) with 4.
  rewrite (proj2 (Z.leb_le _ _)), (proj2 (Z.leb_le lowest _)) by lia. cbn [andb].
  apply find_pte_walk_spec; [by apply (root_vpn root tabs (vm_mem s))|done].
Qed.

Lemma found_leaf_spec va r e : on_path 4 root va r e →
  found_leaf_pte r s = Ret ((ps_level r =? 1) || (is_leaf_huge (ps_level r) e && present e)).
Proof.
  intros (L & q & HL & E1 & E2 & Ht & _ & He & _). unfold found_leaf_pte, found_huge_pte, is_leaf_huge, load, rd.
  rewrite He. destruct (ps_level r =? 1); [done|]. cbn [orb]. destruct ((ps_level r =? 2) || (ps_level r =? 3)); [|done].
  cbn [bind andb]. by rewrite andb_comm.
Qed.

(** [get_pte]: the leaf entry of the walk; for an address that is not mapped,
    null or an unused entry of level 1. *)
Lemma get_pte_spec va :
  post (get_pte root va s) (λ a,
    match hw_walk 4 (vm_mem s) root va with
    | Some (_, a', _) => a = a'
    | None => a = 0 ∨ ∃ e, vm_mem s !! a = Some e ∧ present e = false
    end).
Proof.
  unfold get_pte. apply post_bind. eapply post_mono; [apply (find_pte_level_spec va 1); lia|].
  intros r (e & Hon & Hl & Hcase). rewrite (found_leaf_spec va r e Hon). cbn [bind post].
  rewrite (on_path_walk 4 root va r e Hon). destruct Hon as (L & q & HL & E1 & E2 & _ & _ & He & _).
  unfold leaf. fold (is_leaf_huge (ps_level r) e). destruct (present e) eqn:Hpr; cbn [negb].
  - rewrite andb_true_r. destruct Hcase as [|[->| ->]]; [done| |done]. by rewrite orb_true_r.
  - rewrite andb_false_r, orb_false_r. destruct (ps_level r =? 1); [right; eauto|by left].
Qed.
End search.

(** The leaf of a walk is an entry of a table of its level. *)
Lemma walk_leaf root tabs m n p va l a e : pt_ok root tabs m → tabs !! p = Some (Z.of_nat n, vpn va (Z.of_nat n)) →
  hw_walk n m p va = Some (l, a, e) →
  ∃ q, tabs !! q = Some (l, vpn va l) ∧ a = q + 8 * PGDIR_OFFSET va l ∧ 1 ≤ l ≤ Z.of_nat n ∧ 0 < a ∧
    m !! a = Some e ∧ 0 ≤ e < 2 ^ 64 ∧ present e = true ∧ leaf l e = true.
Proof.
  intros Hok. revert p. induction n as [|n IH]; intros p Hp; [done|]. cbn [hw_walk].
  pose proof (PGDIR_OFFSET_range va (Z.of_nat (S n)) ltac:(lia)) as Hi.
  destruct (po_entry _ _ _ Hok _ _ _ _ Hp Hi) as (e' & He' & Hr). rewrite He'. cbn [mbind option_bind].
  destruct (present e') eqn:Hpr; [|done]. cbn [negb]. destruct (leaf _ e') eqn:Hl.
  - intros [= <- <- <-]. exists p. destruct (po_page _ _ _ Hok _ _ _ Hp) as (? & _ & ?). split_and!; try done; lia.
  - intros H. destruct (IH (pte_addr e')) as (q & H1 & H2 & H3 & H4); [by apply (walk_child root tabs m Hok n p)|done|].
    exists q. split; [done|]. split; [done|]. split; [lia|done].
Qed.

Lemma virt_to_pte_phys_spec {A} root tabs (s : vm_state A) va l a e :
  pt_ok root tabs (vm_mem s) → hw_walk 4 (vm_mem s) root va = Some (l, a, e) →
  virt_to_pte_phys root va s = Ret (pte_addr e + va mod 4096).
Proof.
  intros Hok Hw. destruct (walk_leaf root tabs _ 4 root va l a e Hok (root_vpn _ _ _ va Hok) Hw) as (q & _ & _ & _ & Ha & He & _).
  unfold virt_to_pte_phys. pose proof (get_pte_spec root tabs s Hok va) as H. rewrite Hw in H.
  apply post_inv in H as (a' & -> & ->). cbn [bind]. rewrite (proj2 (Z.eqb_neq a 0)) by lia. cbn [negb].
  unfold load, rd. rewrite He. cbn [bind]. change (PAGE_SIZE - 1) with (Z.ones 12). rewrite Z.land_ones by lia.
  destruct (pte_addr_page e) as [_ Hp]. pose proof (Z.mod_pos_bound va (2 ^ 12)).
  rewrite u64_small by lia. done.
Qed.

(** ** Splitting *)

Lemma land_not_bits e msk k : 0 ≤ k < 64 → 0 ≤ msk → Z.testbit (Z.land e (u64 (Z.lnot msk))) k = Z.testbit e k && negb (Z.testbit msk k).
Proof.
  intros Hk Hm. rewrite Z.land_spec. f_equal. unfold u64. rewrite Z.mod_pow2_bits_low by lia. by rewrite Z.lnot_spec by lia.
Qed.

Lemma addr_mask_bit k : 0 ≤ k → Z.testbit PT_ADDR_MASK k = bool_decide (12 ≤ k < 52).
Proof.
  intros Hk. rewrite PT_ADDR_MASK_shift, Z.shiftl_spec by done.
  destruct (Z.lt_ge_cases k 12); [rewrite Z.testbit_neg_r by lia; by rewrite bool_decide_eq_false_2 by lia|].
  destruct (Z.lt_ge_cases k 52); [rewrite Z.ones_spec_low by lia; by rewrite bool_decide_eq_true_2 by lia|].
  rewrite Z.ones_spec_high by lia. by rewrite bool_decide_eq_false_2 by lia.
Qed.

(** [pte & ~PT_ADDR_MASK], and without the large-page flag. *)
Definition pte_flags (e : Z) : Z := Z.land e (u64 (Z.lnot PT_ADDR_MASK)).
Definition small_flags (e : Z) : Z := Z.land (pte_flags e) (u64 (Z.lnot PT_PAGE_SIZE_MASK)).

Lemma land_u64 e x : 0 ≤ e → 0 ≤ Z.land e (u64 x) < 2 ^ 64.
Proof.
  intros He. pose proof (u64_range x). split; [apply Z.land_nonneg; lia|].
  destruct (decide (Z.land e (u64 x) = 0)) as [->|]; [lia|].
  assert (0 ≤ Z.land e (u64 x)) by (apply Z.land_nonneg; lia). apply Z.log2_lt_pow2; [lia|].
  assert (u64 x ≠ 0) by (intros E; rewrite E, Z.land_0_r in *; done).
  eapply Z.le_lt_trans; [apply Z.log2_land; lia|]. apply Z.min_lt_iff. right. apply Z.log2_lt_pow2; lia.
Qed.

Lemma pte_flags_ok e : 0 ≤ e → flags_ok (pte_flags e).
Proof.
  intros He. split; [by apply land_u64|]. unfold pte_flags, pte_addr. rewrite <- Z.land_assoc.
  change (Z.land (u64 (Z.lnot PT_ADDR_MASK)) PT_ADDR_MASK) with 0. apply Z.land_0_r.
Qed.
Lemma small_flags_ok e : 0 ≤ e → flags_ok (small_flags e).
Proof.
  intros He. destruct (pte_flags_ok e He) as [H1 H2]. split; [apply land_u64; lia|]. unfold small_flags, pte_addr in *.
  transitivity (Z.land (Z.land (pte_flags e) PT_ADDR_MASK) (u64 (Z.lnot PT_PAGE_SIZE_MASK))); [|rewrite H2; apply Z.land_0_l].
  by rewrite <- !Z.land_assoc.
Qed.

Lemma pte_flags_bit e k : 0 ≤ k < 12 ∨ 52 ≤ k < 64 → Z.testbit (pte_flags e) k = Z.testbit e k.
Proof.
  intros Hk. unfold pte_flags. rewrite land_not_bits by (lia || done). rewrite addr_mask_bit by lia.
  rewrite bool_decide_eq_false_2 by lia. apply andb_true_r.
Qed.
Lemma small_flags_bit e k : 0 ≤ k < 12 ∨ 52 ≤ k < 64 → Z.testbit (small_flags e) k = Z.testbit e k && negb (k =? 7).
Proof.
  intros Hk. unfold small_flags. rewrite land_not_bits, pte_flags_bit by (lia || done). f_equal. f_equal.
  change PT_PAGE_SIZE_MASK with (2 ^ 7). rewrite Z.pow2_bits_eqb by lia. apply Z.eqb_sym.
Qed.

(** ** What a program may do at an address *)

(** The physical address, and whether the program may write, is in user mode,
    may not execute, by the leaf entry [e] of level [l]. *)
Definition leaf_access (l e va : Z) : Z * bool * bool * bool :=
  (leaf_phys l e va, Z.testbit e 1, Z.testbit e 2, Z.testbit e 63).
(** Every entry above the leaf restricts this: all entries have to allow
    writing and user mode, and one of them is enough to forbid execution. *)
Definition restrict (e : Z) '((a, w, u, nx) : Z * bool * bool * bool) : Z * bool * bool * bool :=
  (a, Z.testbit e 1 && w, Z.testbit e 2 && u, Z.testbit e 63 || nx).
(** The walk of the processor, with the rights of all levels. *)
Fixpoint hw_access (n : nat) (m : pmem) (p va : Z) : option (Z * bool * bool * bool) :=
  match n with
  | O => None
  | S n' =>
      e ← m !! (p + 8 * PGDIR_OFFSET va (Z.of_nat n));
      if negb (present e) then None
      else if leaf (Z.of_nat n) e then Some (leaf_access (Z.of_nat n) e va)
      else restrict e <$> hw_access n' m (pte_addr e) va
  end.

Lemma hw_access_phys n m p va :
  (λ '(a, _, _, _), a) <$> hw_access n m p va = '(l, _, e) ← hw_walk n m p va; Some (leaf_phys l e va).
Proof.
  revert p. induction n as [|n IH]; intros p; [done|]. cbn [hw_access hw_walk]. destruct (m !! _) as [e|]; [|done]. cbn [mbind option_bind].
  destruct (present e); [|done]. cbn [negb]. destruct (leaf _ e); [done|]. rewrite <- (IH (pte_addr e)).
  by destruct (hw_access n m _ va) as [[[[? ?] ?] ?]|].
Qed.

(** A large page replaced by a table: where the table gives the access of the
    page below its entry, nothing changes anywhere. *)
Lemma linked_access root tabs m m' p l v i q e e0 f n p' va :
  pt_ok root tabs m → tabs !! p = Some (l, v) → 0 ≤ i < 512 → page_addr q → tabs !! q = None → filled q f m m' →
  present e = true → leaf l e = false → pte_addr e = q →
  m !! (p + 8 * i) = Some e0 → present e0 = true → leaf l e0 = true →
  restrict e <$> hw_access (Z.to_nat (l - 1)) (linked m' p i e) q va = Some (leaf_access l e0 va) →
  tabs !! p' = Some (Z.of_nat n, vpn va (Z.of_nat n)) →
  hw_access n (linked m' p i e) p' va = hw_access n m p' va.
Proof.
  intros Hok Hp Hi Hq Hfresh Hm Hpr Hlg Ha E0 Hpr0 Hlf0 Hnew. revert p'. induction n as [|n IH]; intros p' Hp'; [done|].
  cbn [hw_access]. pose proof (PGDIR_OFFSET_range va (Z.of_nat (S n)) ltac:(lia)) as Ho.
  destruct (decide ((p', PGDIR_OFFSET va (Z.of_nat (S n))) = (p, i))) as [[= -> E]|Hne].
  - assert (El : l = Z.of_nat (S n)) by congruence. rewrite E, E0, (linked_slot m' p i e). cbn [mbind option_bind].
    rewrite Hpr, Hpr0, <- El, Hlg, Hlf0, Ha. cbn [negb]. rewrite <- Hnew. by replace (Z.to_nat (l - 1)) with n by lia.
  - rewrite (linked_old root tabs m m' Hok p l v i q e Hp Hi Hq Hfresh f Hm p' _ _ Hp') by done.
    destruct (m !! (p' + _)) as [e'|] eqn:He'; [|done]. cbn [mbind option_bind].
    destruct (present e') eqn:Hpr'; [|done]. destruct (leaf _ e') eqn:Hl'; [done|]. cbn [negb]. f_equal.
    apply IH. by apply (walk_child root tabs m Hok n p').
Qed.

Section split.
Context {A : Type} (ops : page_ops A) (I : A → gset Z → Prop) (full : A → Prop) (ram : Z → Prop).
Context {Hlaws : page_laws ops I full ram}.
Implicit Types s : vm_state A.

(** The entries of the table that replaces the large page [e] of level [l]. *)
Definition split_proto (l e : Z) : Z := if l =? 2 then small_flags e else pte_flags e.
Definition split_entry (l e i : Z) : Z := Z.lor (split_proto l e) (pte_addr e + 2 ^ PGDIR_BITS (l - 1) * i).
(** The entry that points to it. *)
Definition split_parent (e q : Z) : Z :=
  Z.lor (Z.land (Z.land e (u64 (Z.lnot PT_PAGE_SIZE_MASK))) (u64 (Z.lnot PT_ADDR_MASK))) q.

Lemma split_parent_small e q : split_parent e q = Z.lor (small_flags e) q.
Proof. unfold split_parent, small_flags, pte_flags. by rewrite <- !Z.land_assoc. Qed.

Lemma small_flags_word e : 0 ≤ e → present e = true → present (small_flags e) = true ∧ large (small_flags e) = false.
Proof.
  intros He. rewrite !present_bit, large_bit. rewrite !small_flags_bit by lia. intros ->. split; [done|]. apply andb_false_r.
Qed.

Lemma split_parent_ok e q : 0 ≤ e → present e = true → page_addr q →
  0 ≤ split_parent e q < 2 ^ 64 ∧ present (split_parent e q) = true ∧ large (split_parent e q) = false ∧
  pte_addr (split_parent e q) = q.
Proof.
  intros He Hpr Hq. destruct (small_flags_ok e He) as [Hw Hf]. destruct (small_flags_word e He Hpr) as [H1 H2].
  rewrite split_parent_small. split; [pose proof Hq as [_ ?]; apply lor_word; lia|].
  rewrite present_lor, large_lor, H1, H2, (page_not_large q), Z.lor_comm by done. split; [done|]. split; [done|].
  by apply pte_addr_lor.
Qed.

Lemma split_entry_ok l e i : l = 2 ∨ l = 3 → 0 ≤ e → present e = true → large e = true →
  pte_addr e mod 2 ^ PGDIR_BITS l = 0 → 0 ≤ i < 512 →
  page_addr (pte_addr e + 2 ^ PGDIR_BITS (l - 1) * i) ∧
  0 ≤ split_entry l e i < 2 ^ 64 ∧ present (split_entry l e i) = true ∧ leaf (l - 1) (split_entry l e i) = true ∧
  pte_addr (split_entry l e i) = pte_addr e + 2 ^ PGDIR_BITS (l - 1) * i.
Proof.
  intros Hl He Hpr Hlg Ha Hi. destruct (pte_addr_page e) as [_ Hb].
  assert (Hp : page_addr (pte_addr e + 2 ^ PGDIR_BITS (l - 1) * i)).
  { unfold page_addr. change PAGE_SIZE with 4096. destruct Hl as [->| ->];
      [change (2 ^ PGDIR_BITS 2) with (2 ^ 21) in *; change (2 ^ PGDIR_BITS (2 - 1)) with 4096
      |change (2 ^ PGDIR_BITS 3) with (2 ^ 30) in *; change (2 ^ PGDIR_BITS (3 - 1)) with (2 ^ 21)];
      Z.div_mod_to_equations; lia. }
  assert (Hf : flags_ok (split_proto l e)) by (unfold split_proto; case_match; [by apply small_flags_ok|by apply pte_flags_ok]).
  assert (Hpp : present (split_proto l e) = true).
  { rewrite present_bit in Hpr |- *. unfold split_proto. case_match; [rewrite small_flags_bit by lia|rewrite pte_flags_bit by lia]; by rewrite Hpr. }
  unfold split_entry. split; [done|]. split; [pose proof Hp as [_ ?]; destruct Hf; apply lor_word; lia|].
  split; [by rewrite present_lor, Hpp|]. split.
  - destruct Hl as [->| ->]; [done|]. unfold leaf. cbn. rewrite large_lor. unfold split_proto. cbn.
    rewrite large_bit in Hlg. by rewrite large_bit, pte_flags_bit, Hlg by lia.
  - rewrite Z.lor_comm. by apply pte_addr_lor.
Qed.

Lemma split_loop l e q s : l = 2 ∨ l = 3 → words (vm_mem s) q →
  ∃ pa' m', for_ 512 0 (λ i '(pa, s),
      let* s := store (q + 8 * i) (Z.lor (split_proto l e) pa) s in
      Ret (u64 (pa + Z.shiftl 1 (PGDIR_BITS (l - 1))), s)) (pte_addr e, s) = Ret (pa', set_mem m' s) ∧
    filled q (split_entry l e) (vm_mem s) m'.
Proof.
  intros Hl Hw. set (body := λ i '(pa, s), _). destruct (pte_addr_page e) as [_ Hb].
  assert (H : post (for_ 512 0 body (pte_addr e, s)) (λ '(pa, s'), ∃ m', s' = set_mem m' s ∧ filled_upto 512 q (split_entry l e) (vm_mem s) m')).
  { eapply post_mono; [apply (for_inv (λ k '(pa, s'), pa = pte_addr e + 2 ^ PGDIR_BITS (l - 1) * k ∧
      ∃ m', s' = set_mem m' s ∧ filled_upto k q (split_entry l e) (vm_mem s) m') 512 0)|].
    - split; [lia|]. exists (vm_mem s). rewrite set_mem_mem. split; [done|]. split; [lia|done].
    - intros k [pa s'] Hk (-> & m' & -> & Hf). unfold body. fold (split_entry l e k).
      destruct (wr_next k q (split_entry l e) (vm_mem s) m' Hf) as (m'' & E & Hf'); [lia|done|].
      unfold store. cbn [vm_mem set_mem]. rewrite E. cbn [bind post].
      rewrite Z.shiftl_1_l. split; [|by exists m''].
      assert (2 ^ PGDIR_BITS (l - 1) = 2 ^ 12 ∨ 2 ^ PGDIR_BITS (l - 1) = 2 ^ 21) as [->| ->] by (destruct Hl as [->| ->]; auto);
        rewrite u64_small; lia.
    - intros [pa s'] (_ & H). exact H. }
  apply post_inv in H as ([pa s'] & -> & m' & -> & Hf). by exists pa, m'.
Qed.

(** A walk that arrives in a table of leaves ends there. *)
Lemma leaf_table_walk m q va l f : 1 ≤ l →
  (∀ j, 0 ≤ j < 512 → m !! (q + 8 * j) = Some (f j) ∧ present (f j) = true ∧ leaf l (f j) = true) →
  hw_walk (Z.to_nat l) m q va = Some (l, q + 8 * PGDIR_OFFSET va l, f (PGDIR_OFFSET va l)).
Proof.
  intros Hl H. destruct (Z.to_nat l) as [|k] eqn:Ek; [lia|]. assert (El : Z.of_nat (S k) = l) by lia. cbn [hw_walk].
  rewrite El. destruct (H (PGDIR_OFFSET va l)) as (-> & Hp & Hlf); [by apply PGDIR_OFFSET_range|].
  cbn [mbind option_bind]. by rewrite Hp, Hlf.
Qed.

(** Every leaf entry names a page aligned to its size. *)
Definition aligned_leaves (m : pmem) (root : Z) : Prop :=
  ∀ va l a e, hw_walk 4 m root va = Some (l, a, e) → pte_addr e mod 2 ^ PGDIR_BITS l = 0.

Lemma page_top_bit p : page_addr p → Z.testbit p 63 = false.
Proof.
  intros [_ [H0 H1]]. destruct (decide (p = 0)) as [->|]; [apply Z.bits_0|]. apply Z.bits_above_log2; [lia|].
  apply Z.lt_trans with 52; [apply Z.log2_lt_pow2; lia|lia].
Qed.

Lemma split_arith a x va : 0 < a → x mod (a * 512) = 0 →
  (x + a * (va / a mod 512)) / a * a + va mod a = x / (a * 512) * (a * 512) + va mod (a * 512) ∧
  (x + a * (va / a mod 512)) mod a = 0.
Proof.
  intros Ha [c ->]%Z.mod_divide; [|lia]. rewrite (Z.rem_mul_r va a 512), Z.div_mul by lia.
  replace (c * (a * 512) + a * (va / a mod 512)) with ((c * 512 + va / a mod 512) * a) by lia.
  rewrite Z.div_mul, Z.mod_mul by lia. lia.
Qed.

Lemma split_view l e va : l = 2 ∨ l = 3 → 0 ≤ e → present e = true → large e = true →
  pte_addr e mod 2 ^ PGDIR_BITS l = 0 →
  let e' := split_entry l e (PGDIR_OFFSET va (l - 1)) in
  leaf_phys (l - 1) e' va = leaf_phys l e va ∧ Z.testbit e' 1 = Z.testbit e 1 ∧
  Z.testbit e' 2 = Z.testbit e 2 ∧ Z.testbit e' 63 = Z.testbit e 63 ∧ pte_addr e' mod 2 ^ PGDIR_BITS (l - 1) = 0.
Proof.
  intros Hl He Hpr Hlg Ha e'. pose proof (PGDIR_OFFSET_range va (l - 1) ltac:(lia)) as Hi.
  destruct (split_entry_ok l e _ Hl He Hpr Hlg Ha Hi) as (Hp & _ & _ & _ & Had). fold e' in Had.
  assert (Hbit : ∀ k, 0 ≤ k < 12 ∨ k = 63 → k ≠ 7 → Z.testbit e' k = Z.testbit e k).
  { intros k Hk Hk7. unfold e', split_entry. rewrite Z.lor_spec. set (pa := pte_addr e + _) in *.
    assert (Hpb : Z.testbit pa k = false).
    { destruct Hk as [| ->]; [by apply page_low_bits|by apply page_top_bit]. }
    rewrite Hpb, orb_false_r. unfold split_proto. case_match; [|apply pte_flags_bit; lia].
    rewrite small_flags_bit by lia. rewrite (proj2 (Z.eqb_neq k 7)) by done. apply andb_true_r. }
  assert (El : 2 ^ PGDIR_BITS l = 2 ^ PGDIR_BITS (l - 1) * 512) by (destruct Hl as [->| ->]; done).
  assert (Eo : PGDIR_OFFSET va (l - 1) = va / 2 ^ PGDIR_BITS (l - 1) mod 512).
  { rewrite PGDIR_OFFSET_eq by lia. unfold PGDIR_BITS, PGDIR_WIDTH, PAGE_SHIFT. do 3 f_equal. lia. }
  rewrite El in Ha. destruct (split_arith (2 ^ PGDIR_BITS (l - 1)) (pte_addr e) va) as [H1 H2]; [destruct Hl as [->| ->]; done|done|].
  split_and!; [|apply Hbit; lia..|]; [unfold leaf_phys|]; rewrite Had, Eo; [by rewrite El|done].
Qed.

(** The entry above the new table restricts nothing that the page allowed, so
    the table gives the access of the page. *)
Lemma split_access m q l e p va : l = 2 ∨ l = 3 → 0 ≤ e → present e = true → large e = true →
  pte_addr e mod 2 ^ PGDIR_BITS l = 0 → page_addr p →
  (∀ j, 0 ≤ j < 512 → m !! (q + 8 * j) = Some (split_entry l e j)) →
  restrict (split_parent e p) <$> hw_access (Z.to_nat (l - 1)) m q va = Some (leaf_access l e va).
Proof.
  intros Hl He Hpr Hlg Ha Hp Hm. destruct (Z.to_nat (l - 1)) as [|k] eqn:Ek; [lia|]. assert (El : Z.of_nat (S k) = l - 1) by lia.
  pose proof (PGDIR_OFFSET_range va (l - 1) ltac:(lia)) as Ho. cbn [hw_access]. rewrite El, Hm by done. cbn [mbind option_bind].
  destruct (split_entry_ok l e _ Hl He Hpr Hlg Ha Ho) as (_ & _ & -> & -> & _). cbn [negb fmap option_fmap option_map].
  destruct (split_view l e va Hl He Hpr Hlg Ha) as (E1 & E2 & E3 & E4 & _). unfold leaf_access. rewrite E1, E2, E3, E4.
  assert (Hb : ∀ k, k = 1 ∨ k = 2 ∨ k = 63 → Z.testbit (split_parent e p) k = Z.testbit e k).
  { intros j Hj. rewrite split_parent_small, Z.lor_spec, small_flags_bit by lia. rewrite (proj2 (Z.eqb_neq j 7)), andb_true_r by lia.
    assert (Z.testbit p j = false) as ->; [|apply orb_false_r]. destruct Hj as [->|[->| ->]]; [by apply page_low_bits|by apply page_low_bits|by apply page_top_bit]. }
  unfold restrict. rewrite !Hb by auto. by rewrite !andb_diag, orb_diag.
Qed.

(** The leaf that gets split, how every walk changes, and that no access does. *)
Lemma split_large_page_spec root tabs P s q l v i e :
  vm_inv I ram root tabs P s → tabs !! q = Some (l, v) → 0 ≤ i < 512 → l = 2 ∨ l = 3 →
  vm_mem s !! (q + 8 * i) = Some e → 0 ≤ e < 2 ^ 64 → present e = true → large e = true →
  pte_addr e mod 2 ^ PGDIR_BITS l = 0 →
  may ops full 1 (vm_pages s) (split_large_page ops (q + 8 * i) l s) (λ s', ∃ tabs' P',
    vm_inv I ram root tabs' P' s' ∧ grows ops 1 tabs P s tabs' P' s' ∧
    (∃ e', vm_mem s' !! (q + 8 * i) = Some e' ∧ leaf l e' = false) ∧
    (∀ va, hw_access 4 (vm_mem s') root va = hw_access 4 (vm_mem s) root va) ∧
    ∀ va, hw_walk 4 (vm_mem s') root va = hw_walk 4 (vm_mem s) root va ∨
      (hw_walk 4 (vm_mem s) root va = Some (l, q + 8 * i, e) ∧
       ∃ a, hw_walk 4 (vm_mem s') root va = Some (l - 1, a, split_entry l e (PGDIR_OFFSET va (l - 1))))).
Proof.
  intros Hinv Hq Hi Hl He Hr Hpr Hlg Ha. unfold split_large_page, load, rd. rewrite He. cbn [bind]. rewrite Hpr, Hlg.
  rewrite (proj2 (orb_true_iff _ _)) by (rewrite !Z.eqb_eq; done).
  pose proof (vm_alloc_page_spec ops I full ram root tabs P s Hinv) as H.
  apply post_inv in H as ([p s1] & -> & a & -> & Hch & H). cbn [bind].
  destruct H as [[-> Hout]|(Hp & HpP & Hram & Hpa & Hpos & HI)]; [apply Hout|].
  rewrite (proj2 (Z.eqb_neq p 0)) by lia. cbn [negb]. fold (pte_flags e) (small_flags e). fold (split_proto l e).
  destruct (split_loop l e p (set_pages a s) Hl) as (pa' & m' & E & Hf); [by apply (vi_ram _ _ _ _ _ _ Hinv)|].
  rewrite E. clear E. cbn [bind].
  pose proof (vi_tables _ _ _ _ _ _ Hinv) as Hok. pose proof (po_page _ _ _ Hok _ _ _ Hq) as (_ & Hqa & _).
  assert (Hne : q ≠ p) by (intros ->; by rewrite Hq in Hp).
  assert (He' : m' !! (q + 8 * i) = Some e) by (by rewrite (filled_other p _ _ _ q i Hf)).
  unfold store, wr. cbn [vm_mem set_mem]. rewrite He'. cbn [bind may]. fold (split_parent e p).
  destruct (split_parent_ok e p ltac:(lia) Hpr Hpa) as (H1 & H2 & H3 & H4).
  assert (Hlf : leaf l (split_parent e p) = false) by (unfold leaf; rewrite H3, andb_false_r, orb_false_r; apply Z.eqb_neq; lia).
  assert (Hlf0 : leaf l e = true) by (unfold leaf; rewrite Hlg; destruct Hl as [->| ->]; done).
  assert (Hent : ∀ j, 0 ≤ j < 512 → 0 ≤ split_entry l e j < 2 ^ 64 ∧ (present (split_entry l e j) = true → leaf (l - 1) (split_entry l e j) = true)).
  { intros j Hj. destruct (split_entry_ok l e j Hl ltac:(lia) Hpr Hlg Ha Hj) as (_ & ? & _ & ? & _). done. }
  destruct (link_inv ops I full ram root tabs P s q l v i p a m' (split_entry l e) (split_parent e p)) as [Hv Hg]; try done; [lia|].
  eexists _, _. split; [exact Hv|]. split; [exact Hg|]. split; [eexists; cbn; rewrite lookup_insert_eq; done|].
  pose proof (linked_new root tabs (vm_mem s) m' Hok q l v i p (split_parent e p) Hq Hi Hpa Hp (split_entry l e) Hf) as Hnew.
  split; intros va; cbn [vm_mem set_mem].
  { apply (linked_access root tabs (vm_mem s) m' q l v i p (split_parent e p) e (split_entry l e) 4 root va); try done;
      [by apply split_access; try lia|by apply (root_vpn root tabs (vm_mem s))]. }
  destruct (linked_walk root tabs (vm_mem s) m' Hok q l v i p (split_parent e p) Hq ltac:(lia) Hi Hpa Hp (split_entry l e) Hf H2 Hlf H4 4 root va)
    as [Hs|(_ & E1 & e0 & E0 & E2)].
  { intros e0 E0 _. rewrite He in E0. by injection E0 as <-. }
  { by apply (root_vpn root tabs (vm_mem s)). }
  { by left. }
  right. rewrite He in E0. injection E0 as <-. rewrite E2, Hpr. split; [done|]. unfold linked in E1. rewrite E1.
  eexists. apply (leaf_table_walk _ p va (l - 1) (split_entry l e)); [lia|].
  intros j Hj. destruct (split_entry_ok l e j Hl ltac:(lia) Hpr Hlg Ha Hj) as (_ & _ & ? & ? & _). split; [|done].
  by apply Hnew.
Qed.

(** A split changes no access, and the split address ends one level lower. *)
Lemma split_keeps_access root tabs P s q l v i e :
  vm_inv I ram root tabs P s → tabs !! q = Some (l, v) → 0 ≤ i < 512 → l = 2 ∨ l = 3 →
  vm_mem s !! (q + 8 * i) = Some e → 0 ≤ e < 2 ^ 64 → present e = true → large e = true →
  pte_addr e mod 2 ^ PGDIR_BITS l = 0 → aligned_leaves (vm_mem s) root →
  may ops full 1 (vm_pages s) (split_large_page ops (q + 8 * i) l s) (λ s', ∃ tabs' P',
    vm_inv I ram root tabs' P' s' ∧ grows ops 1 tabs P s tabs' P' s' ∧ aligned_leaves (vm_mem s') root ∧
    (∀ va, hw_access 4 (vm_mem s') root va = hw_access 4 (vm_mem s) root va) ∧
    (∀ va, hw_walk 4 (vm_mem s) root va = Some (l, q + 8 * i, e) →
       ∃ a1 e1, hw_walk 4 (vm_mem s') root va = Some (l - 1, a1, e1))).
Proof.
  intros Hinv Hq Hi Hl He Hr Hpr Hlg Ha Hal.
  eapply may_mono; [by apply (split_large_page_spec root tabs P s q l v i e)|].
  intros s' (tabs' & P' & Hinv' & Hg & (e' & He' & Hlf) & Hacc & Hw). exists tabs', P'. split; [done|]. split; [done|]. split; [|split; [exact Hacc|]].
  - intros va l0 a0 e0 H0. destruct (Hw va) as [E|(E & a1 & E')]; [rewrite E in H0; by eapply Hal|].
    rewrite E' in H0. injection H0 as <- <- <-. by destruct (split_view l e va Hl ltac:(lia) Hpr Hlg Ha) as (_ & _ & _ & _ & ?).
  - intros va H0. destruct (Hw va) as [E|(_ & a1 & E')]; [|eauto]. rewrite H0 in E.
    destruct (walk_leaf root tabs' _ 4 root va _ _ _ (vi_tables _ _ _ _ _ _ Hinv') (root_vpn _ _ _ va (vi_tables _ _ _ _ _ _ Hinv')) E)
      as (_ & _ & _ & _ & _ & Hm & _ & _ & Hlf'). rewrite He' in Hm. injection Hm as ->. congruence.
Qed.

Lemma walk_level n m p va l a e : hw_walk n m p va = Some (l, a, e) → 1 ≤ l ≤ Z.of_nat n.
Proof.
  revert p. induction n as [|n IH]; intros p; cbn [hw_walk]; [done|]. destruct (m !! _) as [e'|]; [|done]. cbn [mbind option_bind].
  destruct (negb _); [done|]. destruct (leaf _ _); [intros [= <- _ _]; lia|]. intros ?%IH. lia.
Qed.

(** One half of [force_4k_page]: an address mapped at level [l] or below is
    mapped below [l] afterwards. *)
Lemma force_level_spec root tabs P s va l l0 a0 e0 :
  vm_inv I ram root tabs P s → aligned_leaves (vm_mem s) root → l = 2 ∨ l = 3 →
  hw_walk 4 (vm_mem s) root va = Some (l0, a0, e0) → l0 ≤ l →
  may ops full 1 (vm_pages s) (force_level ops root va l s) (λ s', ∃ tabs' P',
    vm_inv I ram root tabs' P' s' ∧ grows ops 1 tabs P s tabs' P' s' ∧ aligned_leaves (vm_mem s') root ∧
    (∀ va, hw_access 4 (vm_mem s') root va = hw_access 4 (vm_mem s) root va) ∧
    ∃ l1 a1 e1, hw_walk 4 (vm_mem s') root va = Some (l1, a1, e1) ∧ l1 ≤ l - 1).
Proof.
  intros Hinv Hal Hl Hw Hle. pose proof (vi_tables _ _ _ _ _ _ Hinv) as Hok. unfold force_level, get_pte_level.
  pose proof (find_pte_level_spec root tabs s Hok va l ltac:(lia)) as H. apply post_inv in H as (r & -> & e & Hon & Hlow & Hcase).
  cbn [bind]. pose proof (on_path_walk tabs s 4 root va r e Hon) as Hpw. rewrite Hw in Hpw.
  destruct Hon as (L & q & HL & E1 & E2 & Ht & Htq & He & Hr).
  destruct (present e) eqn:Hpr; cbn [negb] in Hpw; [|done].
  assert (El : ps_level r = l).
  { destruct (leaf (ps_level r) e) eqn:Hlf; [injection Hpw as Ex _ _; lia|].
    destruct Hcase as [|[Hh|]]; [done| |done]. unfold leaf in Hlf. unfold is_leaf_huge in Hh. rewrite Hh, orb_true_r in Hlf. done. }
  rewrite El, Z.eqb_refl. assert (Hpos : ps_pte r ≠ 0).
  { destruct (po_page _ _ _ Hok _ _ _ Htq) as (_ & _ & ?). pose proof (PGDIR_OFFSET_range va (Z.of_nat L) ltac:(lia)). lia. }
  rewrite (proj2 (Z.eqb_neq _ 0) Hpos). cbn [negb]. unfold load, rd. rewrite He. cbn [bind]. rewrite Hpr.
  rewrite <- E1, El in Htq, E2. rewrite El in Hpw. destruct (large e) eqn:Hlg.
  - assert (Hlf : leaf l e = true) by (unfold leaf; rewrite Hlg; destruct Hl as [->| ->]; done).
    rewrite Hlf in Hpw. injection Hpw as -> -> ->. rewrite E2 in *.
    eapply may_mono; [apply (split_keeps_access root tabs P s q l _ _ e Hinv Htq); try done; [apply PGDIR_OFFSET_range; lia|by eapply Hal]|].
    intros s' (tabs' & P' & H1 & H2 & H3 & H4 & H5). exists tabs', P'. split_and!; try done.
    destruct (H5 va Hw) as (a1 & e1 & E). exists (l - 1), a1, e1. split; [done|lia].
  - exists tabs, P. split_and!; try done; [apply grows_refl|]. exists l0, a0, e0. split; [done|].
    assert (Hlf : leaf l e = false) by (unfold leaf; rewrite Hlg, andb_false_r, orb_false_r; apply Z.eqb_neq; lia).
    rewrite Hlf in Hpw. symmetry in Hpw. apply walk_level in Hpw. lia.
Qed.

(** [force_4k_page]: every mapped address ends in a page of 4 kB, and nothing
    is mapped differently. *)
Lemma force_4k_page_spec me tabs P s va l0 a0 e0 :
  let root := current_page_table me s in
  vm_inv I ram root tabs P s → aligned_leaves (vm_mem s) root →
  hw_walk 4 (vm_mem s) root va = Some (l0, a0, e0) →
  may ops full 2 (vm_pages s) (force_4k_page ops me va s) (λ s', ∃ tabs' P',
    vm_inv I ram root tabs' P' s' ∧ grows ops 2 tabs P s tabs' P' s' ∧
    (∀ va, hw_access 4 (vm_mem s') root va = hw_access 4 (vm_mem s) root va) ∧
    ∃ a1 e1, hw_walk 4 (vm_mem s') root va = Some (1, a1, e1)).
Proof.
  intros root Hinv Hal Hw. unfold force_4k_page. fold root. apply may_bind.
  assert (l0 ≤ 3).
  { destruct (walk_leaf root tabs _ 4 root va _ _ _ (vi_tables _ _ _ _ _ _ Hinv) (root_vpn _ _ _ va (vi_tables _ _ _ _ _ _ Hinv)) Hw)
      as (_ & _ & _ & Hl & _ & _ & _ & _ & Hlf). unfold leaf in Hlf. destruct (decide (l0 = 4)) as [->|]; [done|lia]. }
  eapply may_le, may_mono; [|apply (force_level_spec root tabs P s va 3 l0 a0 e0); auto|]; [lia|].
  intros s1 (tabs1 & P1 & Hinv1 & Hg1 & Hal1 & Hv1 & l1 & a1 & e1 & Hw1 & Hl1).
  eapply (may_later _ _ 1); [apply Hg1|lia|].
  eapply may_mono; [apply (force_level_spec root tabs1 P1 s1 va 2 l1 a1 e1); auto|].
  intros s2 (tabs2 & P2 & Hinv2 & Hg2 & Hal2 & Hv2 & l2 & a2 & e2 & Hw2 & Hl2). exists tabs2, P2.
  split; [done|]. split; [by apply (grows_trans ops 1 1 _ _ _ tabs1 P1 s1)|]. split; [intros va'; by rewrite Hv2, Hv1|].
  pose proof (walk_level _ _ _ _ _ _ _ Hw2). assert (l2 = 1) as -> by lia. eauto.
Qed.
End split.
