(* ===== verification/X86VmThms.v ===== *)
(** * lib/x86/vm.c: theorems

    The functions of vm.c establish and keep a well-formed page table whose
    translation is what their callers ask for. *)

From S2P Require Import Prelude.
From S2P Require Import Bitops.
From S2P Require Import LinkedList.
From S2P Require Import AllocPage.
From S2P Require Import AllocPageInv.
From S2P Require Import AllocPageSpec.
From S2P Require Import AllocPageThm.
From S2P Require Import AllocPageReach.
From S2P Require Import AllocPageProps.
From S2P Require Import Alloc.
From S2P Require Import PageMem.
From S2P Require Import X86Vm.
From S2P Require Import X86VmProps.
From S2P Require Import X86VmSplit.

(** ** Theorems, for every page allocator that keeps the interface *)

Section thms.
Context {A : Type} (ops : page_ops A) (I : A → gset Z → Prop) (full : A → Prop) (ram : Z → Prop).
Context {Hlaws : page_laws ops I full ram}.
Implicit Types s : vm_state A.

(** A root table without entries. *)
Lemma empty_root root m : page_addr root → 0 < root → (∀ i, 0 ≤ i < 512 → m !! (root + 8 * i) = Some 0) →
  pt_ok root {[root := (4, 0)]} m ∧ ∀ va, hw_walk 4 m root va = None.
Proof.
  intros Hp Hpos H. split.
  - constructor.
    + apply lookup_singleton_eq.
    + intros p l v [-> [= <- <-]]%lookup_singleton_Some. done.
    + intros p l v i [-> [= <- <-]]%lookup_singleton_Some Hi. exists 0. split; [by apply H|lia].
    + intros p l v i e [-> [= <- <-]]%lookup_singleton_Some Hi. rewrite H by done. by intros [= <-].
  - intros va. cbn [hw_walk]. rewrite H by (by apply PGDIR_OFFSET_range). done.
Qed.

(** [s'] differs from [s] in the registers only, which are [info] on the
    processors 1, ..., n - 1 and as before on the others. *)
Definition regs_set (n : Z) (info : vm_vcpu_info) s s' : Prop :=
  s' = mk_vm (vm_mem s) (vm_pages s) (pte_opt_mask s) (vm_regs s') (vm_lock s) (vfree_top s) (vm_ops_enabled s) ∧
  ∀ c, vm_regs s' c = if decide (1 ≤ c < n) then info else vm_regs s c.

Lemma set_regs_loop (n : nat) info s :
  post (for_ n 1 (λ i s, Ret (set_additional_vcpu_vmregs i info s)) s) (regs_set (1 + Z.of_nat n) info s).
Proof.
  apply (for_inv (λ k, regs_set k info s)).
  - split; [by destruct s|]. intros c. rewrite decide_False by lia. done.
  - intros k s' Hk [E Hr]. split; [by rewrite E|]. intros c. cbn. destruct (decide (c = k)) as [->|Hne].
    + rewrite fn_lookup_insert, decide_True by lia. done.
    + rewrite fn_lookup_insert_ne by done. rewrite Hr. repeat case_decide; try lia; done.
Qed.

Lemma init_alloc_vpage_spec top s : vm_lock s = false → vm_ops_enabled s = false →
  init_alloc_vpage top s = Ret (set_vfree_top top s).
Proof. destruct s as [? ? ? ? lk ? en]. cbn. intros -> ->. done. Qed.

(** The invariant is about memory, allocator and option mask only. *)
Lemma vm_inv_other root tabs P s s' : vm_mem s' = vm_mem s → vm_pages s' = vm_pages s → pte_opt_mask s' = pte_opt_mask s →
  vm_inv I ram root tabs P s → vm_inv I ram root tabs P s'.
Proof. intros E1 E2 E3 [H1 H2 H3 H4 H5]. constructor; rewrite ?E1, ?E2, ?E3; done. Qed.

(** The state before the first page table exists. *)
Definition vm_boot (P : gset Z) s : Prop :=
  I (vm_pages s) P ∧ (∀ p, ram p → words (vm_mem s) p) ∧ vm_lock s = false ∧ vm_ops_enabled s = false.

(** The first page table. *)
Lemma first_table opt P s : vm_boot P s → opt_ok opt →
  may ops full 1 (vm_pages s) (let* '(cr3, s) := vm_alloc_page ops s in
              let* s := clear_page cr3 (set_opt_mask opt s) in Ret (cr3, s)) (λ '(cr3, s'),
    s' = set_mem (vm_mem s') (set_pages (vm_pages s') (set_opt_mask opt s)) ∧ chain ops 1 (vm_pages s) (vm_pages s') ∧
    vm_inv I ram cr3 {[cr3 := (4, 0)]} ({[cr3]} ∪ P) s' ∧ ∀ va, hw_walk 4 (vm_mem s') cr3 va = None).
Proof.
  intros (HI & Hram & _ & _) Hopt. unfold vm_alloc_page.
  pose proof (law_alloc_page (vm_pages s) P HI) as H. apply post_inv in H as ([cr3 a] & E & H). rewrite E. cbn [bind].
  destruct H as [[-> Hfull]|(HcP & Hcr & Hpa & Hpos & HI')]; [exists 0%nat, (vm_pages s), a; split_and!; [lia|constructor|done|done]|].
  destruct (clear_page_spec cr3 (set_opt_mask opt (set_pages a s)) Hpos) as (m' & -> & Hf); [by apply Hram|]. cbn [bind may].
  destruct (empty_root cr3 m' Hpa Hpos ltac:(apply Hf)) as [Hok Hnone]. split; [done|]. split; [by eapply chain_once|]. split; [|done].
  constructor; try done; [|intros p Hp; eapply filled_words; [done..|by apply Hram]].
  intros p [x [-> _]%lookup_singleton_Some]. set_solver.
Qed.

(** The root, and the tables for the memory that is mapped. *)
Definition setup_tables (end_of_memory : Z) : nat := S (range_tables X86_MMU_MAP_HUGE 0 (Z.max (2 ^ 32) end_of_memory)).

Lemma setup_mmu_spec me cpu_count end_of_memory opt_mask P s :
  vm_boot P s → 0 ≤ end_of_memory ≤ 2 ^ 48 → end_of_memory mod PAGE_SIZE = 0 →
  (∀ x, opt_mask = Some x → opt_ok x) →
  may ops full (setup_tables end_of_memory) (vm_pages s) (setup_mmu ops me cpu_count end_of_memory opt_mask s) (λ '(cr3, s'), ∃ tabs P',
    vm_inv I ram cr3 tabs P' s' ∧ P ⊆ P' ∧
    (∀ va, let pa := va mod 2 ^ 48 in
       if decide (pa < Z.max (2 ^ 32) end_of_memory)
       then maps s' cr3 va pa (match opt_mask with Some x => Z.testbit x 2 | None => true end)
       else translate (vm_mem s') cr3 va = None) ∧
    (∀ c, c = me ∨ 1 ≤ c < cpu_count →
       info_cr3 (vm_regs s' c) = cr3 ∧ info_cr0 (vm_regs s' c) = 2 ^ 31 + 2 ^ 16 + 1) ∧
    vfree_top s' = 2 ^ 64 - PAGE_SIZE ∧ vm_lock s' = false ∧ vm_ops_enabled s' = false ∧ chain ops (setup_tables end_of_memory) (vm_pages s) (vm_pages s')).
Proof.
  intros Hboot Hend Hal Hopt. pose proof Hboot as (_ & _ & Hlk & Hops). unfold setup_mmu.
  set (e := if end_of_memory <? 2 ^ 32 then 2 ^ 32 else end_of_memory).
  assert (He : e = Z.max (2 ^ 32) end_of_memory) by (subst e; zcase; lia).
  assert (Hea : e mod PAGE_SIZE = 0) by (subst e; zcase; done).
  set (opt := match opt_mask with Some x => x | None => PT_USER_MASK end).
  assert (Hopt' : opt_ok opt) by (subst opt; destruct opt_mask; [by apply Hopt|by split]).
  pose proof (first_table opt P s Hboot Hopt') as H. apply may_bind in H. apply may_bind.
  assert (H1 : (1 ≤ setup_tables end_of_memory)%nat) by (unfold setup_tables; lia).
  eapply may_le, may_mono; [exact H1|exact H|]. clear H. intros [cr3 s0] H. cbv beta iota zeta in H |- *. apply may_bind in H. apply may_bind.
  eapply may_le, may_mono; [exact H1|exact H|]. clear H. intros s1 (E1 & Hch & Hinv & Hnone).
  eapply (may_later _ _ (range_tables X86_MMU_MAP_HUGE 0 e)); [exact Hch|unfold setup_tables; rewrite <- He; lia|].
  apply may_bind. unfold setup_mmu_range.
  eapply may_mono; [apply (setup_range_spec ops I full ram X86_MMU_MAP_HUGE 0 e cr3 _ _ s1 Hinv); try done; try lia|].
  intros s2 (tabs2 & P2 & Hinv2 & Hg2 & Hw2). pose proof (gr_rest _ _ _ _ _ _ _ _ Hg2) as E2.
  rewrite init_alloc_vpage_spec by (rewrite E2, E1; done). cbn [bind]. set (info := mk_info cr3 _ _).
  apply may_bind. eapply may_mono; [apply may_post, set_regs_loop|]. intros s3 [E3 Hr3]. cbn [may].
  exists tabs2, P2. split; [apply (vm_inv_other cr3 tabs2 P2 s2); [by rewrite E3..|done]|]. split_and!.
  - pose proof (gr_pages _ _ _ _ _ _ _ _ Hg2). set_solver.
  - intros va. cbv zeta. specialize (Hw2 va). rewrite <- He. pose proof (Z.mod_pos_bound va (2 ^ 48)).
    assert (Em : vm_mem s3 = vm_mem s2) by (rewrite E3; done). assert (Eo : pte_opt_mask s1 = opt) by (rewrite E1; done).
    destruct (decide (va mod 2 ^ 48 < e)).
    + rewrite decide_True in Hw2 by lia. unfold maps in *. rewrite Em. rewrite Eo in Hw2.
      change (is_user X86_MMU_MAP_HUGE) with false in Hw2. cbn [orb] in Hw2. replace (match opt_mask with Some x => _ | None => _ end) with (Z.testbit opt 2); [done|].
      subst opt. by destruct opt_mask.
    + rewrite decide_False in Hw2 by lia. unfold translate. by rewrite Em, Hw2, Hnone.
  - intros c Hc. rewrite Hr3. case_decide; [done|]. destruct Hc as [->|]; [|lia]. cbn. by rewrite fn_lookup_insert.
  - rewrite E3. done.
  - rewrite E3. cbn. by rewrite E2, E1.
  - rewrite E3. cbn. by rewrite E2, E1.
  - rewrite E3. cbn. unfold setup_tables. rewrite <- He. eapply (chain_trans _ 1); [exact Hch|apply Hg2].
Qed.

(** C6: enabling paging.  [setup_mmu] builds a well-formed page table that
    maps the memory below [end_of_memory], and at least the first 4 GB, to
    itself, writable and with the protection the option mask asks for, and
    nothing else; it loads the root on every processor, with paging, protected
    mode and write protection on, and sets the top of the virtual address
    space.  It fails only when there are fewer free pages than [setup_tables]
    counts for the tables: 6 for the first 4 GB. *)
Theorem setup_mmu_correct me cpu_count end_of_memory opt_mask P s :
  vm_boot P s → 0 ≤ end_of_memory ≤ 2 ^ 48 → end_of_memory mod PAGE_SIZE = 0 →
  (∀ x, opt_mask = Some x → opt_ok x) →
  may ops full (setup_tables end_of_memory) (vm_pages s) (setup_mmu ops me cpu_count end_of_memory opt_mask s) (λ '(cr3, s'), ∃ tabs P',
    vm_inv I ram cr3 tabs P' s' ∧ P ⊆ P' ∧
    (∀ va, let pa := va mod 2 ^ 48 in
       if decide (pa < Z.max (2 ^ 32) end_of_memory)
       then maps s' cr3 va pa (match opt_mask with Some x => Z.testbit x 2 | None => true end)
       else translate (vm_mem s') cr3 va = None) ∧
    (∀ c, c = me ∨ 1 ≤ c < cpu_count →
       info_cr3 (vm_regs s' c) = cr3 ∧ info_cr0 (vm_regs s' c) = 2 ^ 31 + 2 ^ 16 + 1) ∧
    vfree_top s' = 2 ^ 64 - PAGE_SIZE).
Proof.
  intros H1 H2 H3 H4. eapply may_mono; [by apply (setup_mmu_spec me cpu_count end_of_memory opt_mask P s)|].
  intros [cr3 s'] (tabs & P' & Hi & HP & Hm & Hr & Ht & _). by exists tabs, P'.
Qed.

(** C15: mapping a range.  [install_pages] maps [len] bytes from [va] on to the
    physical range from [phys] on, with the protection of the option mask,
    leaves every other translation as it is and touches no memory but page
    tables; it aborts when an argument is not a multiple of the page size, and
    needs that no large page covers the range.  Otherwise it fails only when
    there are fewer free pages than the range needs tables. *)
Theorem install_pages_correct phys len va root tabs P s :
  vm_inv I ram root tabs P s → 0 ≤ phys → 0 ≤ len → phys + len ≤ 2 ^ 52 → va mod 2 ^ 48 + len ≤ 2 ^ 48 →
  (phys mod PAGE_SIZE ≠ 0 ∨ va mod PAGE_SIZE ≠ 0 ∨ len mod PAGE_SIZE ≠ 0 → install_pages ops root phys len va s = Abort) ∧
  (phys mod PAGE_SIZE = 0 → va mod PAGE_SIZE = 0 → len mod PAGE_SIZE = 0 →
   (∀ x, 0 ≤ x mod 2 ^ 48 - va mod 2 ^ 48 < len → no_larger 1 s root x) →
   let k := tables_for 3 3 (vpn va 0) (len / PAGE_SIZE) in
   may ops full k (vm_pages s) (install_pages ops root phys len va s) (λ s', ∃ tabs' P',
     vm_inv I ram root tabs' P' s' ∧ grows ops k tabs P s tabs' P' s' ∧
     ∀ x, let k := x mod 2 ^ 48 - va mod 2 ^ 48 in
       if decide (0 ≤ k < len) then maps s' root x (phys + k) (Z.testbit (pte_opt_mask s) 2)
       else hw_walk 4 (vm_mem s') root x = hw_walk 4 (vm_mem s) root x)).
Proof.
  intros Hinv Hp Hl Hpb Hvb. split.
  { intros H. unfold install_pages. repeat zcase; tauto. }
  intros Hpa Hva Hla Hfree k0. subst k0. change PAGE_SIZE with 4096 in *.
  assert (Hin : ∀ x, 0 ≤ vpn x 0 - vpn va 0 < len / 4096 ↔ 0 ≤ x mod 2 ^ 48 - va mod 2 ^ 48 < len).
  { intros x. unfold vpn. change (2 ^ (12 + 9 * 0)) with 4096. Z.div_mod_to_equations. lia. }
  eapply may_mono; [apply (install_pages_spec ops I full ram phys len va root tabs P s Hinv); try done|].
  { intros x Hx. apply Hfree, Hin. change (1 - 1) with 0 in Hx. change PAGE_SIZE with 4096 in Hx. lia. }
  intros s' (tabs' & P' & Hinv' & Hg & Hm). exists tabs', P'. split; [done|]. split; [done|]. intros x. cbv zeta.
  change PAGE_SIZE with 4096 in Hm. destruct (decide _) as [Hk|Hk].
  - apply Hin in Hk as Hk'. pose proof (maps_page s s' root (vpn va 0) (len / 4096) phys x (pte_opt_mask s) Hm (vi_opt _ _ _ _ _ _ Hinv)) as H.
    change PAGE_SIZE with 4096 in H. replace (phys + _) with (phys + 4096 * (vpn x 0 - vpn va 0) + x mod 4096).
    + apply H; try done. Z.div_mod_to_equations; lia.
    + unfold vpn. change (2 ^ (12 + 9 * 0)) with 4096. Z.div_mod_to_equations. lia.
  - specialize (Hm x). cbv zeta in Hm. change (1 - 1) with 0 in Hm. rewrite decide_False in Hm; [done|]. by rewrite Hin.
Qed.

(** C14: splitting large pages.  [force_4k_page] turns the mapping of an
    address into one by a page of 4 kB; no address is mapped to another place,
    and at no address may a program do more or less than before, counting the
    rights of every level of the walk.  It takes at most two pages. *)
Theorem force_4k_page_correct me tabs P s va l0 a0 e0 :
  let root := current_page_table me s in
  vm_inv I ram root tabs P s → aligned_leaves (vm_mem s) root →
  hw_walk 4 (vm_mem s) root va = Some (l0, a0, e0) →
  may ops full 2 (vm_pages s) (force_4k_page ops me va s) (λ s', ∃ tabs' P',
    vm_inv I ram root tabs' P' s' ∧ grows ops 2 tabs P s tabs' P' s' ∧
    (∀ x, hw_access 4 (vm_mem s') root x = hw_access 4 (vm_mem s) root x) ∧
    ∃ a1 e1, hw_walk 4 (vm_mem s') root va = Some (1, a1, e1)).
Proof. apply (force_4k_page_spec ops I full ram). Qed.

(** Build the first page table, then continue. *)
Definition with_first_table {B} (opt : Z) s (k : Z → vm_state A → res B) : res B :=
  let* '(cr3, s) := (let* '(cr3, s) := vm_alloc_page ops s in
                     let* s := clear_page cr3 (set_opt_mask opt s) in Ret (cr3, s)) in k cr3 s.

Lemma with_first_table_may {B} n opt P s (k : Z → vm_state A → res B) (Q : B → Prop) :
  vm_boot P s → opt_ok opt →
  (∀ root s1, vm_inv I ram root {[root := (4, 0)]} ({[root]} ∪ P) s1 →
     pte_opt_mask s1 = opt → (∀ va, hw_walk 4 (vm_mem s1) root va = None) → may ops full n (vm_pages s1) (k root s1) Q) →
  may ops full (S n) (vm_pages s) (with_first_table opt s k) Q.
Proof.
  intros Hb Ho Hk. unfold with_first_table. apply may_bind. eapply may_le, may_mono; [|by apply first_table|]; [lia|].
  intros [root s1] (E & Hch & Hinv & Hw). eapply may_later; [exact Hch|reflexivity|]. apply Hk; [done| |done]. by rewrite E.
Qed.
End thms.

(** Looking up a mapping.  [get_pte] finds the leaf entry the processor
    uses; [virt_to_pte_phys] gives the physical address behind an address that
    is mapped by a page of 4 kB.  Behind a large page it drops the part of the
    offset above 4 kB and so names another address. *)
Theorem virt_to_pte_phys_correct {A} root tabs (s : vm_state A) va :
  pt_ok root tabs (vm_mem s) →
  (hw_walk 4 (vm_mem s) root va = None →
     post (get_pte root va s) (λ a, a = 0 ∨ ∃ e, vm_mem s !! a = Some e ∧ present e = false)) ∧
  (∀ l a e, hw_walk 4 (vm_mem s) root va = Some (l, a, e) →
     get_pte root va s = Ret a ∧
     (l = 1 → ∃ pa, translate (vm_mem s) root va = Some pa ∧ virt_to_pte_phys root va s = Ret pa) ∧
     (l ≠ 1 → pte_addr e mod 2 ^ PGDIR_BITS l = 0 →
        ∃ pa, translate (vm_mem s) root va = Some pa ∧
          virt_to_pte_phys root va s = Ret (pa - (va mod 2 ^ PGDIR_BITS l - va mod PAGE_SIZE)))).
Proof.
  intros Hok. pose proof (get_pte_spec root tabs s Hok va) as Hg. split; [by intros E; rewrite E in Hg|].
  intros l a e Hw. rewrite Hw in Hg. pose proof (virt_to_pte_phys_spec root tabs s va l a e Hok Hw) as Hv. split; [|split].
  - by apply post_ret.
  - intros ->. unfold translate. rewrite Hw, Hv. eexists. split; [done|]. f_equal. unfold leaf_phys.
    destruct (pte_addr_page e) as [Ha _]. change (2 ^ PGDIR_BITS 1) with 4096. change PAGE_SIZE with 4096 in Ha.
    Z.div_mod_to_equations. lia.
  - intros _ Hal. unfold translate. rewrite Hw, Hv. eexists. split; [done|]. f_equal. unfold leaf_phys.
    assert (2 ^ PGDIR_BITS l ≠ 0).
    { destruct (walk_level _ _ _ _ _ _ _ Hw). apply Z.pow_nonzero; [lia|]. unfold PGDIR_BITS, PGDIR_WIDTH, PAGE_SHIFT. lia. }
    pose proof (Z.div_mod (pte_addr e) (2 ^ PGDIR_BITS l) ltac:(done)). change PAGE_SIZE with 4096. lia.
Qed.

(** ** An instance: the page allocator with one area of 32 pages *)

Definition demo_vm : vm_state page_alloc := mk_vm demo_words demo 0 (λ _, mk_info 0 0 0) false 0 false.

#[local] Opaque demo demo_words.

Lemma demo_boot : vm_boot (pages_live demo_page) demo_page ∅ demo_vm.
Proof.
  split; [exact demo_live|]. split; [|done]. intros p Hp i Hi. exists 0. by apply demo_words_at.
Qed.

Lemma demo_vm_plenty n : (n ≤ 20)%nat → plenty page_alloc_pages n (vm_pages demo_vm) = true.
Proof. apply (plenty_le page_alloc_pages 20 n demo demo_plenty). Qed.

Lemma setup_mmu_correct_witness :
  post (setup_mmu page_alloc_pages 0 2 (2 ^ 32) None demo_vm) (λ '(cr3, s'),
    maps s' cr3 (2 ^ 31 + 5) (2 ^ 31 + 5) true ∧ translate (vm_mem s') cr3 (2 ^ 33) = None).
Proof.
  apply (may_plenty page_alloc_pages pages_full 6 (vm_pages demo_vm)); [apply demo_vm_plenty; lia|].
  eapply may_mono; [apply (setup_mmu_correct page_alloc_pages (pages_live demo_page) pages_full demo_page 0 2 (2 ^ 32) None ∅ demo_vm demo_boot);
    [lia|done|done]|].
  intros [cr3 s'] (tabs & P' & _ & _ & H & _). split.
  - specialize (H (2 ^ 31 + 5)). rewrite Z.mod_small in H by lia. cbv zeta in H. by rewrite decide_True in H by lia.
  - specialize (H (2 ^ 33)). rewrite Z.mod_small in H by lia. cbv zeta in H. by rewrite decide_False in H by lia.
Defined.


Lemma demo_vm_at p i : demo_page p → 0 ≤ i < 512 → vm_mem demo_vm !! (p + 8 * i) = Some 0.
Proof. apply demo_words_at. Qed.

#[local] Opaque demo_vm.

(** Two pages at 2^40. *)
Lemma install_pages_correct_witness :
  post (with_first_table page_alloc_pages PT_USER_MASK demo_vm (λ root s,
      let* s' := install_pages page_alloc_pages root (7 * 4096) 8192 (2 ^ 40) s in Ret (root, s')))
    (λ '(root, s'), maps s' root (2 ^ 40 + 5000) (7 * 4096 + 5000) true) ∧
  install_pages page_alloc_pages 4096 1 4096 0 demo_vm = Abort.
Proof.
  split; [|reflexivity]. apply (may_plenty page_alloc_pages pages_full 4 (vm_pages demo_vm)); [apply demo_vm_plenty; lia|].
  apply (with_first_table_may _ (pages_live demo_page) _ demo_page 3 PT_USER_MASK ∅); [exact demo_boot|by split|]. intros root s Hinv Hopt Hw. apply may_bind.
  destruct (install_pages_correct page_alloc_pages (pages_live demo_page) pages_full demo_page (7 * 4096) 8192 (2 ^ 40) root _ _ s Hinv)
    as [_ H]; [lia..|rewrite Z.mod_small; lia|].
  eapply may_mono; [apply H; [done..|]; intros x _ l a e E; by rewrite Hw in E|].
  intros s' (tabs' & P' & _ & _ & Hm). cbn [may]. specialize (Hm (2 ^ 40 + 5000)). cbv zeta in Hm.
  rewrite !Z.mod_small in Hm by lia. rewrite decide_True in Hm by lia. rewrite Hopt in Hm.
  by replace (7 * 4096 + 5000) with (7 * 4096 + (2 ^ 40 + 5000 - 2 ^ 40)) by lia.
Defined.

(** A large page at 2^40, and a page of 4 kB inside it. *)
Lemma force_4k_page_correct_witness :
  post (with_first_table page_alloc_pages PT_USER_MASK demo_vm (λ root s,
      let* '(_, s1) := install_large_page page_alloc_pages root (2 ^ 21) (2 ^ 40) s in
      let s1 := set_regs 0 (mk_info root 0 0) s1 in
      let* s' := force_4k_page page_alloc_pages 0 (2 ^ 40 + 4096) s1 in Ret (root, s1, s')))
    (λ '(root, s1, s'), hw_access 4 (vm_mem s') root (2 ^ 40 + 7) = hw_access 4 (vm_mem s1) root (2 ^ 40 + 7) ∧
       ∃ a1 e1, hw_walk 4 (vm_mem s') root (2 ^ 40 + 4096) = Some (1, a1, e1)).
Proof.
  apply (may_plenty page_alloc_pages pages_full 5 (vm_pages demo_vm)); [apply demo_vm_plenty; lia|].
  apply (with_first_table_may _ (pages_live demo_page) _ demo_page 4 PT_USER_MASK ∅); [exact demo_boot|by split|]. intros root s Hinv Hopt Hw. apply may_bind.
  eapply may_le, may_mono; [|apply (install_large_page_spec page_alloc_pages (pages_live demo_page) pages_full demo_page (2 ^ 21) (2 ^ 40) root _ _ s Hinv);
    [intros l a e E; by rewrite Hw in E|split; [done|lia]]|]; [pose proof (missing_le 4 2 (vm_mem s) root (2 ^ 40)); lia|].
  intros [a s1] (tabs1 & P1 & Hinv1 & Hg & _ & Hm). cbv zeta. set (s2 := set_regs 0 _ s1).
  assert (Hinv2 : vm_inv (pages_live demo_page) demo_page root tabs1 P1 s2) by (by eapply vm_inv_other; [..|exact Hinv1]).
  eapply (may_later _ _ 2); [apply Hg|pose proof (missing_le 4 2 (vm_mem s) root (2 ^ 40)); lia|]. apply may_bind.
  assert (Hwalk : ∃ b e, hw_walk 4 (vm_mem s2) root (2 ^ 40 + 4096) = Some (2, b, e)).
  { specialize (Hm (2 ^ 40 + 4096)). cbv zeta in Hm. change (2 - 1) with 1 in Hm.
    replace (vpn (2 ^ 40 + 4096) 1) with (vpn (2 ^ 40) 1) in Hm by reflexivity.
    rewrite Z.sub_diag, decide_True in Hm by lia. destruct Hm as [b Hb]. eauto. }
  destruct Hwalk as (b & e & Hwalk).
  eapply may_mono; [apply (force_4k_page_correct page_alloc_pages (pages_live demo_page) pages_full demo_page 0 tabs1 P1 s2 (2 ^ 40 + 4096) 2 b e)|].
  - done.
  - intros va l c f Hc. specialize (Hm va). cbv zeta in Hm. change (vm_mem s2) with (vm_mem s1) in Hc. case_decide.
    + destruct Hm as [c' Hc']. change (current_page_table 0 s2) with root in Hc. rewrite Hc' in Hc. injection Hc as <- _ <-. by rewrite Hopt.
    + change (current_page_table 0 s2) with root in Hc. rewrite Hm, Hw in Hc. done.
  - done.
  - intros s' (tabs' & P' & _ & _ & Hv & Hlast). cbn [may]. split; [apply Hv|done].
Defined.

Lemma virt_to_pte_phys_correct_witness :
  post (get_pte (16 * 4096) (2 ^ 40) demo_vm) (λ a, a = 0 ∨ ∃ e, vm_mem demo_vm !! a = Some e ∧ present e = false).
Proof.
  assert (Hp : demo_page (16 * 4096)) by (split; [done|change PAGE_SIZE with 4096; lia]).
  destruct (table_page _ Hp) as [Hpa Hpos].
  destruct (empty_root (16 * 4096) (vm_mem demo_vm) Hpa Hpos ltac:(intros i Hi; by apply demo_vm_at)) as [Hok Hn].
  destruct (virt_to_pte_phys_correct (16 * 4096) _ demo_vm (2 ^ 40) Hok) as [H _]. exact (H (Hn _)).
Defined.
