(* ===== verification/Vmalloc.v ===== *)
(** * lib/vmalloc.c: virtual memory

    Virtual addresses are handed out downwards from [vfree_top] and backed by
    pages of the page allocator.  A program accesses memory through the page
    table of its processor ([vload], [vstore]).  The set-up of lib/vmalloc.c
    and the search for high memory of lib/x86/setup.c combine the physical
    allocator, the page allocator and the page tables. *)

From S2P Require Import Prelude.
From S2P Require Import Bitops.
From S2P Require Import LinkedList.
From S2P Require Import AllocPage.
From S2P Require Import AllocPhys.
From S2P Require Import Alloc.
From S2P Require Import PageMem.
From S2P Require Import X86Vm.
From S2P Require Import X86VmProps.

Definition VM_MAGIC : Z := 0x7E57C0DE.

Section vmalloc.
Context {A : Type} (ops : page_ops A).
(** the processor, and the variable [page_root] *)
Variables (me page_root : Z).
Implicit Types s : vm_state A.

(** ** Access through the page table *)

Definition vload (va : Z) s : res Z :=
  match translate (vm_mem s) (current_page_table me s) va with Some pa => load pa s | None => Fault end.
Definition vstore (va v : Z) s : res (vm_state A) :=
  match translate (vm_mem s) (current_page_table me s) va with Some pa => store pa v s | None => Fault end.

Definition vm_free_page (p : Z) s : res (vm_state A) :=
  let* a := op_free_page ops p (vm_pages s) in Ret (set_pages a s).

(** ** Virtual addresses *)

Definition do_alloc_vpages (nr align_order : Z) (metadata : bool) s : res (Z * vm_state A) :=
  let* s := vm_spin_lock s in
  let ptr := vfree_top s in
  let ptr := u64 (ptr - u64 (PAGE_SIZE * nr)) in
  let ptr := Z.land ptr (GENMASK_ULL 63 (PAGE_SHIFT + align_order)) in
  let ptr := if metadata then u64 (ptr - PAGE_SIZE) else ptr in
  let s := set_vfree_top ptr s in
  Ret (ptr, vm_spin_unlock s).

Definition alloc_vpages_aligned (nr align_order : Z) s : res (Z * vm_state A) := do_alloc_vpages nr align_order false s.
Definition alloc_vpages (nr : Z) s : res (Z * vm_state A) := alloc_vpages_aligned nr 0 s.
Definition alloc_vpage s : res (Z * vm_state A) := alloc_vpages 1 s.

Fixpoint vmap_loop (pages : nat) (phys p : Z) s : res (vm_state A) :=
  match pages with
  | O => Ret s
  | S pages =>
      let* '(_, s) := install_page ops page_root phys p s in
      vmap_loop pages (u64 (phys + PAGE_SIZE)) (u64 (p + PAGE_SIZE)) s
  end.

Definition vmap (phys size : Z) s : res (Z * vm_state A) :=
  let size := PAGE_ALIGN size in
  let pages := size / PAGE_SIZE in
  let* '(mem, s) := alloc_vpages pages s in
  let phys := Z.land phys (u64 (Z.lnot (PAGE_SIZE - 1))) in
  let* s := vmap_loop (Z.to_nat pages) phys mem s in
  Ret (mem, s).

(** ** Allocation *)

Definition vm_alloc_one_page (alignment : Z) s : res (Z * vm_state A) :=
  assert! (8 <=? alignment);
  assert! (alignment <? PAGE_SIZE);
  let* '(p, s) := alloc_vpage s in
  let* '(pg, s) := vm_alloc_page ops s in
  let* '(_, s) := install_page ops page_root pg p s in
  let p := u64 (p + alignment) in
  let* s := vstore (u64 (p - 8)) VM_MAGIC s in
  Ret (p, s).

(** [i] pages are left to back, from [p] on. *)
Fixpoint back_pages (i : nat) (p : Z) s : res (vm_state A) :=
  match i with
  | O => Ret s
  | S i =>
      let* '(pa, s) := vm_alloc_page ops s in
      assert! (negb (pa =? 0));
      let* '(_, s) := install_page ops page_root pa p s in
      back_pages i (u64 (p + PAGE_SIZE)) s
  end.

(** [struct metadata] lies before the memory: [npages], then [magic]. *)
Definition vm_memalign (alignment size : Z) s : res (Z * vm_state A) :=
  if size =? 0 then Ret (0, s) else
  assert! (is_power_of_2 alignment);
  let alignment := if alignment <? 8 then 8 else alignment in
  if u64 (alignment + size) <=? PAGE_SIZE then vm_alloc_one_page alignment s else
  let size := PAGE_ALIGN size / PAGE_SIZE in
  let alignment := get_order (PAGE_ALIGN alignment / PAGE_SIZE) in
  let* '(p, s) := do_alloc_vpages size alignment true s in
  let mem := u64 (p + PAGE_SIZE) in
  let* s := back_pages (Z.to_nat (size + 1)) p s in
  let* s := vstore (u64 (mem - 16)) size s in
  let* s := vstore (u64 (mem - 8)) VM_MAGIC s in
  Ret (mem, s).

(** ** Release *)

Definition page_of (va : Z) s : res Z :=
  let* pa := virt_to_pte_phys page_root va s in
  Ret (Z.land pa (u64 (Z.lnot (PAGE_SIZE - 1)))).

Fixpoint vm_free_loop (fuel : nat) (i m ptr : Z) s : res (vm_state A) :=
  match fuel with
  | O => Hang
  | S fuel =>
      let* npages := vload m s in
      if i <? u64 (npages + 1) then
        let* page := page_of ptr s in
        assert! (negb (page =? 0));
        let* s := vm_free_page page s in
        vm_free_loop fuel (u64 (i + 1)) m (u64 (ptr + PAGE_SIZE)) s
      else Ret s
  end.

Definition vm_free (mem : Z) s : res (vm_state A) :=
  if mem =? 0 then Ret s else
  if negb (IS_ALIGNED mem PAGE_SIZE) then
    let* magic := vload (u64 (mem - 8)) s in
    assert! (magic =? VM_MAGIC);
    let* page := page_of mem s in
    assert! (negb (page =? 0));
    vm_free_page page s
  else
    let m := u64 (mem - 16) in
    let* magic := vload (m + 8) s in
    assert! (magic =? VM_MAGIC);
    let* npages := vload m s in
    assert! (0 <? npages);
    assert! (npages <? BIT_ULL (BITS_PER_LONG - PAGE_SHIFT));
    let ptr := Z.land m (u64 (Z.lnot (PAGE_SIZE - 1))) in
    vm_free_loop (Z.to_nat (npages + 2)) 0 m ptr s.

Definition vmalloc_ops : alloc_ops (vm_state A) := mk_ops (Some vm_memalign) (Some vm_free).
End vmalloc.

(** ** lib/x86/setup.c: memory above 4 GB *)

(** An entry of the memory map of the boot loader. *)
Record mbi_mem : Type := mk_mbi { mbi_base_addr : Z; mbi_length : Z; mbi_type : Z }.

Definition HUGEPAGE_SIZE : Z := 2 ^ 21.

Record best_range : Type := mk_best { best_start : Z; best_end : Z; best_found : bool }.

(** One entry; [edata] is the end of the program, [upper_end] and [max_end] the
    ends of low memory and of all memory. *)
Definition highmem_step (edata upper_end max_end : Z) (b : best_range) (mem : mbi_mem) : best_range :=
  let base_addr := mbi_base_addr mem in
  let length := mbi_length mem in
  if negb (mbi_type mem =? 1) then b else
  if (base_addr <=? edata) || ((base_addr <=? upper_end) && (u64 (base_addr + length) <=? upper_end)) then b else
  if length <? u64 (best_end b - best_start b) then b else
  if max_end <=? base_addr then b else
  let e := u64 (base_addr + length) in
  mk_best base_addr (if max_end <? e then max_end else e) true.

(** [flags], [mem_upper] and the map are fields of [bootinfo]; [max_ram] is
    the value of the firmware configuration. *)
Definition find_highmem (flags mem_upper edata max_ram : Z) (mmap : list mbi_mem) (ph : phys_state) : res phys_state :=
  if Z.land flags 64 =? 0 then Ret ph else
  let upper_end := u64 (mem_upper * 1024) in
  let max_end := if max_ram =? 0 then 2 ^ 64 - 1 else max_ram in
  let b := fold_left (highmem_step edata upper_end max_end) mmap (mk_best edata upper_end false) in
  if best_found b then
    let s := Z.land (u64 (best_start b + HUGEPAGE_SIZE - 1)) (u64 (- HUGEPAGE_SIZE)) in
    let e := Z.land (best_end b) (u64 (- HUGEPAGE_SIZE)) in
    phys_alloc_init s (u64 (e - s)) ph
  else Ret ph.

(** ** [__setup_vm] *)

Record boot_state : Type := mk_boot {
  b_phys : phys_state;
  b_vm : vm_state page_alloc;
  b_page_root : Z;
}.

Section setup.
(** the processors, and [find_highmem] with the boot information *)
Variables (me cpu_count : Z) (highmem : phys_state → res phys_state).

Definition __setup_vm (opaque : option Z) (b : boot_state) : res boot_state :=
  if vm_ops_enabled (b_vm b) then Ret b else
  let vm := b_vm b in
  let* '(base, top, ph) := phys_alloc_get_unused (b_phys b) in
  assert! (negb (base =? top) || page_alloc_initialized (vm_pages vm));
  let* vm :=
    if page_alloc_initialized (vm_pages vm) then Ret vm else
    let base := Z.shiftr (PAGE_ALIGN base) PAGE_SHIFT in
    let top := Z.shiftr top PAGE_SHIFT in
    let* a := page_alloc_init_area AREA_ANY_NUMBER base top (vm_pages vm) in
    let* '(_, a) := page_alloc_ops_enable a in
    Ret (set_pages a vm) in
  let* ph := highmem ph in
  let* '(base, top, ph) := phys_alloc_get_unused ph in
  let* '(page_root, vm) := setup_mmu page_alloc_pages me cpu_count top opaque vm in
  let* vm :=
    if negb (base =? top) then
      let base := Z.shiftr (PAGE_ALIGN base) PAGE_SHIFT in
      let top := Z.shiftr top PAGE_SHIFT in
      let* a := page_alloc_init_area AREA_ANY_NUMBER base top (vm_pages vm) in
      Ret (set_pages a vm)
    else Ret vm in
  let* vm := vm_spin_lock vm in
  assert! (negb (vm_ops_enabled vm));
  Ret (mk_boot ph (vm_spin_unlock (set_vm_ops true vm)) page_root).

Definition setup_vm (b : boot_state) : res boot_state := __setup_vm None b.
End setup.
