(* ===== verification/VmallocProps.v ===== *)
(** * lib/vmalloc.c: allocations are fresh, aligned and backed

    An allocation lies below all earlier ones, every page of it is backed by a
    page of its own, and releasing it returns exactly these pages. *)

From S2P Require Import Prelude.
From S2P Require Import Bitops.
From S2P Require Import LinkedList.
From S2P Require Import AllocPage.
From S2P Require Import AllocPageInv.
From S2P Require Import AllocPageReach.
From S2P Require Import Alloc.
From S2P Require Import PageMem.
From S2P Require Import X86Vm.
From S2P Require Import X86VmProps.
From S2P Require Import X86VmSplit.
From S2P Require Import X86VmThms.
From S2P Require Import Vmalloc.

(** ** Addresses *)

(** The lowest address of the upper half of the address space. *)
Definition VLO : Z := 2 ^ 64 - 2 ^ 47.

Lemma high_vpn va : VLO ≤ va < 2 ^ 64 → vpn va 0 = (va - (2 ^ 64 - 2 ^ 48)) / 4096.
Proof.
  intros Hva. unfold vpn, VLO in *. change (2 ^ (12 + 9 * 0)) with 4096. f_equal.
  replace va with (va - (2 ^ 64 - 2 ^ 48) + 65535 * 2 ^ 48) at 1 by lia. rewrite Z.mod_add by lia. apply Z.mod_small. lia.
Qed.

(** Addresses of one page take the same walk. *)
Lemma walk_vpn m n p va va' : (n ≤ 4)%nat → vpn va 0 = vpn va' 0 → hw_walk n m p va = hw_walk n m p va'.
Proof.
  intros Hn Hv. assert (H : ∀ l, 1 ≤ l ≤ 4 → vpn va (l - 1) = vpn va' (l - 1) ∧ PGDIR_OFFSET va l = PGDIR_OFFSET va' l).
  { intros l Hl. enough (H : vpn va (l - 1) = vpn va' (l - 1)) by (split; [done|by apply vpn_up]).
    destruct (level_cases l Hl) as [->|[->|[->| ->]]]; unfold vpn in *; cbn -[Z.div Z.modulo] in *; Z.div_mod_to_equations; lia. }
  revert p. induction n as [|n IH]; intros p; [done|]. cbn [hw_walk]. destruct (H (Z.of_nat (S n)) ltac:(lia)) as [_ ->].
  destruct (m !! _) as [e|]; [|done]. cbn [mbind option_bind]. by rewrite IH by lia.
Qed.

(** Rounding down to 2^[k]. *)
Definition floor_to (k x : Z) : Z := x / 2 ^ k * 2 ^ k.

Lemma floor_to_spec k x : 0 ≤ k → floor_to k x mod 2 ^ k = 0 ∧ x - 2 ^ k < floor_to k x ≤ x.
Proof.
  intros Hk. unfold floor_to. assert (0 < 2 ^ k) by lia. split; [apply Z.mod_mul; lia|].
  pose proof (Z.div_mod x (2 ^ k)). pose proof (Z.mod_pos_bound x (2 ^ k)). lia.
Qed.

Lemma land_GENMASK x k : 0 ≤ k < 64 → 0 ≤ x < 2 ^ 64 → Z.land x (GENMASK_ULL 63 k) = floor_to k x.
Proof.
  intros Hk Hx. rewrite GENMASK_ULL_high, land_high_ones by lia. unfold floor_to. pose proof (Z.div_mod x (2 ^ k)). lia.
Qed.

(** ** Data pages *)

(** Memory that agrees on the tables has the same tables and walks. *)
Section agree.
Context (root : Z) (tabs : gmap Z (Z * Z)) (m m' : pmem) (Hok : pt_ok root tabs m).
Context (Hag : ∀ p i, is_Some (tabs !! p) → 0 ≤ i < 512 → m' !! (p + 8 * i) = m !! (p + 8 * i)).

Lemma pt_ok_agree : pt_ok root tabs m'.
Proof.
  constructor; try apply Hok.
  - intros p l v i Hp Hi. rewrite Hag by (done || eauto). by eapply po_entry.
  - intros p l v i e Hp Hi. rewrite Hag by (done || eauto). by apply Hok.
Qed.

Lemma walk_agree n p va : tabs !! p = Some (Z.of_nat n, vpn va (Z.of_nat n)) → hw_walk n m' p va = hw_walk n m p va.
Proof.
  revert p. induction n as [|n IH]; intros p Hp; [done|]. cbn [hw_walk].
  rewrite Hag by (eauto || (apply PGDIR_OFFSET_range; lia)). destruct (m !! _) as [e|] eqn:He; [|done]. cbn [mbind option_bind].
  destruct (present e) eqn:Hpr; [|done]. destruct (leaf _ e) eqn:Hl; [done|]. cbn [negb].
  apply IH. by apply (walk_child root tabs m Hok n p).
Qed.
End agree.

Section vmalloc.
Context {A : Type} (ops : page_ops A) (I : A → gset Z → Prop) (full : A → Prop) (ram : Z → Prop).
Context {Hlaws : page_laws ops I full ram}.
Context (me : Z).
Implicit Types s : vm_state A.

(** A word of a page that is not a table. *)
Lemma store_data root tabs P s pg k v :
  vm_inv I ram root tabs P s → ram pg → page_addr pg → tabs !! pg = None → 0 ≤ k < 512 →
  ∃ s', store (pg + 8 * k) v s = Ret s' ∧ s' = set_mem (<[pg + 8 * k := v]> (vm_mem s)) s ∧
    vm_inv I ram root tabs P s' ∧ ∀ va, hw_walk 4 (vm_mem s') root va = hw_walk 4 (vm_mem s) root va.
Proof.
  intros Hinv Hram Hpa Htab Hk. destruct (vi_ram _ _ _ _ _ _ Hinv pg Hram k Hk) as [x Hx].
  eexists. split; [unfold store, wr; by rewrite Hx|]. split; [done|]. cbn [vm_mem set_mem].
  pose proof (vi_tables _ _ _ _ _ _ Hinv) as Hok.
  assert (Hag : ∀ p i, is_Some (tabs !! p) → 0 ≤ i < 512 → <[pg + 8 * k := v]> (vm_mem s) !! (p + 8 * i) = vm_mem s !! (p + 8 * i)).
  { intros p i [[l w] Hp] Hi. apply lookup_insert_ne. intros E. destruct (po_page _ _ _ Hok _ _ _ Hp) as (_ & Hpp & _).
    apply slot_inj in E as [-> _]; [|done..]. by rewrite Hp in Htab. }
  split; [|intros va; by apply (walk_agree root tabs), (root_vpn _ _ (vm_mem s))].
  constructor; try apply Hinv; [by apply (pt_ok_agree root tabs (vm_mem s))|].
  intros p Hp. apply words_insert. by apply Hinv.
Qed.

Lemma grows_more n X tabs P s tabs' P' s' :
  (∀ p, p ∈ X → tabs' !! p = None) → grows ops n tabs P s tabs' P' s' → grows ops n tabs (X ∪ P) s tabs' (X ∪ P') s'.
Proof.
  clear Hlaws I full ram. intros HX [H1 H2 H3 H4 H5 H6 H7]. constructor; try done; [set_solver| |].
  - intros p [Hp|Hp]%elem_of_union; [set_solver|]. apply H3 in Hp as [|]; [set_solver|by right].
  - intros p [x Hx]. destruct (H4 p) as [|Hp]; [eauto|by left|]. right. intros [Hpx|]%elem_of_union; [|done].
    by rewrite HX in Hx.
Qed.

(** Taking a page for data. *)
Lemma grows_alloc n tabs P s q a :
  chain ops n (vm_pages s) a → grows ops n tabs ({[q]} ∪ P) s tabs ({[q]} ∪ P) (set_pages a s).
Proof. intros Hc. constructor; try done; auto. Qed.

Lemma vm_inv_alloc root tabs P s q a :
  vm_inv I ram root tabs P s → I a ({[q]} ∪ P) → vm_inv I ram root tabs ({[q]} ∪ P) (set_pages a s).
Proof. intros [H1 H2 H3 H4 H5] HI. constructor; try done. intros p Hp. apply elem_of_union_r. auto. Qed.

(** ** Backing a range of addresses *)

(** The entries for the pages [pgs]. *)
Definition page_entry (opt : Z) (pgs : list Z) (k : Z) : Z := Z.lor (nth (Z.to_nat k) pgs 0) (page_flags opt).

(** Pages for data, none of them in use before or used as a table. *)
Definition data_pages (P : gset Z) (tabs : gmap Z (Z * Z)) (pgs : list Z) : Prop :=
  NoDup pgs ∧ ∀ p, p ∈ pgs → (p ∉ P) ∧ tabs !! p = None ∧ ram p ∧ page_addr p ∧ 0 < p.

(** One page [q], then the pages [pgs]. *)
Lemma data_pages_cons n k root tabs P s q a s2 tabs2 P2 pgs tabs' P' s' :
  chain ops 1 (vm_pages s) a → tabs !! q = None → q ∉ P → ram q → page_addr q → 0 < q →
  grows ops n tabs ({[q]} ∪ P) (set_pages a s) tabs2 P2 s2 → vm_inv I ram root tabs2 P2 s2 →
  data_pages P2 tabs' pgs → grows ops k tabs2 (list_to_set pgs ∪ P2) s2 tabs' P' s' →
  data_pages P tabs' (q :: pgs) ∧ grows ops (1 + n + k) tabs (list_to_set (q :: pgs) ∪ P) s tabs' P' s'.
Proof.
  clear Hlaws. intros Hch Hq HqP Hram Hpa Hpos Hg2 Hinv2 [Hnd Hdata] Hg.
  assert (Hq2 : q ∈ P2) by (apply (gr_pages _ _ _ _ _ _ _ _ Hg2); set_solver).
  assert (Hqt : tabs2 !! q = None).
  { apply eq_None_not_Some. intros [|Hx]%(gr_fresh _ _ _ _ _ _ _ _ Hg2); [by eapply eq_None_not_Some|set_solver]. }
  assert (Hqt' : tabs' !! q = None).
  { apply eq_None_not_Some. intros [|Hx]%(gr_fresh _ _ _ _ _ _ _ _ Hg); [by eapply eq_None_not_Some|set_solver]. }
  assert (HP2 : ∀ x, x ∈ P → x ∈ P2) by (intros x Hx; apply (gr_pages _ _ _ _ _ _ _ _ Hg2); set_solver).
  assert (Hno : ∀ x, x ∈ (list_to_set pgs : gset Z) → tabs2 !! x = None).
  { intros x Hx%elem_of_list_to_set. destruct (Hdata x Hx) as (Hn & _). apply eq_None_not_Some. intros Hs. apply Hn.
    by apply (vi_owned _ _ _ _ _ _ Hinv2). }
  split; [split|].
  - constructor; [|done]. intros Hin. by apply Hdata in Hin as [? _].
  - intros x [->|Hx]%elem_of_cons; [done|]. destruct (Hdata x Hx) as (Hn & Hrest). split; [|done]. auto.
  - replace (list_to_set (q :: pgs) ∪ P) with (list_to_set pgs ∪ ({[q]} ∪ P) : gset Z) by set_solver.
    eapply grows_trans; [|exact Hg]. eapply grows_trans; [|apply grows_more; [exact Hno|exact Hg2]].
    apply grows_more; [|by apply grows_alloc]. intros x Hx. apply eq_None_not_Some. intros Hs.
    apply (tabs_mono tabs tabs2) in Hs as [y Hy]; [|apply Hg2]. by rewrite Hno in Hy.
Qed.

Lemma back_pages_spec (n : nat) b p v0 root tabs P s :
  vm_inv I ram root tabs P s → p mod PAGE_SIZE = 0 → ((0 < n)%nat → vpn p 0 = v0) → v0 + Z.of_nat n ≤ 2 ^ 36 →
  range_free 1 s root v0 (Z.of_nat n) → ((0 < n)%nat → (missing 4 1 (vm_mem s) root p ≤ b)%nat) →
  let k := (n + tables_for b 3 v0 (Z.of_nat n))%nat in
  may ops full k (vm_pages s) (back_pages ops root n p s) (λ s', ∃ pgs tabs' P',
    length pgs = n ∧ data_pages P tabs' pgs ∧
    vm_inv I ram root tabs' P' s' ∧ grows ops k tabs (list_to_set pgs ∪ P) s tabs' P' s' ∧
    paths_grow 1 root tabs tabs' (vm_mem s) (vm_mem s') ∧
    mapped_range 1 s s' root v0 (Z.of_nat n) (page_entry (pte_opt_mask s) pgs)).
Proof.
  revert b p v0 tabs P s. induction n as [|n IH]; intros b p v0 tabs P s Hinv Hp Hv0 Hb Hfree Hmiss k; subst k; cbn [back_pages].
  { exists [], tabs, P. split; [done|]. split; [split; [constructor|set_solver]|]. split; [done|]. cbn.
    rewrite union_empty_l_L. split; [apply grows_refl|]. split; [apply paths_refl|apply mapped_range_nil]. }
  pose proof (vm_alloc_page_spec ops I full ram root tabs P s Hinv) as H.
  apply post_inv in H as ([q s1] & -> & a & -> & Hch & H). cbn [bind].
  destruct H as [[-> Hout]|(Hq & HqP & Hram & Hpa & Hpos & HI)]; [apply Hout|].
  rewrite (proj2 (Z.eqb_neq q 0)) by lia. cbn [negb]. specialize (Hv0 ltac:(lia)). subst v0. specialize (Hmiss ltac:(lia)).
  set (b' := Z.to_nat (more_tables 3 (vpn p 0) (vpn p 0 + 1))). pose proof (more_tables_pos 3 (vpn p 0) (vpn p 0 + 1) ltac:(lia)) as Hmp.
  pose proof (tables_for_step b b' 3 (vpn p 0) (Z.of_nat n) ltac:(lia) ltac:(lia)) as Hstep.
  replace (Z.of_nat (S n)) with (Z.of_nat n + 1) in Hfree |- * by lia. set (N := tables_for b 3 _ (Z.of_nat n + 1)) in *.
  set (s1 := set_pages a s). pose proof (vm_inv_alloc root tabs P s q a Hinv HI) as Hinv1. fold s1 in Hinv1.
  eapply (may_later _ _ (n + N) 1 _ _ (vm_pages s1)); [done|lia|]. apply may_bind.
  eapply may_le, may_mono; [|apply (install_page_spec ops I full ram q p root tabs _ s1 Hinv1); [|done]|].
  { change (vm_mem s1) with (vm_mem s). lia. }
  { apply (Hfree p). change (1 - 1) with 0. lia. }
  intros [ea s2] (tabs2 & P2 & Hinv2 & Hg2 & [qt Hta] & Hpg2 & Hm2). cbv zeta in Hg2. change (vm_mem s1) with (vm_mem s) in Hg2.
  eapply may_later; [apply Hg2| |eapply may_mono; [apply (IH b' (u64 (p + PAGE_SIZE)) (vpn p 0 + 1) tabs2 P2 s2 Hinv2)|]]; [lia|..].
  - unfold u64. change PAGE_SIZE with 4096 in *. Z.div_mod_to_equations. lia.
  - intros Hn. change PAGE_SIZE with (2 ^ (12 + 9 * 0)) in *. apply (vpn_next p 0); [lia|done|lia].
  - lia.
  - by eapply range_free_cons.
  - intros Hn. assert (E : vpn (u64 (p + PAGE_SIZE)) 0 = vpn p 0 + 1).
    { change PAGE_SIZE with (2 ^ (12 + 9 * 0)) in *. apply (vpn_next p 0); [lia|done|lia]. }
    pose proof (missing_next 3 1 (vm_mem s2) root p (u64 (p + PAGE_SIZE)) qt ltac:(lia) ltac:(lia) Hta) as H.
    change (Z.of_nat 1 - 1) with 0 in H. rewrite E in H. specialize (H ltac:(lia)). lia.
  - intros s' (pgs & tabs' & P' & Hlen & Hdata & Hinv' & Hg & Hpg & Hm). exists (q :: pgs), tabs', P'.
    destruct (data_pages_cons _ _ root tabs P s q a s2 tabs2 P2 pgs tabs' P' s' Hch Hq HqP Hram Hpa Hpos Hg2 Hinv2 Hdata Hg) as [Hd Hg'].
    split; [cbn; lia|]. split; [done|]. split; [done|]. split; [eapply grows_le; [exact Hg'|lia]|].
    split; [exact (paths_trans _ _ _ _ _ _ _ _ Hpg2 Hpg)|].
    rewrite (grows_opt _ _ _ _ _ _ _ _ Hg2) in Hm.
    eapply mapped_range_cons; [lia|eapply mapped_range_ext; [|exact Hm2]|eapply mapped_range_ext; [|exact Hm]].
    + intros k Hk. unfold page_entry. by replace k with 0 by lia.
    + intros k Hk. unfold page_entry. replace (Z.to_nat (k + 1)) with (S (Z.to_nat k)) by lia. done.
Qed.

(** ** The state of the allocator *)

Record vmalloc_ok (root : Z) (tabs : gmap Z (Z * Z)) (P : gset Z) s : Prop := {
  vo_inv : vm_inv I ram root tabs P s;
  vo_cr3 : current_page_table me s = root;
  vo_lock : vm_lock s = false;
  vo_top : vfree_top s mod 4096 = 0 ∧ vfree_top s ≤ 2 ^ 64 - 4096;
  vo_free va : VLO ≤ va < vfree_top s → hw_walk 4 (vm_mem s) root va = None;
}.

Lemma do_alloc_vpages_spec nr o (md : bool) s :
  vm_lock s = false → vfree_top s < 2 ^ 64 → 0 ≤ nr → 0 ≤ o < 52 →
  let ptr := floor_to (12 + o) (vfree_top s - 4096 * nr) - (if md then 4096 else 0) in
  VLO ≤ ptr → do_alloc_vpages nr o md s = Ret (ptr, set_vfree_top ptr s).
Proof.
  intros Hlk Htop Hnr Ho ptr Hptr. unfold VLO in *. unfold do_alloc_vpages, vm_spin_lock. rewrite Hlk. cbn [bind vfree_top set_vm_lock].
  change PAGE_SIZE with 4096. change PAGE_SHIFT with 12.
  destruct (floor_to_spec (12 + o) (vfree_top s - 4096 * nr) ltac:(lia)) as [_ [_ Hle]].
  assert (ptr ≤ vfree_top s - 4096 * nr) by (subst ptr; destruct md; lia).
  rewrite (u64_small (4096 * nr)), (u64_small (vfree_top s - _)), land_GENMASK by lia. fold ptr.
  assert (E : (if md then u64 (floor_to (12 + o) (vfree_top s - 4096 * nr) - 4096) else floor_to (12 + o) (vfree_top s - 4096 * nr)) = ptr).
  { subst ptr. destruct md; [|lia]. apply u64_small. lia. }
  rewrite E. unfold vm_spin_unlock. destruct s. cbn in *. by subst.
Qed.

(** The pages from the address [p0] on are backed by [pgs]. *)
Definition backed s (root p0 : Z) (pgs : list Z) : Prop :=
  ∀ k, 0 ≤ k < Z.of_nat (length pgs) → ∀ va, vpn va 0 = vpn p0 0 + k →
    ∃ a e, hw_walk 4 (vm_mem s) root va = Some (1, a, e) ∧ pte_addr e = nth (Z.to_nat k) pgs 0.

Lemma mapped_backed s s' root p0 pgs opt :
  opt_ok opt → (∀ pg, pg ∈ pgs → page_addr pg) →
  mapped_range 1 s s' root (vpn p0 0) (Z.of_nat (length pgs)) (page_entry opt pgs) → backed s' root p0 pgs.
Proof.
  intros Hopt Hpg Hm k Hk va Hva. specialize (Hm va). cbv zeta in Hm. change (1 - 1) with 0 in Hm.
  replace (vpn va 0 - vpn p0 0) with k in Hm by lia. rewrite decide_True in Hm by done. destruct Hm as [a Ha].
  eexists a, _. split; [done|]. unfold page_entry. destruct (page_flags_ok opt Hopt) as (Hf & _ & _).
  apply pte_addr_lor; [|done]. apply Hpg. apply list_elem_of_lookup. exists (Z.to_nat k).
  rewrite nth_lookup. destruct (lookup_lt_is_Some_2 pgs (Z.to_nat k)) as [y Hy]; [lia|]. by rewrite Hy.
Qed.

(** Accesses to a backed page. *)
Lemma translate_backed s root p0 pgs k va :
  backed s root p0 pgs → 0 ≤ k < Z.of_nat (length pgs) → vpn va 0 = vpn p0 0 + k →
  translate (vm_mem s) root va = Some (nth (Z.to_nat k) pgs 0 + va mod 4096).
Proof.
  intros Hb Hk Hva. destruct (Hb k Hk va Hva) as (a & e & Hw & He). unfold translate. rewrite Hw. cbn [mbind option_bind].
  unfold leaf_phys. rewrite He. change (2 ^ PGDIR_BITS 1) with 4096. destruct (pte_addr_page e) as [Hal _].
  rewrite He in Hal. change PAGE_SIZE with 4096 in Hal. f_equal. Z.div_mod_to_equations. lia.
Qed.

(** ** Memory behind a backed page *)

(** A page that holds data. *)
Definition data_page (tabs : gmap Z (Z * Z)) (P : gset Z) (pg : Z) : Prop :=
  pg ∈ P ∧ tabs !! pg = None ∧ ram pg ∧ page_addr pg ∧ 0 < pg.

Lemma backed_walks s s' root p0 pgs :
  (∀ va, hw_walk 4 (vm_mem s') root va = hw_walk 4 (vm_mem s) root va) → backed s root p0 pgs → backed s' root p0 pgs.
Proof. intros Hw Hb k Hk va Hva. rewrite Hw. by apply Hb. Qed.

Lemma backed_tail s root p0 pg pgs p1 : vpn p1 0 = vpn p0 0 + 1 → backed s root p0 (pg :: pgs) → backed s root p1 pgs.
Proof.
  intros Hv Hb k Hk va Hva. destruct (Hb (k + 1) ltac:(cbn [length]; lia) va ltac:(lia)) as (a & e & Hw & He).
  exists a, e. split; [done|]. rewrite He. by replace (Z.to_nat (k + 1)) with (S (Z.to_nat k)) by lia.
Qed.

(** Words of the first page. *)
Section first.
Context (root : Z) (tabs : gmap Z (Z * Z)) (P : gset Z) (p0 pg : Z) (pgs : list Z).
Context (Hp0 : p0 mod 4096 = 0 ∧ VLO ≤ p0 ≤ 2 ^ 64 - 4096) (Hpg : data_page tabs P pg).

Lemma first_vpn off : 0 ≤ off < 4096 → vpn (p0 + off) 0 = vpn p0 0 + 0 ∧ (p0 + off) mod 4096 = off.
Proof. intros Ho. rewrite !high_vpn by (unfold VLO in *; lia). unfold VLO in *. Z.div_mod_to_equations. lia. Qed.

Lemma vload_first s off : current_page_table me s = root → backed s root p0 (pg :: pgs) → 0 ≤ off < 4096 →
  vload me (p0 + off) s = load (pg + off) s.
Proof.
  intros Hcr Hb Ho. destruct (first_vpn off Ho) as [Hv Hm]. unfold vload. rewrite Hcr.
  rewrite (translate_backed s root p0 (pg :: pgs) 0) by (done || (cbn [length]; lia)). by rewrite Hm.
Qed.

Lemma vstore_first s k v : vm_inv I ram root tabs P s → current_page_table me s = root → backed s root p0 (pg :: pgs) →
  0 ≤ k < 512 → ∃ s', vstore me (p0 + 8 * k) v s = Ret s' ∧ s' = set_mem (<[pg + 8 * k := v]> (vm_mem s)) s ∧
    vm_inv I ram root tabs P s' ∧ ∀ va, hw_walk 4 (vm_mem s') root va = hw_walk 4 (vm_mem s) root va.
Proof.
  intros Hinv Hcr Hb Hk. destruct (first_vpn (8 * k) ltac:(lia)) as [Hv Hm]. unfold vstore. rewrite Hcr.
  rewrite (translate_backed s root p0 (pg :: pgs) 0) by (done || (cbn [length]; lia)). rewrite Hm. cbn [nth Z.to_nat].
  destruct Hpg as (_ & Ht & Hram & Hpa & _). by apply store_data.
Qed.
End first.

(** ** Blocks *)

(** A live allocation [mem]: the range from [p0] on, backed by [pgs], with its
    header in front of [mem]. *)
Record block (root : Z) (tabs : gmap Z (Z * Z)) (P : gset Z) s (mem p0 : Z) (pgs : list Z) : Prop := {
  bl_backed : backed s root p0 pgs;
  bl_nodup : NoDup pgs;
  bl_data pg : pg ∈ pgs → data_page tabs P pg;
  bl_range : p0 mod 4096 = 0 ∧ VLO ≤ p0 ∧ p0 + 4096 * Z.of_nat (length pgs) ≤ 2 ^ 64 - 4096;
  bl_magic : vload me (mem - 8) s = Ret VM_MAGIC;
  bl_size : if mem mod 4096 =? 0
            then mem = p0 + 4096 ∧ 1 < Z.of_nat (length pgs) ∧ vload me (mem - 16) s = Ret (Z.of_nat (length pgs) - 1)
            else length pgs = 1%nat ∧ p0 + 8 ≤ mem < p0 + 4096 ∧ mem mod 8 = 0;
}.

(** ** Backing fresh addresses *)

(** From [s] to [s'], the range of the pages [pgs] from [p0] on was mapped: the
    pages were free, other addresses translate as before, memory outside of
    these pages and of the page tables is as before, and the processor uses
    every new table. *)
Record extended (root : Z) (tabs : gmap Z (Z * Z)) (P : gset Z) s (p0 : Z) (pgs : list Z)
    (tabs' : gmap Z (Z * Z)) (P' : gset Z) s' : Prop := {
  ex_top : vfree_top s' = p0;
  ex_tabs : tabs ⊆ tabs';
  ex_pages p : p ∈ P ∨ p ∈ pgs → p ∈ P';
  ex_data : data_pages P tabs' pgs;
  ex_new p : p ∈ P' → p ∈ P ∨ p ∈ pgs ∨ is_Some (tabs' !! p);
  ex_fresh p : is_Some (tabs' !! p) → is_Some (tabs !! p) ∨ (p ∉ P);
  ex_walk va : ¬ (0 ≤ vpn va 0 - vpn p0 0 < Z.of_nat (length pgs)) →
    hw_walk 4 (vm_mem s') root va = hw_walk 4 (vm_mem s) root va;
  ex_frame p i : 0 ≤ i < 512 → page_addr p → tabs' !! p = None → p ∉ pgs →
    vm_mem s' !! (p + 8 * i) = vm_mem s !! (p + 8 * i);
  ex_paths : paths_grow 1 root tabs tabs' (vm_mem s) (vm_mem s');
}.

Lemma extended_of_grows n root tabs P s p0 pgs tabs' P' s' :
  vm_inv I ram root tabs' P' s' →
  data_pages P tabs' pgs → grows ops n tabs (list_to_set pgs ∪ P) (set_vfree_top p0 s) tabs' P' s' →
  paths_grow 1 root tabs tabs' (vm_mem s) (vm_mem s') →
  mapped_range 1 (set_vfree_top p0 s) s' root (vpn p0 0) (Z.of_nat (length pgs)) (page_entry (pte_opt_mask s) pgs) →
  extended root tabs P s p0 pgs tabs' P' s'.
Proof.
  clear Hlaws. intros Hinv Hd [H1 H2 H3 H4 H5 H6 H7] Hpg Hm. constructor; try done.
  - by rewrite H6.
  - set_solver.
  - intros p [[Hp%elem_of_list_to_set|Hp]%elem_of_union|Hp]%H3; auto.
  - intros p [|Hp]%H4; [by left|right; set_solver].
  - intros va Hva. specialize (Hm va). cbv zeta in Hm. by rewrite decide_False in Hm.
  - intros p i Hi Hpa Ht Hn. apply (H5 (p + 8 * i)). intros q j [[l v] Hq] Hj E.
    destruct (po_page _ _ _ (vi_tables _ _ _ _ _ _ Hinv) _ _ _ Hq) as (_ & Hqa & _).
    apply slot_inj in E as [-> _]; [|done..]. by rewrite Hq in Ht.
Qed.

Lemma back_fresh (n : nat) p0 root tabs P s :
  vmalloc_ok root tabs P s → p0 mod 4096 = 0 → VLO ≤ p0 → p0 + 4096 * Z.of_nat n ≤ vfree_top s →
  may ops full (n + tables_max 3 (Z.of_nat n)) (vm_pages s) (back_pages ops root n p0 (set_vfree_top p0 s)) (λ s', ∃ pgs tabs' P',
    length pgs = n ∧ vmalloc_ok root tabs' P' s' ∧ extended root tabs P s p0 pgs tabs' P' s' ∧ backed s' root p0 pgs).
Proof.
  intros [Hinv Hcr Hlk [Hal Htop] Hfree] Hp Hlo Hhi. set (s1 := set_vfree_top p0 s).
  assert (Hinv1 : vm_inv I ram root tabs P s1) by (by eapply vm_inv_other; [..|exact Hinv]).
  unfold VLO in *.
  assert (Hv : vpn p0 0 = (p0 - (2 ^ 64 - 2 ^ 48)) / 4096) by (apply high_vpn; unfold VLO; lia).
  eapply may_le, may_mono; [|apply (back_pages_spec n 3 p0 (vpn p0 0) root tabs P s1 Hinv1 Hp ltac:(done))|].
  - pose proof (tables_for_max 3 (vpn p0 0) (Z.of_nat n) (Z.of_nat n)). lia.
  - rewrite Hv. Z.div_mod_to_equations. lia.
  - intros va Hva l a e Hw. change (1 - 1) with 0 in Hva. exfalso.
    assert (Hw' : hw_walk 4 (vm_mem s1) root (2 ^ 64 - 2 ^ 48 + va mod 2 ^ 48) = None).
    { apply Hfree. unfold vpn in Hva. change (2 ^ (12 + 9 * 0)) with 4096 in *. Z.div_mod_to_equations. lia. }
    rewrite (walk_vpn _ 4 root va (2 ^ 64 - 2 ^ 48 + va mod 2 ^ 48)) in Hw; [by rewrite Hw' in Hw|lia|].
    unfold vpn. f_equal. Z.div_mod_to_equations. lia.
  - intros _. apply (missing_le 4 1).
  - intros s' (pgs & tabs' & P' & Hlen & Hd & Hinv' & Hg & Hpg & Hm). exists pgs, tabs', P'. rewrite <- Hlen in Hm.
    pose proof (extended_of_grows _ root tabs P s p0 pgs tabs' P' s' Hinv' Hd Hg Hpg Hm) as Hex.
    split; [done|]. split; [|split; [done|]].
    + constructor; [done| | |rewrite (ex_top _ _ _ _ _ _ _ _ _ Hex); lia|].
      * unfold current_page_table. rewrite (gr_rest _ _ _ _ _ _ _ _ Hg). done.
      * rewrite (gr_rest _ _ _ _ _ _ _ _ Hg). done.
      * rewrite (ex_top _ _ _ _ _ _ _ _ _ Hex). intros va Hva. rewrite (ex_walk _ _ _ _ _ _ _ _ _ Hex); [apply Hfree; unfold VLO in *; lia|].
        rewrite high_vpn, Hv by (unfold VLO in *; lia). unfold VLO in *. Z.div_mod_to_equations. lia.
    + apply (mapped_backed s1 s' root p0 pgs (pte_opt_mask s)); [apply Hinv|by intros pg Hin; apply Hd|done].
Qed.

Lemma extended_data root tabs P s p0 pgs tabs' P' s' pg :
  extended root tabs P s p0 pgs tabs' P' s' → pg ∈ pgs → data_page tabs' P' pg.
Proof.
  intros Hex Hpg. destruct (ex_data _ _ _ _ _ _ _ _ _ Hex) as [_ Hd]. destruct (Hd pg Hpg) as (_ & Ht & Hram & Hpa & Hpos).
  split; [apply (ex_pages _ _ _ _ _ _ _ _ _ Hex); by right|done].
Qed.

(** A word of a page that is not a table is on no path. *)
Lemma data_paths root tabs P s pg k v :
  vm_inv I ram root tabs P s → tabs !! pg = None → page_addr pg → 0 ≤ k < 512 →
  paths_grow 1 root tabs tabs (vm_mem s) (<[pg + 8 * k := v]> (vm_mem s)).
Proof.
  clear Hlaws. intros Hinv Ht Hpa Hk. pose proof (vi_tables _ _ _ _ _ _ Hinv) as Hok. split; [|by left].
  intros L va q HL Hq. apply (keeps_tab_at root tabs (vm_mem s)); try done; [|by apply (root_vpn _ _ (vm_mem s))].
  intros p i e [[l w] Hp] Hi He _. rewrite lookup_insert_ne; [done|]. intros E.
  destruct (po_page _ _ _ Hok _ _ _ Hp) as (_ & Hpp & _). apply slot_inj in E as [-> _]; [|done..]. by rewrite Hp in Ht.
Qed.

(** Writing a word of the first page of the range. *)
Lemma write_header root tabs P s p0 pg r tabs' P' s1 k v :
  vmalloc_ok root tabs' P' s1 → extended root tabs P s p0 (pg :: r) tabs' P' s1 → backed s1 root p0 (pg :: r) →
  p0 mod 4096 = 0 ∧ VLO ≤ p0 ≤ 2 ^ 64 - 4096 → 0 ≤ k < 512 →
  ∃ s2, vstore me (p0 + 8 * k) v s1 = Ret s2 ∧
    vmalloc_ok root tabs' P' s2 ∧ extended root tabs P s p0 (pg :: r) tabs' P' s2 ∧ backed s2 root p0 (pg :: r) ∧
    vload me (p0 + 8 * k) s2 = Ret v ∧
    ∀ j, 0 ≤ j < 512 → j ≠ k → vload me (p0 + 8 * j) s2 = vload me (p0 + 8 * j) s1.
Proof.
  intros Hok Hex Hb Hp0 Hk. pose proof Hok as [Hinv Hcr Hlk Htop Hfree].
  pose proof (extended_data _ _ _ _ _ _ _ _ _ pg Hex ltac:(left)) as Hpg.
  destruct (vstore_first root tabs' P' p0 pg r Hp0 Hpg s1 k v Hinv Hcr Hb Hk) as (s2 & -> & -> & Hinv2 & Hw).
  set (s2 := set_mem _ s1) in *. pose proof (backed_walks s1 s2 root p0 _ Hw Hb) as Hb2.
  assert (Hload : ∀ j, 0 ≤ j < 512 → vload me (p0 + 8 * j) s2 = load (pg + 8 * j) s2 ∧ vload me (p0 + 8 * j) s1 = load (pg + 8 * j) s1).
  { intros j Hj. split; by apply (vload_first root p0 pg r); try lia. }
  exists s2. split; [done|]. split; [|split; [|split; [done|split]]].
  - constructor; try done. intros va Hva. rewrite Hw. by apply Hfree.
  - pose proof (data_paths root tabs' P' s1 pg k v Hinv ltac:(apply Hpg) ltac:(apply Hpg) Hk) as Hpaths. fold s2 in Hpaths.
    destruct Hex. constructor; try done; [intros va Hva; rewrite Hw; auto| |by eapply paths_trans].
    intros p i Hi Hpa Ht Hn. cbn [vm_mem s2 set_mem]. rewrite lookup_insert_ne; [auto|]. intros E.
    apply slot_inj in E as [<- _]; [|apply Hpg|done..]. apply Hn. left.
  - rewrite (proj1 (Hload k Hk)). unfold load, rd. cbn [vm_mem s2 set_mem]. by rewrite lookup_insert_eq.
  - intros j Hj Hne. destruct (Hload j Hj) as [-> ->]. unfold load, rd. cbn [vm_mem s2 set_mem].
    rewrite lookup_insert_ne; [done|]. lia.
Qed.

(** Live blocks above the free addresses are not touched. *)
Definition keeps_blocks root tabs P s tabs' P' s' : Prop :=
  ∀ mem p0 pgs, vfree_top s ≤ p0 → block root tabs P s mem p0 pgs → block root tabs' P' s' mem p0 pgs.

Lemma extended_keeps root tabs P s p0 pgs tabs' P' s' :
  vmalloc_ok root tabs P s → current_page_table me s' = root → VLO ≤ p0 →
  p0 mod 4096 = 0 → p0 + 4096 * Z.of_nat (length pgs) ≤ vfree_top s →
  extended root tabs P s p0 pgs tabs' P' s' → keeps_blocks root tabs P s tabs' P' s'.
Proof.
  intros Hok Hcr' Hlo0 Hal0 Htop Hex mem p1 pgs1 Hp1 [Hb Hnd Hd (Hal & Hlo & Hhi) Hmagic Hsize].
  assert (Hd' : ∀ pg, pg ∈ pgs1 → data_page tabs' P' pg ∧ pg ∉ pgs).
  { intros pg Hpg. destruct (Hd pg Hpg) as (HP & Ht & Hrest). split; [split; [apply (ex_pages _ _ _ _ _ _ _ _ _ Hex); by left|split; [|done]]|].
    - apply eq_None_not_Some. intros [Hs|]%(ex_fresh _ _ _ _ _ _ _ _ _ Hex); [|done]. rewrite Ht in Hs. by destruct Hs.
    - intros Hin. by destruct (proj2 (ex_data _ _ _ _ _ _ _ _ _ Hex) pg Hin). }
  assert (Hb' : backed s' root p1 pgs1).
  { intros k Hk va Hva. rewrite (ex_walk _ _ _ _ _ _ _ _ _ Hex va); [by apply Hb|]. rewrite Hva, !high_vpn by (unfold VLO in *; lia).
    unfold VLO in *. Z.div_mod_to_equations. lia. }
  assert (Hw : ∀ pg r j, pgs1 = pg :: r → 0 ≤ j < 512 → vload me (p1 + 8 * j) s' = vload me (p1 + 8 * j) s).
  { intros pg r j -> Hj. assert (Hr : p1 mod 4096 = 0 ∧ VLO ≤ p1 ≤ 2 ^ 64 - 4096) by (cbn [length] in *; unfold VLO in *; lia).
    rewrite !(vload_first root p1 pg r Hr) by (done || apply Hok || lia). unfold load, rd.
    destruct (Hd' pg ltac:(left)) as [(_ & Ht & _ & Hpa & _) Hn]. by rewrite (ex_frame _ _ _ _ _ _ _ _ _ Hex pg j). }
  constructor; try done; [by intros pg Hpg; apply Hd'| |]; destruct pgs1 as [|pg r]; try (case_match; cbn in Hsize; lia);
    specialize (λ j, Hw pg r j eq_refl); destruct (mem mod 4096 =? 0) eqn:E.
  - destruct Hsize as (-> & _). replace (p1 + 4096 - 8) with (p1 + 8 * 511) in * by lia. by rewrite Hw.
  - destruct Hsize as (_ & Hm & Hm8). replace (mem - 8) with (p1 + 8 * ((mem - p1) / 8 - 1)) in * by (Z.div_mod_to_equations; lia).
    rewrite Hw; [done|]. Z.div_mod_to_equations. lia.
  - destruct Hsize as (-> & Hl & Hsz). split; [done|]. split; [done|].
    replace (p1 + 4096 - 16) with (p1 + 8 * 510) in * by lia. by rewrite Hw.
  - done.
Qed.

(** ** Allocation *)

(** The result of an allocation of [n] bytes with alignment 2^[k]. *)
Definition allocated (root : Z) (tabs : gmap Z (Z * Z)) (P : gset Z) s (k n : Z) (r : Z * vm_state A) : Prop :=
  let '(mem, s') := r in ∃ p0 pgs tabs' P',
    vmalloc_ok root tabs' P' s' ∧ extended root tabs P s p0 pgs tabs' P' s' ∧ block root tabs' P' s' mem p0 pgs ∧
    keeps_blocks root tabs P s tabs' P' s' ∧
    mem mod 2 ^ k = 0 ∧ p0 < mem ∧ mem + n ≤ p0 + 4096 * Z.of_nat (length pgs) ≤ vfree_top s.

Lemma block_of root tabs P s p0 pgs tabs' P' s' mem :
  extended root tabs P s p0 pgs tabs' P' s' → backed s' root p0 pgs →
  p0 mod 4096 = 0 → VLO ≤ p0 → p0 + 4096 * Z.of_nat (length pgs) ≤ 2 ^ 64 - 4096 →
  vload me (mem - 8) s' = Ret VM_MAGIC →
  (if mem mod 4096 =? 0
   then mem = p0 + 4096 ∧ 1 < Z.of_nat (length pgs) ∧ vload me (mem - 16) s' = Ret (Z.of_nat (length pgs) - 1)
   else length pgs = 1%nat ∧ p0 + 8 ≤ mem < p0 + 4096 ∧ mem mod 8 = 0) →
  block root tabs' P' s' mem p0 pgs.
Proof. intros Hex Hb H1 H2 H3 H4 H5. constructor; try done; [apply Hex|intros pg; by eapply extended_data]. Qed.

(** A page for an allocation that fits into one. *)
Lemma one_page_unless {R} n root p s (f : vm_state A → res R) (Q : R → Prop) tabs P :
  vm_inv I ram root tabs P s → unless_full ops full (S n) (vm_pages s) (let* s := back_pages ops root 1 p s in f s) Q →
  unless_full ops full (S n) (vm_pages s) (let* '(pg, s) := vm_alloc_page ops s in let* '(_, s) := install_page ops root pg p s in f s) Q.
Proof.
  intros Hinv. pose proof (vm_alloc_page_spec ops I full ram root tabs P s Hinv) as H. cbn [back_pages].
  apply post_inv in H as ([q s1] & -> & a & _ & _ & H). cbn [bind].
  destruct H as [[-> Hout]|(_ & _ & _ & _ & Hpos & _)]; [left; apply Hout|].
  rewrite (proj2 (Z.eqb_neq q 0)) by lia. cbn [negb]. by destruct (install_page _ _ _ _ _) as [[? ?]| | |].
Qed.

(** The pages an allocation of [n] bytes needs at most: its own, one for the
    header, and page tables. *)
Definition pages_for (n : Z) : nat :=
  let c := (n + 4095) / 4096 + 1 in (Z.to_nat c + tables_max 3 c)%nat.

Lemma one_page_spec k n root tabs P s :
  vmalloc_ok root tabs P s → 3 ≤ k < 12 → 2 ^ k + n ≤ 4096 → VLO + 4096 ≤ vfree_top s →
  unless_full ops full 4 (vm_pages s) (vm_alloc_one_page ops me root (2 ^ k) s) (allocated root tabs P s k n).
Proof.
  intros Hok Hk Hn Hroom. pose proof Hok as [Hinv Hcr Hlk [Hal Htop] Hfree]. unfold VLO in *.
  assert (Hpk : 2 ^ 3 ≤ 2 ^ k ≤ 2 ^ 11) by (split; apply Z.pow_le_mono_r; lia).
  assert (Hk8 : (2 ^ k) mod 8 = 0) by (apply (mod_pow2_le (2 ^ k) 3 k); [lia|apply Z.mod_same; lia]).
  unfold vm_alloc_one_page, alloc_vpage, alloc_vpages, alloc_vpages_aligned. change PAGE_SIZE with 4096.
  rewrite (proj2 (Z.leb_le 8 _)), (proj2 (Z.ltb_lt _ 4096)) by lia.
  set (p0 := vfree_top s - 4096).
  assert (Hp0 : floor_to (12 + 0) (vfree_top s - 4096 * 1) - 0 = p0).
  { unfold floor_to, p0. change (2 ^ (12 + 0)) with 4096. Z.div_mod_to_equations. lia. }
  rewrite (do_alloc_vpages_spec 1 0 false s Hlk) by (rewrite ?Hp0; unfold VLO, p0; lia). rewrite Hp0. cbn [bind].
  assert (Hp0a : p0 mod 4096 = 0) by (unfold p0; Z.div_mod_to_equations; lia).
  change (vm_pages s) with (vm_pages (set_vfree_top p0 s)).
  eapply one_page_unless; [by eapply vm_inv_other; [..|exact Hinv]|]. change (vm_pages (set_vfree_top p0 s)) with (vm_pages s).
  apply unless_bind, may_unless. eapply may_mono; [apply (back_fresh 1 p0 root tabs P s Hok Hp0a); unfold VLO, p0; lia|].
  intros s1 (pgs & tabs' & P' & Hlen & Hok1 & Hex & Hb). destruct pgs as [|pg [|]]; try done. right.
  rewrite (u64_small (p0 + _)), u64_small by (unfold p0; lia).
  replace (p0 + 2 ^ k - 8) with (p0 + 8 * ((2 ^ k) / 8 - 1)) by (Z.div_mod_to_equations; lia).
  destruct (write_header root tabs P s p0 pg [] tabs' P' s1 (2 ^ k / 8 - 1) VM_MAGIC Hok1 Hex Hb)
    as (s2 & -> & Hok2 & Hex2 & Hb2 & Hm & _); [unfold VLO, p0 in *; lia|Z.div_mod_to_equations; lia|]. cbn [bind post allocated].
  exists p0, [pg], tabs', P'. split; [done|]. split; [done|].
  assert (Hmem : (p0 + 2 ^ k) mod 4096 = 2 ^ k) by (Z.div_mod_to_equations; lia).
  split; [|split; [apply (extended_keeps root tabs P s p0 [pg]); try done; [apply Hok2|unfold VLO, p0; lia|unfold p0; cbn [length]; lia]|split; [|unfold p0; cbn [length]; lia]]].
  - apply (block_of root tabs P s); try done; [unfold VLO, p0; lia|unfold p0; cbn [length]; lia| |].
    + by replace (p0 + 2 ^ k - 8) with (p0 + 8 * ((2 ^ k) / 8 - 1)) by (Z.div_mod_to_equations; lia).
    + rewrite Hmem, (proj2 (Z.eqb_neq (2 ^ k) 0)) by lia. split; [done|]. split; [lia|]. Z.div_mod_to_equations. lia.
  - rewrite <- Zplus_mod_idemp_r, Z.mod_same, Z.add_0_r by lia. apply (mod_pow2_le p0 k 12); [lia|done].
Qed.

Lemma page_align_div x : 0 ≤ x ≤ 2 ^ 63 → PAGE_ALIGN x / PAGE_SIZE = (x + 4095) / 4096.
Proof. intros Hx. rewrite <- page_align_shift by lia. rewrite Z.shiftr_div_pow2 by (by vm_compute). done. Qed.

Lemma many_pages_spec k n root tabs P s :
  vmalloc_ok root tabs P s → 3 ≤ k ≤ 46 → 0 < n ≤ 2 ^ 47 → 4096 < 2 ^ k + n →
  VLO + 2 ^ Z.max k 12 + n + 8192 ≤ vfree_top s →
  unless_full ops full (pages_for n) (vm_pages s) (vm_memalign ops me root (2 ^ k) n s) (allocated root tabs P s k n).
Proof.
  intros Hok Hk Hn Hbig Hroom. pose proof Hok as [Hinv Hcr Hlk [Hal Htop] Hfree]. unfold VLO in *.
  assert (Hpk : 2 ^ 3 ≤ 2 ^ k ≤ 2 ^ 46) by (split; apply Z.pow_le_mono_r; lia).
  unfold vm_memalign. rewrite (proj2 (Z.eqb_neq n 0)), is_power_of_2_pow2 by lia. rewrite (proj2 (Z.ltb_ge (2 ^ k) 8)) by lia.
  rewrite u64_small, (proj2 (Z.leb_gt _ PAGE_SIZE)) by (change PAGE_SIZE with 4096; lia).
  rewrite !page_align_div by lia. fold (order_for (2 ^ k)). rewrite order_for_pow2 by lia.
  set (size := (n + 4095) / 4096). assert (Hsz : n ≤ 4096 * size < n + 4096) by (unfold size; Z.div_mod_to_equations; lia).
  destruct (floor_to_spec (12 + Z.max 0 (k - 12)) (vfree_top s - 4096 * size) ltac:(lia)) as [Hfm Hfl].
  set (mem := floor_to _ _) in *. replace (12 + Z.max 0 (k - 12)) with (Z.max k 12) in Hfm, Hfl by lia.
  rewrite (do_alloc_vpages_spec size _ true s Hlk) by (fold mem; unfold VLO; lia). fold mem. cbn [bind].
  change PAGE_SIZE with 4096. set (p0 := mem - 4096). replace (u64 (p0 + 4096)) with mem by (rewrite u64_small; lia).
  assert (Hma : mem mod 4096 = 0) by (apply (mod_pow2_le mem 12 (Z.max k 12)); [lia|done]).
  assert (Hp0a : p0 mod 4096 = 0) by (unfold p0; Z.div_mod_to_equations; lia).
  apply unless_bind, may_unless. eapply may_le, may_mono; [|apply (back_fresh (Z.to_nat (size + 1)) p0 root tabs P s Hok Hp0a); unfold VLO, p0; lia|].
  { unfold pages_for. fold size. by replace (Z.of_nat (Z.to_nat (size + 1))) with (size + 1) by lia. }
  intros s1 (pgs & tabs' & P' & Hlen & Hok1 & Hex & Hb). destruct pgs as [|pg r]; [cbn in Hlen; lia|]. right.
  assert (Hp0 : p0 mod 4096 = 0 ∧ VLO ≤ p0 ≤ 2 ^ 64 - 4096) by (unfold VLO, p0 in *; lia).
  rewrite !u64_small by lia. replace (mem - 16) with (p0 + 8 * 510) by lia. replace (mem - 8) with (p0 + 8 * 511) by lia.
  destruct (write_header root tabs P s p0 pg r tabs' P' s1 510 size Hok1 Hex Hb Hp0 ltac:(lia))
    as (s2 & -> & Hok2 & Hex2 & Hb2 & Hm2 & _). cbn [bind].
  destruct (write_header root tabs P s p0 pg r tabs' P' s2 511 VM_MAGIC Hok2 Hex2 Hb2 Hp0 ltac:(lia))
    as (s3 & -> & Hok3 & Hex3 & Hb3 & Hm3 & Hkeep). cbn [bind post allocated].
  exists p0, (pg :: r), tabs', P'. split; [done|]. split; [done|].
  split; [|split; [apply (extended_keeps root tabs P s p0 (pg :: r)); try done; [apply Hok3|apply Hp0|rewrite Hlen; unfold p0; lia]
          |split; [by apply (mod_pow2_le mem k (Z.max k 12)); [lia|]|rewrite Hlen; unfold p0; lia]]].
  apply (block_of root tabs P s); try done; [apply Hp0|rewrite Hlen; unfold p0; lia|by replace (mem - 8) with (p0 + 8 * 511) by lia|].
  rewrite Hma, Z.eqb_refl, Hlen. replace (mem - 16) with (p0 + 8 * 510) by lia. rewrite Hkeep, Hm2 by lia.
  split; [lia|]. split; [lia|]. f_equal. lia.
Qed.

Lemma memalign_spec k n root tabs P s :
  vmalloc_ok root tabs P s → 0 ≤ k ≤ 46 → 0 < n ≤ 2 ^ 47 → VLO + 2 ^ Z.max k 12 + n + 8192 ≤ vfree_top s →
  unless_full ops full (pages_for n) (vm_pages s) (vm_memalign ops me root (2 ^ k) n s) (allocated root tabs P s k n).
Proof.
  intros Hok Hk Hn Hroom. assert (Hk' : ∃ k', k' = Z.max k 3) by eauto. destruct Hk' as [k' Ek].
  assert (E : vm_memalign ops me root (2 ^ k) n s = vm_memalign ops me root (2 ^ k') n s).
  { unfold vm_memalign. rewrite !is_power_of_2_pow2 by lia.
    replace (if 2 ^ k <? 8 then 8 else 2 ^ k) with (if 2 ^ k' <? 8 then 8 else 2 ^ k'); [done|].
    destruct (decide (3 ≤ k)); [replace k' with k by lia; done|].
    replace k' with 3 by lia. assert (k = 0 ∨ k = 1 ∨ k = 2) as [->|[->| ->]] by lia; reflexivity. }
  rewrite E. apply (unless_mono _ _ _ _ _ (allocated root tabs P s k' n)).
  - destruct (decide (2 ^ k' + n ≤ 4096)) as [Hs|Hs]; [|apply many_pages_spec; try done; try lia; by replace (Z.max k' 12) with (Z.max k 12) by lia].
    assert (k' < 12). { apply Z.lt_nge. intros Hge. apply (Z.pow_le_mono_r 2) in Hge; lia. }
    unfold vm_memalign. rewrite (proj2 (Z.eqb_neq n 0)), is_power_of_2_pow2 by lia.
    assert (2 ^ 3 ≤ 2 ^ k') by (apply Z.pow_le_mono_r; lia). rewrite (proj2 (Z.ltb_ge (2 ^ k') 8)) by lia.
    rewrite u64_small, (proj2 (Z.leb_le _ PAGE_SIZE)) by (change PAGE_SIZE with 4096; lia).
    eapply (unless_later _ _ 4 0); [constructor| |apply one_page_spec; try done; lia].
    unfold pages_for, tables_max. Z.div_mod_to_equations. lia.
  - intros [mem s'] (p0 & pgs & tabs' & P' & H1 & H2 & H3 & H4 & H5 & H6). exists p0, pgs, tabs', P'.
    split_and!; try done; try apply H6. apply (mod_pow2_le mem k k'); [lia|done].
Qed.

(** ** Release *)

Lemma page_of_spec s root tabs p0 pgs k va :
  pt_ok root tabs (vm_mem s) → backed s root p0 pgs → 0 ≤ k < Z.of_nat (length pgs) → vpn va 0 = vpn p0 0 + k →
  page_of root va s = Ret (nth (Z.to_nat k) pgs 0).
Proof.
  intros Hok Hb Hk Hva. destruct (Hb k Hk va Hva) as (a & e & Hw & He). unfold page_of.
  rewrite (virt_to_pte_phys_spec root tabs s va _ _ _ Hok Hw). cbn [bind]. rewrite He. do 2 f_equal.
  destruct (pte_addr_page e) as [Hal Hr]. rewrite He in Hal, Hr. change PAGE_SIZE with 4096 in *.
  change (u64 (Z.lnot (4096 - 1))) with (2 ^ 64 - 2 ^ 12). pose proof (Z.mod_pos_bound va 4096).
  rewrite land_high_ones by lia. change (2 ^ 12) with 4096. Z.div_mod_to_equations. lia.
Qed.

Lemma free_page_spec root tabs P s pg :
  vm_inv I ram root tabs P s → data_page tabs P pg →
  post (vm_free_page ops pg s) (λ s', ∃ a, s' = set_pages a s ∧ vm_inv I ram root tabs (P ∖ {[pg]}) s').
Proof.
  intros Hinv (Hin & Ht & _). unfold vm_free_page. apply post_bind.
  eapply post_mono; [apply (law_free_page (vm_pages s) P pg); [apply Hinv|done]|]. intros a HI. cbn [post].
  exists a. split; [done|]. constructor; try apply Hinv; [done|]. intros p Hp.
  apply elem_of_difference. split; [by apply Hinv|]. intros ->%elem_of_singleton. rewrite Ht in Hp. by destruct Hp.
Qed.

Lemma free_loop_spec root tabs m np r : ∀ i ptr P s,
  vm_inv I ram root tabs P s → vload me m s = Ret np → 0 ≤ i → i + Z.of_nat (length r) = np + 1 → np + 1 < 2 ^ 64 →
  ptr mod 4096 = 0 → VLO ≤ ptr → ptr + 4096 * Z.of_nat (length r) ≤ 2 ^ 64 - 4096 →
  backed s root ptr r → NoDup r → (∀ pg, pg ∈ r → data_page tabs P pg) →
  post (vm_free_loop ops me root (S (length r)) i m ptr s) (λ s', ∃ a,
    s' = set_pages a s ∧ vm_inv I ram root tabs (P ∖ list_to_set r) s').
Proof.
  induction r as [|pg r IH]; intros i ptr P s Hinv Hm Hi Hlen Hnp Hal Hlo Hhi Hb Hnd Hd; cbn [vm_free_loop length] in *;
    rewrite Hm; cbn [bind]; rewrite u64_small by lia.
  { rewrite (proj2 (Z.ltb_ge _ _)) by lia. exists (vm_pages s). cbn [list_to_set]. rewrite difference_empty_L.
    destruct s; split; done. }
  rewrite (proj2 (Z.ltb_lt _ _)) by lia. destruct (Hd pg ltac:(left)) as (HpP & Hpt & Hram & Hpa & Hpos).
  rewrite (page_of_spec s root tabs ptr (pg :: r) 0) by (apply Hinv || done || (cbn [length]; lia)). cbn [bind].
  change (nth (Z.to_nat 0) (pg :: r) 0) with pg. rewrite (proj2 (Z.eqb_neq pg 0)) by lia. cbn [negb]. apply post_bind.
  eapply post_mono; [apply (free_page_spec root tabs P s pg Hinv); by apply Hd; left|].
  intros s1 (a & -> & Hinv1). change PAGE_SIZE with 4096. apply NoDup_cons in Hnd as [Hn Hnd].
  rewrite (u64_small (i + 1)), (u64_small (ptr + 4096)) by (unfold VLO in *; lia).
  eapply post_mono; [apply (IH (i + 1) (ptr + 4096) (P ∖ {[pg]}) (set_pages a s) Hinv1); try done; try lia|].
  - Z.div_mod_to_equations. lia.
  - apply (backed_tail s root ptr pg r); [|done]. rewrite !high_vpn by (unfold VLO in *; lia).
    unfold VLO in *. Z.div_mod_to_equations. lia.
  - intros q Hq. destruct (Hd q ltac:(by right)) as (HqP & Hrest). split; [|done]. set_solver.
  - intros s' (a' & -> & Hinv'). exists a'. split; [done|].
    by replace (P ∖ list_to_set (pg :: r)) with (P ∖ {[pg]} ∖ list_to_set r : gset Z) by set_solver.
Qed.

Lemma free_spec root tabs P s mem p0 pgs :
  vmalloc_ok root tabs P s → block root tabs P s mem p0 pgs →
  post (vm_free ops me root mem s) (λ s', ∃ a, s' = set_pages a s ∧ vmalloc_ok root tabs (P ∖ list_to_set pgs) s').
Proof.
  intros [Hinv Hcr Hlk Htop Hfree] [Hb Hnd Hd (Hal & Hlo & Hhi) Hmagic Hsize].
  assert (Hdone : ∀ a, vm_inv I ram root tabs (P ∖ list_to_set pgs) (set_pages a s) → vmalloc_ok root tabs (P ∖ list_to_set pgs) (set_pages a s))
    by (intros a Ha; by constructor).
  assert (Hmem : VLO < mem < 2 ^ 64) by (unfold VLO in *; case_match; lia). unfold VLO in Hmem. unfold vm_free.
  rewrite (proj2 (Z.eqb_neq mem 0)) by lia. change PAGE_SIZE with (2 ^ 12). rewrite IS_ALIGNED_pow2 by lia. change (2 ^ 12) with 4096.
  rewrite !u64_small by lia. destruct (mem mod 4096 =? 0) eqn:Ha; cbn [negb].
  - destruct Hsize as (-> & Hl & Hsz). replace (p0 + 4096 - 16 + 8) with (p0 + 4096 - 8) by lia. rewrite Hmagic, Hsz. cbn [bind].
    rewrite Z.eqb_refl, (proj2 (Z.ltb_lt 0 _)) by lia. change (BIT_ULL _) with (2 ^ 52). rewrite (proj2 (Z.ltb_lt _ (2 ^ 52))) by (unfold VLO in *; lia).
    change (u64 (Z.lnot (4096 - 1))) with (2 ^ 64 - 2 ^ 12). rewrite land_high_ones by lia.
    replace (p0 + 4096 - 16 - _) with p0 by (change (2 ^ 12) with 4096; Z.div_mod_to_equations; lia).
    replace (Z.to_nat _) with (S (length pgs)) by lia.
    eapply post_mono; [apply (free_loop_spec root tabs (p0 + 4096 - 16) (Z.of_nat (length pgs) - 1) pgs 0 p0 P s); try done; unfold VLO in *; lia|].
    intros s' (a & -> & H). eauto.
  - destruct Hsize as (Hl & Hr). destruct pgs as [|pg [|]]; try done. rewrite Hmagic. cbn [bind]. rewrite Z.eqb_refl.
    destruct (Hd pg ltac:(left)) as (HpP & Hpt & Hram & Hpa & Hpos). cbn [length] in *.
    destruct (first_vpn p0 ltac:(unfold VLO in *; lia) (mem - p0) ltac:(lia)) as [Hv _]. replace (p0 + (mem - p0)) with mem in Hv by lia.
    rewrite (page_of_spec s root tabs p0 [pg] 0) by (apply Hinv || done). cbn [bind]. change (nth (Z.to_nat 0) [pg] 0) with pg.
    rewrite (proj2 (Z.eqb_neq pg 0)) by lia. cbn [negb].
    eapply post_mono; [apply (free_page_spec root tabs P s pg Hinv); by apply Hd; left|].
    intros s' (a & -> & H). exists a. split; [done|]. apply Hdone. cbn [list_to_set]. by rewrite union_empty_r_L.
Qed.

(** C4: a virtual allocation.  [vm_memalign] returns memory of [n] bytes with
    alignment 2^[k], below every address handed out before.  Each page of its
    range is mapped to a page of its own that was free before; every other
    address translates as before, and memory outside of these pages and of the
    page tables is as before; so the live blocks stay intact.  The call fails only when the page allocator
    runs out of pages before [pages_for n] pages are taken. *)
Theorem vm_memalign_correct k n root tabs P s :
  vmalloc_ok root tabs P s → 0 ≤ k ≤ 46 → 0 < n ≤ 2 ^ 47 → VLO + 2 ^ Z.max k 12 + n + 8192 ≤ vfree_top s →
  unless_full ops full (pages_for n) (vm_pages s) (vm_memalign ops me root (2 ^ k) n s) (allocated root tabs P s k n).
Proof. apply memalign_spec. Qed.

(** C16: releasing an allocation.  What [vm_memalign] returned, [vm_free]
    accepts; it returns exactly the pages of the range to the page allocator:
    the pages in use afterwards are those in use before and the page tables
    that the processor goes through. *)
Theorem vm_memalign_free_roundtrip k n root tabs P s :
  vmalloc_ok root tabs P s → 0 ≤ k ≤ 46 → 0 < n ≤ 2 ^ 47 → VLO + 2 ^ Z.max k 12 + n + 8192 ≤ vfree_top s →
  unless_full ops full (pages_for n) (vm_pages s) (let* '(mem, s1) := vm_memalign ops me root (2 ^ k) n s in vm_free ops me root mem s1) (λ s',
    ∃ tabs' P', vmalloc_ok root tabs' P' s' ∧ tabs ⊆ tabs' ∧
      ∀ p, p ∈ P' ↔ p ∈ P ∨ walks_through 1 (vm_mem s') root p).
Proof.
  intros Hok Hk Hn Hroom. apply unless_bind. eapply unless_mono; [by apply (memalign_spec k n root tabs P s)|].
  intros [mem s1] (p0 & pgs & tabs' & P' & Hok1 & Hex & Hbl & _). right.
  eapply post_mono; [by apply (free_spec root tabs' P' s1 mem p0 pgs)|]. intros s' (a & -> & Hok2). exists tabs', (P' ∖ list_to_set pgs).
  split; [done|]. split; [apply Hex|]. destruct (ex_data _ _ _ _ _ _ _ _ _ Hex) as [_ Hd]. intros p. split.
  - intros [Hp Hn']%elem_of_difference. destruct (ex_new _ _ _ _ _ _ _ _ _ Hex p Hp) as [|[Hin|Ht]]; [by left| |].
    + destruct Hn'. by apply elem_of_list_to_set.
    + destruct (pg_new _ _ _ _ _ _ (ex_paths _ _ _ _ _ _ _ _ _ Hex) p Ht) as [Hs|]; [left; by apply Hok|by right].
  - pose proof (vo_inv _ _ _ _ Hok2) as Hinv2. intros [Hp|(L & va & HL & Hp)].
    + apply elem_of_difference. split; [apply (ex_pages _ _ _ _ _ _ _ _ _ Hex); by left|].
      intros Hin%elem_of_list_to_set. by destruct (Hd p Hin).
    + apply (vi_owned _ _ _ _ _ _ Hinv2). pose proof (vi_tables _ _ _ _ _ _ Hinv2) as Hpt.
      rewrite (tab_at_tabs root tabs' _ Hpt 4 L root va p (root_vpn _ _ _ va Hpt) Hp). eauto.
Qed.

(** [setup_mmu] prepares virtual allocation. *)
Lemma setup_mmu_vmalloc cpu_count end_of_memory opt_mask P s :
  vm_boot I ram P s → 0 ≤ end_of_memory ≤ 2 ^ 47 → end_of_memory mod PAGE_SIZE = 0 →
  (∀ x, opt_mask = Some x → opt_ok x) →
  may ops full (setup_tables end_of_memory) (vm_pages s) (setup_mmu ops me cpu_count end_of_memory opt_mask s) (λ '(cr3, s'), ∃ tabs P',
    vmalloc_ok cr3 tabs P' s' ∧ P ⊆ P' ∧ chain ops (setup_tables end_of_memory) (vm_pages s) (vm_pages s') ∧
    vfree_top s' = 2 ^ 64 - PAGE_SIZE ∧ vm_ops_enabled s' = false ∧
    ∀ va, 0 ≤ va < Z.max (2 ^ 32) end_of_memory → translate (vm_mem s') cr3 va = Some va).
Proof.
  intros Hb He Hal Hopt. eapply may_mono; [apply (setup_mmu_spec ops I full ram me cpu_count end_of_memory opt_mask P s); try done; lia|].
  intros [cr3 s'] (tabs & P' & Hinv & HP & Hm & Hr & Ht & Hlk & Hen & Hch). exists tabs, P'.
  split; [|split_and!; try done].
  - constructor; [done|by apply Hr; left|done|rewrite Ht; by vm_compute|].
    rewrite Ht. change PAGE_SIZE with 4096. intros va Hva. specialize (Hm va). cbv zeta in Hm. unfold VLO in Hva.
    rewrite decide_False in Hm by (Z.div_mod_to_equations; lia).
    unfold translate in Hm. destruct (hw_walk 4 (vm_mem s') cr3 va) as [[[l a] e]|]; done.
  - intros va Hva. specialize (Hm va). cbv zeta in Hm. rewrite Z.mod_small in Hm by lia. rewrite decide_True in Hm by lia.
    by eapply maps_translate.
Qed.
End vmalloc.

(** ** An instance *)

#[local] Opaque demo_vm.

(** Enable paging on the machine with 32 pages, then use the allocator. *)
Definition demo_vmalloc {R} (k : Z → vm_state page_alloc → res R) : res R :=
  let* '(root, s) := setup_mmu page_alloc_pages 0 1 (2 ^ 32) None demo_vm in k root s.

Lemma demo_tables : setup_tables (2 ^ 32) = 6%nat.
Proof. vm_compute. reflexivity. Qed.

Lemma demo_vmalloc_unless {R} n (k : Z → vm_state page_alloc → res R) (Q : R → Prop) :
  (∀ root tabs P s, vmalloc_ok (pages_live demo_page) demo_page 0 root tabs P s → vfree_top s = 2 ^ 64 - 4096 →
     unless_full page_alloc_pages pages_full n (vm_pages s) (k root s) Q) →
  unless_full page_alloc_pages pages_full (6 + n) (vm_pages demo_vm) (demo_vmalloc k) Q.
Proof.
  intros Hk. unfold demo_vmalloc. rewrite <- demo_tables. apply unless_bind. apply may_unless.
  eapply may_le, may_mono; [|apply (setup_mmu_vmalloc page_alloc_pages (pages_live demo_page) pages_full demo_page 0 1 (2 ^ 32) None ∅ demo_vm demo_boot);
    [lia|done|done]|]; [apply Nat.le_add_r|].
  intros [root s] (tabs & P & Hok & _ & Hch & Htop & _). eapply unless_later; [exact Hch|reflexivity|]. by eapply Hk.
Qed.

Lemma demo_vmalloc_post R n (k : Z → vm_state page_alloc → res R) (Q : R → Prop) r : (n ≤ 14)%nat → demo_vmalloc k = r →
  (∀ root tabs P s, vmalloc_ok (pages_live demo_page) demo_page 0 root tabs P s → vfree_top s = 2 ^ 64 - 4096 →
     unless_full page_alloc_pages pages_full n (vm_pages s) (k root s) Q) →
  post r Q.
Proof.
  intros Hn <- Hk. apply (unless_plenty page_alloc_pages pages_full (6 + n) (vm_pages demo_vm)); [apply demo_vm_plenty; lia|].
  by apply demo_vmalloc_unless.
Qed.

Lemma vm_memalign_correct_witness :
  post (demo_vmalloc (λ root s, vm_memalign page_alloc_pages 0 root (2 ^ 13) 10000 s))
    (λ '(mem, _), mem mod 2 ^ 13 = 0 ∧ mem + 10000 ≤ 2 ^ 64 - 4096).
Proof.
  apply (demo_vmalloc_post _ (pages_for 10000) _ _ _ ltac:(by vm_compute; lia) eq_refl). intros root tabs P s Hok Htop.
  eapply unless_mono; [apply (vm_memalign_correct page_alloc_pages (pages_live demo_page) pages_full demo_page 0 13 10000 root tabs P s Hok);
    [lia|lia|rewrite Htop; by vm_compute]|].
  intros [mem s'] (p0 & pgs & tabs' & P' & _ & _ & _ & _ & Hal & _ & Hr). rewrite Htop in Hr. split; [done|lia].
Defined.

Lemma vm_memalign_free_roundtrip_witness :
  post (demo_vmalloc (λ root s,
      let* s' := (let* '(mem, s1) := vm_memalign page_alloc_pages 0 root (2 ^ 4) 100 s in vm_free page_alloc_pages 0 root mem s1) in
      Ret (root, s, s')))
    (λ '(root, s, s'), ∃ P P', pages_live demo_page (vm_pages s) P ∧ pages_live demo_page (vm_pages s') P' ∧
       ∀ p, p ∈ P' ↔ p ∈ P ∨ walks_through 1 (vm_mem s') root p).
Proof.
  apply (demo_vmalloc_post _ (pages_for 100) _ _ _ ltac:(by vm_compute; lia) eq_refl). intros root tabs P s Hok Htop.
  apply unless_bind. eapply unless_mono; [apply (vm_memalign_free_roundtrip page_alloc_pages (pages_live demo_page) pages_full demo_page 0 4 100 root tabs P s Hok);
    [lia|lia|rewrite Htop; by vm_compute]|].
  intros s' (tabs' & P' & H & _ & HP). right. exists P, P'. split; [apply Hok|]. split; [apply H|done].
Defined.
