(* ===== verification/SetupVmProps.v ===== *)
(** * lib/vmalloc.c, lib/x86/setup.c: bringing virtual memory up

    The search for high memory picks a usable entry of the memory map;
    [setup_vm] moves the memory of the physical allocator to the page
    allocator, enables paging and leaves virtual allocation ready. *)

From S2P Require Import Prelude.
From S2P Require Import Bitops.
From S2P Require Import LinkedList.
From S2P Require Import AllocPage.
From S2P Require Import AllocPageInv.
From S2P Require Import AllocPageSpec.
From S2P Require Import AllocPageThm.
From S2P Require Import AllocPageReach.
From S2P Require Import AllocPageProps.
From S2P Require Import AllocPhys.
From S2P Require Import Alloc.
From S2P Require Import PageMem.
From S2P Require Import X86Vm.
From S2P Require Import X86VmProps.
From S2P Require Import X86VmThms.
From S2P Require Import Vmalloc.
From S2P Require Import VmallocProps.

(** ** High memory *)

Section highmem.
Context (edata upper_end max_end : Z).

(** An entry that can be chosen. *)
Definition eligible (m : mbi_mem) : Prop :=
  mbi_type m = 1 ∧ edata < mbi_base_addr m < max_end ∧
  (upper_end < mbi_base_addr m ∨ upper_end < mbi_base_addr m + mbi_length m).
Definition entry_ok (m : mbi_mem) : Prop :=
  0 ≤ mbi_base_addr m ∧ 0 ≤ mbi_length m ∧ mbi_base_addr m + mbi_length m ≤ 2 ^ 64 - 2 ^ 21.
Definition entry_end (m : mbi_mem) : Z := Z.min max_end (mbi_base_addr m + mbi_length m).

(** What the loop knows about the entries [l] it has seen. *)
Record best_inv (l : list mbi_mem) (b : best_range) : Prop := {
  bi_none : best_found b = false → b = mk_best edata upper_end false;
  bi_from : best_found b = true →
    ∃ m, m ∈ l ∧ eligible m ∧ best_start b = mbi_base_addr m ∧ best_end b = entry_end m;
  bi_max : (∀ m, m ∈ l → mbi_base_addr m + mbi_length m ≤ max_end) →
    ∀ m, m ∈ l → eligible m → mbi_length m ≤ u64 (best_end b - best_start b);
}.

Lemma eligible_test m : entry_ok m → 0 ≤ max_end →
  negb (mbi_type m =? 1) = false →
  ((mbi_base_addr m <=? edata) || ((mbi_base_addr m <=? upper_end) && (u64 (mbi_base_addr m + mbi_length m) <=? upper_end))) = false →
  (max_end <=? mbi_base_addr m) = false → eligible m.
Proof.
  intros (H1 & H2 & H3) Hmax Ht Hb Hm. rewrite u64_small in Hb by lia.
  apply negb_false_iff, Z.eqb_eq in Ht. apply Z.leb_gt in Hm. apply orb_false_iff in Hb as [Hb Hc].
  apply Z.leb_gt in Hb. split; [done|]. split; [lia|]. apply andb_false_iff in Hc as [Hc|Hc]; apply Z.leb_gt in Hc; lia.
Qed.

Lemma eligible_test_no m : entry_ok m → eligible m →
  negb (mbi_type m =? 1) = false ∧
  ((mbi_base_addr m <=? edata) || ((mbi_base_addr m <=? upper_end) && (u64 (mbi_base_addr m + mbi_length m) <=? upper_end))) = false ∧
  (max_end <=? mbi_base_addr m) = false.
Proof.
  intros (H1 & H2 & H3) (Ht & Hb & Hu). rewrite u64_small by lia. rewrite Ht. split; [done|]. split; [|apply Z.leb_gt; lia].
  rewrite (proj2 (Z.leb_gt _ edata)) by lia. cbn [orb]. apply andb_false_iff. rewrite !Z.leb_gt. lia.
Qed.

Lemma highmem_step_inv l b m :
  0 ≤ max_end < 2 ^ 64 → entry_ok m → best_inv l b → best_inv (l ++ [m]) (highmem_step edata upper_end max_end b m).
Proof.
  intros Hmax Hm [Hnone Hfrom Hbest]. pose proof (eligible_test m Hm ltac:(lia)) as Hel. pose proof (eligible_test_no m Hm) as Hno.
  assert (Hkeep : (eligible m → mbi_length m ≤ u64 (best_end b - best_start b)) → best_inv (l ++ [m]) b).
  { intros Hsm. constructor; [done| |].
    - intros Hf. destruct (Hfrom Hf) as (x & Hx & Hrest). exists x. split; [by apply elem_of_app; left|done].
    - intros Hall x [Hx| ->%list_elem_of_singleton]%elem_of_app Hx'; [|auto]. apply Hbest; [|done..]. intros y Hy. apply Hall, elem_of_app. by left. }
  unfold highmem_step. destruct (negb (mbi_type m =? 1)); [apply Hkeep; intros (? & _)%Hno; done|].
  destruct (_ || _); [apply Hkeep; intros (_ & ? & _)%Hno; done|].
  destruct (Z.ltb_spec (mbi_length m) (u64 (best_end b - best_start b))) as [Hlt|Hge]; [apply Hkeep; intros _; lia|].
  destruct (max_end <=? mbi_base_addr m); [apply Hkeep; intros (_ & _ & ?)%Hno; done|].
  specialize (Hel eq_refl eq_refl eq_refl). destruct Hm as (Hm1 & Hm2 & Hm3). rewrite u64_small by lia.
  assert (E : (if max_end <? mbi_base_addr m + mbi_length m then max_end else mbi_base_addr m + mbi_length m) = entry_end m)
    by (unfold entry_end; zcase; lia). rewrite E.
  constructor; cbn [best_found best_start best_end]; [done| |].
  - intros _. exists m. split; [apply elem_of_app; right; by left|done].
  - intros Hall x Hx Hx'. assert (Em : entry_end m = mbi_base_addr m + mbi_length m).
    { unfold entry_end. pose proof (Hall m ltac:(apply elem_of_app; right; by left)). lia. }
    rewrite Em, u64_small by lia. apply elem_of_app in Hx as [Hx| ->%list_elem_of_singleton]; [|lia].
    pose proof (Hbest ltac:(intros y Hy; apply Hall, elem_of_app; by left) x Hx Hx'). lia.
Qed.

Lemma highmem_loop_inv mmap : 0 ≤ max_end < 2 ^ 64 → (∀ m, m ∈ mmap → entry_ok m) →
  best_inv mmap (fold_left (highmem_step edata upper_end max_end) mmap (mk_best edata upper_end false)).
Proof.
  intros Hmax. induction mmap as [|m l IH] using rev_ind; intros Hok.
  { constructor; [done|done|]. by intros _ m Hm%elem_of_nil. }
  rewrite fold_left_app. apply highmem_step_inv; [done|apply Hok, elem_of_app; right; by left|].
  apply IH. intros x Hx. apply Hok, elem_of_app. by left.
Qed.
End highmem.

(** High memory.  [find_highmem] gives the physical allocator a range
    inside one entry of the memory map that is usable, above the program and
    not part of low memory, cut at the end of memory and to multiples of 2 MB;
    when no entry ends beyond the end of memory no other such entry is larger.
    Without one the physical allocator keeps its range. *)
Theorem find_highmem_correct flags mem_upper edata max_ram mmap ph :
  (∀ m, m ∈ mmap → entry_ok m) → 0 ≤ max_ram < 2 ^ 64 → p_lock ph = false →
  let upper_end := u64 (mem_upper * 1024) in
  let max_end := if max_ram =? 0 then 2 ^ 64 - 1 else max_ram in
  post (find_highmem flags mem_upper edata max_ram mmap ph) (λ ph',
    ph' = ph ∨
    ∃ m, m ∈ mmap ∧ eligible edata upper_end max_end m ∧ p_nr_regions ph' = 0 ∧
      p_base ph' = (mbi_base_addr m + 2 ^ 21 - 1) / 2 ^ 21 * 2 ^ 21 ∧
      p_top ph' = entry_end max_end m / 2 ^ 21 * 2 ^ 21 ∧
      ((∀ x, x ∈ mmap → mbi_base_addr x + mbi_length x ≤ max_end) →
       ∀ x, x ∈ mmap → eligible edata upper_end max_end x → mbi_length x ≤ mbi_length m)).
Proof.
  intros Hok Hmax Hlk upper_end max_end. unfold find_highmem. destruct (Z.land flags 64 =? 0); [by left|]. fold upper_end max_end.
  assert (Hme : 0 ≤ max_end < 2 ^ 64) by (unfold max_end; zcase; lia).
  destruct (highmem_loop_inv edata upper_end max_end mmap Hme Hok) as [Hnone Hfrom Hbest].
  set (b := fold_left _ _ _) in *. destruct (best_found b) eqn:Ef; [|by left]. destruct (Hfrom eq_refl) as (m & Hm & Hel & Es & Ee).
  destruct (Hok m Hm) as (H1 & H2 & H3). unfold phys_alloc_init, phys_spin_lock. rewrite Hlk. cbn [bind post].
  assert (Hend : 0 ≤ entry_end max_end m < 2 ^ 64) by (unfold entry_end; lia).
  assert (Hsize : (∀ x, x ∈ mmap → mbi_base_addr x + mbi_length x ≤ max_end) → u64 (best_end b - best_start b) = mbi_length m).
  { intros Hall. specialize (Hall m Hm). rewrite Es, Ee. unfold entry_end. rewrite u64_small; lia. }
  right. exists m. split; [done|]. split; [done|]. split; [done|].
  cbn [p_base p_top set_p_range set_p_nr_regions phys_spin_unlock set_p_lock]. change (u64 (- HUGEPAGE_SIZE)) with (2 ^ 64 - 2 ^ 21).
  change HUGEPAGE_SIZE with (2 ^ 21). rewrite Es, Ee. rewrite u64_small, !land_high_ones by lia.
  set (x := mbi_base_addr m + 2 ^ 21 - 1). pose proof (Z.div_mod x (2 ^ 21) ltac:(lia)). pose proof (Z.mod_pos_bound x (2 ^ 21) ltac:(lia)).
  split; [lia|]. set (e := entry_end max_end m) in *. pose proof (Z.div_mod e (2 ^ 21) ltac:(lia)). pose proof (Z.mod_pos_bound e (2 ^ 21) ltac:(lia)).
  split; [|intros Hall y Hy Hyel; rewrite <- Hsize by done; by apply Hbest].
  unfold u64 at 1 2. rewrite Zplus_mod_idemp_r. replace (_ + _) with (e - e mod 2 ^ 21) by lia. rewrite Z.mod_small by lia. lia.
Qed.

(** 3 GB above 4 GB, next to a reserved range; 1 GB of low memory. *)
Lemma find_highmem_correct_witness :
  let ph := mk_phys [] 0 false 0 0 0 false [] in
  let mmap := [mk_mbi (2 ^ 32) (3 * 2 ^ 30 + 5) 1; mk_mbi (2 ^ 40) (2 ^ 36) 2] in
  post (find_highmem 64 (2 ^ 20) (2 ^ 22) 0 mmap ph) (λ ph',
    p_base ph' = 2 ^ 32 ∧ p_top ph' = 2 ^ 32 + 3 * 2 ^ 30 ∨ ph' = ph).
Proof.
  eapply post_mono; [apply find_highmem_correct; [|lia|done]|].
  - intros m [->|[->|[]%elem_of_nil]%elem_of_cons]%elem_of_cons; by repeat split.
  - intros ph' [->|(m & Hm & Hel & _ & Hb & Ht & _)]; [by right|]. left.
    apply elem_of_cons in Hm as [->|[->|[]%elem_of_nil]%elem_of_cons]; [|by destruct Hel].
    rewrite Hb, Ht. by split.
Defined.

(** ** [setup_vm] *)

Section setup.
Context (ram : Z → Prop) `{!table_pages ram} (me cpu_count : Z).

(** The page allocator after its first initialisation: nothing is handed out. *)
Lemma init_pages_live b t a0 a :
  areas_mask a0 = 0 → lock a0 = false → page_alloc_init_area AREA_ANY_NUMBER b t a0 = Ret a → 0 ≤ b → 0 ≤ t →
  (∀ n f, active a n → usable_frame (areas a n) f → ram (vaddr (Page f))) → pages_live ram a ∅ ∧ lock a = false.
Proof.
  intros Hm Hl E Hb Ht Hram.
  destruct (reach_inv a ∅) as (Hpa & Hlk & Hrel).
  { apply (reach_init a0 ∅ AREA_ANY_NUMBER b t); [by apply reach_boot|by vm_compute|done..]. }
  split; [|done]. exists ∅. split; [done|]. split; [done|]. split; [done|].
  split; [intros p; split; [done|by intros (? & _ & ?)]|done].
Qed.

(** The range of the physical allocator is taken once. *)
Lemma get_unused_spec ph :
  p_lock ph = false → 0 ≤ p_nr_regions ph < Z.of_nat (length (p_regions ph)) → p_base ph ≠ p_top ph →
  ∃ ph', phys_alloc_get_unused ph = Ret (p_base ph, p_top ph, ph') ∧
    phys_alloc_get_unused ph' = Ret (p_top ph, p_top ph, ph') ∧ p_base ph' = p_top ph ∧ p_top ph' = p_top ph.
Proof.
  intros Hl Hn Hne. unfold phys_alloc_get_unused at 1, phys_spin_lock, log_region. rewrite (proj2 (Z.eqb_neq _ _)) by done.
  rewrite Hl. cbn [bind p_nr_regions p_regions set_p_lock]. rewrite (proj2 (Z.leb_le _ _)), (proj2 (Z.ltb_lt _ _)) by lia.
  cbn [andb bind]. eexists. split; [done|]. unfold phys_alloc_get_unused. cbn. by rewrite Z.eqb_refl.
Qed.

(** The machine before [setup_vm]: a range of free memory in the physical
    allocator, an empty page allocator, virtual memory off. *)
Record boot_ok (b : boot_state) : Prop := {
  bo_log : p_lock (b_phys b) = false ∧ 0 ≤ p_nr_regions (b_phys b) < Z.of_nat (length (p_regions (b_phys b)));
  bo_range : 0 ≤ p_base (b_phys b) < p_top (b_phys b) ∧ p_top (b_phys b) ≤ 2 ^ 47 ∧ p_top (b_phys b) mod PAGE_SIZE = 0;
  bo_pages : areas_mask (vm_pages (b_vm b)) = 0 ∧ lock (vm_pages (b_vm b)) = false;
  bo_words p : ram p → words (vm_mem (b_vm b)) p;
  bo_vm : vm_lock (b_vm b) = false ∧ vm_ops_enabled (b_vm b) = false;
}.

(** C8: bringing virtual memory up.  On a machine without high memory, when the
    page allocator accepts the memory of the physical allocator, [setup_vm]
    leaves the physical allocator empty, enables virtual allocation in a state
    that satisfies its invariant, and maps the memory (at least 4 GB) to
    itself; it fails only when there are fewer pages than [setup_tables] counts
    for the page tables of this memory (6 up to 4 GB).  A second call changes
    nothing. *)
Theorem setup_vm_correct b a :
  boot_ok b →
  page_alloc_init_area AREA_ANY_NUMBER (Z.shiftr (PAGE_ALIGN (p_base (b_phys b))) PAGE_SHIFT)
    (Z.shiftr (p_top (b_phys b)) PAGE_SHIFT) (vm_pages (b_vm b)) = Ret a →
  page_alloc_initialized a = true →
  (∀ n f, active a n → usable_frame (areas a n) f → ram (vaddr (Page f))) →
  may page_alloc_pages pages_full (setup_tables (p_top (b_phys b))) a (setup_vm me cpu_count Ret b) (λ b', ∃ tabs P,
    vmalloc_ok (pages_live ram) ram me (b_page_root b') tabs P (b_vm b') ∧
    vfree_top (b_vm b') = 2 ^ 64 - PAGE_SIZE ∧
    (∀ va, 0 ≤ va < Z.max (2 ^ 32) (p_top (b_phys b)) → translate (vm_mem (b_vm b')) (b_page_root b') va = Some va) ∧
    p_base (b_phys b') = p_top (b_phys b') ∧ setup_vm me cpu_count Ret b' = Ret b').
Proof.
  intros [[Hpl Hpn] ([Hb0 Hb1] & Ht & Hal) [Hm Hl] Hw [Hvl Hve]] Ea Hinit Hram.
  destruct (init_pages_live _ _ _ _ Hm Hl Ea ltac:(apply Z.shiftr_nonneg, Z.land_nonneg; left; apply u64_range)
    ltac:(apply Z.shiftr_nonneg; lia) Hram) as [Hlive Hla].
  destruct (get_unused_spec (b_phys b) Hpl Hpn ltac:(lia)) as (ph & E1 & E2 & Ebase & Etop).
  unfold setup_vm, __setup_vm. rewrite Hve, E1. cbn [bind]. rewrite (proj2 (Z.eqb_neq _ _)) by lia. cbn [negb orb].
  unfold page_alloc_initialized at 1. rewrite Hm. change (negb (0 =? 0)) with false. cbn iota. rewrite Ea. cbn [bind].
  unfold page_alloc_ops_enable, spin_lock. rewrite Hla. cbn [bind].
  assert (Hi2 : page_alloc_initialized (set_lock true a) = true) by exact Hinit. rewrite Hi2. cbn [bind].
  rewrite E2. cbn [bind]. assert (Es : spin_unlock (set_lock true a) = a) by (destruct a; cbn in *; by subst). rewrite Es.
  set (s := set_pages a (b_vm b)).
  assert (Hboot : vm_boot (pages_live ram) ram ∅ s) by (split; [exact Hlive|split; [exact Hw|by split]]).
  apply may_bind. eapply may_mono; [apply (setup_mmu_vmalloc page_alloc_pages (pages_live ram) pages_full ram me cpu_count
    (p_top (b_phys b)) None ∅ s Hboot); [lia|done|done]|].
  intros [root s1] (tabs & P & Hok & _ & _ & Htop & Hen & Hid). cbv beta iota zeta. rewrite Z.eqb_refl. cbn [negb bind].
  pose proof Hok as [Hinv Hcr Hlk Hvt Hfree]. unfold vm_spin_lock. rewrite Hlk. cbn [bind vm_ops_enabled set_vm_lock].
  rewrite Hen. cbn [negb]. cbn [may]. exists tabs, P. cbn [b_vm b_page_root b_phys].
  split; [|split; [done|split; [done|split; [congruence|reflexivity]]]].
  constructor; try done. by eapply vm_inv_other; [..|exact Hinv].
Qed.
End setup.

(** A machine with 32 pages of memory. *)
Definition demo_any : page_alloc := ret_or boot (page_alloc_init_area AREA_ANY_NUMBER 15 48 boot).
Definition demo_boot_state : boot_state :=
  mk_boot (mk_phys (replicate 256 (mk_pr 0 0)) 0 false (15 * 4096) (48 * 4096) 0 false [])
    (mk_vm demo_words boot 0 (λ _, mk_info 0 0 0) false 0 false) 0.

Lemma demo_any_eq : page_alloc_init_area AREA_ANY_NUMBER 15 48 boot = Ret demo_any.
Proof. apply ret_or_eq. by vm_compute. Qed.

Lemma demo_any_ram n f : active demo_any n → usable_frame (areas demo_any n) f → demo_page (vaddr (Page f)).
Proof.
  intros [Hn Hb] Hf. unfold MAX_AREAS in Hn. assert (Em : areas_mask demo_any = 8) by (vm_compute; reflexivity). rewrite Em in Hb.
  assert (n = 0 ∨ n = 1 ∨ n = 2 ∨ n = 3) as [->|[->|[->| ->]]] by lia; [by destruct Hb..|].
  assert (Eb : base (areas demo_any 3) = 16) by (vm_compute; reflexivity). assert (Et : top (areas demo_any 3) = 48) by (vm_compute; reflexivity).
  unfold usable_frame in Hf. rewrite Eb, Et in Hf. rewrite vaddr_mul. unfold demo_page. change PAGE_SIZE with 4096.
  split; [by apply Z.mod_mul|lia].
Qed.

Lemma demo_any_plenty : plenty page_alloc_pages (setup_tables (48 * 4096)) demo_any = true.
Proof. by vm_compute. Qed.

#[local] Opaque demo_any demo_words.

Lemma demo_boot_ok : boot_ok demo_page demo_boot_state.
Proof.
  constructor; cbn [b_phys b_vm demo_boot_state p_lock p_nr_regions p_regions p_base p_top vm_mem vm_pages vm_lock vm_ops_enabled];
    [by vm_compute..| |by vm_compute].
  intros p Hp i Hi. exists 0. by apply demo_words_at.
Qed.

Lemma setup_vm_correct_witness :
  post (setup_vm 0 1 Ret demo_boot_state)
    (λ b', vfree_top (b_vm b') = 2 ^ 64 - 4096 ∧ translate (vm_mem (b_vm b')) (b_page_root b') 12345 = Some 12345).
Proof.
  apply (may_plenty page_alloc_pages pages_full (setup_tables (48 * 4096)) demo_any); [exact demo_any_plenty|].
  eapply may_mono; [apply (setup_vm_correct demo_page 0 1 demo_boot_state demo_any demo_boot_ok)|].
  - exact demo_any_eq.
  - by vm_compute.
  - exact demo_any_ram.
  - intros b' (tabs & P & _ & Ht & Hid & _). split; [done|]. apply Hid. lia.
Defined.
