(* ===== verification/RiscvMmu.v ===== *)
(** * lib/riscv/mmu.c: page tables of the 64-bit RISC-V guest (Sv39)

    Physical memory is a map from the addresses of 64-bit words to their
    values, and page tables are reached through their physical addresses, as
    in the code ([__pa] and [__va] of asm-generic/page.h are the identity).
    Tables are allocated through [page_ops]; [alloc_page] of lib/alloc_page.c
    clears the pages it returns.  The TLB is not modelled, so
    [local_flush_tlb_page] has no effect. *)

From S2P Require Import Prelude.
From S2P Require Import Bitops.
From S2P Require Import AllocPage.
From S2P Require Import Memregions.
From S2P Require Import PageMem.

(** ** asm/pgtable.h, asm/mmu.h, asm-generic/page.h *)

Definition SATP_PPN : Z := 0xFFFFFFFFFFF.
Definition SATP_MODE_39 : Z := 0x8000000000000000.
Definition SATP_MODE_SHIFT : Z := 60.
Definition NR_LEVELS : nat := 3.
Definition PGDIR_BITS : Z := 9.
Definition PGDIR_MASK : Z := 0x1FF.
Definition PTE_PPN : Z := 0x3FFFFFFFFFFC00.
Definition SATP_MODE_DEFAULT : Z := SATP_MODE_39.
Definition PPN_SHIFT : Z := 10.
Definition _PAGE_PRESENT : Z := Z.shiftl 1 0.
Definition _PAGE_READ : Z := Z.shiftl 1 1.
Definition _PAGE_WRITE : Z := Z.shiftl 1 2.
Definition _PAGE_EXEC : Z := Z.shiftl 1 3.
Definition _PAGE_ACCESSED : Z := Z.shiftl 1 6.
Definition _PAGE_DIRTY : Z := Z.shiftl 1 7.
Definition PHYS_MASK : Z := Z.lor (u64 (Z.shiftl SATP_PPN PAGE_SHIFT)) (PAGE_SIZE - 1).
Definition PAGE_MASK : Z := u64 (Z.lnot (PAGE_SIZE - 1)).
Definition PHYS_PAGE_MASK : Z := PAGE_MASK.
Definition __pa (x : Z) : Z := u64 x.
Definition __va (x : Z) : Z := u64 x.
Definition offset_in_page (p : Z) : Z := Z.land p (u64 (Z.lnot PAGE_MASK)).

(** ** State *)

(** [satp] is the control register. *)
Record mmu_state (A : Type) : Type := mk_mmu {
  mm_mem : pmem;
  mm_pages : A;
  __initial_pgtable : Z;
  satp : Z;
}.
Arguments mk_mmu {A}.
Arguments mm_mem {A}.
Arguments mm_pages {A}.
Arguments __initial_pgtable {A}.
Arguments satp {A}.

Definition pte_index (vaddr : Z) (level : Z) : Z :=
  Z.land (Z.shiftr vaddr (PGDIR_BITS * level + PAGE_SHIFT)) PGDIR_MASK.

Definition pteval_to_phys_addr (pteval : Z) : Z :=
  u64 (Z.shiftl (Z.shiftr (Z.land pteval PTE_PPN) PPN_SHIFT) PAGE_SHIFT).

Definition pteval_to_ptep (pteval : Z) : res Z :=
  let paddr := pteval_to_phys_addr pteval in
  assert! (paddr =? __pa paddr);
  Ret (__pa paddr).

Definition ptep_to_pteval (ptep : Z) : Z := u64 (Z.shiftl (Z.shiftr ptep PAGE_SHIFT) PPN_SHIFT).

Section mmu.
Context {A : Type} (ops : page_ops A).
Implicit Types s : mmu_state A.

Definition set_mem (m : pmem) s : mmu_state A := mk_mmu m (mm_pages s) (__initial_pgtable s) (satp s).
Definition set_pages (a : A) s : mmu_state A := mk_mmu (mm_mem s) a (__initial_pgtable s) (satp s).
Definition set_initial (p : Z) s : mmu_state A := mk_mmu (mm_mem s) (mm_pages s) p (satp s).
Definition set_satp (x : Z) s : mmu_state A := mk_mmu (mm_mem s) (mm_pages s) (__initial_pgtable s) x.

Definition load (a : Z) s : res Z := rd (mm_mem s) a.
Definition store (a v : Z) s : res (mmu_state A) := let* m := wr (mm_mem s) a v in Ret (set_mem m s).

(** [alloc_page()]: the page is cleared. *)
Definition alloc_zeroed s : res (Z * mmu_state A) :=
  let* '(p, a) := op_alloc_page ops (mm_pages s) in
  let s := set_pages a s in
  if p =? 0 then Ret (p, s) else
  let* m := zero_page (mm_mem s) p in
  Ret (p, set_mem m s).

(** ** Page tables *)

Definition pgtable_ok (pgtable : Z) : bool := negb (pgtable =? 0) && (Z.land pgtable (u64 (Z.lnot PAGE_MASK)) =? 0).

(** The loop of [get_pte], from [level] on: the table of level 0. *)
Fixpoint get_pte_walk (level : nat) (vaddr ptep : Z) s : res (Z * mmu_state A) :=
  match level with
  | O => Ret (ptep, s)
  | S level' =>
      let next := ptep + 8 * pte_index vaddr (Z.of_nat level) in
      let* e := load next s in
      let* s :=
        if e =? 0 then
          let* '(page, s) := alloc_zeroed s in
          store next (Z.lor (ptep_to_pteval page) _PAGE_PRESENT) s
        else Ret s in
      let* e := load next s in
      let* ptep := pteval_to_ptep e in
      get_pte_walk level' vaddr ptep s
  end.

Definition get_pte (pgtable vaddr : Z) s : res (Z * mmu_state A) :=
  assert! (pgtable_ok pgtable);
  let* '(ptep, s) := get_pte_walk (NR_LEVELS - 1) vaddr pgtable s in
  Ret (ptep + 8 * pte_index vaddr 0, s).

Definition __install_page (pgtable paddr vaddr prot : Z) s : res (Z * mmu_state A) :=
  let ppn := u64 (Z.shiftl (Z.shiftr paddr PAGE_SHIFT) PPN_SHIFT) in
  assert! (Z.land ppn (u64 (Z.lnot PTE_PPN)) =? 0);
  let* '(ptep, s) := get_pte pgtable vaddr s in
  let pte := Z.lor ppn (Z.lor (Z.lor (Z.lor prot _PAGE_PRESENT) _PAGE_ACCESSED) _PAGE_DIRTY) in
  let* s := store ptep pte s in
  Ret (ptep, s).

Definition install_page (pgtable phys virt : Z) s : res (Z * mmu_state A) :=
  let paddr := Z.land phys PHYS_PAGE_MASK in
  let vaddr := Z.land virt PAGE_MASK in
  assert! (phys =? Z.land phys PHYS_MASK);
  __install_page pgtable paddr vaddr (Z.lor _PAGE_READ _PAGE_WRITE) s.

(** The loop of [mmu_set_range_ptes].  The fuel is enough unless [vaddr] wraps
    around: then the loop starts over at address 0. *)
Fixpoint set_range_loop (fuel : nat) (pgtable paddr vaddr virt_end prot : Z) s : res (mmu_state A) :=
  match fuel with
  | O => Hang
  | S fuel =>
      if vaddr <? virt_end then
        let* '(_, s) := __install_page pgtable paddr vaddr prot s in
        set_range_loop fuel pgtable (u64 (paddr + PAGE_SIZE)) (u64 (vaddr + PAGE_SIZE)) virt_end prot s
      else Ret s
  end.

Definition mmu_set_range_ptes (pgtable virt_offset phys_start phys_end prot : Z) s : res (mmu_state A) :=
  let paddr := Z.land phys_start PHYS_PAGE_MASK in
  let vaddr := Z.land virt_offset PAGE_MASK in
  let virt_end := u64 (phys_end - paddr + vaddr) in
  assert! (phys_start =? Z.land phys_start PHYS_MASK);
  assert! (phys_end =? Z.land phys_end PHYS_MASK);
  assert! (phys_start <? phys_end);
  set_range_loop (Z.to_nat ((virt_end - vaddr) / PAGE_SIZE) + 2) pgtable paddr vaddr virt_end prot s.

(** ** Enabling paging *)

Definition mmu_disable s : mmu_state A := set_satp 0 s.
Definition __mmu_enable (x : Z) s : mmu_state A := set_satp x s.
Definition mmu_enable (mode pgtable : Z) s : res (mmu_state A) :=
  let ppn := Z.shiftr (__pa pgtable) PAGE_SHIFT in
  assert! (Z.land ppn (u64 (Z.lnot SATP_PPN)) =? 0);
  Ret (__mmu_enable (Z.lor mode ppn) s).

Definition current_pgtable s : Z := u64 (Z.shiftl (Z.land (satp s) SATP_PPN) PAGE_SHIFT).

(** The initial table, made when it is needed first. *)
Definition initial_pgtable s : res (Z * mmu_state A) :=
  let* s :=
    if __initial_pgtable s =? 0 then let* '(p, s) := alloc_zeroed s in Ret (set_initial p s) else Ret s in
  Ret (__initial_pgtable s, s).

(** One region of the loop of [setup_mmu]. *)
Definition map_region (pgtable : Z) (r : mem_region) s : res (mmu_state A) :=
  if negb (Z.land (mr_flags r) (Z.lor MR_F_IO MR_F_RESERVED) =? 0) then Ret s else
  if negb (Z.land (mr_flags r) MR_F_CODE =? 0)
  then mmu_set_range_ptes pgtable (mr_start r) (mr_start r) (mr_end r) (Z.lor _PAGE_READ _PAGE_EXEC) s
  else mmu_set_range_ptes pgtable (mr_start r) (mr_start r) (mr_end r) (Z.lor _PAGE_READ _PAGE_WRITE) s.

Fixpoint map_regions (pgtable : Z) (l : list mem_region) s : res (mmu_state A) :=
  match l with
  | [] => Fault
  | r :: l => if mr_end r =? 0 then Ret s else let* s := map_region pgtable r s in map_regions pgtable l s
  end.

(** [regions]: the table of lib/memregions.c. *)
Definition setup_mmu (regions : mr_state) (top : Z) s : res (Z * mmu_state A) :=
  assert! (top =? __pa top);
  let* '(pgtable, s) := initial_pgtable s in
  let* s := map_regions pgtable (mem_regions regions) s in
  let* s := mmu_enable SATP_MODE_DEFAULT pgtable s in
  Ret (pgtable, s).

Definition ioremap (phys_addr size : Z) s : res (Z * mmu_state A) :=
  let start := Z.land phys_addr PHYS_PAGE_MASK in
  let end_ := PAGE_ALIGN (u64 (phys_addr + size)) in
  assert! (end_ =? __pa end_);
  let* '(pgtable, s) := if current_pgtable s =? 0 then initial_pgtable s else Ret (current_pgtable s, s) in
  let* s := mmu_set_range_ptes pgtable start start end_ (Z.lor _PAGE_READ _PAGE_WRITE) s in
  Ret (__pa phys_addr, s).

(** ** Looking up *)

(** The loop of [virt_to_pte_phys]: the table of level 0, if there is one. *)
Fixpoint pte_phys_walk (level : nat) (vaddr ptep : Z) s : res (option Z) :=
  match level with
  | O => Ret (Some ptep)
  | S level' =>
      let* e := load (ptep + 8 * pte_index vaddr (Z.of_nat level)) s in
      if e =? 0 then Ret None else
      let* ptep := pteval_to_ptep e in
      pte_phys_walk level' vaddr ptep s
  end.

Definition virt_to_pte_phys (pgtable virt : Z) s : res Z :=
  assert! (pgtable_ok pgtable);
  let* r := pte_phys_walk (NR_LEVELS - 1) virt pgtable s in
  match r with
  | None => Ret 0
  | Some ptep =>
      let* e := load (ptep + 8 * pte_index virt 0) s in
      if e =? 0 then Ret 0 else Ret (Z.lor (pteval_to_phys_addr e) (offset_in_page virt))
  end.

Definition virt_to_phys (address : Z) s : res Z :=
  let pgtable := u64 (Z.shiftl (Z.land (satp s) SATP_PPN) PAGE_SHIFT) in
  if Z.shiftr (satp s) SATP_MODE_SHIFT =? 0 then Ret (__pa address) else
  virt_to_pte_phys pgtable address s.

Definition phys_to_virt (address : Z) s : res Z :=
  assert! (address =? __pa address);
  let* p := virt_to_phys (__va address) s in
  assert! (p =? address);
  Ret (__va address).
End mmu.
