(* ===== verification/RiscvMmuProps.v ===== *)
(** * lib/riscv/mmu.c: page tables and the translation they define

    [sv39_walk] is the page walk of the processor, as the privileged
    architecture defines it for Sv39; the lemmas relate the functions of mmu.c
    to it. *)

From S2P Require Import Prelude.
From S2P Require Import Bitops.
From S2P Require Import AllocPage.
From S2P Require Import Memregions.
From S2P Require Import PageMem.
From S2P Require Import RiscvMmu.

(** ** The page walk of the processor *)

Definition va_index (va : Z) (n : nat) : Z := va / 2 ^ (12 + 9 * Z.of_nat n) mod 512.
Definition ppn (e : Z) : Z := e / 2 ^ 10 mod 2 ^ 44.

(** Level and value of the leaf entry: valid, and readable or executable; an
    entry that is writable and not readable is reserved. *)
Fixpoint sv39_walk (n : nat) (m : pmem) (p va : Z) : option (nat * Z) :=
  e ← m !! (p + 8 * va_index va n);
  if negb (Z.testbit e 0) || (negb (Z.testbit e 1) && Z.testbit e 2) then None else
  if Z.testbit e 1 || Z.testbit e 3 then Some (n, e) else
  match n with O => None | S n' => sv39_walk n' m (ppn e * 2 ^ 12) va end.

(** Bits 63 to 39 of an address repeat bit 38. *)
Definition canonical (va : Z) : bool := (va <? 2 ^ 38) || (2 ^ 64 - 2 ^ 38 <=? va).

(** Physical address and flags behind [va]. *)
Definition sv39 (m : pmem) (root va : Z) : option (Z * Z) :=
  if negb (canonical va) then None else
  '(n, e) ← sv39_walk 2 m root va;
  let size := 2 ^ (12 + 9 * Z.of_nat n) in
  let pa := ppn e * 2 ^ 12 in
  if pa mod size =? 0 then Some (pa + va mod size, e mod 2 ^ 10) else None.

(** ** Indices and entries *)

Lemma pte_index_eq va (n : nat) : pte_index va (Z.of_nat n) = va_index va n.
Proof.
  unfold pte_index, va_index, PGDIR_MASK, PGDIR_BITS, PAGE_SHIFT. change 0x1FF with (Z.ones 9).
  rewrite Z.land_ones, Z.shiftr_div_pow2 by lia. do 3 f_equal. lia.
Qed.
Lemma va_index_range va n : 0 ≤ va_index va n < 512.
Proof. apply Z.mod_pos_bound. lia. Qed.

(** The part of the address above the entries of level [n]. *)
Definition va_page (va : Z) (n : nat) : Z := va mod 2 ^ 39 / 2 ^ (12 + 9 * Z.of_nat n).

Lemma va_page_step va n : (n ≤ 2)%nat → va_page va n = va_page va (S n) * 512 + va_index va n.
Proof.
  intros Hn. unfold va_page, va_index. assert (n = 0 ∨ n = 1 ∨ n = 2)%nat as [->|[->| ->]] by lia;
    cbn -[Z.div Z.modulo]; Z.div_mod_to_equations; lia.
Qed.
Lemma va_page_top va : va_page va 3 = 0.
Proof. unfold va_page. apply Z.div_small. apply Z.mod_pos_bound. lia. Qed.
Lemma va_page_up va n : (n ≤ 2)%nat → va_page va n / 512 = va_page va (S n) ∧ va_page va n mod 512 = va_index va n.
Proof. intros Hn. rewrite va_page_step by done. pose proof (va_index_range va n). Z.div_mod_to_equations. lia. Qed.

Lemma pteval_phys e : 0 ≤ e → pteval_to_phys_addr e = ppn e * 2 ^ 12.
Proof.
  intros He. unfold pteval_to_phys_addr, ppn, PPN_SHIFT, PAGE_SHIFT.
  assert (E : Z.shiftr (Z.land e PTE_PPN) 10 = e / 2 ^ 10 mod 2 ^ 44).
  { rewrite Z.shiftr_land. change (Z.shiftr PTE_PPN 10) with (Z.ones 44). by rewrite Z.land_ones, Z.shiftr_div_pow2 by lia. }
  rewrite E, Z.shiftl_mul_pow2 by lia. apply u64_small. pose proof (Z.mod_pos_bound (e / 2 ^ 10) (2 ^ 44)). lia.
Qed.

Lemma pteval_ptep e : 0 ≤ e → pteval_to_ptep e = Ret (ppn e * 2 ^ 12).
Proof.
  intros He. unfold pteval_to_ptep, __pa. rewrite pteval_phys by done. unfold ppn.
  rewrite u64_small by (pose proof (Z.mod_pos_bound (e / 2 ^ 10) (2 ^ 44)); lia). by rewrite Z.eqb_refl.
Qed.

(** A number with flags below it. *)
Lemma lor_low k x f : 0 ≤ k → 0 ≤ f < 2 ^ k → Z.lor (x * 2 ^ k) f = x * 2 ^ k + f.
Proof.
  intros Hk Hf. assert (Hhi : ∀ n, k ≤ n → Z.testbit f n = false).
  { intros n Hn. rewrite <- (Z.mod_small f (2 ^ k)) by done. by apply Z.mod_pow2_bits_high. }
  symmetry. rewrite Z.add_nocarry_lxor; apply Z.bits_inj'; intros n Hn;
    rewrite ?Z.lxor_spec, ?Z.lor_spec, ?Z.land_spec, ?Z.bits_0; destruct (Z.lt_ge_cases n k) as [H|H].
  - by rewrite Z.mul_pow2_bits_low by lia.
  - by rewrite Hhi, xorb_false_r, orb_false_r by done.
  - by rewrite Z.mul_pow2_bits_low by lia.
  - by rewrite Hhi, andb_false_r by done.
Qed.
Lemma lor_flags x f : 0 ≤ f < 2 ^ 10 → Z.lor (x * 2 ^ 10) f = x * 2 ^ 10 + f.
Proof. by apply lor_low. Qed.

(** The entry that maps the page [x] with the flags [f]. *)
Definition entry (x f : Z) : Z := x * 2 ^ 10 + f.

Lemma entry_ppn x f : 0 ≤ x < 2 ^ 44 → 0 ≤ f < 2 ^ 10 → ppn (entry x f) = x.
Proof. intros Hx Hf. unfold ppn, entry. Z.div_mod_to_equations. lia. Qed.
Lemma entry_bit x f k : 0 ≤ f < 2 ^ 10 → 0 ≤ k < 10 → Z.testbit (entry x f) k = Z.testbit f k.
Proof. intros Hf Hk. unfold entry. rewrite <- lor_flags by done. rewrite Z.lor_spec. by rewrite Z.mul_pow2_bits_low by lia. Qed.
Lemma entry_range x f : 0 ≤ x < 2 ^ 44 → 0 ≤ f < 2 ^ 10 → 0 ≤ entry x f < 2 ^ 64.
Proof. unfold entry. lia. Qed.

(** The entry that points to the table [q]. *)
Definition table_pte (q : Z) : Z := entry (q / 2 ^ 12) 1.

Lemma table_pte_eq q : page_addr q → Z.lor (ptep_to_pteval q) _PAGE_PRESENT = table_pte q.
Proof.
  intros [Ha Hr]. unfold ptep_to_pteval, PAGE_SHIFT, PPN_SHIFT. rewrite Z.shiftr_div_pow2, Z.shiftl_mul_pow2 by lia.
  rewrite u64_small by (Z.div_mod_to_equations; lia). change _PAGE_PRESENT with 1. by rewrite lor_flags by lia.
Qed.
Lemma table_pte_ok q : page_addr q → 0 ≤ table_pte q < 2 ^ 64 ∧ table_pte q ≠ 0 ∧ ppn (table_pte q) * 2 ^ 12 = q.
Proof.
  intros [Ha Hr]. change PAGE_SIZE with (2 ^ 12) in Ha. assert (Hx : 0 ≤ q / 2 ^ 12 < 2 ^ 44) by (Z.div_mod_to_equations; lia).
  split; [by apply entry_range|]. split; [unfold table_pte, entry; lia|]. unfold table_pte. rewrite entry_ppn by lia.
  Z.div_mod_to_equations. lia.
Qed.

(** Flags of a leaf. *)
Definition leaf_flags (f : Z) : Prop :=
  0 ≤ f < 2 ^ 10 ∧ Z.testbit f 0 = true ∧ Z.testbit f 1 || Z.testbit f 3 = true ∧ (Z.testbit f 2 = true → Z.testbit f 1 = true).
Definition leaf_ok (e : Z) : Prop := 0 ≤ e < 2 ^ 64 ∧ e ≠ 0 ∧
  Z.testbit e 0 = true ∧ Z.testbit e 1 || Z.testbit e 3 = true ∧ (Z.testbit e 2 = true → Z.testbit e 1 = true).

Lemma entry_leaf x f : 0 ≤ x < 2 ^ 44 → leaf_flags f → leaf_ok (entry x f).
Proof.
  intros Hx (Hf & H0 & H1 & H2). split; [by apply entry_range|].
  split; [intros E; rewrite <- (entry_bit x f 0), E in H0 by (done || lia); done|]. by rewrite !entry_bit by (done || lia).
Qed.

(** ** Well-formed tables *)

(** [tabs] names the pages used as tables, with their level and the upper part
    of the addresses they translate.  Every table but the root is linked to
    the entry for these addresses. *)
Record pt_ok (root : Z) (tabs : gmap Z (nat * Z)) (m : pmem) : Prop := {
  po_root p v : tabs !! p = Some (2%nat, v) ↔ p = root ∧ v = 0;
  po_page p l v : tabs !! p = Some (l, v) → (l ≤ 2)%nat ∧ page_addr p ∧ 0 < p;
  po_entry p l v i : tabs !! p = Some (l, v) → 0 ≤ i < 512 → ∃ e, m !! (p + 8 * i) = Some e ∧
    (e = 0 ∨ match l with O => leaf_ok e | S l' => ∃ q, e = table_pte q ∧ tabs !! q = Some (l', v * 512 + i) end);
  po_link q l v : tabs !! q = Some (l, v) → (l < 2)%nat → ∃ p,
    tabs !! p = Some (S l, v / 512) ∧ m !! (p + 8 * (v mod 512)) = Some (table_pte q);
}.

Lemma rv_walk_zero n m p va : m !! (p + 8 * va_index va n) = Some 0 → sv39_walk n m p va = None.
Proof. intros H. destruct n; cbn [sv39_walk]; by rewrite H. Qed.

Section tables.
Context (root : Z) (tabs : gmap Z (nat * Z)) (m : pmem) (Hok : pt_ok root tabs m).

Lemma rv_root va : tabs !! root = Some (2%nat, va_page va 3).
Proof. rewrite va_page_top. by apply (po_root _ _ _ Hok). Qed.

(** One step of the walk. *)
Lemma rv_step n p va : tabs !! p = Some (n, va_page va (S n)) →
  ∃ e, m !! (p + 8 * va_index va n) = Some e ∧
    ((e = 0 ∧ sv39_walk n m p va = None) ∨
     match n with
     | O => leaf_ok e ∧ sv39_walk 0 m p va = Some (0%nat, e)
     | S n' => ∃ q, e = table_pte q ∧ page_addr q ∧ tabs !! q = Some (n', va_page va n) ∧ sv39_walk n m p va = sv39_walk n' m q va
     end).
Proof.
  intros Hp. destruct (po_page _ _ _ Hok _ _ _ Hp) as (Hn & _).
  destruct (po_entry _ _ _ Hok _ _ _ (va_index va n) Hp (va_index_range va n)) as (e & He & H). exists e. split; [done|].
  destruct H as [->|H]; [left; split; [done|by apply rv_walk_zero]|]. right. destruct n as [|n'].
  - split; [done|]. destruct H as (_ & _ & H0 & H1 & H2). cbn [sv39_walk]. rewrite He. cbn [mbind option_bind]. rewrite H0, H1.
    destruct (Z.testbit e 1); [done|]. destruct (Z.testbit e 2); [|done]. by specialize (H2 eq_refl).
  - destruct H as (q & -> & Hq). exists q. pose proof (po_page _ _ _ Hok _ _ _ Hq) as (_ & Hqa & _). split; [done|]. split; [done|].
    split; [by rewrite va_page_step|]. cbn [sv39_walk]. rewrite He. cbn [mbind option_bind].
    destruct (table_pte_ok q Hqa) as (_ & _ & E). rewrite E. unfold table_pte. by rewrite !entry_bit by lia.
Qed.

(** The table above. *)
Lemma rv_parent q l va : tabs !! q = Some (l, va_page va (S l)) → (l < 2)%nat → ∃ p,
  tabs !! p = Some (S l, va_page va (S (S l))) ∧ m !! (p + 8 * va_index va (S l)) = Some (table_pte q) ∧
  sv39_walk (S l) m p va = sv39_walk l m q va.
Proof.
  intros Hq Hl. destruct (po_link _ _ _ Hok _ _ _ Hq Hl) as (p & Hp & He).
  destruct (va_page_up va (S l) ltac:(lia)) as [E1 E2]. rewrite E1 in Hp. rewrite E2 in He. exists p. split; [done|]. split; [done|].
  destruct (rv_step (S l) p va Hp) as (e & He' & [(-> & _)|(q' & -> & Hqa & _ & Hw)]); rewrite He in He'.
  - injection He' as E. by destruct (table_pte_ok q) as (_ & ? & _); [by eapply po_page|].
  - injection He' as E. assert (q = q') as ->; [|done].
    destruct (table_pte_ok q) as (_ & _ & <-); [by eapply po_page|]. destruct (table_pte_ok q' Hqa) as (_ & _ & <-). by rewrite E.
Qed.

(** A table for the address is on its way. *)
Lemma rv_reach q l va : tabs !! q = Some (l, va_page va (S l)) → sv39_walk 2 m root va = sv39_walk l m q va.
Proof.
  intros Hq. destruct (po_page _ _ _ Hok _ _ _ Hq) as (Hl & _).
  assert (l = 2 ∨ l = 1 ∨ l = 0)%nat as [->|[->| ->]] by lia.
  - apply (po_root _ _ _ Hok) in Hq as [-> _]. done.
  - destruct (rv_parent q 1 va Hq ltac:(lia)) as (p & Hp & _ & <-). by apply (po_root _ _ _ Hok) in Hp as [-> _].
  - destruct (rv_parent q 0 va Hq ltac:(lia)) as (p & Hp & _ & <-).
    destruct (rv_parent p 1 va Hp ltac:(lia)) as (p' & Hp' & _ & <-). by apply (po_root _ _ _ Hok) in Hp' as [-> _].
Qed.
End tables.

(** Walks that do not use the entry [i] of the table [p] stay. *)
Lemma rv_walk_other root tabs m m' p l v i n q va :
  pt_ok root tabs m → tabs !! p = Some (l, v) →
  (∀ p' x j, tabs !! p' = Some x → 0 ≤ j < 512 → (p', j) ≠ (p, i) → m' !! (p' + 8 * j) = m !! (p' + 8 * j)) →
  tabs !! q = Some (n, va_page va (S n)) → va_page va l ≠ v * 512 + i →
  sv39_walk n m' q va = sv39_walk n m q va.
Proof.
  intros Hok Hp Hm Hq Hva.
  assert (Hs : ∀ n q, tabs !! q = Some (n, va_page va (S n)) → m' !! (q + 8 * va_index va n) = m !! (q + 8 * va_index va n)).
  { intros k q' Hq'. apply (Hm q' _ _ Hq'); [apply va_index_range|]. intros [= -> E]. rewrite Hq' in Hp. injection Hp as <- <-.
    destruct (po_page _ _ _ Hok _ _ _ Hq') as (Hk & _). apply Hva. by rewrite va_page_step, E by lia. }
  revert q Hq. induction n as [|n IH]; intros q Hq; pose proof (Hs _ q Hq) as Es.
  - cbn [sv39_walk]. by rewrite Es.
  - destruct (rv_step root tabs m Hok (S n) q va Hq) as (e & He & H).
    cbn [sv39_walk]. rewrite Es, He. cbn [mbind option_bind].
    destruct H as [(-> & _)|(q' & -> & Hqa' & Hq' & _)]; [done|].
    destruct (table_pte_ok q' Hqa') as (_ & _ & ->). unfold table_pte. rewrite !entry_bit by lia. cbn. by apply IH.
Qed.

(** ** Adding a table *)

Section link.
Context (root : Z) (tabs : gmap Z (nat * Z)) (m m' : pmem) (Hok : pt_ok root tabs m).
Context (p : Z) (l : nat) (v i q : Z).
Context (Hp : tabs !! p = Some (S l, v)) (Hi : 0 ≤ i < 512) (He : m !! (p + 8 * i) = Some 0).
Context (Hq : page_addr q) (Hq0 : 0 < q) (Hfresh : tabs !! q = None) (Hm : filled q (λ _, 0) m m').

Definition linked : pmem := <[p + 8 * i := table_pte q]> m'.
Definition linked_tabs : gmap Z (nat * Z) := <[q := (l, v * 512 + i)]> tabs.

Lemma rv_tab_not_q p' x : tabs !! p' = Some x → p' ≠ q.
Proof. intros H ->. by rewrite H in Hfresh. Qed.

Lemma rv_linked_new j : 0 ≤ j < 512 → linked !! (q + 8 * j) = Some 0.
Proof.
  intros Hj. unfold linked. rewrite lookup_insert_ne; [by apply Hm|].
  intros E. apply slot_inj in E as [E _]; [by apply (rv_tab_not_q p (S l, v))|by eapply po_page|done..].
Qed.

Lemma rv_linked_old p' x j : tabs !! p' = Some x → 0 ≤ j < 512 → (p', j) ≠ (p, i) →
  linked !! (p' + 8 * j) = m !! (p' + 8 * j).
Proof.
  destruct x as [l' v']. intros Hp' Hj Hne. pose proof (po_page _ _ _ Hok _ _ _ Hp') as (_ & Hpa & _).
  pose proof (po_page _ _ _ Hok _ _ _ Hp) as (_ & Hpa' & _). unfold linked. rewrite lookup_insert_ne.
  - apply (filled_other q (λ _, 0)); try done. by apply (rv_tab_not_q p' (l', v')).
  - intros E. apply slot_inj in E as [-> ->]; done.
Qed.

Lemma rv_linked_ok : pt_ok root linked_tabs linked.
Proof.
  destruct (po_page _ _ _ Hok _ _ _ Hp) as (Hl & _ & _). constructor; unfold linked_tabs.
  - intros p' v'. rewrite lookup_insert_Some, (po_root _ _ _ Hok). split; [intros [[-> [= E _]]|[_ ?]]; [lia|done]|].
    intros [-> ->]. right. split; [|done]. intros ->. assert (H : tabs !! root = Some (2%nat, 0)) by (by apply (po_root _ _ _ Hok)). by rewrite H in Hfresh.
  - intros p' l' v' [[<- [= <- <-]]|[_ H]]%lookup_insert_Some; [split; [lia|done]|by eapply po_page].
  - intros p' l' v' j [[<- [= <- <-]]|[_ H]]%lookup_insert_Some Hj.
    + exists 0. split; [by apply rv_linked_new|by left].
    + destruct (decide ((p', j) = (p, i))) as [[= -> ->]|Hne].
      * exists (table_pte q). split; [apply lookup_insert_eq|]. right. rewrite Hp in H. injection H as <- <-.
        exists q. split; [done|]. by rewrite lookup_insert_eq.
      * rewrite (rv_linked_old _ _ _ H) by done. destruct (po_entry _ _ _ Hok _ _ _ j H Hj) as (e & E & [->|He']); exists e || exists 0; (split; [done|]); [by left|].
        right. destruct l' as [|l']; [done|]. destruct He' as (q' & -> & Hq'). exists q'. split; [done|].
        rewrite lookup_insert_ne; [done|]. intros <-. by rewrite Hq' in Hfresh.
  - intros q' l' v' [[<- [= <- <-]]|[_ H]]%lookup_insert_Some Hl'.
    + exists p. replace ((v * 512 + i) / 512) with v by (Z.div_mod_to_equations; lia).
      replace ((v * 512 + i) mod 512) with i by (Z.div_mod_to_equations; lia).
      rewrite lookup_insert_ne by (intros <-; by rewrite Hp in Hfresh). split; [done|apply lookup_insert_eq].
    + destruct (po_link _ _ _ Hok _ _ _ H Hl') as (p' & Hp' & He'). exists p'.
      rewrite lookup_insert_ne by (intros <-; by rewrite Hp' in Hfresh). split; [done|].
      rewrite (rv_linked_old _ _ _ Hp'); [done|Z.div_mod_to_equations; lia|]. intros [= -> E]. rewrite E, He in He'. injection He' as E'.
      by destruct (table_pte_ok q') as (_ & ? & _); [by eapply po_page|].
Qed.

(** No address is mapped differently. *)
Lemma rv_linked_walk va : sv39_walk 2 linked root va = sv39_walk 2 m root va.
Proof.
  pose proof rv_linked_ok as Hok'. destruct (po_page _ _ _ Hok _ _ _ Hp) as (Hl & _ & _).
  destruct (decide (va_page va (S l) = v * 512 + i)) as [E|E].
  - destruct (va_page_up va (S l) ltac:(lia)) as [E1 E2]. rewrite E in E1, E2.
    replace ((v * 512 + i) / 512) with v in E1 by (Z.div_mod_to_equations; lia).
    replace ((v * 512 + i) mod 512) with i in E2 by (Z.div_mod_to_equations; lia).
    pose proof Hp as Hp'. rewrite E1 in Hp'. rewrite (rv_reach root tabs m Hok p (S l) va Hp').
    destruct (rv_step root tabs m Hok (S l) p va Hp') as (e & He' & [(_ & ->)|(q' & -> & Hqa & _)]).
    + rewrite (rv_reach root linked_tabs linked Hok' q l va) by (unfold linked_tabs; rewrite lookup_insert_eq; by rewrite E).
      apply rv_walk_zero, rv_linked_new, va_index_range.
    + rewrite <- E2, He in He'. injection He' as E'. by destruct (table_pte_ok q' Hqa) as (_ & ? & _).
  - apply (rv_walk_other root tabs m linked p (S l) v i 2 root va Hok Hp); [apply rv_linked_old|by apply (rv_root root tabs m)|done].
Qed.
End link.

(** ** Writing a leaf *)

Section write.
Context (root : Z) (tabs : gmap Z (nat * Z)) (m : pmem) (Hok : pt_ok root tabs m).
Context (q v i e : Z) (Hq : tabs !! q = Some (0%nat, v)) (Hi : 0 ≤ i < 512) (He : leaf_ok e).

Lemma rv_write_other p x j : tabs !! p = Some x → 0 ≤ j < 512 → (p, j) ≠ (q, i) →
  <[q + 8 * i := e]> m !! (p + 8 * j) = m !! (p + 8 * j).
Proof.
  destruct x as [l' v']. intros Hp Hj Hne. apply lookup_insert_ne. intros E.
  destruct (po_page _ _ _ Hok _ _ _ Hp) as (_ & ? & _). destruct (po_page _ _ _ Hok _ _ _ Hq) as (_ & ? & _).
  by apply slot_inj in E as [-> ->].
Qed.

Lemma rv_write_ok : pt_ok root tabs (<[q + 8 * i := e]> m).
Proof.
  constructor; try apply Hok.
  - intros p l v' j Hp Hj. destruct (decide ((p, j) = (q, i))) as [[= -> ->]|Hne].
    + exists e. split; [by rewrite lookup_insert_eq|]. right. rewrite Hq in Hp. by injection Hp as <- <-.
    + rewrite (rv_write_other p (l, v')) by done. by eapply po_entry.
  - intros q' l v' Hq' Hl. destruct (po_link _ _ _ Hok _ _ _ Hq' Hl) as (p & Hp & He'). exists p. split; [done|].
    rewrite (rv_write_other p (S l, v' / 512)); [done|done|Z.div_mod_to_equations; lia|]. intros [= -> _]. by rewrite Hq in Hp.
Qed.

Lemma rv_write_walk va : sv39_walk 2 (<[q + 8 * i := e]> m) root va =
  if decide (va_page va 0 = v * 512 + i) then Some (0%nat, e) else sv39_walk 2 m root va.
Proof.
  case_decide as E.
  - destruct (va_page_up va 0 ltac:(lia)) as [E1 E2]. rewrite E in E1, E2.
    replace ((v * 512 + i) / 512) with v in E1 by (Z.div_mod_to_equations; lia).
    replace ((v * 512 + i) mod 512) with i in E2 by (Z.div_mod_to_equations; lia).
    pose proof Hq as Hq'. rewrite E1 in Hq'. rewrite (rv_reach root tabs _ rv_write_ok q 0 va Hq').
    destruct (rv_step root tabs _ rv_write_ok 0 q va Hq') as (e' & He' & H). rewrite <- E2, lookup_insert_eq in He'. injection He' as <-.
    destruct H as [(-> & _)|(_ & ->)]; [|done]. by destruct He as (_ & ? & _).
  - apply (rv_walk_other root tabs m _ q 0 v i 2 root va Hok Hq); [apply rv_write_other|by apply (rv_root root tabs m)|done].
Qed.
End write.

(** ** The invariant *)

Section mmu.
Context {A : Type} (ops : page_ops A) (I : A → gset Z → Prop) (full : A → Prop) (ram : Z → Prop).
Context {Hlaws : page_laws ops I full ram}.
Implicit Types s : mmu_state A.

Record mmu_inv (root : Z) (tabs : gmap Z (nat * Z)) (P : gset Z) s : Prop := {
  mi_tables : pt_ok root tabs (mm_mem s);
  mi_pages : I (mm_pages s) P;
  mi_owned p : is_Some (tabs !! p) → p ∈ P;
  mi_ram p : ram p → words (mm_mem s) p;
}.

(** Tables are added, at most [n]; nothing changes but tables. *)
Record grows (n : nat) (tabs : gmap Z (nat * Z)) (P : gset Z) s (tabs' : gmap Z (nat * Z)) (P' : gset Z) s' : Prop := {
  gr_tabs : tabs ⊆ tabs';
  gr_pages : P ⊆ P';
  gr_new p : p ∈ P' → p ∈ P ∨ is_Some (tabs' !! p);
  gr_fresh p : is_Some (tabs' !! p) → is_Some (tabs !! p) ∨ (p ∉ P);
  gr_frame a : (∀ p i, is_Some (tabs' !! p) → 0 ≤ i < 512 → a ≠ p + 8 * i) → mm_mem s' !! a = mm_mem s !! a;
  gr_rest : s' = set_mem (mm_mem s') (set_pages (mm_pages s') s);
  gr_chain : chain ops n (mm_pages s) (mm_pages s');
}.

Lemma rv_grows_refl n tabs P s : grows n tabs P s tabs P s.
Proof. constructor; auto; [by destruct s|constructor]. Qed.

Lemma rv_tabs_mono (tabs tabs' : gmap Z (nat * Z)) p : tabs ⊆ tabs' → is_Some (tabs !! p) → is_Some (tabs' !! p).
Proof. intros H [x Hx]. exists x. by apply (lookup_weaken _ _ _ _ Hx). Qed.

Lemma rv_grows_trans n k tabs P s tabs' P' s' tabs'' P'' s'' :
  grows n tabs P s tabs' P' s' → grows k tabs' P' s' tabs'' P'' s'' → grows (n + k) tabs P s tabs'' P'' s''.
Proof.
  clear Hlaws I full ram. intros [A1 A2 A3 A8 A4 A6 A7] [B1 B2 B3 B8 B4 B6 B7]. constructor.
  - by etrans.
  - by etrans.
  - intros p [H|H]%B3; [|by right]. apply A3 in H as [|H]; [by left|right; by eapply rv_tabs_mono].
  - intros p [H|H]%B8; [by apply A8|right; set_solver].
  - intros a Ha. rewrite B4 by done. apply A4. intros p i Hp. apply Ha. by eapply rv_tabs_mono.
  - rewrite B6, A6. by destruct s.
  - by eapply chain_trans.
Qed.

Lemma rv_grows_le n k tabs P s tabs' P' s' : grows n tabs P s tabs' P' s' → (n ≤ k)%nat → grows k tabs P s tabs' P' s'.
Proof. intros [] Hle. constructor; try done. by eapply chain_weaken. Qed.

(** ** Adding the tables of an address *)

(** A cleared page that is not in use, or there is none. *)
Lemma alloc_zeroed_spec (tabs : gmap Z (nat * Z)) P s :
  I (mm_pages s) P → (∀ p, is_Some (tabs !! p) → p ∈ P) → (∀ p, ram p → words (mm_mem s) p) →
  (∀ n, out_of_pages ops full (S n) (mm_pages s)) ∨
  ∃ q a m', alloc_zeroed ops s = Ret (q, set_mem m' (set_pages a s)) ∧ chain ops 1 (mm_pages s) a ∧
    tabs !! q = None ∧ (q ∉ P) ∧ page_addr q ∧ 0 < q ∧ I a ({[q]} ∪ P) ∧ filled q (λ _, 0) (mm_mem s) m'.
Proof.
  intros HI Hown Hram. unfold alloc_zeroed. pose proof (law_alloc_page _ _ HI) as H.
  apply post_inv in H as ([q a] & E & H). rewrite E. cbn [bind].
  destruct H as [[-> Hfull]|(Hq & Hr & Hpa & Hpos & HI')].
  { left. intros n. exists 0%nat, (mm_pages s), a. split_and!; [lia|constructor|done|done]. }
  right. rewrite (proj2 (Z.eqb_neq q 0)) by lia. cbn [mm_mem set_pages].
  destruct (zero_page_spec q (mm_mem s) (Hram q Hr)) as (m' & -> & Hf). cbn [bind].
  exists q, a, m'. split; [done|]. split; [by eapply chain_once|]. split; [|done].
  apply eq_None_not_Some. by intros ?%Hown.
Qed.

(** A new table below the unused entry [i] of the table [p]. *)
Lemma rv_link_spec root tabs P s p l v i q a m' :
  mmu_inv root tabs P s → tabs !! p = Some (S l, v) → 0 ≤ i < 512 → mm_mem s !! (p + 8 * i) = Some 0 →
  tabs !! q = None → q ∉ P → page_addr q → 0 < q → chain ops 1 (mm_pages s) a → I a ({[q]} ∪ P) →
  filled q (λ _, 0) (mm_mem s) m' →
  let s' := set_mem (<[p + 8 * i := table_pte q]> m') (set_pages a s) in
  let tabs' := <[q := (l, v * 512 + i)]> tabs in
  mmu_inv root tabs' ({[q]} ∪ P) s' ∧ grows 1 tabs P s tabs' ({[q]} ∪ P) s' ∧
  ∀ va, sv39_walk 2 (mm_mem s') root va = sv39_walk 2 (mm_mem s) root va.
Proof.
  intros Hinv Hp Hi He Hq HqP Hpa Hpos Hch HI Hf s' tabs'. subst tabs'.
  pose proof (mi_tables _ _ _ _ Hinv) as Hok. split; [|split].
  - constructor; cbn.
    + by apply (rv_linked_ok root tabs (mm_mem s) m' Hok p l v i q).
    + done.
    + intros p' [x [[<- _]|[_ H]]%lookup_insert_Some]; [set_solver|]. apply elem_of_union_r. apply (mi_owned _ _ _ _ Hinv). eauto.
    + intros p' Hr. apply words_insert. eapply filled_words; [done|]. by apply Hinv.
  - constructor; cbn.
    + by apply insert_subseteq.
    + set_solver.
    + intros p' [->%elem_of_singleton|]%elem_of_union; [right; rewrite lookup_insert_eq; eauto|by left].
    + intros p' [x [[<- _]|[_ H]]%lookup_insert_Some]; [by right|left; eauto].
    + intros b Hb. rewrite lookup_insert_ne.
      * apply Hf. intros j Hj. apply Hb; [|done]. rewrite lookup_insert_eq. eauto.
      * intros E. apply (Hb p i); [|done..]. exists (S l, v). rewrite lookup_insert_ne; [done|].
        intros ->. by rewrite Hp in Hq.
    + by destruct s.
    + done.
  - intros va. by apply (rv_linked_walk root tabs (mm_mem s) m' Hok p l v i q).
Qed.

(** How many tables have to be added for [va]. *)
Fixpoint missing (n : nat) (m : pmem) (p va : Z) : nat :=
  match n with
  | O => O
  | S n' =>
      match m !! (p + 8 * va_index va n) with
      | Some e => if e =? 0 then n else missing n' m (ppn e * 2 ^ 12) va
      | None => O
      end
  end.

Lemma rv_missing_le n m p va : (missing n m p va ≤ n)%nat.
Proof.
  revert p. induction n as [|n IH]; intros p; cbn [missing]; [done|]. destruct (m !! _) as [e|]; [|lia].
  destruct (e =? 0); [done|]. specialize (IH (ppn e * 2 ^ 12)). lia.
Qed.

Lemma get_pte_walk_spec n va p root tabs P s :
  mmu_inv root tabs P s → tabs !! p = Some (n, va_page va (S n)) →
  let k := missing n (mm_mem s) p va in
  unless_full ops full k (mm_pages s) (get_pte_walk ops n va p s) (λ '(q, s'), ∃ tabs' P',
    mmu_inv root tabs' P' s' ∧ grows k tabs P s tabs' P' s' ∧ tabs' !! q = Some (0%nat, va_page va 1) ∧
    ∀ va', sv39_walk 2 (mm_mem s') root va' = sv39_walk 2 (mm_mem s) root va').
Proof.
  revert p tabs P s. induction n as [|n IH]; intros p tabs P s Hinv Hp k; subst k.
  { right. exists tabs, P. split_and!; try done. apply rv_grows_refl. }
  cbn [get_pte_walk missing]. rewrite pte_index_eq. set (i := va_index va (S n)). pose proof (va_index_range va (S n) : 0 ≤ i < 512) as Hi.
  pose proof (mi_tables _ _ _ _ Hinv) as Hok. destruct (po_page _ _ _ Hok _ _ _ Hp) as (Hn & Hpp & _).
  destruct (rv_step root tabs _ Hok (S n) p va Hp) as (e & He & Hcase). fold i in He. unfold load, rd. rewrite He. cbn [bind].
  destruct Hcase as [(-> & _)|(q & -> & Hqa & Hq & _)].
  - rewrite Z.eqb_refl. destruct (alloc_zeroed_spec tabs P s) as [Hout|(q & a & m' & -> & Hch & Hq & HqP & Hpa & Hpos & HI & Hf)];
      [apply Hinv|apply Hinv|apply Hinv|left; apply Hout|]. cbn [bind].
    assert (Em' : m' !! (p + 8 * i) = Some 0).
    { rewrite (filled_other q (λ _, 0) (mm_mem s)); try done. intros ->. by rewrite Hp in Hq. }
    unfold store, wr. cbn [mm_mem set_mem]. rewrite Em'. cbn [bind mm_mem set_mem]. rewrite lookup_insert_eq. cbn [bind].
    rewrite table_pte_eq by done. destruct (table_pte_ok q Hpa) as ([Hr _] & _ & Eq). rewrite pteval_ptep, Eq by done. cbn [bind].
    destruct (rv_link_spec root tabs P s p n (va_page va (S (S n))) i q a m') as (Hinv1 & Hg1 & Hw1); try done.
    set (s1 := set_mem (<[p + 8 * i := table_pte q]> m') (set_pages a s)) in *.
    change (set_mem _ (set_mem m' (set_pages a s))) with s1.
    assert (Hq1 : <[q := (n, va_page va (S (S n)) * 512 + i)]> tabs !! q = Some (n, va_page va (S n))).
    { rewrite lookup_insert_eq. by rewrite (va_page_step va (S n)) by lia. }
    pose proof (rv_missing_le n (mm_mem s1) q va) as Hms.
    eapply (unless_later _ _ (missing n (mm_mem s1) q va) 1); [apply Hg1|lia|].
    eapply unless_mono; [apply (IH q _ _ s1 Hinv1 Hq1)|].
    intros [q' s'] (tabs' & P' & Hinv' & Hg & Ht & Hw). exists tabs', P'. split_and!; try done.
    + eapply rv_grows_le; [by eapply rv_grows_trans|lia].
    + intros va'. by rewrite Hw, Hw1.
  - destruct (table_pte_ok q Hqa) as ([Hr _] & Hnz & Eq). rewrite (proj2 (Z.eqb_neq (table_pte q) 0) Hnz). cbn [bind].
    rewrite He. cbn [bind]. rewrite pteval_ptep, Eq by done. cbn [bind]. by apply (IH q tabs P s Hinv).
Qed.

Lemma pgtable_ok_page root : page_addr root → 0 < root → pgtable_ok root = true.
Proof.
  intros [Ha _] Hpos. unfold pgtable_ok. rewrite (proj2 (Z.eqb_neq root 0)) by lia. cbn [negb andb].
  change (u64 (Z.lnot PAGE_MASK)) with (Z.ones 12). rewrite Z.land_ones by lia. change (2 ^ 12) with PAGE_SIZE. by rewrite Ha.
Qed.

(** ** Installing a page *)

(** Protections that make a leaf, and the flags that are stored for them. *)
Definition prot_ok (prot : Z) : Prop :=
  0 ≤ prot < 2 ^ 10 ∧ Z.testbit prot 1 || Z.testbit prot 3 = true ∧ (Z.testbit prot 2 = true → Z.testbit prot 1 = true).
Definition page_flags (prot : Z) : Z := Z.lor (Z.lor (Z.lor prot _PAGE_PRESENT) _PAGE_ACCESSED) _PAGE_DIRTY.

Lemma page_flags_leaf prot : prot_ok prot → leaf_flags (page_flags prot).
Proof.
  intros (Hr & H1 & H2). split; [|split; [|split]]; unfold page_flags.
  - apply lor_bound; [apply lor_bound; [apply lor_bound; [done|]|]|]; by vm_compute.
  - rewrite !Z.lor_spec. change (Z.testbit _PAGE_PRESENT 0) with true. by rewrite orb_true_r.
  - rewrite !Z.lor_spec. cbn. by rewrite !orb_false_r.
  - rewrite !Z.lor_spec. cbn. by rewrite !orb_false_r.
Qed.

Lemma ppn_check x : 0 ≤ x < 2 ^ 44 → Z.land (x * 2 ^ 10) (u64 (Z.lnot PTE_PPN)) = 0.
Proof.
  intros Hx. change (u64 (Z.lnot PTE_PPN)) with (Z.lor (2 ^ 64 - 2 ^ 54) (Z.ones 10)).
  rewrite Z.land_lor_distr_r, Z.land_ones, Z.mod_mul by lia. rewrite land_high_ones by lia. rewrite Z.mod_small by lia. by rewrite Z.sub_diag.
Qed.

Lemma __install_page_spec x va prot root tabs P s :
  mmu_inv root tabs P s → 0 ≤ x < 2 ^ 44 → prot_ok prot →
  let k := missing 2 (mm_mem s) root va in
  unless_full ops full k (mm_pages s) (__install_page ops root (x * 2 ^ 12) va prot s) (λ '(_, s'), ∃ tabs' P' q,
    mmu_inv root tabs' P' s' ∧ grows k tabs P s tabs' P' s' ∧ tabs' !! q = Some (0%nat, va_page va 1) ∧
    ∀ va', sv39_walk 2 (mm_mem s') root va' =
      if decide (va_page va' 0 = va_page va 0) then Some (0%nat, entry x (page_flags prot)) else sv39_walk 2 (mm_mem s) root va').
Proof.
  intros Hinv Hx Hprot k. unfold __install_page, PAGE_SHIFT, PPN_SHIFT.
  rewrite Z.shiftr_div_pow2, Z.div_mul, Z.shiftl_mul_pow2, u64_small by lia. rewrite ppn_check by done. cbn [Z.eqb].
  pose proof (mi_tables _ _ _ _ Hinv) as Hok. pose proof (rv_root root tabs _ Hok va) as Hroot.
  destruct (po_page _ _ _ Hok _ _ _ Hroot) as (_ & Hra & Hrp). unfold get_pte. rewrite pgtable_ok_page by done.
  apply unless_bind, unless_bind. eapply unless_mono; [apply (get_pte_walk_spec 2 va root root tabs P s Hinv Hroot)|].
  intros [q s1] (tabs1 & P1 & Hinv1 & Hg1 & Hq & Hw1). right. cbn [post]. right. change 0 with (Z.of_nat 0) at 1. rewrite pte_index_eq.
  pose proof (mi_tables _ _ _ _ Hinv1) as Hok1. pose proof (va_index_range va 0) as Hi.
  destruct (po_entry _ _ _ Hok1 _ _ _ _ Hq Hi) as (e & He & _). unfold store, wr. rewrite He. cbn [bind post].
  fold (page_flags prot). pose proof (page_flags_leaf prot Hprot) as Hf. rewrite lor_flags by apply Hf. fold (entry x (page_flags prot)).
  pose proof (entry_leaf x _ Hx Hf) as Hlf. exists tabs1, P1, q. split; [|split; [|split; [done|]]].
  - constructor; try apply Hinv1.
    + by apply (rv_write_ok root tabs1 (mm_mem s1) Hok1 q (va_page va 1)).
    + intros p Hp. apply words_insert. by apply Hinv1.
  - subst k. rewrite <- (Nat.add_0_r (missing _ _ _ _)). eapply rv_grows_trans; [exact Hg1|].
    constructor; try done; [by left|by left| |constructor].
    intros a Ha. cbn. apply lookup_insert_ne. intros E. by apply (Ha q (va_index va 0)).
  - intros va'. cbn [mm_mem set_mem]. rewrite (rv_write_walk root tabs1 (mm_mem s1) Hok1 q (va_page va 1)) by done.
    rewrite <- (va_page_step va 0) by lia. by rewrite Hw1.
Qed.

(** ** Ranges *)

(** The [n] pages from [v0] on get the entries [f 0], [f 1], ...; the other
    addresses keep their translation. *)
Definition mapped_range s s' (root v0 n : Z) (f : Z → Z) : Prop :=
  ∀ va, let k := va_page va 0 - v0 in
    sv39_walk 2 (mm_mem s') root va = if decide (0 ≤ k < n) then Some (0%nat, f k) else sv39_walk 2 (mm_mem s) root va.

(** With a table of level [l] for the address, at most [l] are missing. *)
Lemma rv_missing_tab root tabs m q l va :
  pt_ok root tabs m → tabs !! q = Some (l, va_page va (S l)) → (missing 2 m root va ≤ l)%nat.
Proof.
  intros Hok Hq. destruct (po_page _ _ _ Hok _ _ _ Hq) as (Hl & _).
  assert (Hdown : ∀ p q' k, tabs !! q' = Some (k, va_page va (S k)) → m !! (p + 8 * va_index va (S k)) = Some (table_pte q') →
    missing (S k) m p va = missing k m q' va).
  { intros p q' k Hq' He. cbn [missing]. rewrite He. destruct (table_pte_ok q') as (_ & Hnz & ->); [by eapply po_page|].
    by rewrite (proj2 (Z.eqb_neq _ 0) Hnz). }
  assert (l = 2 ∨ l = 1 ∨ l = 0)%nat as [->|[->| ->]] by lia; [apply rv_missing_le|..].
  - destruct (rv_parent root tabs m Hok q 1 va Hq ltac:(lia)) as (p & Hp & He & _). apply (po_root _ _ _ Hok) in Hp as [-> _].
    rewrite (Hdown root q 1%nat Hq He). apply rv_missing_le.
  - destruct (rv_parent root tabs m Hok q 0 va Hq ltac:(lia)) as (p & Hp & He & _).
    destruct (rv_parent root tabs m Hok p 1 va Hp ltac:(lia)) as (p' & Hp' & He' & _). apply (po_root _ _ _ Hok) in Hp' as [-> _].
    rewrite (Hdown root p 1%nat Hp He'), (Hdown p q 0%nat Hq He). done.
Qed.

Lemma rv_missing_next root tabs m q va0 va :
  pt_ok root tabs m → tabs !! q = Some (0%nat, va_page va0 1) → va_page va0 0 ≤ va_page va 0 →
  Z.of_nat (missing 2 m root va) ≤ more_tables 2 (va_page va0 0) (va_page va 0).
Proof.
  intros Hok Hq Hle. cbn [more_tables]. destruct (va_page_up va0 0 ltac:(lia)) as [-> _]. destruct (va_page_up va 0 ltac:(lia)) as [-> _].
  destruct (va_page_up va0 1 ltac:(lia)) as [Eu0 _]. destruct (va_page_up va 1 ltac:(lia)) as [Eu _]. rewrite Eu0, Eu.
  assert (H1 : va_page va0 1 ≤ va_page va 1).
  { destruct (va_page_up va0 0 ltac:(lia)) as [<- _]. destruct (va_page_up va 0 ltac:(lia)) as [<- _]. apply Z.div_le_mono; lia. }
  assert (H2 : va_page va0 2 ≤ va_page va 2) by (rewrite <- Eu0, <- Eu; apply Z.div_le_mono; lia).
  destruct (decide (va_page va0 1 = va_page va 1)) as [E1|E1].
  { rewrite E1 in Hq. pose proof (rv_missing_tab root tabs m q 0 va Hok Hq). lia. }
  destruct (decide (va_page va0 2 = va_page va 2)) as [E2|E2].
  - destruct (rv_parent root tabs m Hok q 0 va0 Hq ltac:(lia)) as (p & Hp & _). rewrite E2 in Hp.
    pose proof (rv_missing_tab root tabs m p 1 va Hok Hp). lia.
  - pose proof (rv_missing_le 2 m root va). lia.
Qed.

Lemma va_page_low va : 0 ≤ va < 2 ^ 39 → va_page va 0 = va / 2 ^ 12.
Proof. intros H. unfold va_page. by rewrite Z.mod_small by lia. Qed.

Lemma set_range_loop_spec (n : nat) b f x v virt_end prot root tabs P s :
  mmu_inv root tabs P s → (n < f)%nat → prot_ok prot →
  0 ≤ x → x + Z.of_nat n ≤ 2 ^ 44 → 0 ≤ v → v + Z.of_nat n ≤ 2 ^ 27 →
  (v + Z.of_nat n - 1) * 2 ^ 12 < virt_end ≤ (v + Z.of_nat n) * 2 ^ 12 →
  ((0 < n)%nat → (missing 2 (mm_mem s) root (v * 2 ^ 12) ≤ b)%nat) →
  let k := tables_for b 2 v (Z.of_nat n) in
  unless_full ops full k (mm_pages s) (set_range_loop ops f root (x * 2 ^ 12) (v * 2 ^ 12) virt_end prot s) (λ s', ∃ tabs' P',
    mmu_inv root tabs' P' s' ∧ grows k tabs P s tabs' P' s' ∧
    mapped_range s s' root v (Z.of_nat n) (λ i, entry (x + i) (page_flags prot))).
Proof.
  revert f b x v tabs P s. induction n as [|n IH]; intros f b x v tabs P s Hinv Hf Hprot Hx0 Hx Hv0 Hv Hend Hmiss k; subst k;
    (destruct f as [|f]; [lia|]); cbn [set_range_loop].
  { rewrite (proj2 (Z.ltb_ge _ _)) by lia. right. exists tabs, P. split; [done|]. split; [apply rv_grows_refl|].
    intros va. cbv zeta. by rewrite decide_False by lia. }
  rewrite (proj2 (Z.ltb_lt _ _)) by lia. specialize (Hmiss ltac:(lia)).
  set (b' := Z.to_nat (more_tables 2 v (v + 1))). pose proof (more_tables_pos 2 v (v + 1) ltac:(lia)) as Hpos.
  pose proof (tables_for_step b b' 2 v (Z.of_nat n) ltac:(lia) ltac:(lia)) as Hstep.
  replace (Z.of_nat (S n)) with (Z.of_nat n + 1) in * by lia.
  assert (Hvp : va_page (v * 2 ^ 12) 0 = v) by (rewrite va_page_low by lia; apply Z.div_mul; lia).
  apply unless_bind. eapply (unless_later _ _ _ 0); [constructor| |eapply unless_mono; [apply (__install_page_spec x (v * 2 ^ 12) prot root tabs P s Hinv); [lia|done]|]]; [lia|].
  intros [a s1] (tabs1 & P1 & q & Hinv1 & Hg & Hq & Hw). rewrite Hvp in Hw.
  change PAGE_SIZE with (2 ^ 12). replace (x * 2 ^ 12 + 2 ^ 12) with ((x + 1) * 2 ^ 12) by lia. replace (v * 2 ^ 12 + 2 ^ 12) with ((v + 1) * 2 ^ 12) by lia.
  rewrite !u64_small by lia. eapply unless_later; [apply Hg| |eapply unless_mono; [apply (IH f b' (x + 1) (v + 1) tabs1 P1 s1 Hinv1); try done; try lia|]]; [lia|..].
  - intros Hn. pose proof (rv_missing_next root tabs1 (mm_mem s1) q (v * 2 ^ 12) ((v + 1) * 2 ^ 12) (mi_tables _ _ _ _ Hinv1) Hq) as H.
    rewrite Hvp, (va_page_low ((v + 1) * 2 ^ 12)), Z.div_mul in H by lia. specialize (H ltac:(lia)). lia.
  - intros s' (tabs' & P' & Hinv' & Hg' & Hm'). exists tabs', P'. split; [done|]. split; [eapply rv_grows_le; [by eapply rv_grows_trans|lia]|].
    intros va. specialize (Hm' va). cbv zeta in Hm' |- *. rewrite Hm'. destruct (decide (0 ≤ va_page va 0 - (v + 1) < Z.of_nat n)).
    + rewrite decide_True by lia. do 3 f_equal. lia.
    + rewrite Hw. destruct (decide (va_page va 0 = v)) as [->|]; [rewrite decide_True by lia; do 3 f_equal; lia|]. by rewrite decide_False by lia.
Qed.

(** The pages that [start] to [end_] lie in. *)
Definition pages_of (start end_ : Z) : Z := (end_ + 4095) / 4096 - start / 4096.

Lemma page_mask x : 0 ≤ x < 2 ^ 64 → Z.land x PAGE_MASK = x / 4096 * 2 ^ 12.
Proof.
  intros Hx. change PAGE_MASK with (2 ^ 64 - 2 ^ 12). rewrite land_high_ones by lia. change (2 ^ 12) with 4096. Z.div_mod_to_equations. lia.
Qed.
Lemma phys_mask x : 0 ≤ x → Z.land x PHYS_MASK = x mod 2 ^ 56.
Proof. intros Hx. change PHYS_MASK with (Z.ones 56). by rewrite Z.land_ones. Qed.

Lemma set_range_spec virt start end_ prot root tabs P s :
  mmu_inv root tabs P s → prot_ok prot → 0 ≤ start < end_ → end_ < 2 ^ 56 →
  0 ≤ virt → virt / 4096 + pages_of start end_ ≤ 2 ^ 27 →
  let k := tables_for 2 2 (virt / 4096) (pages_of start end_) in
  unless_full ops full k (mm_pages s) (mmu_set_range_ptes ops root virt start end_ prot s) (λ s', ∃ tabs' P',
    mmu_inv root tabs' P' s' ∧ grows k tabs P s tabs' P' s' ∧
    mapped_range s s' root (virt / 4096) (pages_of start end_) (λ i, entry (start / 4096 + i) (page_flags prot))).
Proof.
  intros Hinv Hprot Hse He Hv Hvb k. unfold mmu_set_range_ptes, PHYS_PAGE_MASK.
  assert (Hn : 0 < pages_of start end_) by (unfold pages_of; Z.div_mod_to_equations; lia).
  assert (Hv64 : virt < 2 ^ 64) by (Z.div_mod_to_equations; lia).
  rewrite !page_mask, !phys_mask, !(Z.mod_small _ (2 ^ 56)), !Z.eqb_refl, (proj2 (Z.ltb_lt _ _)) by lia.
  set (n := Z.to_nat (pages_of start end_)). assert (En : pages_of start end_ = Z.of_nat n) by lia.
  assert (Hend : (virt / 4096 + Z.of_nat n - 1) * 2 ^ 12 < end_ - start / 4096 * 2 ^ 12 + virt / 4096 * 2 ^ 12 ≤ (virt / 4096 + Z.of_nat n) * 2 ^ 12).
  { rewrite <- En. unfold pages_of. change (2 ^ 12) with 4096. Z.div_mod_to_equations. lia. }
  rewrite u64_small by (Z.div_mod_to_equations; lia). subst k. rewrite En. set (f := (_ + 2)%nat).
  eapply (set_range_loop_spec n 2 f (start / 4096) (virt / 4096) _ prot root tabs P s); try done.
  - subst f. change PAGE_SIZE with 4096. change (2 ^ 12) with 4096 in *. Z.div_mod_to_equations. lia.
  - Z.div_mod_to_equations. lia.
  - rewrite <- En. unfold pages_of. Z.div_mod_to_equations. lia.
  - Z.div_mod_to_equations. lia.
  - lia.
  - intros _. apply rv_missing_le.
Qed.

(** ** The initial table *)

(** Before paging is enabled there may be a table already. *)
Record early (tabs : gmap Z (nat * Z)) (P : gset Z) s : Prop := {
  ea_tables : if __initial_pgtable s =? 0 then tabs = ∅ else pt_ok (__initial_pgtable s) tabs (mm_mem s);
  ea_pages : I (mm_pages s) P;
  ea_owned p : is_Some (tabs !! p) → p ∈ P;
  ea_ram p : ram p → words (mm_mem s) p;
}.
Definition early_walk s (va : Z) : option (nat * Z) :=
  if __initial_pgtable s =? 0 then None else sv39_walk 2 (mm_mem s) (__initial_pgtable s) va.

(** A root table without entries. *)
Lemma rv_empty_root root m : page_addr root → 0 < root → (∀ i, 0 ≤ i < 512 → m !! (root + 8 * i) = Some 0) →
  pt_ok root {[root := (2%nat, 0)]} m ∧ ∀ va, sv39_walk 2 m root va = None.
Proof.
  intros Hp Hpos H. split.
  - constructor.
    + intros p v. rewrite lookup_singleton_Some. split; [by intros [-> [= <-]]|by intros [-> ->]].
    + intros p l v [-> [= <- <-]]%lookup_singleton_Some. done.
    + intros p l v i [-> [= <- <-]]%lookup_singleton_Some Hi. exists 0. split; [by apply H|by left].
    + intros p l v [-> [= <- <-]]%lookup_singleton_Some. lia.
  - intros va. apply rv_walk_zero, H, va_index_range.
Qed.

Lemma initial_pgtable_spec tabs P s :
  early tabs P s →
  unless_full ops full 1 (mm_pages s) (initial_pgtable ops s) (λ '(root, s'), ∃ tabs' P',
    mmu_inv root tabs' P' s' ∧ __initial_pgtable s' = root ∧ grows 1 tabs P (set_initial root s) tabs' P' s' ∧
    ∀ va, sv39_walk 2 (mm_mem s') root va = early_walk s va).
Proof.
  intros [Ht HI Hown Hram]. unfold initial_pgtable, early_walk. destruct (__initial_pgtable s =? 0) eqn:E.
  - subst tabs. destruct (alloc_zeroed_spec ∅ P s HI Hown Hram) as [Hout|(q & a & m' & -> & Hch & _ & HqP & Hpa & Hpos & HI' & Hf)]; [left; apply Hout|].
    right. cbn [bind post __initial_pgtable set_initial]. destruct (rv_empty_root q m' Hpa Hpos ltac:(apply Hf)) as [Hok Hw].
    exists {[q := (2%nat, 0)]}, ({[q]} ∪ P). split; [|split; [done|split; [|done]]].
    + constructor; try done; [|intros p Hp; eapply filled_words; [exact Hf|by apply Hram]].
      intros p [x [-> _]%lookup_singleton_Some]. set_solver.
    + constructor; try done; [apply map_empty_subseteq|set_solver|..].
      * intros p [->%elem_of_singleton|]%elem_of_union; [right; rewrite lookup_singleton_eq; eauto|by left].
      * intros p [x [-> _]%lookup_singleton_Some]. by right.
      * intros b Hb. cbn. apply Hf. intros j Hj. apply Hb; [|done]. rewrite lookup_singleton_eq. eauto.
  - right. cbn [bind post]. exists tabs, P. split; [by constructor|]. split; [done|]. split; [|done].
    replace (set_initial _ s) with s by (by destruct s). apply rv_grows_refl.
Qed.

(** ** The regions of memory *)

Definition region_mapped (r : mem_region) : bool := Z.land (mr_flags r) (Z.lor MR_F_IO MR_F_RESERVED) =? 0.
Definition region_prot (r : mem_region) : Z :=
  if Z.land (mr_flags r) MR_F_CODE =? 0 then Z.lor _PAGE_READ _PAGE_WRITE else Z.lor _PAGE_READ _PAGE_EXEC.
Definition region_has (r : mem_region) (v : Z) : bool := (mr_start r / 4096 <=? v) && (v <? (mr_end r + 4095) / 4096).

(** The protection of the page [v]: that of the last region that it is in. *)
Fixpoint page_prot (l : list mem_region) (v : Z) : option Z :=
  match l with
  | [] => None
  | r :: l =>
      if mr_end r =? 0 then None else
      match page_prot l v with
      | Some prot => Some prot
      | None => if region_mapped r && region_has r v then Some (region_prot r) else None
      end
  end.

(** The tables that the regions need at most. *)
Fixpoint region_tables (l : list mem_region) : nat :=
  match l with
  | [] => O
  | r :: l =>
      if mr_end r =? 0 then O else
      ((if region_mapped r then tables_for 2 2 (mr_start r / 4096) (pages_of (mr_start r) (mr_end r)) else 0) + region_tables l)%nat
  end.

(** The table of regions is closed, and the mapped ones are in the lower half
    of the address space. *)
Fixpoint regions_ok (l : list mem_region) : Prop :=
  match l with
  | [] => False
  | r :: l => if mr_end r =? 0 then True else (region_mapped r = true → 0 ≤ mr_start r < mr_end r ∧ mr_end r ≤ 2 ^ 38) ∧ regions_ok l
  end.

Lemma region_prot_ok r : prot_ok (region_prot r).
Proof. unfold region_prot. case_match; by vm_compute. Qed.

Lemma map_region_spec r root tabs P s :
  mmu_inv root tabs P s → (region_mapped r = true → 0 ≤ mr_start r < mr_end r ∧ mr_end r ≤ 2 ^ 38) →
  let k := if region_mapped r then tables_for 2 2 (mr_start r / 4096) (pages_of (mr_start r) (mr_end r)) else O in
  unless_full ops full k (mm_pages s) (map_region ops root r s) (λ s', ∃ tabs' P',
    mmu_inv root tabs' P' s' ∧ grows k tabs P s tabs' P' s' ∧
    ∀ va, let v := va_page va 0 in sv39_walk 2 (mm_mem s') root va =
      if region_mapped r && region_has r v then Some (0%nat, entry v (page_flags (region_prot r))) else sv39_walk 2 (mm_mem s) root va).
Proof.
  intros Hinv Hr k. unfold map_region. fold (region_mapped r). subst k. destruct (region_mapped r); cbn [negb andb].
  2:{ right. exists tabs, P. split; [done|]. split; [apply rv_grows_refl|done]. }
  destruct (Hr eq_refl) as [Hse He].
  replace (if negb _ then _ else _) with (mmu_set_range_ptes ops root (mr_start r) (mr_start r) (mr_end r) (region_prot r) s)
    by (unfold region_prot; by destruct (_ =? 0)).
  eapply unless_mono; [apply (set_range_spec (mr_start r) (mr_start r) (mr_end r) _ root tabs P s Hinv (region_prot_ok r)); try lia;
    unfold pages_of; Z.div_mod_to_equations; lia|].
  intros s' (tabs' & P' & Hinv' & Hg & Hm). exists tabs', P'. split; [done|]. split; [done|].
  intros va. specialize (Hm va). cbv zeta in Hm |- *. rewrite Hm. unfold region_has, pages_of.
  destruct (Z.leb_spec (mr_start r / 4096) (va_page va 0)), (Z.ltb_spec (va_page va 0) ((mr_end r + 4095) / 4096)); cbn [andb];
    [rewrite decide_True by lia; do 3 f_equal; lia|by rewrite decide_False by lia..].
Qed.

Lemma map_regions_spec l root tabs P s :
  mmu_inv root tabs P s → regions_ok l →
  unless_full ops full (region_tables l) (mm_pages s) (map_regions ops root l s) (λ s', ∃ tabs' P',
    mmu_inv root tabs' P' s' ∧ grows (region_tables l) tabs P s tabs' P' s' ∧
    ∀ va, let v := va_page va 0 in sv39_walk 2 (mm_mem s') root va =
      match page_prot l v with Some prot => Some (0%nat, entry v (page_flags prot)) | None => sv39_walk 2 (mm_mem s) root va end).
Proof.
  revert tabs P s. induction l as [|r l IH]; intros tabs P s Hinv Hok; cbn [regions_ok] in Hok; [done|].
  cbn [map_regions region_tables page_prot]. destruct (mr_end r =? 0).
  { right. exists tabs, P. split; [done|]. split; [apply rv_grows_refl|done]. }
  destruct Hok as [Hr Hok]. apply unless_bind.
  eapply (unless_later _ _ _ 0); [constructor| |eapply unless_mono; [by apply (map_region_spec r root tabs P s)|]]; [lia|].
  intros s1 (tabs1 & P1 & Hinv1 & Hg1 & Hw1).
  eapply unless_later; [apply Hg1|reflexivity|eapply unless_mono; [by apply (IH tabs1 P1 s1)|]].
  intros s2 (tabs2 & P2 & Hinv2 & Hg2 & Hw2). exists tabs2, P2. split; [done|]. split; [by eapply rv_grows_trans|].
  intros va. specialize (Hw1 va). specialize (Hw2 va). cbv zeta in *. rewrite Hw2. destruct (page_prot l _); [done|]. rewrite Hw1. by destruct (_ && _).
Qed.
End mmu.
