(* ===== verification/RiscvMmuThms.v ===== *)
(** * lib/riscv/mmu.c: theorems

    The functions of mmu.c establish and keep a well-formed Sv39 page table
    whose translation is what their callers ask for. *)

From S2P Require Import Prelude.
From S2P Require Import Bitops.
From S2P Require Import AllocPage.
From S2P Require Import AllocPageProps.
From S2P Require Import Memregions.
From S2P Require Import PageMem.
From S2P Require Import RiscvMmu.
From S2P Require Import RiscvMmuProps.

Section thms.
Context {A : Type} (ops : page_ops A) (I : A → gset Z → Prop) (full : A → Prop) (ram : Z → Prop).
Context {Hlaws : page_laws ops I full ram}.
Implicit Types s : mmu_state A.

(** The translation of the initial table, if there is one. *)
Definition early_sv39 s (va : Z) : option (Z * Z) :=
  if __initial_pgtable s =? 0 then None else sv39 (mm_mem s) (__initial_pgtable s) va.

(** The processor translates with the table [root]. *)
Definition enabled (root : Z) s : Prop := satp s / 2 ^ 60 = 8 ∧ current_pgtable s = root.

Lemma sv39_leaf m root va x f : canonical va = true → 0 ≤ x < 2 ^ 44 → 0 ≤ f < 2 ^ 10 →
  sv39_walk 2 m root va = Some (0%nat, entry x f) → sv39 m root va = Some (x * 2 ^ 12 + va mod 2 ^ 12, f).
Proof.
  intros Hc Hx Hf E. unfold sv39. rewrite Hc, E. cbn [negb mbind option_bind]. rewrite entry_ppn by done.
  change (2 ^ (12 + 9 * Z.of_nat 0)) with (2 ^ 12). rewrite Z.mod_mul by lia. cbn [Z.eqb]. do 2 f_equal.
  unfold entry. rewrite Z.add_comm, Z.mod_add by lia. by apply Z.mod_small.
Qed.

Lemma sv39_same m m' root root' va : sv39_walk 2 m' root' va = sv39_walk 2 m root va → sv39 m' root' va = sv39 m root va.
Proof. intros E. unfold sv39. by rewrite E. Qed.

Lemma canonical_low va : 0 ≤ va < 2 ^ 38 → canonical va = true.
Proof. intros H. unfold canonical. by rewrite (proj2 (Z.ltb_lt _ _)) by lia. Qed.

Lemma page_flags_range prot : prot_ok prot → 0 ≤ page_flags prot < 2 ^ 10.
Proof. intros H. by destruct (page_flags_leaf prot H). Qed.

(** Loading the register. *)
Lemma mmu_enable_spec root s : page_addr root →
  ∃ s', mmu_enable SATP_MODE_DEFAULT root s = Ret s' ∧ enabled root s' ∧
    s' = set_satp (2 ^ 63 + root / 2 ^ 12) s.
Proof.
  intros [Ha Hr]. change PAGE_SIZE with (2 ^ 12) in Ha. unfold mmu_enable, __pa, PAGE_SHIFT, __mmu_enable.
  rewrite u64_small, Z.shiftr_div_pow2 by lia. assert (Hx : 0 ≤ root / 2 ^ 12 < 2 ^ 40) by (Z.div_mod_to_equations; lia).
  change (u64 (Z.lnot SATP_PPN)) with (2 ^ 64 - 2 ^ 44). rewrite land_high_ones, Z.mod_small, Z.sub_diag by lia. cbn [Z.eqb].
  change SATP_MODE_DEFAULT with (1 * 2 ^ 63). rewrite lor_low by lia. rewrite Z.mul_1_l.
  eexists. split; [done|]. split; [|done]. unfold enabled, current_pgtable. cbn [satp set_satp]. split; [Z.div_mod_to_equations; lia|].
  change SATP_PPN with (Z.ones 44). rewrite Z.land_ones by lia. unfold PAGE_SHIFT. rewrite Z.shiftl_mul_pow2 by lia.
  replace ((2 ^ 63 + root / 2 ^ 12) mod 2 ^ 44) with (root / 2 ^ 12) by (Z.div_mod_to_equations; lia).
  rewrite u64_small by lia. Z.div_mod_to_equations. lia.
Qed.

Lemma mmu_inv_other root tabs P s s' : mm_mem s' = mm_mem s → mm_pages s' = mm_pages s →
  mmu_inv I ram root tabs P s → mmu_inv I ram root tabs P s'.
Proof. intros E1 E2 [H1 H2 H3 H4]. constructor; rewrite ?E1, ?E2; done. Qed.

(** The page of an address in a region. *)
Lemma page_prot_range l v prot : regions_ok l → page_prot l v = Some prot → 0 ≤ v < 2 ^ 26 ∧ prot_ok prot.
Proof.
  induction l as [|r l IH]; intros Hok; cbn [regions_ok page_prot] in *; [done|]. destruct (mr_end r =? 0); [done|].
  destruct Hok as [Hr Hok]. destruct (page_prot l v) as [p|]; [intros [= <-]; by apply IH|].
  destruct (region_mapped r); [|done]. destruct (region_has r v) eqn:E; [|done]. intros [= <-]. split; [|apply region_prot_ok].
  destruct (Hr eq_refl) as [H1 H2]. unfold region_has in E. apply andb_true_iff in E as [E1%Z.leb_le E2%Z.ltb_lt].
  Z.div_mod_to_equations. lia.
Qed.

Lemma rv_setup_mmu_spec regions top tabs P s :
  early I ram tabs P s → regions_ok (mem_regions regions) → 0 ≤ top < 2 ^ 64 →
  let l := mem_regions regions in
  let k := S (region_tables l) in
  unless_full ops full k (mm_pages s) (setup_mmu ops regions top s) (λ '(root, s'), ∃ tabs' P',
    mmu_inv I ram root tabs' P' s' ∧ enabled root s' ∧ __initial_pgtable s' = root ∧
    grows ops k tabs P (set_satp (satp s') (set_initial root s)) tabs' P' s' ∧
    ∀ va, 0 ≤ va < 2 ^ 64 → canonical va = true →
      sv39 (mm_mem s') root va =
        match page_prot l (va_page va 0) with Some prot => Some (va, page_flags prot) | None => early_sv39 s va end).
Proof.
  intros He Hok Htop l k. subst k. unfold setup_mmu. fold l. unfold __pa. rewrite (u64_small top), Z.eqb_refl by lia.
  apply unless_bind. eapply (unless_later _ _ _ 0); [constructor| |eapply unless_mono; [by apply (initial_pgtable_spec ops I full ram tabs P s)|]]; [lia|].
  intros [root s1] (tabs1 & P1 & Hinv1 & Hin & Hg1 & Hw1). apply unless_bind.
  eapply (unless_later _ _ (region_tables l) 1); [apply (gr_chain _ _ _ _ _ _ _ _ Hg1)|lia|].
  eapply unless_mono; [by apply (map_regions_spec ops I full ram l root tabs1 P1 s1)|].
  intros s2 (tabs2 & P2 & Hinv2 & Hg2 & Hw2). right. pose proof (mi_tables _ _ _ _ _ _ Hinv2) as Hpt.
  destruct (po_page _ _ _ Hpt _ _ _ (rv_root _ _ _ Hpt 0)) as (_ & Hra & _).
  destruct (mmu_enable_spec root s2 Hra) as (s3 & -> & Hen & E3). cbn [bind post]. exists tabs2, P2.
  split; [by apply (mmu_inv_other root tabs2 P2 s2); [rewrite E3..|]|]. split; [done|].
  split; [rewrite E3, (gr_rest _ _ _ _ _ _ _ _ Hg2); cbn; by rewrite Hin|]. split.
  - pose proof (rv_grows_trans _ _ _ _ _ _ _ _ _ _ _ _ Hg1 Hg2) as [G1 G2 G3 G4 G5 G6 G7]. rewrite E3. constructor; try done.
    rewrite G6. by destruct s.
  - intros va Hva Hc. specialize (Hw2 va). cbv zeta in Hw2. replace (mm_mem s3) with (mm_mem s2) by (by rewrite E3).
    destruct (page_prot l (va_page va 0)) as [prot|] eqn:Ep.
    + destruct (page_prot_range l _ prot Hok Ep) as [Hv Hp].
      rewrite (sv39_leaf _ root va (va_page va 0) (page_flags prot) Hc ltac:(lia) (page_flags_range prot Hp) Hw2). do 2 f_equal. change (2 ^ 12) with 4096.
      unfold va_page, canonical in *. apply orb_true_iff in Hc as [Hc%Z.ltb_lt|Hc%Z.leb_le]; change (2 ^ (12 + 9 * Z.of_nat 0)) with 4096 in *;
        Z.div_mod_to_equations; lia.
    + rewrite Hw1 in Hw2. unfold early_walk, early_sv39 in *. destruct (__initial_pgtable s =? 0); [|by apply sv39_same].
      unfold sv39. rewrite Hw2. by destruct (negb _).
Qed.

(** C13: enabling paging on RISC-V.  [setup_mmu] maps every page of the memory
    regions, except devices and reserved memory, to itself: pages of code
    readable and executable, the others readable and writable (a page shared
    by regions as the last of them).  Every other address keeps the
    translation of the initial table, in which devices may have been mapped
    before, or has none.  The result is a well-formed table, it is loaded with
    the mode Sv39, and no memory but page tables changes.  It fails only when
    there are fewer free pages than the regions need tables. *)
Theorem riscv_setup_mmu_correct regions top tabs P s :
  early I ram tabs P s → regions_ok (mem_regions regions) → 0 ≤ top < 2 ^ 64 →
  let l := mem_regions regions in
  let k := S (region_tables l) in
  unless_full ops full k (mm_pages s) (setup_mmu ops regions top s) (λ '(root, s'), ∃ tabs' P',
    mmu_inv I ram root tabs' P' s' ∧ enabled root s' ∧ __initial_pgtable s' = root ∧
    grows ops k tabs P (set_satp (satp s') (set_initial root s)) tabs' P' s' ∧
    ∀ va, 0 ≤ va < 2 ^ 64 → canonical va = true →
      sv39 (mm_mem s') root va =
        match page_prot l (va_page va 0) with Some prot => Some (va, page_flags prot) | None => early_sv39 s va end).
Proof. apply rv_setup_mmu_spec. Qed.

(** The table that [ioremap] uses: the current one, or the initial one. *)
Definition io_table (tabs : gmap Z (nat * Z)) (P : gset Z) s : Prop :=
  if current_pgtable s =? 0 then early I ram tabs P s else mmu_inv I ram (current_pgtable s) tabs P s.
Definition io_sv39 s (va : Z) : option (Z * Z) :=
  if current_pgtable s =? 0 then early_sv39 s va else sv39 (mm_mem s) (current_pgtable s) va.

(** C37: mapping a device on RISC-V.  [ioremap] returns the address of the
    device and maps its pages to themselves, readable and writable, in the
    table in use, or before paging is enabled in the initial table, which
    [setup_mmu] keeps; the other addresses keep their translation. *)
Theorem ioremap_correct phys_addr size tabs P s :
  io_table tabs P s → 0 ≤ phys_addr → 0 < size → phys_addr + size ≤ 2 ^ 38 →
  let k := S (tables_for 2 2 (phys_addr / 4096) (pages_of phys_addr (phys_addr + size))) in
  unless_full ops full k (mm_pages s) (ioremap ops phys_addr size s) (λ '(r, s'), r = phys_addr ∧ ∃ root tabs' P',
    mmu_inv I ram root tabs' P' s' ∧ satp s' = satp s ∧
    (if current_pgtable s =? 0 then root = __initial_pgtable s' else root = current_pgtable s') ∧
    ∀ va, 0 ≤ va < 2 ^ 64 → canonical va = true →
      sv39 (mm_mem s') root va =
        if decide (phys_addr / 4096 ≤ va / 4096 < (phys_addr + size + 4095) / 4096)
        then Some (va, page_flags (Z.lor _PAGE_READ _PAGE_WRITE)) else io_sv39 s va).
Proof.
  intros Hio Hp Hs Hb k. subst k. unfold ioremap, PHYS_PAGE_MASK. rewrite page_mask, (u64_small (phys_addr + size)) by lia.
  unfold PAGE_ALIGN. change PAGE_SIZE with (2 ^ 12). rewrite ALIGN_pow2 by lia. set (e := _ - _).
  assert (Ee : e = (phys_addr + size + 4095) / 4096 * 4096) by (subst e; change (2 ^ 12) with 4096; Z.div_mod_to_equations; lia).
  unfold __pa. rewrite (u64_small e), Z.eqb_refl by (Z.div_mod_to_equations; lia).
  assert (En : pages_of (phys_addr / 4096 * 2 ^ 12) e = pages_of phys_addr (phys_addr + size)).
  { unfold pages_of. rewrite Ee. change (2 ^ 12) with 4096. Z.div_mod_to_equations. lia. }
  assert (Ed : phys_addr / 4096 * 2 ^ 12 / 4096 = phys_addr / 4096) by (apply Z.div_mul; lia).
  apply unless_bind.
  assert (Htab : unless_full ops full 1 (mm_pages s)
    (if current_pgtable s =? 0 then initial_pgtable ops s else Ret (current_pgtable s, s)) (λ '(root, s'), ∃ tabs' P',
      mmu_inv I ram root tabs' P' s' ∧ chain ops 1 (mm_pages s) (mm_pages s') ∧ satp s' = satp s ∧
      (if current_pgtable s =? 0 then root = __initial_pgtable s' else root = current_pgtable s) ∧
      ∀ va, sv39 (mm_mem s') root va = io_sv39 s va)).
  { unfold io_table, io_sv39 in *. destruct (current_pgtable s =? 0).
    - eapply unless_mono; [by apply (initial_pgtable_spec ops I full ram tabs P s)|].
      intros [root s1] (tabs1 & P1 & Hinv1 & Hin & Hg1 & Hw1). exists tabs1, P1. split; [done|].
      split; [apply (gr_chain _ _ _ _ _ _ _ _ Hg1)|]. split; [by rewrite (gr_rest _ _ _ _ _ _ _ _ Hg1)|]. split; [done|].
      intros va. specialize (Hw1 va). unfold early_walk, early_sv39 in *. destruct (__initial_pgtable s =? 0); [|by apply sv39_same].
      unfold sv39. rewrite Hw1. by destruct (negb _).
    - right. exists tabs, P. split; [done|]. split; [constructor|done]. }
  eapply (unless_later _ _ _ 0); [constructor| |eapply unless_mono; [exact Htab|]]; [lia|]. clear Htab.
  intros [root s1] (tabs1 & P1 & Hinv1 & Hch & Hsatp & Hroot & Hw1). apply unless_bind. eapply unless_later; [exact Hch|reflexivity|].
  pose proof (set_range_spec ops I full ram (phys_addr / 4096 * 2 ^ 12) (phys_addr / 4096 * 2 ^ 12) e (Z.lor _PAGE_READ _PAGE_WRITE) root tabs1 P1 s1 Hinv1) as H.
  rewrite Ed, En in H. eapply unless_mono; [apply H|]; clear H.
  - by vm_compute.
  - rewrite Ee. change (2 ^ 12) with 4096. Z.div_mod_to_equations. lia.
  - Z.div_mod_to_equations. lia.
  - Z.div_mod_to_equations. lia.
  - unfold pages_of. Z.div_mod_to_equations. lia.
  - intros s2 (tabs2 & P2 & Hinv2 & Hg2 & Hm). right. cbn [bind post]. split; [by rewrite u64_small by lia|].
    pose proof (gr_rest _ _ _ _ _ _ _ _ Hg2) as E2. exists root, tabs2, P2. split; [done|]. split; [by rewrite E2|].
    split; [rewrite E2; unfold current_pgtable; cbn; rewrite Hsatp; by destruct (_ =? 0)|].
    intros va Hva Hc. specialize (Hm va). cbv zeta in Hm. set (x := phys_addr / 4096) in *. unfold pages_of in Hm. fold x in Hm.
    assert (Hx : 0 ≤ x) by (apply Z.div_pos; lia). assert (Hy : (phys_addr + size + 4095) / 4096 ≤ 2 ^ 26) by (Z.div_mod_to_equations; lia).
    assert (Ev : va < 2 ^ 38 → va_page va 0 = va / 4096) by (intros; rewrite va_page_low by lia; done).
    assert (Ev' : 2 ^ 38 ≤ va → 2 ^ 26 ≤ va_page va 0 ∧ 2 ^ 26 ≤ va / 4096).
    { intros Hh. unfold canonical in Hc. apply orb_true_iff in Hc as [?%Z.ltb_lt|?%Z.leb_le]; [lia|]. unfold va_page.
      change (2 ^ (12 + 9 * Z.of_nat 0)) with 4096. Z.div_mod_to_equations. lia. }
    case_decide as Hd.
    + assert (Hlow : va < 2 ^ 38) by lia. rewrite (Ev Hlow) in *. rewrite decide_True by lia. replace (x + (va / 4096 - x)) with (va / 4096) in Hm by lia.
      rewrite (sv39_leaf _ root va (va / 4096) (page_flags (Z.lor _PAGE_READ _PAGE_WRITE)) Hc ltac:(lia) ltac:(by vm_compute) Hm). do 2 f_equal. change (2 ^ 12) with 4096. Z.div_mod_to_equations. lia.
    + rewrite decide_False by (destruct (Z.lt_ge_cases va (2 ^ 38)) as [H|H]; [rewrite (Ev H) in Hd; lia|specialize (Ev' H); lia]). rewrite <- Hw1. by apply sv39_same.
Qed.

(** C38: looking up an address on RISC-V.  With paging off, [virt_to_phys] is
    the identity.  With paging on it returns the physical address the processor
    translates to, and 0 for an address that is not mapped; [phys_to_virt]
    returns the address if it is mapped to itself and aborts otherwise, except
    that it takes 0 to be mapped. *)
Theorem riscv_virt_to_phys_correct root tabs P s va :
  mmu_inv I ram root tabs P s → 0 ≤ va < 2 ^ 64 → canonical va = true →
  let pa := match sv39 (mm_mem s) root va with Some (pa, _) => pa | None => 0 end in
  (satp s = 0 → virt_to_phys va s = Ret va ∧ phys_to_virt va s = Ret va) ∧
  (enabled root s → virt_to_phys va s = Ret pa ∧ phys_to_virt va s = if decide (pa = va) then Ret va else Abort).
Proof.
  intros Hinv Hva Hc pa. unfold phys_to_virt, __pa, __va. rewrite (u64_small va), Z.eqb_refl by lia. split.
  { intros E. unfold virt_to_phys, __pa. rewrite E, u64_small by lia. change (Z.shiftr 0 SATP_MODE_SHIFT =? 0) with true.
    cbn [bind]. rewrite Z.eqb_refl. done. }
  intros [Hmode Hcur]. assert (E : virt_to_phys va s = Ret pa).
  2:{ split; [done|]. rewrite E. cbn [bind]. destruct (decide (pa = va)) as [->|Hne]; [by rewrite Z.eqb_refl|].
      by rewrite (proj2 (Z.eqb_neq pa va) Hne). }
  unfold virt_to_phys. fold (current_pgtable s). rewrite Hcur. unfold SATP_MODE_SHIFT. rewrite Z.shiftr_div_pow2, Hmode by lia. cbn [Z.eqb].
  pose proof (mi_tables _ _ _ _ _ _ Hinv) as Hok. pose proof (rv_root root tabs _ Hok va) as Hroot.
  destruct (po_page _ _ _ Hok _ _ _ Hroot) as (_ & Hra & Hrp). unfold virt_to_pte_phys. rewrite pgtable_ok_page by done.
  subst pa. unfold sv39. rewrite Hc. cbn [negb].
  assert (H : ∀ n p, tabs !! p = Some (n, va_page va (S n)) →
    match sv39_walk n (mm_mem s) p va with
    | Some (l, e) => l = 0%nat ∧ 0 ≤ e ∧ e ≠ 0 ∧ ∃ q, pte_phys_walk n va p s = Ret (Some q) ∧ load (q + 8 * pte_index va 0) s = Ret e
    | None => pte_phys_walk n va p s = Ret None ∨ ∃ q, pte_phys_walk n va p s = Ret (Some q) ∧ load (q + 8 * pte_index va 0) s = Ret 0
    end).
  { induction n as [|n IH]; intros p Hp; destruct (rv_step root tabs _ Hok _ p va Hp) as (e & He & Hcase).
    - assert (Hl : load (p + 8 * pte_index va 0) s = Ret e) by (change 0 with (Z.of_nat 0) at 1; rewrite pte_index_eq; unfold load, rd; by rewrite He).
      destruct Hcase as [(-> & ->)|(Hlf & ->)]; [right; by exists p|]. destruct Hlf as (? & ? & _). split_and!; [done|lia|done|by exists p].
    - cbn [pte_phys_walk]. rewrite pte_index_eq.
      assert (Hl : load (p + 8 * va_index va (S n)) s = Ret e) by (unfold load, rd; by rewrite He). rewrite Hl. cbn [bind].
      destruct Hcase as [(-> & ->)|(q & -> & Hqa & Hq & ->)]; [by left|]. destruct (table_pte_ok q Hqa) as ([Hr _] & Hnz & Eq).
      rewrite (proj2 (Z.eqb_neq _ 0) Hnz), pteval_ptep, Eq by done. cbn [bind]. by apply IH. }
  specialize (H 2%nat root Hroot). change (NR_LEVELS - 1)%nat with 2%nat. destruct (sv39_walk 2 (mm_mem s) root va) as [[l e]|]; cbn [mbind option_bind].
  - destruct H as (-> & He0 & Hne & q & -> & Hl). cbn [bind]. rewrite Hl. cbn [bind]. rewrite (proj2 (Z.eqb_neq e 0) Hne), pteval_phys by done.
    change (2 ^ (12 + 9 * Z.of_nat 0)) with (2 ^ 12). rewrite Z.mod_mul by lia. cbn [Z.eqb]. f_equal.
    unfold offset_in_page. change (u64 (Z.lnot PAGE_MASK)) with (Z.ones 12). rewrite Z.land_ones by lia.
    apply lor_low; [lia|]. apply Z.mod_pos_bound. lia.
  - destruct H as [->|(q & -> & Hl)]; cbn [bind]; [done|]. by rewrite Hl.
Qed.

(** No page for a table on RISC-V.  [get_pte] does not look at the result
    of [alloc_page]: when it is null, the entry is made to point to a table at
    physical address 0, and the walk goes on there. *)
Theorem riscv_get_pte_null n va p s a e :
  load (p + 8 * pte_index va (Z.of_nat (S n))) s = Ret e → e = 0 → op_alloc_page ops (mm_pages s) = Ret (0, a) →
  get_pte_walk ops (S n) va p s =
    get_pte_walk ops n va 0 (set_mem (<[p + 8 * pte_index va (Z.of_nat (S n)) := 1]> (mm_mem s)) (set_pages a s)).
Proof.
  intros Hl -> Ha. cbn [get_pte_walk]. unfold load, rd, store, wr, alloc_zeroed in *. set (x := p + _) in *. destruct (mm_mem s !! x) as [e|] eqn:E; [|done].
  injection Hl as ->. cbn [bind]. rewrite Z.eqb_refl, Ha. cbn [bind Z.eqb mm_mem set_pages]. rewrite E. cbn [bind mm_mem set_mem].
  rewrite lookup_insert_eq. done.
Qed.
End thms.

(** ** An instance: the page allocator with 32 pages *)

Definition demo_mmu : mmu_state page_alloc := mk_mmu demo_words demo 0 0.

Lemma demo_early : early (pages_live demo_page) demo_page ∅ ∅ demo_mmu.
Proof.
  constructor; [done|exact demo_live|intros p [x H]; by rewrite lookup_empty in H|].
  intros p Hp i Hi. exists 0. by apply demo_words_at.
Qed.

Lemma demo_mmu_plenty n : (n ≤ 20)%nat → plenty page_alloc_pages n (mm_pages demo_mmu) = true.
Proof. apply (plenty_le page_alloc_pages 20 n demo demo_plenty). Qed.

(** Code, data and a device. *)
Definition demo_regions : mr_state :=
  mk_mr [mk_region 0x80000000 0x80003000 MR_F_CODE; mk_region 0x80003000 0x80008800 0;
         mk_region 0x10000000 0x10001000 MR_F_IO; mk_region 0 0 0] 8.

#[local] Opaque demo_mmu.

Lemma riscv_setup_mmu_correct_witness :
  post (setup_mmu page_alloc_pages demo_regions (2 ^ 32) demo_mmu) (λ '(root, s'),
    enabled root s' ∧ sv39 (mm_mem s') root 0x80001234 = Some (0x80001234, 0xCB) ∧
    sv39 (mm_mem s') root 0x80008900 = Some (0x80008900, 0xC7) ∧ sv39 (mm_mem s') root 0x10000000 = None).
Proof.
  apply (unless_plenty page_alloc_pages pages_full 5 (mm_pages demo_mmu)); [apply demo_mmu_plenty; lia|].
  eapply unless_mono; [apply (riscv_setup_mmu_correct page_alloc_pages (pages_live demo_page) pages_full demo_page demo_regions (2 ^ 32) ∅ ∅ demo_mmu demo_early)|].
  - repeat split; by vm_compute.
  - by vm_compute.
  - intros [root s'] (tabs & P & _ & Hen & _ & _ & H). split; [done|].
    rewrite !H by (by vm_compute). split; [done|]. split; [done|]. done.
Defined.

Lemma ioremap_correct_witness :
  post (ioremap page_alloc_pages 0x10000100 0x20 demo_mmu) (λ '(r, s'),
    r = 0x10000100 ∧ sv39 (mm_mem s') (__initial_pgtable s') 0x10000ABC = Some (0x10000ABC, 0xC7) ∧
    sv39 (mm_mem s') (__initial_pgtable s') 0x10001000 = None).
Proof.
  apply (unless_plenty page_alloc_pages pages_full 3 (mm_pages demo_mmu)); [apply demo_mmu_plenty; lia|].
  eapply unless_mono; [apply (ioremap_correct page_alloc_pages (pages_live demo_page) pages_full demo_page 0x10000100 0x20 ∅ ∅ demo_mmu); [exact demo_early|by vm_compute..]|].
  intros [r s'] (-> & root & tabs & P & _ & _ & Hroot & H). change (current_pgtable demo_mmu =? 0) with true in Hroot. cbn iota in Hroot. cbn [post].
  subst root. rewrite !H by (by vm_compute). done.
Defined.

Lemma riscv_virt_to_phys_correct_witness :
  post (ioremap page_alloc_pages 0x10000100 0x20 demo_mmu) (λ '(_, s),
    post (mmu_enable SATP_MODE_DEFAULT (__initial_pgtable s) s) (λ s',
      virt_to_phys 0x10000ABC s' = Ret 0x10000ABC ∧ virt_to_phys 0x10001000 s' = Ret 0 ∧ phys_to_virt 0x10001000 s' = Abort)).
Proof.
  apply (unless_plenty page_alloc_pages pages_full 3 (mm_pages demo_mmu)); [apply demo_mmu_plenty; lia|].
  eapply unless_mono; [apply (ioremap_correct page_alloc_pages (pages_live demo_page) pages_full demo_page 0x10000100 0x20 ∅ ∅ demo_mmu); [exact demo_early|by vm_compute..]|].
  intros [r s'] (-> & root & tabs & P & Hinv & _ & Hroot & H). change (current_pgtable demo_mmu =? 0) with true in Hroot. cbn iota in Hroot. rewrite <- Hroot.
  pose proof (mi_tables _ _ _ _ _ _ Hinv) as Hpt. destruct (po_page _ _ _ Hpt _ _ _ (rv_root _ _ _ Hpt 0)) as (_ & Hra & _).
  destruct (mmu_enable_spec root s' Hra) as (s2 & -> & Hen & E2). cbn [post].
  assert (Hinv2 : mmu_inv (pages_live demo_page) demo_page root tabs P s2) by (by apply (mmu_inv_other _ _ root tabs P s'); [rewrite E2..|]).
  assert (Em : mm_mem s2 = mm_mem s') by (by rewrite E2).
  destruct (riscv_virt_to_phys_correct (pages_live demo_page) demo_page root tabs P s2 0x10000ABC Hinv2) as [_ H1]; [by vm_compute..|].
  destruct (riscv_virt_to_phys_correct (pages_live demo_page) demo_page root tabs P s2 0x10001000 Hinv2) as [_ H2]; [by vm_compute..|].
  specialize (H1 Hen). specialize (H2 Hen). rewrite Em in H1, H2. rewrite H in H1, H2 by (by vm_compute).
  destruct H1 as [H1 _], H2 as [H2 H3]. split; [exact H1|]. split; [exact H2|exact H3].
Defined.

(** An allocator without pages. *)
Lemma riscv_get_pte_null_witness :
  let s := mk_mmu {[4096 := 0; 0 := 7 * 2 ^ 10 + 1]} tt 0 0 in
  get_pte_walk (mk_page_ops (λ a, Ret (0, a)) (λ _ a, Ret a)) 2 0 4096 s =
    Ret (7 * 4096, set_mem (<[4096 := 1]> (mm_mem s)) s).
Proof.
  intros s. pose proof (riscv_get_pte_null (mk_page_ops (λ a, Ret (0, a)) (λ _ a, Ret a)) 1 0 4096 s tt 0 eq_refl eq_refl eq_refl) as H.
  rewrite H. vm_compute. reflexivity.
Defined.
