(* ===== verification/Rand.v ===== *)
(** * lib/rand.c: the pseudo random number generator

    The generator scrambles its state with SHA-256.  Arrays are lists, an
    access outside of an array is a fault; words are kept at 32 bits. *)

From S2P Require Import Prelude.

(** ** Arrays *)

Definition get (a : list Z) (i : Z) : res Z :=
  valid! (0 <=? i); match a !! Z.to_nat i with Some x => Ret x | None => Fault end.
Definition set (a : list Z) (i x : Z) : res (list Z) :=
  valid! ((0 <=? i) && (i <? Z.of_nat (length a))); Ret (<[Z.to_nat i := x]> a).
(** [memcpy] of all of [src] to the start of [dst] *)
Definition copy_words (dst src : list Z) : res (list Z) :=
  valid! (length src <=? length dst)%nat; Ret (src ++ drop (length src) dst).

(** ** SHA-256 *)

Definition INITAL_HASH : list Z :=
  [0x6a09e667; 0xbb67ae85; 0x3c6ef372; 0xa54ff53a; 0x510e527f; 0x9b05688c; 0x1f83d9ab; 0x5be0cd19].

(** The words are in decimal; the comment at each row gives it as the source writes it. *)
Definition K : list Z :=
  (* 0x428a2f98 0x71374491 0xb5c0fbcf 0xe9b5dba5 0x3956c25b 0x59f111f1 0x923f82a4 0xab1c5ed5 *)
  [1116352408; 1899447441; 3049323471; 3921009573; 961987163; 1508970993; 2453635748; 2870763221;
  (* 0xd807aa98 0x12835b01 0x243185be 0x550c7dc3 0x72be5d74 0x80deb1fe 0x9bdc06a7 0xc19bf174 *)
   3624381080; 310598401; 607225278; 1426881987; 1925078388; 2162078206; 2614888103; 3248222580;
  (* 0xe49b69c1 0xefbe4786 0x0fc19dc6 0x240ca1cc 0x2de92c6f 0x4a7484aa 0x5cb0a9dc 0x76f988da *)
   3835390401; 4022224774; 264347078; 604807628; 770255983; 1249150122; 1555081692; 1996064986;
  (* 0x983e5152 0xa831c66d 0xb00327c8 0xbf597fc7 0xc6e00bf3 0xd5a79147 0x06ca6351 0x14292967 *)
   2554220882; 2821834349; 2952996808; 3210313671; 3336571891; 3584528711; 113926993; 338241895;
  (* 0x27b70a85 0x2e1b2138 0x4d2c6dfc 0x53380d13 0x650a7354 0x766a0abb 0x81c2c92e 0x92722c85 *)
   666307205; 773529912; 1294757372; 1396182291; 1695183700; 1986661051; 2177026350; 2456956037;
  (* 0xa2bfe8a1 0xa81a664b 0xc24b8b70 0xc76c51a3 0xd192e819 0xd6990624 0xf40e3585 0x106aa070 *)
   2730485921; 2820302411; 3259730800; 3345764771; 3516065817; 3600352804; 4094571909; 275423344;
  (* 0x19a4c116 0x1e376c08 0x2748774c 0x34b0bcb5 0x391c0cb3 0x4ed8aa4a 0x5b9cca4f 0x682e6ff3 *)
   430227734; 506948616; 659060556; 883997877; 958139571; 1322822218; 1537002063; 1747873779;
  (* 0x748f82ee 0x78a5636f 0x84c87814 0x8cc70208 0x90befffa 0xa4506ceb 0xbef9a3f7 0xc67178f2 *)
   1955562222; 2024104815; 2227730452; 2361852424; 2428436474; 2756734187; 3204031479; 3329325298].

Definition ch (x y z : Z) : Z := Z.lxor (Z.land x y) (Z.land (u32 (Z.lnot x)) z).
Definition maj (x y z : Z) : Z := Z.lxor (Z.lxor (Z.land x y) (Z.land x z)) (Z.land y z).
Definition rot (value count : Z) : Z := Z.lor (Z.shiftr value count) (u32 (Z.shiftl value (32 - count))).
Definition upper_sig0 (x : Z) : Z := Z.lxor (Z.lxor (rot x 2) (rot x 13)) (rot x 22).
Definition upper_sig1 (x : Z) : Z := Z.lxor (Z.lxor (rot x 6) (rot x 11)) (rot x 25).
Definition lower_sig0 (x : Z) : Z := Z.lxor (Z.lxor (rot x 7) (rot x 18)) (Z.shiftr x 3).
Definition lower_sig1 (x : Z) : Z := Z.lxor (Z.lxor (rot x 17) (rot x 19)) (Z.shiftr x 10).

(** The first loop: [w[i]]. *)
Definition schedule_step (i : Z) (w : list Z) : res (list Z) :=
  let* w2 := get w (i - 2) in
  let* w7 := get w (i - 7) in
  let* w15 := get w (i - 15) in
  let* w16 := get w (i - 16) in
  set w i (u32 (u32 (u32 (lower_sig1 w2 + w7) + lower_sig0 w15) + w16)).

(** [enum alphabet]: the indices of the working variables. *)
Definition A : Z := 0.
Definition B : Z := 1.
Definition C : Z := 2.
Definition D : Z := 3.
Definition E : Z := 4.
Definition F : Z := 5.
Definition G : Z := 6.
Definition H : Z := 7.

(** The second loop. *)
Definition round_step (w : list Z) (i : Z) (w_hash : list Z) : res (list Z) :=
  let* h := get w_hash H in
  let* e := get w_hash E in
  let* f := get w_hash F in
  let* g := get w_hash G in
  let* k := get K i in
  let* x := get w i in
  let t1 := u32 (u32 (u32 (u32 (h + upper_sig1 e) + ch e f g) + k) + x) in
  let* a := get w_hash A in
  let* b := get w_hash B in
  let* c := get w_hash C in
  let t2 := u32 (upper_sig0 a + maj a b c) in
  let* v := get w_hash G in let* w_hash := set w_hash H v in
  let* v := get w_hash F in let* w_hash := set w_hash G v in
  let* v := get w_hash E in let* w_hash := set w_hash F v in
  let* v := get w_hash D in let* w_hash := set w_hash E (u32 (v + t1)) in
  let* v := get w_hash C in let* w_hash := set w_hash D v in
  let* v := get w_hash B in let* w_hash := set w_hash C v in
  let* v := get w_hash A in let* w_hash := set w_hash B v in
  set w_hash A (u32 (t1 + t2)).

(** The last loop. *)
Definition add_step (w_hash : list Z) (i : Z) (hash : list Z) : res (list Z) :=
  let* x := get hash i in
  let* y := get w_hash i in
  set hash i (u32 (x + y)).

(** [w] holds arbitrary values before the copy. *)
Definition sha256_chunk (chunk hash : list Z) : res (list Z) :=
  let* w := copy_words (replicate 64 0) chunk in
  let* w := for_ 48 16 schedule_step w in
  let* w_hash := copy_words (replicate 8 0) hash in
  let* w_hash := for_ 64 0 (round_step w) w_hash in
  for_ 8 0 (add_step w_hash) hash.

Definition sha256_hash (n : Z) (input hash : list Z) : res (list Z) :=
  let* chunk := set (replicate 16 0) 15 (u32 (4 * n * 8)) in
  let* chunk := copy_words chunk input in
  let* chunk := set chunk n (2 ^ 31) in
  let* hash := copy_words hash INITAL_HASH in
  sha256_chunk chunk hash.

(** ** The generator *)

Record prng_state : Type := mk_prng { prng_hash : list Z; next_word : Z }.

Definition prng_init (seed : Z) : res prng_state :=
  let seed_arr := [Z.shiftr seed 32; u32 seed] in
  let* hash := sha256_hash 2 seed_arr (replicate 8 0) in
  Ret (mk_prng hash 0).

Definition prng_scramble (state : prng_state) : res prng_state :=
  let* input := copy_words (replicate 8 0) (prng_hash state) in
  let* hash := sha256_hash 8 input (prng_hash state) in
  Ret (mk_prng hash 0).

(** The code calls itself after scrambling; [fuel] bounds the calls. *)
Fixpoint prng32_calls (fuel : nat) (state : prng_state) : res (Z * prng_state) :=
  match fuel with
  | O => Hang
  | S fuel =>
      if next_word state <? 8 then
        let* x := get (prng_hash state) (next_word state) in
        Ret (x, mk_prng (prng_hash state) (u8 (next_word state + 1)))
      else
        let* state := prng_scramble state in
        prng32_calls fuel state
  end.
Definition prng32 (state : prng_state) : res (Z * prng_state) := prng32_calls 2 state.

Definition prng64 (state : prng_state) : res (Z * prng_state) :=
  let* '(high, state) := prng32 state in
  let* '(low, state) := prng32 state in
  Ret (Z.lor (u64 (Z.shiftl high 32)) low, state).
