(* ===== verification/RandProps.v ===== *)
(** * lib/rand.c: SHA-256 as in FIPS 180-4, and the stream of numbers

    The reference follows the standard: the constants from roots of primes,
    the functions bit by bit, padding and parsing of a message of bits, the
    schedule and the rounds as recurrences. *)

From S2P Require Import Prelude.
From S2P Require Import Bitops.
From S2P Require Import Rand.

(** ** The standard *)

(** Rotation to the right of a word of 32 bits. *)
Definition ROTR (n x : Z) : Z := x / 2 ^ n + 2 ^ (32 - n) * (x mod 2 ^ n).
Definition SHR (n x : Z) : Z := x / 2 ^ n.
(** Bit by bit, "if x then y else z" and the majority. *)
Definition Ch (x y z : Z) : Z := Z.lor (Z.land x y) (Z.ldiff z x).
Definition Maj (x y z : Z) : Z := Z.lor (Z.lor (Z.land x y) (Z.land x z)) (Z.land y z).
Definition Sigma0 (x : Z) : Z := Z.lxor (Z.lxor (ROTR 2 x) (ROTR 13 x)) (ROTR 22 x).
Definition Sigma1 (x : Z) : Z := Z.lxor (Z.lxor (ROTR 6 x) (ROTR 11 x)) (ROTR 25 x).
Definition sigma0 (x : Z) : Z := Z.lxor (Z.lxor (ROTR 7 x) (ROTR 18 x)) (SHR 3 x).
Definition sigma1 (x : Z) : Z := Z.lxor (Z.lxor (ROTR 17 x) (ROTR 19 x)) (SHR 10 x).

(** The first [n] primes. *)
Definition is_prime (p : Z) : bool := (2 <=? p) && forallb (λ d, negb (p mod d =? 0)) (seqZ 2 (p - 2)).
Definition primes (n : nat) : list Z := take n (List.filter is_prime (seqZ 2 310)).
(** [r] is the first 32 bits of the fractional part of the [k]-th root of [p]. *)
Definition root_bits (k p r : Z) : Prop :=
  ∃ i, 0 ≤ r < 2 ^ 32 ∧ (i * 2 ^ 32 + r) ^ k ≤ p * 2 ^ (32 * k) < (i * 2 ^ 32 + r + 1) ^ k.

(** The message schedule of a block. *)
Definition is_schedule (M W : list Z) : Prop :=
  length W = 64%nat ∧ (∀ t, (t < 16)%nat → nth t W 0 = nth t M 0) ∧
  ∀ t, (16 ≤ t < 64)%nat →
    nth t W 0 = (sigma1 (nth (t - 2) W 0) + nth (t - 7) W 0 + sigma0 (nth (t - 15) W 0) + nth (t - 16) W 0) mod 2 ^ 32.
Fixpoint extend_schedule (n : nat) (W : list Z) : list Z :=
  match n with
  | O => W
  | S n => let t := length W in
      extend_schedule n (W ++ [(sigma1 (nth (t - 2) W 0) + nth (t - 7) W 0 + sigma0 (nth (t - 15) W 0) + nth (t - 16) W 0) mod 2 ^ 32])
  end.
Definition schedule (M : list Z) : list Z := extend_schedule 48 M.

(** One round: the eight working variables. *)
Definition round (v : list Z) (kw : Z * Z) : list Z :=
  match v with
  | [a; b; c; d; e; f; g; h] =>
      let T1 := h + Sigma1 e + Ch e f g + kw.1 + kw.2 in
      let T2 := Sigma0 a + Maj a b c in
      [(T1 + T2) mod 2 ^ 32; a; b; c; (d + T1) mod 2 ^ 32; e; f; g]
  | _ => v
  end.
Definition compress (h M : list Z) : list Z :=
  zip_with (λ x y, (x + y) mod 2 ^ 32) h (foldl round h (zip K (schedule M))).

(** Padding, parsing and hashing of a message of bits. *)
Definition be_bits (w : nat) (x : Z) : list bool := (λ i, Z.testbit x (Z.of_nat (w - 1 - i))) <$> seq 0 w.
Definition of_bits (l : list bool) : Z := foldl (λ x b, 2 * x + Z.b2z b) 0 l.
Definition pad (m : list bool) : list bool :=
  let l := Z.of_nat (length m) in
  m ++ [true] ++ replicate (Z.to_nat ((448 - (l + 1)) mod 512)) false ++ be_bits 64 l.
Fixpoint chunks {A} (fuel n : nat) (l : list A) : list (list A) :=
  match fuel, l with
  | S fuel, _ :: _ => take n l :: chunks fuel n (drop n l)
  | _, _ => []
  end.
Definition words_of (l : list bool) : list Z := of_bits <$> chunks (length l) 32 l.
Definition SHA256 (m : list bool) : list Z :=
  foldl (λ h M, compress h (words_of M)) INITAL_HASH (chunks (length (pad m)) 512 (pad m)).

(** ** Functions on words *)

Definition word (x : Z) : Prop := 0 ≤ x < 2 ^ 32.

Lemma word_bits x i : word x → 32 ≤ i → Z.testbit x i = false.
Proof. intros Hx Hi. rewrite <- (Z.mod_small x (2 ^ 32)) by done. by apply Z.mod_pow2_bits_high. Qed.

Lemma word_of_bits x : (∀ i, 32 ≤ i → Z.testbit x i = false) → word (Z.land x (Z.ones 32)) ∧ Z.land x (Z.ones 32) = x.
Proof.
  intros Hb. split.
  - rewrite Z.land_ones by lia. by apply Z.mod_pos_bound.
  - apply Z.bits_inj'. intros i Hi. rewrite Z.land_spec, Z.testbit_ones_nonneg by lia.
    destruct (Z.ltb_spec i 32); [by rewrite andb_true_r|rewrite Hb by lia; done].
Qed.

(** A number without bits from 32 on is a word. *)
Lemma word_intro x : (∀ i, 32 ≤ i → Z.testbit x i = false) → word x.
Proof. intros [H <-]%word_of_bits. done. Qed.

Lemma lxor_word x y : word x → word y → word (Z.lxor x y).
Proof. intros Hx Hy. apply word_intro. intros i Hi. by rewrite Z.lxor_spec, !word_bits. Qed.
Lemma shiftr_word x n : 0 ≤ n → word x → word (Z.shiftr x n).
Proof. intros Hn Hx. apply word_intro. intros i Hi. rewrite Z.shiftr_spec by lia. apply word_bits; [done|lia]. Qed.
Lemma u32_word x : word (u32 x).
Proof. apply u32_range. Qed.
Lemma rot_word x n : 0 ≤ n → word x → word (rot x n).
Proof.
  intros Hn Hx. apply word_intro. intros i Hi. unfold rot.
  rewrite Z.lor_spec, (word_bits (Z.shiftr x n)), (word_bits (u32 _)) by (done || apply u32_word || by apply shiftr_word). done.
Qed.

Lemma rot_ROTR x n : 0 < n < 32 → word x → rot x n = ROTR n x.
Proof.
  intros Hn Hx. unfold rot, ROTR. rewrite Z.shiftr_div_pow2, Z.shiftl_mul_pow2 by lia.
  assert (E : u32 (x * 2 ^ (32 - n)) = 2 ^ (32 - n) * (x mod 2 ^ n)).
  { unfold u32. replace (2 ^ 32) with (2 ^ n * 2 ^ (32 - n)) by (rewrite <- Z.pow_add_r by lia; f_equal; lia).
    rewrite Z.mul_mod_distr_r by lia. lia. }
  rewrite E. symmetry. apply Z.add_nocarry_lor. apply Z.bits_inj'. intros i Hi. rewrite Z.land_spec, Z.bits_0.
  destruct (Z.lt_ge_cases i (32 - n)).
  - by rewrite Z.mul_comm, Z.mul_pow2_bits_low, andb_false_r.
  - rewrite Z.div_pow2_bits by lia. by rewrite word_bits by (done || lia).
Qed.

Lemma ch_Ch x y z : word z → ch x y z = Ch x y z.
Proof.
  intros Hz. unfold ch, Ch, u32. apply Z.bits_inj'. intros i Hi.
  rewrite Z.lxor_spec, Z.lor_spec, !Z.land_spec, Z.ldiff_spec. destruct (Z.lt_ge_cases i 32).
  - rewrite Z.mod_pow2_bits_low, Z.lnot_spec by lia. by destruct (Z.testbit x i), (Z.testbit y i), (Z.testbit z i).
  - rewrite (word_bits z) by (done || lia). by rewrite andb_false_r, xorb_false_r, orb_false_r.
Qed.

Lemma maj_Maj x y z : maj x y z = Maj x y z.
Proof.
  unfold maj, Maj. apply Z.bits_inj'. intros i Hi. rewrite !Z.lxor_spec, !Z.lor_spec, !Z.land_spec.
  by destruct (Z.testbit x i), (Z.testbit y i), (Z.testbit z i).
Qed.

Lemma sig_eqs x : word x →
  upper_sig0 x = Sigma0 x ∧ upper_sig1 x = Sigma1 x ∧ lower_sig0 x = sigma0 x ∧ lower_sig1 x = sigma1 x.
Proof.
  intros Hx. unfold upper_sig0, upper_sig1, lower_sig0, lower_sig1, Sigma0, Sigma1, sigma0, sigma1, SHR.
  by rewrite !rot_ROTR, !Z.shiftr_div_pow2 by (done || lia).
Qed.

(** Truncation of sums. *)
Lemma u32_add3 a b c : u32 (u32 (a + b) + c) = u32 (a + b + c).
Proof. unfold u32. by rewrite Zplus_mod_idemp_l. Qed.
Lemma u32_add4 a b c d : u32 (u32 (u32 (a + b) + c) + d) = u32 (a + b + c + d).
Proof. by rewrite (u32_add3 a b c), u32_add3. Qed.
Lemma u32_add5 a b c d e : u32 (u32 (u32 (u32 (a + b) + c) + d) + e) = u32 (a + b + c + d + e).
Proof. by rewrite (u32_add4 a b c d), u32_add3. Qed.

(** ** Arrays *)

Lemma get_nth a i : 0 ≤ i < Z.of_nat (length a) → get a i = Ret (nth (Z.to_nat i) a 0).
Proof.
  intros Hi. unfold get. rewrite (proj2 (Z.leb_le 0 i)) by lia.
  destruct (lookup_lt_is_Some_2 a (Z.to_nat i)) as [x Hx]; [lia|]. rewrite Hx. by rewrite (nth_lookup_Some _ _ 0 _ Hx).
Qed.
Lemma set_ok a i x : 0 ≤ i < Z.of_nat (length a) → set a i x = Ret (<[Z.to_nat i := x]> a).
Proof. intros Hi. unfold set. by rewrite (proj2 (Z.leb_le 0 i)), (proj2 (Z.ltb_lt i _)) by lia. Qed.

Lemma words_nth (l : list Z) i : Forall word l → word (nth i l 0).
Proof. intros Hl. destruct (nth_in_or_default i l 0) as [Hi| ->]; [|by split]. rewrite Forall_forall in Hl. by apply Hl, list_elem_of_In. Qed.

Lemma u32_eq x : u32 x = x mod 2 ^ 32.
Proof. done. Qed.

#[local] Opaque u32 ch maj upper_sig0 upper_sig1 lower_sig0 lower_sig1 Ch Maj Sigma0 Sigma1 sigma0 sigma1.

(** ** The schedule *)

Definition next_W (W : list Z) : Z :=
  let t := length W in
  (sigma1 (nth (t - 2) W 0) + nth (t - 7) W 0 + sigma0 (nth (t - 15) W 0) + nth (t - 16) W 0) mod 2 ^ 32.

Lemma extend_schedule_snoc n W : extend_schedule (S n) W = extend_schedule n W ++ [next_W (extend_schedule n W)].
Proof. revert W. induction n as [|n IH]; intros W; [done|]. exact (IH (W ++ [next_W W])). Qed.

Lemma extend_schedule_length n W : length (extend_schedule n W) = (length W + n)%nat.
Proof. induction n as [|n IH]; [cbn; lia|]. rewrite extend_schedule_snoc, length_app, IH. cbn. lia. Qed.

Lemma extend_schedule_words n W : Forall word W → Forall word (extend_schedule n W).
Proof.
  intros HW. induction n as [|n IH]; [done|]. rewrite extend_schedule_snoc. apply Forall_app. split; [done|].
  constructor; [by apply Z.mod_pos_bound|done].
Qed.

Lemma schedule_loop M rest :
  length M = 16%nat → Forall word M → length rest = 48%nat →
  for_ 48 16 schedule_step (M ++ rest) = Ret (schedule M).
Proof.
  intros HM Hw Hr. apply post_ret. eapply post_mono; [apply (for_inv (λ i w,
    length w = 64%nat ∧ take (Z.to_nat i) w = extend_schedule (Z.to_nat i - 16) M) 48 16)|].
  - split; [rewrite length_app; lia|]. change (Z.to_nat 16) with 16%nat. by rewrite <- HM, take_app_length, Nat.sub_diag.
  - intros i w Hi [Hl Ht]. set (V := extend_schedule (Z.to_nat i - 16) M) in *.
    assert (HV : length V = Z.to_nat i) by (unfold V; rewrite extend_schedule_length; lia).
    assert (Hn : ∀ j, (j < Z.to_nat i)%nat → nth j w 0 = nth j V 0).
    { intros j Hj. rewrite <- Ht, !nth_lookup, lookup_take_lt by done. done. }
    assert (HVw : ∀ j, word (nth j V 0)) by (intros j; by apply words_nth, extend_schedule_words).
    unfold schedule_step. rewrite !get_nth by lia. cbn [bind]. rewrite set_ok by lia. cbn [post]. rewrite !Hn by lia.
    split; [by rewrite length_insert|]. replace (Z.to_nat (i + 1)) with (S (Z.to_nat i)) by lia.
    replace (S (Z.to_nat i) - 16)%nat with (S (Z.to_nat i - 16)) by lia. rewrite extend_schedule_snoc. fold V.
    rewrite (take_S_r _ _ (next_W V)); [by rewrite take_insert_ge, Ht by lia|]. rewrite list_lookup_insert_eq by lia. f_equal.
    unfold next_W. rewrite HV, u32_add4. rewrite !u32_eq. destruct (sig_eqs _ (HVw (Z.to_nat i - 2)%nat)) as (_ & _ & _ & <-).
    destruct (sig_eqs _ (HVw (Z.to_nat i - 15)%nat)) as (_ & _ & <- & _).
    repeat f_equal; lia.
  - intros w [Hl Ht]. change (Z.to_nat (16 + Z.of_nat 48)) with 64%nat in Ht. by rewrite take_ge in Ht by lia.
Qed.

(** ** The rounds *)

(** A list of eight words. *)
Definition eight (v : list Z) : Prop := length v = 8%nat ∧ Forall word v.

Lemma eight_cases v : eight v → ∃ a b c d e f g h, v = [a; b; c; d; e; f; g; h] ∧
  word a ∧ word b ∧ word c ∧ word d ∧ word e ∧ word f ∧ word g ∧ word h.
Proof.
  intros [Hl Hw]. do 8 (destruct v as [|? v]; [discriminate|]). destruct v; [|discriminate].
  repeat (apply Forall_cons in Hw as [? Hw]). repeat eexists; try done; lia || (unfold word in *; lia).
Qed.

Lemma round_eight v kw : eight v → eight (round v kw).
Proof.
  intros (a & b & c & d & e & f & g & h & -> & Ha & Hb & Hc & Hd & He & Hf & Hg & Hh)%eight_cases.
  split; [done|]. repeat (apply Forall_cons; split; [done || by apply Z.mod_pos_bound|]). done.
Qed.

Lemma bind_Ret {T U} (a : T) (f : T → res U) : bind (Ret a) f = f a.
Proof. done. Qed.

(** Accesses to the eight variables, one at a time. *)
Ltac access_step :=
  match goal with
  | |- context [get (?x :: ?l) ?i] =>
      let r := eval cbv -[u32 upper_sig0 upper_sig1 ch maj Z.add] in (get (x :: l) i) in replace (get (x :: l) i) with r by reflexivity
  | |- context [set (?x :: ?l) ?i ?v] =>
      let r := eval cbv -[u32 upper_sig0 upper_sig1 ch maj Z.add] in (set (x :: l) i v) in replace (set (x :: l) i v) with r by reflexivity
  end; rewrite ?bind_Ret; cbv beta.

(** One round, with the constant [k] and the word [x]. *)
Lemma round_step_run W i k x a b c d e f g h : get K i = Ret k → get W i = Ret x →
  let t1 := u32 (u32 (u32 (u32 (h + upper_sig1 e) + ch e f g) + k) + x) in
  let t2 := u32 (upper_sig0 a + maj a b c) in
  round_step W i [a; b; c; d; e; f; g; h] = Ret [u32 (t1 + t2); a; b; c; u32 (d + t1); e; f; g].
Proof.
  intros Hk Hx t1 t2. unfold round_step. repeat (access_step || rewrite Hk, bind_Ret || rewrite Hx, bind_Ret). done.
Qed.

Lemma round_step_ok W i v : 0 ≤ i < 64 → length W = 64%nat → eight v →
  round_step W i v = Ret (round v (nth (Z.to_nat i) K 0, nth (Z.to_nat i) W 0)).
Proof.
  intros Hi HW (a & b & c & d & e & f & g & h & -> & Ha & Hb & Hc & Hd & He & Hf & Hg & Hh)%eight_cases.
  rewrite (round_step_run W i (nth (Z.to_nat i) K 0) (nth (Z.to_nat i) W 0)) by (apply get_nth; rewrite ?HW; done).
  generalize (nth (Z.to_nat i) K 0) (nth (Z.to_nat i) W 0). intros k x. cbv zeta.
  rewrite (u32_add5 h _ _ k x), ch_Ch, maj_Maj by done.
  destruct (sig_eqs a Ha) as (-> & _). destruct (sig_eqs e He) as (_ & -> & _). unfold round.
  cbn [fst snd]. set (T1 := h + _ + _ + _ + _). set (T2 := Sigma0 a + _). rewrite !u32_eq.
  by rewrite Zplus_mod_idemp_l, !Zplus_mod_idemp_r.
Qed.

Lemma rounds_loop W v : length W = 64%nat → eight v →
  for_ 64 0 (round_step W) v = Ret (foldl round v (zip K W)) ∧ eight (foldl round v (zip K W)).
Proof.
  intros HW Hv. assert (HK : length (zip K W) = 64%nat) by (rewrite length_zip_with, HW; done).
  assert (H : post (for_ 64 0 (round_step W) v) (λ v', v' = foldl round v (zip K W) ∧ eight v')).
  { eapply post_mono; [apply (for_inv (λ i v', v' = foldl round v (take (Z.to_nat i) (zip K W)) ∧ eight v') 64 0)|].
    - done.
    - intros i v' Hi [E He]. rewrite round_step_ok by (done || lia). cbn [post]. split; [|by apply round_eight].
      replace (Z.to_nat (i + 1)) with (S (Z.to_nat i)) by lia.
      rewrite (take_S_r _ _ (nth (Z.to_nat i) K 0, nth (Z.to_nat i) W 0)), foldl_app, <- E; [done|].
      apply lookup_zip_with_Some. eexists _, _. split; [done|].
      split; match goal with |- ?l !! _ = _ => destruct (lookup_lt_is_Some_2 l (Z.to_nat i)) as [x Hx]; [rewrite ?HW; cbn; lia|] end;
        rewrite Hx; by rewrite (nth_lookup_Some _ _ 0 _ Hx).
    - intros v' [E He]. change (Z.to_nat (0 + Z.of_nat 64)) with 64%nat in E. rewrite take_ge in E by lia. done. }
  apply post_inv in H as (v' & -> & -> & He). done.
Qed.

Lemma add_loop x y : length x = 8%nat → length y = 8%nat →
  for_ 8 0 (add_step y) x = Ret (zip_with (λ a b, u32 (a + b)) x y).
Proof.
  intros Hx Hy. do 8 (destruct x as [|? x]; [discriminate|]). destruct x; [|discriminate].
  do 8 (destruct y as [|? y]; [discriminate|]). destruct y; [|discriminate]. cbv -[u32 Z.add]. done.
Qed.

Lemma compress_eight h M : eight h → length M = 16%nat → Forall word M → eight (compress h M).
Proof.
  intros Hh HM Hw. assert (HW : length (schedule M) = 64%nat) by (unfold schedule; rewrite extend_schedule_length; lia).
  destruct (rounds_loop (schedule M) h HW Hh) as [_ [Hl _]]. unfold compress. split.
  - rewrite length_zip_with. destruct Hh. lia.
  - apply Forall_lookup_2. intros i x (a & b & -> & _)%lookup_zip_with_Some. by apply Z.mod_pos_bound.
Qed.

Lemma sha256_chunk_ok M h : eight h → length M = 16%nat → Forall word M → sha256_chunk M h = Ret (compress h M).
Proof.
  intros Hh HM Hw. unfold sha256_chunk, copy_words. rewrite length_replicate, HM. cbn [Nat.leb bind].
  rewrite schedule_loop by (done || by rewrite length_drop, length_replicate). cbn [bind].
  assert (HW : length (schedule M) = 64%nat) by (unfold schedule; rewrite extend_schedule_length; lia).
  pose proof Hh as [Hl _]. rewrite length_replicate, Hl. cbn [Nat.leb bind].
  rewrite drop_ge, app_nil_r by (by rewrite length_replicate). destruct (rounds_loop (schedule M) h HW Hh) as [-> [Hr _]]. cbn [bind].
  by apply add_loop.
Qed.

#[local] Opaque compress sha256_chunk.

(** ** Padding *)

Lemma be_bits_length w x : length (be_bits w x) = w.
Proof. unfold be_bits. by rewrite length_fmap, length_seq. Qed.

(** Reading the bits of a number. *)
Lemma of_bits_app l l' : of_bits (l ++ l') = of_bits l * 2 ^ Z.of_nat (length l') + of_bits l'.
Proof.
  unfold of_bits. induction l' as [|b l' IH] using rev_ind; [rewrite app_nil_r; cbn; lia|].
  rewrite app_assoc, !foldl_snoc, IH, length_app. cbn [length]. rewrite Nat2Z.inj_add, Z.pow_add_r by lia. cbn. lia.
Qed.

Lemma be_bits_S w x : be_bits (S w) x = be_bits w (x / 2) ++ [Z.odd x].
Proof.
  unfold be_bits. rewrite seq_S, fmap_app. f_equal.
  - apply list_fmap_ext. intros i k [-> Hk]%lookup_seq.
    rewrite Z.div2_bits by lia. f_equal. lia.
  - cbn. replace (w - 0 - w)%nat with 0%nat by lia. by rewrite Z.bit0_odd.
Qed.

Lemma of_be_bits w x : 0 ≤ x < 2 ^ Z.of_nat w → of_bits (be_bits w x) = x.
Proof.
  revert x. induction w as [|w IH]; intros x Hx; [cbn in *; lia|]. rewrite be_bits_S, of_bits_app.
  rewrite Nat2Z.inj_succ, Z.pow_succ_r in Hx by lia. rewrite IH by (split; [apply Z.div_pos; lia|apply Z.div_lt_upper_bound; lia]).
  cbn. pose proof (Z.div_mod x 2). rewrite Zmod_odd in *. destruct (Z.odd x); cbn; lia.
Qed.

(** The bits of a sequence of words. *)
Definition bits_of (ws : list Z) : list bool := concat (be_bits 32 <$> ws).

Lemma bits_of_length ws : length (bits_of ws) = (32 * length ws)%nat.
Proof.
  induction ws as [|w ws IH]; [done|]. change (bits_of (w :: ws)) with (be_bits 32 w ++ bits_of ws).
  rewrite length_app, be_bits_length, IH. cbn [length]. lia.
Qed.

Lemma bits_of_app ws ws' : bits_of (ws ++ ws') = bits_of ws ++ bits_of ws'.
Proof. unfold bits_of. by rewrite fmap_app, concat_app. Qed.

Lemma words_of_bits ws : Forall word ws → words_of (bits_of ws) = ws.
Proof.
  intros Hw. unfold words_of. assert (Hf : (length ws ≤ length (bits_of ws))%nat) by (rewrite bits_of_length; lia).
  revert Hf. generalize (length (bits_of ws)). intros fuel. revert fuel. induction Hw as [|w ws Hw Hws IH]; intros fuel Hf.
  - by destruct fuel.
  - cbn [length] in Hf. destruct fuel as [|fuel]; [lia|]. change (bits_of (w :: ws)) with (be_bits 32 w ++ bits_of ws).
    destruct (be_bits 32 w ++ bits_of ws) as [|b l] eqn:E; [apply (f_equal length) in E; rewrite length_app, be_bits_length in E; cbn in E; lia|].
    cbn [chunks]. rewrite <- E. rewrite take_app_length', drop_app_length' by (by rewrite be_bits_length). cbn [fmap list_fmap].
    f_equal; [by apply of_be_bits|]. apply IH. lia.
Qed.

Lemma chunks_one {T} n (l : list T) fuel : (0 < length l ≤ n)%nat → (0 < fuel)%nat → chunks fuel n l = [l].
Proof.
  intros Hl Hf. destruct fuel as [|fuel]; [lia|]. destruct l as [|x l]; [cbn in Hl; lia|]. cbn [chunks].
  rewrite take_ge, drop_ge by lia. by destruct fuel.
Qed.

(** The block of a short message. *)
Definition block_words (input : list Z) : list Z :=
  input ++ [2 ^ 31] ++ replicate (14 - length input) 0 ++ [32 * Z.of_nat (length input)].

Lemma pad_short input : (length input ≤ 13)%nat → pad (bits_of input) = bits_of (block_words input).
Proof.
  intros Hn. unfold pad, block_words. rewrite bits_of_length, bits_of_app. f_equal. revert Hn. generalize (length input). intros n Hn.
  do 14 (destruct n as [|n]; [vm_compute; reflexivity|]). lia.
Qed.

Lemma block_words_ok input : (length input ≤ 13)%nat → Forall word input →
  length (block_words input) = 16%nat ∧ Forall word (block_words input).
Proof.
  intros Hn Hw. unfold block_words. split; [rewrite !length_app, length_replicate; cbn; lia|].
  repeat apply Forall_app_2; [done|by repeat constructor|by apply Forall_replicate|].
  constructor; [unfold word; lia|done].
Qed.

Lemma SHA256_short input : (length input ≤ 13)%nat → Forall word input →
  SHA256 (bits_of input) = compress INITAL_HASH (block_words input).
Proof.
  intros Hn Hw. destruct (block_words_ok input Hn Hw) as [Hl Hb]. unfold SHA256. rewrite pad_short by done.
  assert (Hlen : length (bits_of (block_words input)) = 512%nat) by (rewrite bits_of_length, Hl; done). rewrite Hlen.
  rewrite chunks_one by lia. cbn [foldl]. by rewrite words_of_bits.
Qed.

Lemma sha256_hash_ok input hash : (length input ≤ 13)%nat → Forall word input → length hash = 8%nat →
  sha256_hash (Z.of_nat (length input)) input hash = Ret (SHA256 (bits_of input)).
Proof.
  intros Hn Hw Hh. destruct (block_words_ok input Hn Hw) as [Hl Hb]. rewrite SHA256_short by done.
  unfold sha256_hash. rewrite set_ok by (rewrite length_replicate; lia). cbn [bind].
  assert (E : ∀ x, <[Z.to_nat 15 := x]> (replicate 16 0) = replicate 15 0 ++ [x]) by reflexivity. rewrite E.
  unfold copy_words at 1. rewrite length_app, length_replicate. cbn [length]. rewrite (proj2 (Nat.leb_le _ _)) by lia. cbn [bind].
  rewrite set_ok by (rewrite length_app, length_drop, length_app, length_replicate; cbn; lia). cbn [bind].
  unfold copy_words. rewrite Hh. change (length INITAL_HASH) with 8%nat. cbn [Nat.leb bind]. rewrite (drop_ge hash), app_nil_r by lia.
  rewrite <- sha256_chunk_ok by (done || by split; [|repeat constructor]). f_equal.
  rewrite Nat2Z.id, u32_small by lia. unfold block_words.
  rewrite insert_app_r_alt, Nat.sub_diag by lia. f_equal. rewrite drop_app_le, drop_replicate by (rewrite length_replicate; lia).
  replace (15 - length input)%nat with (S (14 - length input)) by lia. cbn. f_equal. f_equal. f_equal. lia.
Qed.

(** ** The generator *)

(** The hash of the hash of ... the seed. *)
Definition seed_words (seed : Z) : list Z := [seed / 2 ^ 32; seed mod 2 ^ 32].
Fixpoint nth_hash (k : nat) (seed : Z) : list Z :=
  match k with O => SHA256 (bits_of (seed_words seed)) | S k => SHA256 (bits_of (nth_hash k seed)) end.

Lemma SHA256_eight input : (length input ≤ 13)%nat → Forall word input → eight (SHA256 (bits_of input)).
Proof.
  intros Hn Hw. destruct (block_words_ok input Hn Hw) as [Hl Hb]. rewrite SHA256_short by done.
  apply compress_eight; [|done..]. split; [done|]. by repeat constructor.
Qed.

Lemma seed_words_ok seed : 0 ≤ seed < 2 ^ 64 → Forall word (seed_words seed).
Proof.
  intros Hs. repeat constructor; try apply Z.mod_pos_bound; try lia; [apply Z.div_pos; lia|apply Z.div_lt_upper_bound; lia].
Qed.

Lemma nth_hash_eight k seed : 0 ≤ seed < 2 ^ 64 → eight (nth_hash k seed).
Proof.
  intros Hs. induction k as [|k [IH1 IH2]]; cbn [nth_hash]; apply SHA256_eight; [cbn; lia|by apply seed_words_ok|lia|done].
Qed.

#[local] Opaque SHA256.

(** The state after [i] numbers, at least one of them. *)
Definition prng_after (seed : Z) (i : nat) (st : prng_state) : Prop :=
  ∃ k j, i = (8 * k + j)%nat ∧ (j ≤ 8)%nat ∧ prng_hash st = nth_hash k seed ∧ next_word st = Z.of_nat j.

Lemma prng_init_spec seed : 0 ≤ seed < 2 ^ 64 → post (prng_init seed) (prng_after seed 0).
Proof.
  intros Hs. unfold prng_init. pose proof (sha256_hash_ok (seed_words seed) (replicate 8 0) ltac:(cbn; lia) (seed_words_ok seed Hs) eq_refl) as E.
  change (Z.of_nat _) with 2 in E. rewrite Z.shiftr_div_pow2, u32_eq by lia. change ([_; _]) with (seed_words seed).
  rewrite E. cbn [bind post]. exists 0%nat, 0%nat.
  split; [lia|]. split; [lia|]. split; reflexivity.
Qed.

Lemma prng32_scramble fuel st : next_word st = 8 →
  prng32_calls (S fuel) st = let* st := prng_scramble st in prng32_calls fuel st.
Proof. intros E. cbn [prng32_calls]. by rewrite E. Qed.

Lemma prng32_spec seed i st : 0 ≤ seed < 2 ^ 64 → prng_after seed i st →
  post (prng32 st) (λ '(x, st'), x = nth (i mod 8) (nth_hash (i / 8) seed) 0 ∧ prng_after seed (S i) st').
Proof.
  intros Hs (k & j & -> & Hj & Eh & En). unfold prng32.
  assert (Hrun : ∀ fuel k j st, (j < 8)%nat → prng_hash st = nth_hash k seed → next_word st = Z.of_nat j →
    prng32_calls (S fuel) st = Ret (nth j (nth_hash k seed) 0, mk_prng (nth_hash k seed) (Z.of_nat (S j)))).
  { intros fuel k' j' st' Hj' E1 E2. cbn [prng32_calls]. rewrite E1, E2. rewrite (proj2 (Z.ltb_lt _ 8)) by lia.
    destruct (nth_hash_eight k' seed Hs) as [Hl _]. rewrite get_nth by lia. cbn [bind]. rewrite Nat2Z.id, u8_small by lia.
    do 3 f_equal. lia. }
  destruct (decide (j < 8)%nat) as [Hlt|Hge].
  - rewrite (Hrun 1%nat k j) by done. cbn [post]. replace (8 * k + j)%nat with (j + k * 8)%nat by lia.
    rewrite Nat.Div0.mod_add, Nat.div_add, Nat.mod_small, Nat.div_small by lia. split; [done|].
    exists k, (S j). split; [lia|]. split; [lia|]. split; reflexivity.
  - assert (j = 8%nat) as -> by lia. rewrite prng32_scramble by done.
    destruct (nth_hash_eight k seed Hs) as [Hl Hw]. unfold prng_scramble, copy_words. rewrite Eh, Hl, length_replicate. cbn [Nat.leb bind].
    rewrite (drop_ge (replicate 8 0)), app_nil_r by done. pose proof (sha256_hash_ok (nth_hash k seed) (nth_hash k seed) ltac:(lia) Hw Hl) as E.
    rewrite Hl in E. change (Z.of_nat 8) with 8 in E. rewrite E. cbn [bind].
    rewrite (Hrun 0%nat (S k) 0%nat) by (done || lia). cbn [post]. replace (8 * k + 8)%nat with (0 + S k * 8)%nat by lia.
    rewrite Nat.Div0.mod_add, Nat.div_add, Nat.mod_small, Nat.div_small by lia. split; [done|].
    exists (S k), 1%nat. split; [lia|]. split; [lia|]. split; reflexivity.
Qed.

(** A test for [root_bits]. *)
Definition root_test (k p r : Z) : bool :=
  (0 <=? r) && (r <? 2 ^ 32) &&
  existsb (λ i, ((i * 2 ^ 32 + r) ^ k <=? p * 2 ^ (32 * k)) && (p * 2 ^ (32 * k) <? (i * 2 ^ 32 + r + 1) ^ k)) (seqZ 0 20).

Lemma root_test_ok k p r : root_test k p r = true → root_bits k p r.
Proof.
  unfold root_test. rewrite !andb_true_iff, existsb_exists. intros [[H1 H2] (i & _ & H3)]. exists i.
  rewrite andb_true_iff in H3. zbool. lia.
Qed.

Lemma roots_test_ok k ps rs : length ps = length rs → forallb (λ '(p, r), root_test k p r) (zip ps rs) = true →
  Forall2 (root_bits k) ps rs.
Proof.
  revert rs. induction ps as [|p ps IH]; intros [|r rs] Hl; try discriminate; [by constructor|]. cbn.
  rewrite andb_true_iff. intros [H1 H2]. constructor; [by apply root_test_ok|]. apply IH; [cbn in Hl; lia|done].
Qed.

Lemma sha256_hash_long input hash : (16 ≤ length input)%nat → sha256_hash (Z.of_nat (length input)) input hash = Fault.
Proof.
  intros Hn. unfold sha256_hash. rewrite set_ok by (rewrite length_replicate; lia). cbn [bind]. unfold copy_words at 1.
  rewrite length_insert, length_replicate. destruct (Nat.leb_spec (length input) 16); [|done]. cbn [bind]. unfold set.
  rewrite length_app, length_drop, length_insert, length_replicate. rewrite (proj2 (Z.ltb_ge _ _)) by lia. by rewrite andb_false_r.
Qed.

(** C27: SHA-256.  The constants are those of FIPS 180-4: the fractional parts of
    the cube and square roots of the first primes.  For a message of at most 13
    words [sha256_hash] returns the hash of the standard, whatever the output
    array held; for 14 or 15 words it does not append the padding of the
    standard, for more it writes outside of the block. *)
Theorem sha256_hash_correct :
  Forall2 (root_bits 3) (primes 64) K ∧ Forall2 (root_bits 2) (primes 8) INITAL_HASH ∧
  (∀ input hash, (length input ≤ 13)%nat → Forall word input → length hash = 8%nat →
     sha256_hash (Z.of_nat (length input)) input hash = Ret (SHA256 (bits_of input))) ∧
  (∀ input hash, (16 ≤ length input)%nat → sha256_hash (Z.of_nat (length input)) input hash = Fault).
Proof.
  split; [|split; [|split]]; [apply roots_test_ok; by vm_compute..|apply sha256_hash_ok|apply sha256_hash_long].
Qed.

(** The stream of numbers.  After [prng_init] the calls of [prng32] return
    the words of the iterated hash of the seed, eight per hash, without end;
    [prng64] joins two of them, the first one as the high half. *)
Theorem prng_stream_correct seed : 0 ≤ seed < 2 ^ 64 →
  post (prng_init seed) (prng_after seed 0) ∧
  (∀ i st, prng_after seed i st →
     post (prng32 st) (λ '(x, st'), x = nth (i mod 8) (nth_hash (i / 8) seed) 0 ∧ word x ∧ prng_after seed (S i) st') ∧
     post (prng64 st) (λ '(x, st'),
       x = nth (i mod 8) (nth_hash (i / 8) seed) 0 * 2 ^ 32 + nth (S i mod 8) (nth_hash (S i / 8) seed) 0 ∧
       prng_after seed (S (S i)) st')).
Proof.
  intros Hs. split; [by apply prng_init_spec|]. intros i st Hst.
  assert (Hw : ∀ j k, word (nth j (nth_hash k seed) 0)) by (intros j k; apply words_nth, nth_hash_eight, Hs).
  split; [eapply post_mono; [by apply (prng32_spec seed i)|]; intros [x st'] [-> H]; done|].
  unfold prng64. apply post_bind. eapply post_mono; [by apply (prng32_spec seed i)|]. intros [x st1] [-> H1].
  apply post_bind. eapply post_mono; [by apply (prng32_spec seed (S i))|]. intros [y st2] [-> H2]. cbn [post].
  split; [|done]. pose proof (Hw (i mod 8)%nat (i / 8)%nat) as Hx. pose proof (Hw (S i mod 8)%nat (S i / 8)%nat) as Hy. unfold word in *.
  rewrite Z.shiftl_mul_pow2, u64_small by lia. symmetry. apply Z.add_nocarry_lor. apply Z.bits_inj'. intros b Hb.
  rewrite Z.land_spec, Z.bits_0. destruct (Z.lt_ge_cases b 32); [by rewrite Z.mul_pow2_bits_low by lia|].
  by rewrite (word_bits (nth (S i mod 8) _ 0)), andb_false_r.
Qed.

Lemma prng_stream_correct_witness :
  post (prng_init 42) (prng_after 42 0) ∧
  ∀ st, prng_after 42 0 st → post (prng32 st) (λ '(x, st'), x = nth 0 (nth_hash 0 42) 0 ∧ word x ∧ prng_after 42 1 st').
Proof.
  destruct (prng_stream_correct 42 ltac:(lia)) as [H1 H2]. split; [exact H1|]. intros st Hst. exact (proj1 (H2 0%nat st Hst)).
Defined.

Lemma sha256_hash_correct_witness :
  sha256_hash 1 [0x61626364] (replicate 8 0) = Ret (SHA256 (bits_of [0x61626364])) ∧
  sha256_hash 16 (replicate 16 0) (replicate 8 0) = Fault.
Proof.
  destruct sha256_hash_correct as (_ & _ & H1 & H2). split.
  - exact (H1 [0x61626364] (replicate 8 0) ltac:(cbn; lia) ltac:(by repeat constructor) eq_refl).
  - exact (H2 (replicate 16 0) (replicate 8 0) ltac:(cbn; lia)).
Defined.
