(* ===== verification/Fdt.v ===== *)
(** * lib/libfdt/fdt.c: flattened device trees

    A blob lies in byte memory at the address [fdt].  Offsets are [int]s,
    sizes and header fields 32-bit unsigned; a conversion or a subtraction that
    leaves the range of its type wraps around.  The null pointer is 0.  The
    build has FDT_ASSUME_MASK 0, so that every [can_assume] is false; the
    branches it removes are left out. *)

From S2P Require Import Prelude.
From S2P Require Import CMem.
From S2P Require Import CString.

(** ** fdt.h, libfdt.h *)

Definition FDT_MAGIC : Z := 0xd00dfeed.
Definition FDT_TAGSIZE : Z := 4.
Definition FDT_BEGIN_NODE : Z := 0x1.
Definition FDT_END_NODE : Z := 0x2.
Definition FDT_PROP : Z := 0x3.
Definition FDT_NOP : Z := 0x4.
Definition FDT_END : Z := 0x9.
Definition FDT_V1_SIZE : Z := 7 * 4.
Definition FDT_V2_SIZE : Z := FDT_V1_SIZE + 4.
Definition FDT_V3_SIZE : Z := FDT_V2_SIZE + 4.
Definition FDT_V16_SIZE : Z := FDT_V3_SIZE.
Definition FDT_V17_SIZE : Z := FDT_V16_SIZE + 4.

Definition FDT_FIRST_SUPPORTED_VERSION : Z := 0x02.
Definition FDT_LAST_SUPPORTED_VERSION : Z := 0x11.
Definition FDT_ERR_NOTFOUND : Z := 1.
Definition FDT_ERR_NOSPACE : Z := 3.
Definition FDT_ERR_BADOFFSET : Z := 4.
Definition FDT_ERR_BADPATH : Z := 5.
Definition FDT_ERR_BADPHANDLE : Z := 6.
Definition FDT_ERR_BADSTATE : Z := 7.
Definition FDT_ERR_TRUNCATED : Z := 8.
Definition FDT_ERR_BADMAGIC : Z := 9.
Definition FDT_ERR_BADVERSION : Z := 10.
Definition FDT_ERR_BADSTRUCTURE : Z := 11.
Definition FDT_ERR_INTERNAL : Z := 13.
Definition FDT_ERR_BADVALUE : Z := 15.
Definition FDT_ERR_NOPHANDLES : Z := 17.
Definition FDT_ERR_ALIGNMENT : Z := 19.
Definition FDT_MAX_PHANDLE : Z := 0xfffffffe.
Definition FDT_SW_MAGIC : Z := u32 (Z.lnot FDT_MAGIC).
Definition INT32_MAX : Z := 2 ^ 31 - 1.

Definition FDT_ALIGN (x a : Z) : Z := Z.land (s32 (x + a - 1)) (Z.lnot (a - 1)).
Definition FDT_TAGALIGN (x : Z) : Z := FDT_ALIGN x FDT_TAGSIZE.

Section fdt.
Variable m : memory.

(** Big-endian words. *)
Definition fdt32_ld (p : Z) : res Z :=
  let* b0 := ldb m p in
  let* b1 := ldb m (p + 1) in
  let* b2 := ldb m (p + 2) in
  let* b3 := ldb m (p + 3) in
  Ret (Z.lor (Z.lor (Z.lor (Z.shiftl b0 24) (Z.shiftl b1 16)) (Z.shiftl b2 8)) b3).
Definition fdt32_ld_ (p : Z) : res Z := fdt32_ld p.
Definition fdt64_ld_ (p : Z) : res Z :=
  let* hi := fdt32_ld p in
  let* lo := fdt32_ld (p + 4) in
  Ret (Z.lor (Z.shiftl hi 32) lo).

(** The fields of the header. *)
Definition fdt_magic (fdt : Z) : res Z := fdt32_ld fdt.
Definition fdt_totalsize (fdt : Z) : res Z := fdt32_ld (fdt + 4).
Definition fdt_off_dt_struct (fdt : Z) : res Z := fdt32_ld (fdt + 8).
Definition fdt_off_dt_strings (fdt : Z) : res Z := fdt32_ld (fdt + 12).
Definition fdt_off_mem_rsvmap (fdt : Z) : res Z := fdt32_ld (fdt + 16).
Definition fdt_version (fdt : Z) : res Z := fdt32_ld (fdt + 20).
Definition fdt_last_comp_version (fdt : Z) : res Z := fdt32_ld (fdt + 24).
Definition fdt_size_dt_strings (fdt : Z) : res Z := fdt32_ld (fdt + 32).
Definition fdt_size_dt_struct (fdt : Z) : res Z := fdt32_ld (fdt + 36).

(** ** Checks of the header *)

Definition fdt_ro_probe_ (fdt : Z) : res Z :=
  let* totalsize := fdt_totalsize fdt in
  if negb (Z.land fdt 7 =? 0) then Ret (- FDT_ERR_ALIGNMENT) else
  let tail := if totalsize <? INT32_MAX then totalsize else - FDT_ERR_TRUNCATED in
  let* magic := fdt_magic fdt in
  if magic =? FDT_MAGIC then
    let* version := fdt_version fdt in
    if version <? FDT_FIRST_SUPPORTED_VERSION then Ret (- FDT_ERR_BADVERSION) else
    let* last := fdt_last_comp_version fdt in
    if FDT_LAST_SUPPORTED_VERSION <? last then Ret (- FDT_ERR_BADVERSION) else
    Ret tail
  else if magic =? FDT_SW_MAGIC then
    let* size := fdt_size_dt_struct fdt in
    if size =? 0 then Ret (- FDT_ERR_BADSTATE) else Ret tail
  else Ret (- FDT_ERR_BADMAGIC).

(** [FDT_RO_PROBE]: return the error, or go on. *)
Definition FDT_RO_PROBE (fdt : Z) (k : res Z) : res Z :=
  let* totalsize_ := fdt_ro_probe_ fdt in
  if totalsize_ <? 0 then Ret totalsize_ else k.

Definition check_off_ (hdrsize totalsize off : Z) : bool := (hdrsize <=? off) && (off <=? totalsize).

Definition check_block_ (hdrsize totalsize base size : Z) : bool :=
  if negb (check_off_ hdrsize totalsize base) then false else
  if u32 (base + size) <? base then false else
  if negb (check_off_ hdrsize totalsize (u32 (base + size))) then false else true.

Definition fdt_header_size_ (version : Z) : Z :=
  if version <=? 1 then FDT_V1_SIZE
  else if version <=? 2 then FDT_V2_SIZE
  else if version <=? 3 then FDT_V3_SIZE
  else if version <=? 16 then FDT_V16_SIZE
  else FDT_V17_SIZE.

Definition fdt_header_size (fdt : Z) : res Z :=
  let* version := fdt_version fdt in Ret (fdt_header_size_ version).

Definition fdt_check_header (fdt : Z) : res Z :=
  if negb (Z.land fdt 7 =? 0) then Ret (- FDT_ERR_ALIGNMENT) else
  let* magic := fdt_magic fdt in
  if negb (magic =? FDT_MAGIC) then Ret (- FDT_ERR_BADMAGIC) else
  let* version := fdt_version fdt in
  let* last := fdt_last_comp_version fdt in
  if (version <? FDT_FIRST_SUPPORTED_VERSION) || (FDT_LAST_SUPPORTED_VERSION <? last) then Ret (- FDT_ERR_BADVERSION) else
  if version <? last then Ret (- FDT_ERR_BADVERSION) else
  let* hdrsize := fdt_header_size fdt in
  let* totalsize := fdt_totalsize fdt in
  if (totalsize <? hdrsize) || (INT32_MAX <? totalsize) then Ret (- FDT_ERR_TRUNCATED) else
  let* off := fdt_off_mem_rsvmap fdt in
  if negb (check_off_ hdrsize totalsize off) then Ret (- FDT_ERR_TRUNCATED) else
  let* off := fdt_off_dt_struct fdt in
  let* struct_ok :=
    if version <? 17 then Ret (check_off_ hdrsize totalsize off)
    else let* size := fdt_size_dt_struct fdt in Ret (check_block_ hdrsize totalsize off size) in
  if negb struct_ok then Ret (- FDT_ERR_TRUNCATED) else
  let* off := fdt_off_dt_strings fdt in
  let* size := fdt_size_dt_strings fdt in
  if negb (check_block_ hdrsize totalsize off size) then Ret (- FDT_ERR_TRUNCATED) else
  Ret 0.

(** ** Tags *)

Definition fdt_offset_ptr_ (fdt offset : Z) : res Z :=
  let* off := fdt_off_dt_struct fdt in Ret (fdt + off + offset).

Definition fdt_offset_ptr (fdt offset len : Z) : res Z :=
  let uoffset := u32 offset in
  let* off := fdt_off_dt_struct fdt in
  let absoffset := u32 (offset + off) in
  if offset <? 0 then Ret 0 else
  let* totalsize := fdt_totalsize fdt in
  if (absoffset <? uoffset) || (u32 (absoffset + len) <? absoffset) || (totalsize <? u32 (absoffset + len)) then Ret 0 else
  let* version := fdt_version fdt in
  let* bad :=
    if 0x11 <=? version then
      let* size := fdt_size_dt_struct fdt in
      Ret ((u32 (uoffset + len) <? uoffset) || (size <? u32 (offset + len)))
    else Ret false in
  if bad then Ret 0 else fdt_offset_ptr_ fdt offset.

(** The loop over the name of a node. *)
Fixpoint skip_name (f : nat) (fdt offset : Z) : res (Z * Z) :=
  match f with
  | O => Hang
  | S f =>
      let* p := fdt_offset_ptr fdt offset 1 in
      let offset := s32 (offset + 1) in
      if p =? 0 then Ret (p, offset) else
      let* c := ldc m p in
      if negb (c =? 0) then skip_name f fdt offset else Ret (p, offset)
  end.

(** The tag and [*nextoffset]. *)
Definition fdt_next_tag (fdt startoffset : Z) : res (Z * Z) :=
  let offset := startoffset in
  let* tagp := fdt_offset_ptr fdt offset FDT_TAGSIZE in
  if tagp =? 0 then Ret (FDT_END, - FDT_ERR_TRUNCATED) else
  let* tag := fdt32_ld tagp in
  let offset := s32 (offset + FDT_TAGSIZE) in
  let finish (offset : Z) : res (Z * Z) :=
    let* p := fdt_offset_ptr fdt startoffset (u32 (s32 (offset - startoffset))) in
    if p =? 0 then Ret (FDT_END, - FDT_ERR_BADSTRUCTURE) else Ret (tag, FDT_TAGALIGN offset) in
  if tag =? FDT_BEGIN_NODE then
    let* '(p, offset) := skip_name (fuel m) fdt offset in
    if p =? 0 then Ret (FDT_END, - FDT_ERR_BADSTRUCTURE) else finish offset
  else if tag =? FDT_PROP then
    let* lenp := fdt_offset_ptr fdt offset 4 in
    if lenp =? 0 then Ret (FDT_END, - FDT_ERR_BADSTRUCTURE) else
    let* len := fdt32_ld lenp in
    let offset := s32 (offset + (12 - FDT_TAGSIZE + len)) in
    let* version := fdt_version fdt in
    let offset :=
      if (version <? 0x10) && (8 <=? len) && negb (u32 (offset - len) mod 8 =? 0) then s32 (offset + 4) else offset in
    finish offset
  else if (tag =? FDT_END) || (tag =? FDT_END_NODE) || (tag =? FDT_NOP) then finish offset
  else Ret (FDT_END, - FDT_ERR_BADSTRUCTURE).

Definition fdt_check_node_offset_ (fdt offset : Z) : res Z :=
  if (offset <? 0) || negb (Z.rem offset FDT_TAGSIZE =? 0) then Ret (- FDT_ERR_BADOFFSET) else
  let* '(tag, next) := fdt_next_tag fdt offset in
  if negb (tag =? FDT_BEGIN_NODE) then Ret (- FDT_ERR_BADOFFSET) else Ret next.

Definition fdt_check_prop_offset_ (fdt offset : Z) : res Z :=
  if (offset <? 0) || negb (Z.rem offset FDT_TAGSIZE =? 0) then Ret (- FDT_ERR_BADOFFSET) else
  let* '(tag, next) := fdt_next_tag fdt offset in
  if negb (tag =? FDT_PROP) then Ret (- FDT_ERR_BADOFFSET) else Ret next.

(** ** Nodes *)

(** The loop of [fdt_next_node]; [None] is a null [depth]. *)
Fixpoint next_node_loop (f : nat) (fdt nextoffset : Z) (depth : option Z) : res (Z * option Z) :=
  match f with
  | O => Hang
  | S f =>
      let offset := nextoffset in
      let* '(tag, nextoffset) := fdt_next_tag fdt offset in
      if tag =? FDT_BEGIN_NODE then Ret (offset, (λ d, d + 1) <$> depth)
      else if tag =? FDT_END_NODE then
        match depth with
        | Some d => if d - 1 <? 0 then Ret (nextoffset, Some (d - 1)) else next_node_loop f fdt nextoffset (Some (d - 1))
        | None => next_node_loop f fdt nextoffset None
        end
      else if tag =? FDT_END then
        if (0 <=? nextoffset) || ((nextoffset =? - FDT_ERR_TRUNCATED) && bool_decide (depth = None))
        then Ret (- FDT_ERR_NOTFOUND, depth) else Ret (nextoffset, depth)
      else next_node_loop f fdt nextoffset depth
  end.

Definition fdt_next_node (fdt offset : Z) (depth : option Z) : res (Z * option Z) :=
  if 0 <=? offset then
    let* nextoffset := fdt_check_node_offset_ fdt offset in
    if nextoffset <? 0 then Ret (nextoffset, depth) else next_node_loop (fuel m) fdt nextoffset depth
  else next_node_loop (fuel m) fdt 0 depth.

Definition depth_of (d : option Z) : Z := match d with Some d => d | None => 0 end.

Definition fdt_first_subnode (fdt offset : Z) : res Z :=
  let* '(offset, depth) := fdt_next_node fdt offset (Some 0) in
  if (offset <? 0) || negb (depth_of depth =? 1) then Ret (- FDT_ERR_NOTFOUND) else Ret offset.

Fixpoint next_subnode_loop (f : nat) (fdt offset depth : Z) : res Z :=
  match f with
  | O => Hang
  | S f =>
      let* '(offset, depth) := fdt_next_node fdt offset (Some depth) in
      if (offset <? 0) || (depth_of depth <? 1) then Ret (- FDT_ERR_NOTFOUND) else
      if 1 <? depth_of depth then next_subnode_loop f fdt offset (depth_of depth) else Ret offset
  end.
Definition fdt_next_subnode (fdt offset : Z) : res Z := next_subnode_loop (fuel m) fdt offset 1.

(** ** Strings and moving *)

Fixpoint find_string_loop (f : nat) (p last s len : Z) : res Z :=
  match f with
  | O => Hang
  | S f =>
      if p <=? last then
        let* c := memcmp m p s len in
        if c =? 0 then Ret p else find_string_loop f (p + 1) last s len
      else Ret 0
  end.
Definition fdt_find_string_ (strtab tabsize s : Z) : res Z :=
  let* l := strlen m s in
  let len := s32 (l + 1) in
  let last := strtab + tabsize - len in
  find_string_loop (S (Z.to_nat (last - strtab + 1))) strtab last s len.
End fdt.

Definition fdt_move (m : memory) (fdt buf bufsize : Z) : res (Z * memory) :=
  if bufsize <? 0 then Ret (- FDT_ERR_NOSPACE, m) else
  let* totalsize_ := fdt_ro_probe_ m fdt in
  if totalsize_ <? 0 then Ret (totalsize_, m) else
  let* totalsize := fdt_totalsize m fdt in
  if u32 bufsize <? totalsize then Ret (- FDT_ERR_NOSPACE, m) else
  let* '(_, m) := memmove m buf fdt totalsize in
  Ret (0, m).
