(* ===== verification/FdtRo.v ===== *)
(** * lib/libfdt/fdt_ro.c: reading a device tree

    Functions with an output argument for a length return it next to the
    pointer: a null pointer comes with the error code.  The strings the code
    names literally lie at addresses that are variables of the section. *)

From S2P Require Import Prelude.
From S2P Require Import CMem.
From S2P Require Import CString.
From S2P Require Import Fdt.

Definition c_slash : Z := 47.
Definition c_at : Z := 64.

Section ro.
Variable m : memory.

(** ** Strings *)

Definition fdt_get_string (fdt stroffset : Z) : res (Z * Z) :=
  let* totalsize := fdt_ro_probe_ m fdt in
  if totalsize <? 0 then Ret (0, totalsize) else
  let* off := fdt_off_dt_strings m fdt in
  let absoffset := u32 (stroffset + off) in
  if totalsize <=? absoffset then Ret (0, - FDT_ERR_BADOFFSET) else
  let len := totalsize - absoffset in
  let finish (len : Z) : res (Z * Z) :=
    let s := fdt + absoffset in
    let* n := memchr m s 0 len in
    if n =? 0 then Ret (0, - FDT_ERR_TRUNCATED) else Ret (s, n - s) in
  let* magic := fdt_magic m fdt in
  if magic =? FDT_MAGIC then
    if stroffset <? 0 then Ret (0, - FDT_ERR_BADOFFSET) else
    let* version := fdt_version m fdt in
    if 17 <=? version then
      let* size := fdt_size_dt_strings m fdt in
      if size <=? u32 stroffset then Ret (0, - FDT_ERR_BADOFFSET) else
      finish (if u32 (size - stroffset) <? len then u32 (size - stroffset) else len)
    else finish len
  else if magic =? FDT_SW_MAGIC then
    let sw_stroffset := u32 (- stroffset) in
    let* size := fdt_size_dt_strings m fdt in
    if (0 <=? stroffset) || (size <? sw_stroffset) then Ret (0, - FDT_ERR_BADOFFSET) else
    finish (if sw_stroffset <? len then sw_stroffset else len)
  else Ret (0, - FDT_ERR_INTERNAL).

Definition fdt_string (fdt stroffset : Z) : res Z :=
  let* '(s, _) := fdt_get_string fdt stroffset in Ret s.

Definition fdt_string_eq_ (fdt stroffset s len : Z) : res bool :=
  let* '(p, slen) := fdt_get_string fdt stroffset in
  if p =? 0 then Ret false else
  if negb (slen =? len) then Ret false else
  let* c := memcmp m p s len in
  Ret (c =? 0).

(** ** Names and reservations *)

Definition fdt_get_name (fdt nodeoffset : Z) : res (Z * Z) :=
  let* nh := fdt_offset_ptr_ m fdt nodeoffset in
  let* err := fdt_ro_probe_ m fdt in
  if err <? 0 then Ret (0, err) else
  let* err := fdt_check_node_offset_ m fdt nodeoffset in
  if err <? 0 then Ret (0, err) else
  let nameptr := nh + 4 in
  let* version := fdt_version m fdt in
  let* nameptr :=
    if version <? 0x10 then
      let* leaf := strrchr m nameptr c_slash in
      if leaf =? 0 then Ret 0 else Ret (leaf + 1)
    else Ret nameptr in
  if nameptr =? 0 then Ret (0, - FDT_ERR_BADSTRUCTURE) else
  let* len := strlen m nameptr in
  Ret (nameptr, s32 len).

Definition fdt_nodename_eq_ (fdt offset s len : Z) : res bool :=
  let* '(p, olen) := fdt_get_name fdt offset in
  if (p =? 0) || (olen <? len) then Ret false else
  let* c := memcmp m p s len in
  if negb (c =? 0) then Ret false else
  let* e := ldc m (p + len) in
  if e =? 0 then Ret true else
  let* at_ := memchr m s c_at len in
  Ret ((at_ =? 0) && (e =? c_at)).

Definition fdt_mem_rsv (fdt n : Z) : res Z :=
  let offset := u32 (n * 16) in
  let* off := fdt_off_mem_rsvmap m fdt in
  let absoffset := u32 (off + offset) in
  if absoffset <? off then Ret 0 else
  let* totalsize := fdt_totalsize m fdt in
  if u64 (totalsize - 16) <? absoffset then Ret 0 else
  Ret (fdt + off + n * 16).

(** The result, address and size. *)
Definition fdt_get_mem_rsv (fdt n : Z) : res (Z * Z * Z) :=
  let* totalsize_ := fdt_ro_probe_ m fdt in
  if totalsize_ <? 0 then Ret (totalsize_, 0, 0) else
  let* re := fdt_mem_rsv fdt n in
  if re =? 0 then Ret (- FDT_ERR_BADOFFSET, 0, 0) else
  let* address := fdt64_ld_ m re in
  let* size := fdt64_ld_ m (re + 8) in
  Ret (0, address, size).

Fixpoint num_mem_rsv_loop (f : nat) (fdt i : Z) : res Z :=
  match f with
  | O => Hang
  | S f =>
      let* re := fdt_mem_rsv fdt i in
      if re =? 0 then Ret (- FDT_ERR_TRUNCATED) else
      let* size := fdt64_ld_ m (re + 8) in
      if size =? 0 then Ret i else num_mem_rsv_loop f fdt (i + 1)
  end.
Definition fdt_num_mem_rsv (fdt : Z) : res Z := num_mem_rsv_loop (fuel m) fdt 0.

(** ** Properties *)

Fixpoint nextprop_loop (f : nat) (fdt offset : Z) : res Z :=
  match f with
  | O => Hang
  | S f =>
      let* '(tag, nextoffset) := fdt_next_tag m fdt offset in
      if tag =? FDT_END then
        if 0 <=? nextoffset then Ret (- FDT_ERR_BADSTRUCTURE) else Ret nextoffset
      else if tag =? FDT_PROP then Ret offset
      else if tag =? FDT_NOP then nextprop_loop f fdt nextoffset
      else Ret (- FDT_ERR_NOTFOUND)
  end.
Definition nextprop_ (fdt offset : Z) : res Z := nextprop_loop (fuel m) fdt offset.

Definition fdt_first_property_offset (fdt nodeoffset : Z) : res Z :=
  let* offset := fdt_check_node_offset_ m fdt nodeoffset in
  if offset <? 0 then Ret offset else nextprop_ fdt offset.

Definition fdt_next_property_offset (fdt offset : Z) : res Z :=
  let* offset := fdt_check_prop_offset_ m fdt offset in
  if offset <? 0 then Ret offset else nextprop_ fdt offset.

Definition fdt_get_property_by_offset_ (fdt offset : Z) : res (Z * Z) :=
  let* err := fdt_check_prop_offset_ m fdt offset in
  if err <? 0 then Ret (0, err) else
  let* prop := fdt_offset_ptr_ m fdt offset in
  let* len := fdt32_ld_ m (prop + 4) in
  Ret (prop, s32 len).

Definition fdt_get_property_by_offset (fdt offset : Z) : res (Z * Z) :=
  let* version := fdt_version m fdt in
  if version <? 0x10 then Ret (0, - FDT_ERR_BADVERSION) else fdt_get_property_by_offset_ fdt offset.

(** The property, its length and its offset. *)
Fixpoint get_property_loop (f : nat) (fdt offset name namelen : Z) : res (Z * Z * Z) :=
  match f with
  | O => Hang
  | S f =>
      if offset <? 0 then Ret (0, offset, 0) else
      let* '(prop, len) := fdt_get_property_by_offset_ fdt offset in
      if prop =? 0 then Ret (0, - FDT_ERR_INTERNAL, 0) else
      let* nameoff := fdt32_ld_ m (prop + 8) in
      let* eq := fdt_string_eq_ fdt (s32 nameoff) name namelen in
      if eq then Ret (prop, len, offset) else
      let* offset := fdt_next_property_offset fdt offset in
      get_property_loop f fdt offset name namelen
  end.
Definition fdt_get_property_namelen_ (fdt offset name namelen : Z) : res (Z * Z * Z) :=
  let* offset := fdt_first_property_offset fdt offset in
  get_property_loop (fuel m) fdt offset name namelen.

Definition fdt_get_property_namelen (fdt offset name namelen : Z) : res (Z * Z) :=
  let* version := fdt_version m fdt in
  if version <? 0x10 then Ret (0, - FDT_ERR_BADVERSION) else
  let* '(prop, len, _) := fdt_get_property_namelen_ fdt offset name namelen in Ret (prop, len).

Definition fdt_get_property (fdt nodeoffset name : Z) : res (Z * Z) :=
  let* l := strlen m name in fdt_get_property_namelen fdt nodeoffset name (s32 l).

(** The value behind a property header; old versions realign it. *)
Definition prop_data (fdt prop poffset : Z) : res Z :=
  let* version := fdt_version m fdt in
  if (version <? 0x10) && negb ((poffset + 12) mod 8 =? 0) then
    let* len := fdt32_ld_ m (prop + 4) in
    Ret (if 8 <=? len then prop + 12 + 4 else prop + 12)
  else Ret (prop + 12).

Definition fdt_getprop_namelen (fdt nodeoffset name namelen : Z) : res (Z * Z) :=
  let* '(prop, len, poffset) := fdt_get_property_namelen_ fdt nodeoffset name namelen in
  if prop =? 0 then Ret (0, len) else
  let* data := prop_data fdt prop poffset in Ret (data, len).

(** The value, its length and the name. *)
Definition fdt_getprop_by_offset (fdt offset : Z) : res (Z * Z * Z) :=
  let* '(prop, len) := fdt_get_property_by_offset_ fdt offset in
  if prop =? 0 then Ret (0, len, 0) else
  let* nameoff := fdt32_ld_ m (prop + 8) in
  let* '(name, namelen) := fdt_get_string fdt (s32 nameoff) in
  if name =? 0 then Ret (0, namelen, 0) else
  let* data := prop_data fdt prop offset in Ret (data, len, name).

Definition fdt_getprop (fdt nodeoffset name : Z) : res (Z * Z) :=
  let* l := strlen m name in fdt_getprop_namelen fdt nodeoffset name (s32 l).

(** ** Looking up nodes *)

Fixpoint subnode_loop (f : nat) (fdt offset depth name namelen : Z) : res Z :=
  match f with
  | O => Hang
  | S f =>
      if (0 <=? offset) && (0 <=? depth) then
        let* hit := if depth =? 1 then fdt_nodename_eq_ fdt offset name namelen else Ret false in
        if hit : bool then Ret offset else
        let* '(offset, depth) := fdt_next_node m fdt offset (Some depth) in
        subnode_loop f fdt offset (depth_of depth) name namelen
      else if depth <? 0 then Ret (- FDT_ERR_NOTFOUND) else Ret offset
  end.
Definition fdt_subnode_offset_namelen (fdt offset name namelen : Z) : res Z :=
  FDT_RO_PROBE m fdt (subnode_loop (fuel m) fdt offset 0 name namelen).

Definition fdt_subnode_offset (fdt parentoffset name : Z) : res Z :=
  let* l := strlen m name in fdt_subnode_offset_namelen fdt parentoffset name (s32 l).

Fixpoint skip_slashes (f : nat) (p end_ : Z) : res (Z * bool) :=
  match f with
  | O => Hang
  | S f =>
      let* c := ldc m p in
      if c =? c_slash then
        if p + 1 =? end_ then Ret (p + 1, true) else skip_slashes f (p + 1) end_
      else Ret (p, false)
  end.

Fixpoint path_loop (f : nat) (fdt offset p end_ : Z) : res Z :=
  match f with
  | O => Hang
  | S f =>
      if p <? end_ then
        let* '(p, done) := skip_slashes (fuel m) p end_ in
        if done : bool then Ret offset else
        let* q := memchr m p c_slash (end_ - p) in
        let q := if q =? 0 then end_ else q in
        let* offset := fdt_subnode_offset_namelen fdt offset p (q - p) in
        if offset <? 0 then Ret offset else path_loop f fdt offset q end_
      else Ret offset
  end.

(** the string "/aliases" *)
Variable lit_aliases : Z.

(** An alias is looked up below /aliases and its value resolved as a path,
    which may again begin with an alias; [f] bounds the nesting. *)
Fixpoint path_offset_namelen (f : nat) (fdt path namelen : Z) : res Z :=
  match f with
  | O => Hang
  | S f =>
      let end_ := path + namelen in
      FDT_RO_PROBE m fdt (
        let* c := ldc m path in
        if negb (c =? c_slash) then
          let* q := memchr m path c_slash namelen in
          let q := if q =? 0 then end_ else q in
          let* l := strlen m lit_aliases in
          let* aliasoffset := path_offset_namelen f fdt lit_aliases (s32 l) in
          if aliasoffset <? 0 then Ret (- FDT_ERR_BADPATH) else
          let* '(p, _) := fdt_getprop_namelen fdt aliasoffset path (q - path) in
          if p =? 0 then Ret (- FDT_ERR_BADPATH) else
          let* l := strlen m p in
          let* offset := path_offset_namelen f fdt p (s32 l) in
          path_loop (fuel m) fdt offset q end_
        else path_loop (fuel m) fdt 0 path end_)
  end.

(** The nesting the model follows. *)
Definition PATH_NESTING : nat := 64.
Definition fdt_path_offset_namelen (fdt path namelen : Z) : res Z := path_offset_namelen PATH_NESTING fdt path namelen.
Definition fdt_path_offset (fdt path : Z) : res Z :=
  let* l := strlen m path in fdt_path_offset_namelen fdt path (s32 l).

Definition fdt_get_alias_namelen (fdt name namelen : Z) : res Z :=
  let* aliasoffset := fdt_path_offset fdt lit_aliases in
  if aliasoffset <? 0 then Ret 0 else
  let* '(p, _) := fdt_getprop_namelen fdt aliasoffset name namelen in Ret p.
Definition fdt_get_alias (fdt name : Z) : res Z :=
  let* l := strlen m name in fdt_get_alias_namelen fdt name (s32 l).

(** ** Depth and parents *)

(** The result and [*nodedepth]. *)
Fixpoint supernode_loop (f : nat) (fdt offset depth nodeoffset supernodedepth supernodeoffset : Z) : res (Z * Z) :=
  match f with
  | O => Hang
  | S f =>
      if (0 <=? offset) && (offset <=? nodeoffset) then
        let supernodeoffset := if depth =? supernodedepth then offset else supernodeoffset in
        if offset =? nodeoffset then
          if depth <? supernodedepth then Ret (- FDT_ERR_NOTFOUND, depth) else Ret (supernodeoffset, depth)
        else
          let* '(offset, depth) := fdt_next_node m fdt offset (Some depth) in
          supernode_loop f fdt offset (depth_of depth) nodeoffset supernodedepth supernodeoffset
      else if (offset =? - FDT_ERR_NOTFOUND) || (0 <=? offset) then Ret (- FDT_ERR_BADOFFSET, depth)
      else if offset =? - FDT_ERR_BADOFFSET then Ret (- FDT_ERR_BADSTRUCTURE, depth)
      else Ret (offset, depth)
  end.
Definition fdt_supernode_atdepth_offset (fdt nodeoffset supernodedepth : Z) : res (Z * Z) :=
  let* totalsize_ := fdt_ro_probe_ m fdt in
  if totalsize_ <? 0 then Ret (totalsize_, 0) else
  if supernodedepth <? 0 then Ret (- FDT_ERR_NOTFOUND, 0) else
  supernode_loop (fuel m) fdt 0 0 nodeoffset supernodedepth (- FDT_ERR_INTERNAL).

Definition fdt_node_depth (fdt nodeoffset : Z) : res Z :=
  let* '(err, nodedepth) := fdt_supernode_atdepth_offset fdt nodeoffset 0 in
  if negb (err =? 0) then Ret (if err <? 0 then err else - FDT_ERR_INTERNAL) else Ret nodedepth.

Definition fdt_parent_offset (fdt nodeoffset : Z) : res Z :=
  let* nodedepth := fdt_node_depth fdt nodeoffset in
  if nodedepth <? 0 then Ret nodedepth else
  let* '(offset, _) := fdt_supernode_atdepth_offset fdt nodeoffset (nodedepth - 1) in Ret offset.

(** ** Searching *)

(** [for (offset = fdt_next_node(fdt, start, NULL); offset >= 0; ...)] with the
    first node for which [hit] gives a result. *)
Fixpoint node_search (f : nat) (fdt offset : Z) (hit : Z → res (option Z)) : res Z :=
  match f with
  | O => Hang
  | S f =>
      let* '(offset, _) := fdt_next_node m fdt offset None in
      if offset <? 0 then Ret offset else
      let* r := hit offset in
      match r with Some r => Ret r | None => node_search f fdt offset hit end
  end.

Definition fdt_node_offset_by_prop_value (fdt startoffset propname propval proplen : Z) : res Z :=
  FDT_RO_PROBE m fdt (node_search (fuel m) fdt startoffset (λ offset,
    let* '(val, len) := fdt_getprop fdt offset propname in
    if (val =? 0) || negb (len =? proplen) then Ret None else
    let* c := memcmp m val propval len in
    Ret (if c =? 0 then Some offset else None))).

(** the strings "phandle", "linux,phandle" and "compatible" *)
Variables (lit_phandle lit_linux_phandle lit_compatible : Z).

Definition fdt_get_phandle (fdt nodeoffset : Z) : res Z :=
  let* '(php, len) := fdt_getprop fdt nodeoffset lit_phandle in
  if (php =? 0) || negb (len =? 4) then
    let* '(php, len) := fdt_getprop fdt nodeoffset lit_linux_phandle in
    if (php =? 0) || negb (len =? 4) then Ret 0 else fdt32_ld_ m php
  else fdt32_ld_ m php.

Definition fdt_node_offset_by_phandle (fdt phandle : Z) : res Z :=
  if (phandle =? 0) || (phandle =? 2 ^ 32 - 1) then Ret (- FDT_ERR_BADPHANDLE) else
  FDT_RO_PROBE m fdt (node_search (fuel m) fdt (-1) (λ offset,
    let* h := fdt_get_phandle fdt offset in Ret (if h =? phandle then Some offset else None))).

(** The result and the largest phandle. *)
Fixpoint max_phandle_loop (f : nat) (fdt offset max : Z) : res (Z * Z) :=
  match f with
  | O => Hang
  | S f =>
      let* '(offset, _) := fdt_next_node m fdt offset None in
      if offset <? 0 then Ret (if offset =? - FDT_ERR_NOTFOUND then 0 else offset, max) else
      let* value := fdt_get_phandle fdt offset in
      max_phandle_loop f fdt offset (if max <? value then value else max)
  end.
Definition fdt_find_max_phandle (fdt : Z) : res (Z * Z) := max_phandle_loop (fuel m) fdt (-1) 0.

Definition fdt_generate_phandle (fdt : Z) : res (Z * Z) :=
  let* '(err, max) := fdt_find_max_phandle fdt in
  if err <? 0 then Ret (err, 0) else
  if max =? FDT_MAX_PHANDLE then Ret (- FDT_ERR_NOPHANDLES, 0) else Ret (0, max + 1).

(** ** Lists of strings *)

Fixpoint contains_loop (f : nat) (strlist listlen str len : Z) : res bool :=
  match f with
  | O => Hang
  | S f =>
      if len <=? listlen then
        let* c := memcmp m str strlist (len + 1) in
        if c =? 0 then Ret true else
        let* p := memchr m strlist 0 listlen in
        if p =? 0 then Ret false else
        contains_loop f (p + 1) (s32 (listlen - (p - strlist + 1))) str len
      else Ret false
  end.
Definition fdt_stringlist_contains (strlist listlen str : Z) : res bool :=
  let* l := strlen m str in contains_loop (fuel m) strlist listlen str (s32 l).

(** Each string with its length including the terminator, from [list] to
    [end_]; [k] decides at each of them whether to stop. *)
Fixpoint stringlist_loop {S} (f : nat) (list end_ : Z) (k : Z → Z → S → res (S + Z)) (stop : S → Z) (s : S) : res Z :=
  match f with
  | O => Hang
  | Datatypes.S f =>
      if list <? end_ then
        let* l := strnlen m list (end_ - list) in
        let length := s32 (l + 1) in
        if end_ <? list + length then Ret (- FDT_ERR_BADVALUE) else
        let* r := k list length s in
        match r with inl s => stringlist_loop f (list + length) end_ k stop s | inr v => Ret v end
      else Ret (stop s)
  end.

Definition fdt_stringlist_count (fdt nodeoffset property : Z) : res Z :=
  let* '(list, length) := fdt_getprop fdt nodeoffset property in
  if list =? 0 then Ret length else
  stringlist_loop (fuel m) list (list + length) (λ _ _ count, Ret (inl (count + 1))) (λ count, count) 0.

Definition fdt_stringlist_search (fdt nodeoffset property string : Z) : res Z :=
  let* '(list, length) := fdt_getprop fdt nodeoffset property in
  if list =? 0 then Ret length else
  let* l := strlen m string in
  let len := s32 (l + 1) in
  stringlist_loop (fuel m) list (list + length) (λ list length idx,
    if length =? len then
      let* c := memcmp m list string length in
      Ret (if c =? 0 then inr idx else inl (idx + 1))
    else Ret (inl (idx + 1))) (λ _, - FDT_ERR_NOTFOUND) 0.

(** The string and its length. *)
Fixpoint stringlist_get_loop (f : nat) (list end_ idx : Z) : res (Z * Z) :=
  match f with
  | O => Hang
  | S f =>
      if list <? end_ then
        let* l := strnlen m list (end_ - list) in
        let length := s32 (l + 1) in
        if end_ <? list + length then Ret (0, - FDT_ERR_BADVALUE) else
        if idx =? 0 then Ret (list, length - 1) else
        stringlist_get_loop f (list + length) end_ (idx - 1)
      else Ret (0, - FDT_ERR_NOTFOUND)
  end.
Definition fdt_stringlist_get (fdt nodeoffset property idx : Z) : res (Z * Z) :=
  let* '(list, length) := fdt_getprop fdt nodeoffset property in
  if list =? 0 then Ret (0, length) else stringlist_get_loop (fuel m) list (list + length) idx.

Definition fdt_node_check_compatible (fdt nodeoffset compatible : Z) : res Z :=
  let* '(prop, len) := fdt_getprop fdt nodeoffset lit_compatible in
  if prop =? 0 then Ret len else
  let* b := fdt_stringlist_contains prop len compatible in
  Ret (if b : bool then 0 else 1).

Definition fdt_node_offset_by_compatible (fdt startoffset compatible : Z) : res Z :=
  FDT_RO_PROBE m fdt (node_search (fuel m) fdt startoffset (λ offset,
    let* err := fdt_node_check_compatible fdt offset compatible in
    if (err <? 0) && negb (err =? - FDT_ERR_NOTFOUND) then Ret (Some err)
    else Ret (if err =? 0 then Some offset else None))).
End ro.

(** ** The path of a node *)

(** [do { p--; } while (buf[p-1] != '/');] *)
Fixpoint drop_component (f : nat) (m : memory) (buf p : Z) : res Z :=
  match f with
  | O => Hang
  | S f =>
      let p := p - 1 in
      let* c := ldc m (buf + p - 1) in
      if negb (c =? c_slash) then drop_component f m buf p else Ret p
  end.

(** [while (pdepth > depth)]; the result is [p] and [pdepth]. *)
Fixpoint drop_components (f : nat) (m : memory) (buf p pdepth depth : Z) : res (Z * Z) :=
  match f with
  | O => Hang
  | S f =>
      if depth <? pdepth then
        let* p := drop_component (fuel m) m buf p in
        drop_components f m buf p (pdepth - 1) depth
      else Ret (p, pdepth)
  end.

Fixpoint get_path_loop (f : nat) (m : memory) (fdt offset depth pdepth p nodeoffset buf buflen : Z) : res (Z * memory) :=
  match f with
  | O => Hang
  | S f =>
      if (0 <=? offset) && (offset <=? nodeoffset) then
        let* '(p, pdepth) := drop_components (S (Z.to_nat (pdepth - depth))) m buf p pdepth depth in
        let finish (m : memory) (p pdepth : Z) : res (Z * memory) :=
          if offset =? nodeoffset then
            if pdepth <? depth + 1 then Ret (- FDT_ERR_NOSPACE, m) else
            let p := if 1 <? p then p - 1 else p in
            let* m := stb m (buf + p) 0 in
            Ret (0, m)
          else
            let* '(offset, depth) := fdt_next_node m fdt offset (Some depth) in
            get_path_loop f m fdt offset (depth_of depth) pdepth p nodeoffset buf buflen in
        if depth <=? pdepth then
          let* '(name, namelen) := fdt_get_name m fdt offset in
          if name =? 0 then Ret (namelen, m) else
          if p + namelen + 1 <=? buflen then
            let* '(_, m) := memcpy m (buf + p) name namelen in
            let p := p + namelen in
            let* m := stb m (buf + p) c_slash in
            finish m (p + 1) (pdepth + 1)
          else finish m p pdepth
        else finish m p pdepth
      else if (offset =? - FDT_ERR_NOTFOUND) || (0 <=? offset) then Ret (- FDT_ERR_BADOFFSET, m)
      else if offset =? - FDT_ERR_BADOFFSET then Ret (- FDT_ERR_BADSTRUCTURE, m)
      else Ret (offset, m)
  end.

Definition fdt_get_path (m : memory) (fdt nodeoffset buf buflen : Z) : res (Z * memory) :=
  let* totalsize_ := fdt_ro_probe_ m fdt in
  if totalsize_ <? 0 then Ret (totalsize_, m) else
  if buflen <? 2 then Ret (- FDT_ERR_NOSPACE, m) else
  get_path_loop (fuel m) m fdt 0 0 0 0 nodeoffset buf buflen.
