(* ===== verification/FdtProps.v ===== *)
(** * lib/libfdt: reading an untrusted blob is safe

    For a blob whose header passes [fdt_check_header], whatever its structure
    block holds, the functions that walk over tags, nodes and properties read
    only inside the blob and come to an end. *)

From S2P Require Import Prelude.
From S2P Require Import CMem.
From S2P Require Import CString.
From S2P Require Import CStringSpec.
From S2P Require Import Fdt.
From S2P Require Import FdtRo.

(** ** Words *)

Lemma lor_add x b k : 0 ≤ k → x mod 2 ^ k = 0 → 0 ≤ b < 2 ^ k → Z.lor x b = x + b.
Proof.
  intros Hk Hx Hb. symmetry. apply Z.add_nocarry_lor. apply Z.bits_inj'. intros i Hi. rewrite Z.land_spec, Z.bits_0.
  destruct (Z.lt_ge_cases i k).
  - apply Z.mod_divide in Hx as [c ->]; [|lia]. by rewrite Z.mul_pow2_bits_low by lia.
  - rewrite <- (Z.mod_small b (2 ^ k)) by done. by rewrite (Z.mod_pow2_bits_high b), andb_false_r by lia.
Qed.

(** The value of four bytes. *)
Definition be32 (b0 b1 b2 b3 : Z) : Z := b0 * 2 ^ 24 + b1 * 2 ^ 16 + b2 * 2 ^ 8 + b3.

Lemma fdt32_ld_bytes m p b0 b1 b2 b3 : bytes m p [b0; b1; b2; b3] → fdt32_ld m p = Ret (be32 b0 b1 b2 b3).
Proof.
  intros H. pose proof (bytes_lookup _ _ _ 0 _ H eq_refl) as (_ & H0 & _). pose proof (bytes_lookup _ _ _ 1 _ H eq_refl) as (_ & H1 & _).
  pose proof (bytes_lookup _ _ _ 2 _ H eq_refl) as (_ & H2 & _). pose proof (bytes_lookup _ _ _ 3 _ H eq_refl) as (_ & H3 & _).
  unfold fdt32_ld. rewrite (ldb_bytes _ _ _ _ H). destruct H as (_ & _ & _ & H). rewrite (ldb_bytes _ _ _ _ H). destruct H as (_ & _ & _ & H).
  replace (p + 2) with (p + 1 + 1) by lia. rewrite (ldb_bytes _ _ _ _ H). destruct H as (_ & _ & _ & H).
  replace (p + 3) with (p + 1 + 1 + 1) by lia. rewrite (ldb_bytes _ _ _ _ H). cbn [bind]. f_equal.
  rewrite !Z.shiftl_mul_pow2 by lia. unfold be32.
  rewrite (lor_add (b0 * 2 ^ 24) _ 24), (lor_add (b0 * 2 ^ 24 + b1 * 2 ^ 16) _ 16), (lor_add (b0 * 2 ^ 24 + b1 * 2 ^ 16 + b2 * 2 ^ 8) _ 8);
    lia || (Z.div_mod_to_equations; lia).
Qed.

Lemma bytes_sub m p l i n : bytes m p l → 0 ≤ i → i + Z.of_nat n ≤ Z.of_nat (length l) →
  bytes m (p + i) (take n (drop (Z.to_nat i) l)).
Proof.
  intros H Hi Hn. rewrite <- (take_drop (Z.to_nat i) l) in H. apply bytes_app in H as [_ H].
  rewrite length_take, Nat.min_l, Z2Nat.id in H by lia. rewrite <- (take_drop n (drop _ l)) in H. by apply bytes_app in H as [H _].
Qed.

Section blob.
Context (m : memory) (fdt : Z) (blob : list Z) (Hblob : bytes m fdt blob).
Local Abbreviation size := (Z.of_nat (length blob)).

Lemma fdt32_ld_in i : 0 ≤ i → i + 4 ≤ size → ∃ w, fdt32_ld m (fdt + i) = Ret w ∧ 0 ≤ w < 2 ^ 32.
Proof.
  intros Hi Hn. pose proof (bytes_sub m fdt blob i 4 Hblob Hi ltac:(lia)) as H.
  set (l := take 4 (drop (Z.to_nat i) blob)) in *. assert (Hl : length l = 4%nat) by (unfold l; rewrite length_take, length_drop; lia).
  destruct l as [|b0 [|b1 [|b2 [|b3 [|]]]]]; try discriminate. rewrite (fdt32_ld_bytes _ _ _ _ _ _ H). eexists. split; [done|].
  pose proof (bytes_lookup _ _ _ 0 _ H eq_refl) as (_ & H0 & _). pose proof (bytes_lookup _ _ _ 1 _ H eq_refl) as (_ & H1 & _).
  pose proof (bytes_lookup _ _ _ 2 _ H eq_refl) as (_ & H2 & _). pose proof (bytes_lookup _ _ _ 3 _ H eq_refl) as (_ & H3 & _).
  unfold be32. lia.
Qed.

Lemma ldb_in i : 0 ≤ i < size → ∃ b, ldb m (fdt + i) = Ret b ∧ 0 ≤ b < 256.
Proof.
  intros Hi. destruct (lookup_lt_is_Some_2 blob (Z.to_nat i)) as [b Hb]; [lia|].
  destruct (bytes_lookup _ _ _ _ _ Hblob Hb) as (E & Hr & Ha). rewrite Z2Nat.id in * by lia.
  exists b. unfold ldb. by rewrite Ha, E.
Qed.

(** ** The header *)

(** What [fdt_check_header] has established; [lim] bounds the offsets into the
    structure block. *)
Record header_ok (ver tot offs lim : Z) : Prop := {
  ho_align : Z.land fdt 7 = 0;
  ho_magic : fdt_magic m fdt = Ret FDT_MAGIC;
  ho_version : fdt_version m fdt = Ret ver ∧ 2 ≤ ver;
  ho_last : ∃ last, fdt_last_comp_version m fdt = Ret last ∧ last ≤ 17;
  ho_total : fdt_totalsize m fdt = Ret tot ∧ 0 ≤ tot ≤ INT32_MAX;
  ho_struct : fdt_off_dt_struct m fdt = Ret offs ∧ 28 ≤ offs;
  ho_limit : (if 17 <=? ver then fdt_size_dt_struct m fdt = Ret lim else lim = tot - offs) ∧ 0 ≤ lim ∧ offs + lim ≤ tot;
  ho_strings : ∃ o n, fdt_off_dt_strings m fdt = Ret o ∧ fdt_size_dt_strings m fdt = Ret n ∧ 28 ≤ o ∧ 0 ≤ n ∧ o + n ≤ tot;
}.

Lemma check_block_ok h t b n : 0 ≤ b → 0 ≤ n < 2 ^ 32 → t ≤ INT32_MAX → check_block_ h t b n = true → h ≤ b ∧ b + n ≤ t.
Proof.
  unfold check_block_, check_off_, INT32_MAX, u32. intros Hb Hn Ht.
  destruct (Z.leb_spec h b), (Z.leb_spec b t); try done. cbn. destruct (Z.ltb_spec ((b + n) mod 2 ^ 32) b); [done|].
  destruct (Z.leb_spec h ((b + n) mod 2 ^ 32)), (Z.leb_spec ((b + n) mod 2 ^ 32) t); try done. intros _.
  destruct (Z.lt_ge_cases (b + n) (2 ^ 32)) as [Hs|Hs]; [rewrite Z.mod_small in * by lia; lia|].
  assert ((b + n) mod 2 ^ 32 = b + n - 2 ^ 32) by (symmetry; apply Z.mod_unique with 1; lia). lia.
Qed.

Context (Hsize : 40 ≤ size).

Lemma check_header_ok : fdt_check_header m fdt = Ret 0 → ∃ ver tot offs lim, header_ok ver tot offs lim.
Proof.
  unfold fdt_check_header, fdt_header_size, fdt_magic, fdt_version, fdt_last_comp_version, fdt_totalsize, fdt_off_mem_rsvmap,
    fdt_off_dt_struct, fdt_off_dt_strings, fdt_size_dt_strings, fdt_size_dt_struct. rewrite <- (Z.add_0_r fdt) at 2.
  destruct (fdt32_ld_in 0) as (mg & Emg & _), (fdt32_ld_in 20) as (ver & Ever & Rver), (fdt32_ld_in 24) as (la & Ela & _),
    (fdt32_ld_in 4) as (tot & Et & Rt), (fdt32_ld_in 16) as (or & Eor & _), (fdt32_ld_in 8) as (offs & Eo & Ro),
    (fdt32_ld_in 36) as (sz & Esz & Rsz), (fdt32_ld_in 12) as (ostr & Eos & Ros), (fdt32_ld_in 32) as (nstr & Ens & Rns); try lia.
  rewrite Emg, Ever, Ela, Et, Eor, Eo, Esz, Eos, Ens. cbn [bind].
  destruct (Z.eqb_spec (Z.land fdt 7) 0) as [Hal|]; [|done]. destruct (Z.eqb_spec mg FDT_MAGIC) as [->|]; [|done]. cbn [negb].
  unfold FDT_FIRST_SUPPORTED_VERSION, FDT_LAST_SUPPORTED_VERSION.
  destruct (Z.ltb_spec ver 2), (Z.ltb_spec 17 la); try done. cbn [orb]. destruct (Z.ltb_spec ver la); [done|].
  set (h := fdt_header_size_ ver). assert (Hh : 28 ≤ h) by (unfold h, fdt_header_size_; repeat case_match; done).
  destruct (Z.ltb_spec tot h), (Z.ltb_spec INT32_MAX tot); try done. cbn [orb].
  destruct (check_off_ h tot or); [|done]. cbn [negb].
  set (sok := if ver <? 17 then _ else _). destruct sok eqn:Hs; try done. intros Hr. cbn [bind] in Hr. destruct a; [|done]. cbn [negb] in Hr.
  destruct (check_block_ h tot ostr nstr) eqn:Hstr; [|done]. apply check_block_ok in Hstr; [|lia..].
  exists ver, tot, offs, (if 17 <=? ver then sz else tot - offs). unfold sok in Hs.
  assert (Hlim : h ≤ offs ∧ 0 ≤ (if 17 <=? ver then sz else tot - offs) ∧ offs + (if 17 <=? ver then sz else tot - offs) ≤ tot).
  { destruct (Z.ltb_spec ver 17), (Z.leb_spec 17 ver); try lia; injection Hs as Hs; [unfold check_off_ in Hs; lia|].
    apply check_block_ok in Hs; lia. }
  split; unfold fdt_magic, fdt_version, fdt_last_comp_version, fdt_totalsize, fdt_off_dt_struct, fdt_off_dt_strings,
    fdt_size_dt_strings, fdt_size_dt_struct; try done; eauto with lia.
  - by rewrite <- (Z.add_0_r fdt).
  - split; [|lia]. by destruct (17 <=? ver).
Qed.

(** ** Tags *)

Context (ver tot offs lim : Z) (Hok : header_ok ver tot offs lim) (Htot : tot ≤ size).

(** The checks of [fdt_offset_ptr] amount to bounds on unbounded integers. *)
Lemma offset_ptr_spec o len : o < 2 ^ 31 → 0 ≤ len < 2 ^ 32 →
  fdt_offset_ptr m fdt o len = Ret (if (0 <=? o) && (o + len <=? lim) then fdt + offs + o else 0).
Proof. clear -Hok.
  intros Ho Hl. destruct Hok as [_ _ [Hv _] _ [Ht Rt] [Hs Rs] (Hlim & Rl & Rlim) _]. unfold INT32_MAX in *.
  unfold fdt_offset_ptr, fdt_offset_ptr_. rewrite Hs, Ht, Hv. cbn [bind]. destruct (Z.ltb_spec o 0), (Z.leb_spec 0 o); try lia; [done|]. cbn [andb].
  rewrite (u32_small o), (u32_small (o + offs)) by lia.
  destruct (Z.ltb_spec (o + offs) o); [lia|]. cbn [orb].
  assert (Hw : u32 (o + offs + len) = o + offs + len ∨ u32 (o + offs + len) = o + offs + len - 2 ^ 32 ∧ 2 ^ 32 ≤ o + offs + len).
  { unfold u32. Z.div_mod_to_equations. lia. }
  destruct (Z.ltb_spec (u32 (o + offs + len)) (o + offs)); cbn [orb]; [destruct (Z.leb_spec (o + len) lim); [lia|done]|].
  destruct (Z.ltb_spec tot (u32 (o + offs + len))); cbn [orb]; [destruct (Z.leb_spec (o + len) lim); [lia|done]|].
  destruct (Z.leb_spec 17 ver).
  - rewrite Hlim. cbn [bind]. rewrite (u32_small (o + len)) by lia. destruct (Z.ltb_spec (o + len) o), (Z.ltb_spec lim (o + len)), (Z.leb_spec (o + len) lim); done || lia.
  - cbn [bind]. destruct (Z.leb_spec (o + len) lim); done || lia.
Qed.

Lemma offset_ptr_nonnull o : 0 ≤ o → fdt + offs + o ≠ 0.
Proof. pose proof (bytes_range _ _ _ Hblob) as H. pose proof (ho_struct _ _ _ _ Hok) as [_ ?]. destruct blob; [cbn in Hsize; lia|]. destruct H; [done|]. lia. Qed.

Lemma tagalign_spec o : 0 ≤ o < 2 ^ 31 - 3 → FDT_TAGALIGN o = o + 3 - (o + 3) mod 4.
Proof.
  intros H. unfold FDT_TAGALIGN, FDT_ALIGN, FDT_TAGSIZE. rewrite s32_small by lia. replace (o + 4 - 1) with (o + 3) by lia.
  change (Z.lnot (4 - 1)) with (Z.lnot (Z.ones 2)). rewrite <- Z.ldiff_land, Z.ldiff_ones_r, Z.shiftl_mul_pow2, Z.shiftr_div_pow2 by lia.
  change (2 ^ 2) with 4. pose proof (Z.div_mod (o + 3) 4). lia.
Qed.

(** Reading in the structure block. *)
Lemma struct_word o : 0 ≤ o → o + 4 ≤ lim → ∃ w, fdt32_ld m (fdt + offs + o) = Ret w ∧ 0 ≤ w < 2 ^ 32.
Proof.
  destruct Hok as [_ _ _ _ _ [_ Rs] (_ & _ & Rlim) _]. intros. rewrite <- Z.add_assoc. apply fdt32_ld_in; lia.
Qed.

Lemma blob_fuel : lim + 28 < Z.of_nat (fuel m).
Proof. pose proof (bytes_fuel _ _ _ Hblob). destruct Hok as [_ _ _ _ _ [_ Rs] (_ & _ & Rlim) _]. lia. Qed.

Lemma lim_int : lim + 28 < 2 ^ 31.
Proof. clear -Hok. destruct Hok as [_ _ _ _ [_ Rt] [_ Rs] (_ & _ & Rlim) _]. unfold INT32_MAX in *. lia. Qed.

Lemma skip_name_safe f o : 0 ≤ o ≤ lim → lim - o < Z.of_nat f →
  post (skip_name m f fdt o) (λ '(p, o'), p = 0 ∨ p ≠ 0 ∧ o < o' ≤ lim).
Proof.
  destruct Hok as [_ _ _ _ [_ Rt] [_ Rs] (_ & _ & Rlim) _]. unfold INT32_MAX in *.
  revert o. induction f as [|f IH]; intros o Ho Hf; [lia|]. cbn [skip_name]. rewrite offset_ptr_spec by lia. cbn [bind].
  destruct (Z.leb_spec 0 o), (Z.leb_spec (o + 1) lim); cbn [andb]; try lia; [|by left].
  pose proof (offset_ptr_nonnull o ltac:(lia)) as Hn. destruct (Z.eqb_spec (fdt + offs + o) 0); [done|].
  destruct (ldb_in (offs + o)) as (b & Eb & Rb); [lia|]. rewrite Z.add_assoc in Eb. rewrite (ldc_ldb _ _ _ Eb). cbn [bind].
  rewrite s32_small by lia. destruct (s8 b =? 0); cbn [negb]; [right; lia|].
  eapply post_mono; [apply IH; lia|]. intros [p o'] [?|?]; [by left|right; lia].
Qed.

Lemma u32_s32 x : u32 (s32 x) = u32 x.
Proof.
  unfold u32, s32, sgn. change (32 - 1) with 31. rewrite Zminus_mod_idemp_l. f_equal. lia.
Qed.

(** The check at the end of [fdt_next_tag], for a token of [K] bytes. *)
Lemma finish_spec tag o K : 0 ≤ o < 2 ^ 31 →
  (let* p := fdt_offset_ptr m fdt o (u32 (s32 (s32 (o + K) - o))) in
   if p =? 0 then Ret (FDT_END, - FDT_ERR_BADSTRUCTURE) else Ret (tag, FDT_TAGALIGN (s32 (o + K)))) =
  Ret (if o + u32 K <=? lim then (tag, o + u32 K + 3 - (o + u32 K + 3) mod 4) else (FDT_END, - FDT_ERR_BADSTRUCTURE)).
Proof.
  destruct Hok as [_ _ _ _ [_ Rt] [_ Rs] (_ & _ & Rlim) _]. unfold INT32_MAX in *. intros Ho.
  assert (HK : u32 (s32 (s32 (o + K) - o)) = u32 K).
  { rewrite u32_s32. unfold u32. rewrite <- (Zminus_mod_idemp_l (s32 _)). fold (u32 (s32 (o + K))). rewrite u32_s32.
    unfold u32. rewrite Zminus_mod_idemp_l. f_equal. lia. }
  pose proof (u32_range K) as RK. rewrite HK, offset_ptr_spec by lia. cbn [bind].
  destruct (Z.leb_spec 0 o); [|lia]. cbn [andb]. destruct (Z.leb_spec (o + u32 K) lim); [|done].
  pose proof (offset_ptr_nonnull o ltac:(lia)) as Hn. destruct (Z.eqb_spec (fdt + offs + o) 0); [done|].
  assert (Hs : s32 (o + K) = o + u32 K).
  { rewrite <- (s32_small (o + u32 K)) by lia. unfold s32, sgn, u32. change (32 - 1) with 31. f_equal.
    rewrite <- (Zplus_mod_idemp_l (o + K mod _)), (Zplus_mod_idemp_r K), Zplus_mod_idemp_l. done. }
  by rewrite Hs, tagalign_spec by lia.
Qed.

(** The length of the property at [o], if there is one, does not wrap around. *)
Definition small_prop (o : Z) : Prop :=
  0 ≤ o → o + 8 ≤ lim → ∀ len, fdt32_ld m (fdt + offs + o) = Ret FDT_PROP → fdt32_ld m (fdt + offs + (o + 4)) = Ret len → len < 2 ^ 32 - 16.

(** The padding old versions have before the value of a property at [o]. *)
Definition prop_pad (o len : Z) : Z := if (ver <? 16) && (8 <=? len) && negb ((o + 12) mod 8 =? 0) then 4 else 0.

(** What the caller of [fdt_next_tag] may rely on. *)
Definition tag_ok (o : Z) (r : Z * Z) : Prop :=
  r.1 = FDT_END ∧ r.2 < 0 ∨
  fdt32_ld m (fdt + offs + o) = Ret r.1 ∧ 0 ≤ o ≤ r.2 ∧ r.2 ≤ lim + 3 ∧ r.2 mod 4 = 0 ∧
    (small_prop o → o + 4 ≤ r.2 ∧
      (r.1 = FDT_PROP → ∃ len, fdt32_ld m (fdt + offs + (o + 4)) = Ret len ∧ 0 ≤ len ∧ o + 12 + prop_pad o len + len ≤ lim)).

Lemma prop_pad_range o len : 0 ≤ prop_pad o len ≤ 4.
Proof. unfold prop_pad. by case_match. Qed.

(** The offset behind the property at [o]. *)
Lemma realigned_spec o len : 0 ≤ o < 2 ^ 31 - 16 →
  (if (ver <? 16) && (8 <=? len) && negb (u32 (s32 (o + (12 + len)) - len) mod 8 =? 0)
   then s32 (s32 (o + (12 + len)) + 4) else s32 (o + (12 + len))) = s32 (o + (12 + prop_pad o len + len)).
Proof.
  intros Ho. replace (u32 (s32 (o + (12 + len)) - len)) with (o + 12).
  2:{ unfold u32. rewrite <- Zminus_mod_idemp_l. fold (u32 (s32 (o + (12 + len)))). rewrite u32_s32. unfold u32.
      rewrite Zminus_mod_idemp_l. replace (o + (12 + len) - len) with (o + 12) by lia. rewrite Z.mod_small; lia. }
  unfold prop_pad. destruct (_ && _ && _); [|f_equal; lia]. unfold s32, sgn. change (32 - 1) with 31. Z.div_mod_to_equations; lia.
Qed.

Lemma tag_ok_finish o tag K : 0 ≤ o → fdt32_ld m (fdt + offs + o) = Ret tag →
  (small_prop o → 4 ≤ u32 K ∧
    (tag = FDT_PROP → ∃ len, fdt32_ld m (fdt + offs + (o + 4)) = Ret len ∧ 0 ≤ len ∧ 12 + prop_pad o len + len ≤ u32 K)) →
  tag_ok o (if o + u32 K <=? lim then (tag, o + u32 K + 3 - (o + u32 K + 3) mod 4) else (FDT_END, - FDT_ERR_BADSTRUCTURE)).
Proof.
  intros Ho Ht HK. pose proof (u32_range K). destruct (Z.leb_spec (o + u32 K) lim); [right|by left]. cbn [fst snd].
  repeat split; try done; try (Z.div_mod_to_equations; lia).
  intros Hp. destruct (HK ltac:(done)) as [_ (len & ? & ? & ?)]; [done|]. exists len. repeat split; done || lia.
Qed.

(** The branches of [fdt_next_tag] after the tag has been read. *)
Lemma next_tag_begin o : 0 ≤ o → o + 4 ≤ lim → fdt32_ld m (fdt + offs + o) = Ret FDT_BEGIN_NODE →
  fdt_next_tag m fdt o =
    let* '(p, o') := skip_name m (fuel m) fdt (o + 4) in
    if p =? 0 then Ret (FDT_END, - FDT_ERR_BADSTRUCTURE) else
    let* p := fdt_offset_ptr m fdt o (u32 (s32 (o' - o))) in
    if p =? 0 then Ret (FDT_END, - FDT_ERR_BADSTRUCTURE) else Ret (FDT_BEGIN_NODE, FDT_TAGALIGN o').
Proof.
  intros H0 Hl Etag. pose proof lim_int. unfold fdt_next_tag, FDT_TAGSIZE. rewrite offset_ptr_spec by lia. cbn [bind].
  rewrite !(proj2 (Z.leb_le _ _)) by lia. cbn [andb]. rewrite (proj2 (Z.eqb_neq _ _)) by (by apply offset_ptr_nonnull).
  rewrite Etag. cbn [bind]. rewrite Z.eqb_refl, s32_small by lia. done.
Qed.

Lemma next_tag_prop o len : 0 ≤ o → o + 8 ≤ lim → fdt32_ld m (fdt + offs + o) = Ret FDT_PROP →
  fdt32_ld m (fdt + offs + (o + 4)) = Ret len →
  fdt_next_tag m fdt o =
    let K := u32 (12 + prop_pad o len + len) in
    Ret (if o + K <=? lim then (FDT_PROP, o + K + 3 - (o + K + 3) mod 4) else (FDT_END, - FDT_ERR_BADSTRUCTURE)).
Proof.
  intros H0 Hl Etag Elen. pose proof lim_int. pose proof (ho_version _ _ _ _ Hok) as [Hv _].
  unfold fdt_next_tag, FDT_TAGSIZE. rewrite offset_ptr_spec by lia. cbn [bind].
  rewrite !(proj2 (Z.leb_le _ _)) by lia. cbn [andb]. rewrite (proj2 (Z.eqb_neq _ _)) by (by apply offset_ptr_nonnull).
  rewrite Etag. cbn [bind Z.eqb FDT_PROP FDT_BEGIN_NODE Pos.eqb]. rewrite s32_small, offset_ptr_spec by lia. cbn [bind].
  rewrite !(proj2 (Z.leb_le _ _)) by lia. cbn [andb]. rewrite (proj2 (Z.eqb_neq _ _)) by (apply offset_ptr_nonnull; lia).
  rewrite Elen, Hv. cbn [bind]. replace (o + 4 + (12 - 4 + len)) with (o + (12 + len)) by lia.
  rewrite (realigned_spec o len), finish_spec by lia. done.
Qed.

Lemma next_tag_plain o tag : 0 ≤ o → o + 4 ≤ lim → fdt32_ld m (fdt + offs + o) = Ret tag →
  tag ≠ FDT_BEGIN_NODE → tag ≠ FDT_PROP →
  fdt_next_tag m fdt o =
    Ret (if bool_decide (tag ∈ [FDT_END; FDT_END_NODE; FDT_NOP])
         then (tag, o + 4 + 3 - (o + 4 + 3) mod 4) else (FDT_END, - FDT_ERR_BADSTRUCTURE)).
Proof.
  intros H0 Hl Etag Hb Hp. pose proof lim_int. unfold fdt_next_tag, FDT_TAGSIZE. rewrite offset_ptr_spec by lia. cbn [bind].
  rewrite !(proj2 (Z.leb_le _ _)) by lia. cbn [andb]. rewrite (proj2 (Z.eqb_neq _ _)) by (by apply offset_ptr_nonnull).
  rewrite Etag. cbn [bind]. rewrite (proj2 (Z.eqb_neq tag FDT_BEGIN_NODE)), (proj2 (Z.eqb_neq tag FDT_PROP)) by done.
  rewrite finish_spec by lia. change (u32 4) with 4. rewrite (proj2 (Z.leb_le _ _)) by lia.
  replace (bool_decide _) with ((tag =? FDT_END) || (tag =? FDT_END_NODE) || (tag =? FDT_NOP)); [by destruct (_ || _)|].
  apply eq_true_iff_eq. rewrite bool_decide_eq_true, !orb_true_iff, !Z.eqb_eq. set_solver.
Qed.

Lemma next_tag_safe o : o < 2 ^ 31 → post (fdt_next_tag m fdt o) (tag_ok o).
Proof.
  intros Ho. pose proof lim_int. destruct (decide (0 ≤ o ∧ o + 4 ≤ lim)) as [[H0 Hl]|Hne].
  2:{ unfold fdt_next_tag, FDT_TAGSIZE. rewrite offset_ptr_spec by lia. cbn [bind].
      destruct (Z.leb_spec 0 o), (Z.leb_spec (o + 4) lim); try lia; by left. }
  destruct (struct_word o H0 Hl) as (tag & Etag & _). destruct (decide (tag = FDT_BEGIN_NODE)) as [->|Hb].
  { rewrite next_tag_begin by done. apply post_bind. eapply post_mono.
    - apply skip_name_safe; [lia|]. pose proof blob_fuel. lia.
    - intros [p o'] Hp. destruct (Z.eqb_spec p 0); [by left|]. destruct Hp as [?|[_ Hp]]; [done|].
      replace o' with (s32 (o + (o' - o))) by (rewrite s32_small; lia). rewrite finish_spec by lia.
      cbn [post]. apply tag_ok_finish; [done..|]. intros _. rewrite u32_small by lia. split; [lia|done]. }
  destruct (decide (tag = FDT_PROP)) as [->|Hp].
  { destruct (decide (o + 8 ≤ lim)) as [Hl4|].
    2:{ unfold fdt_next_tag, FDT_TAGSIZE. rewrite offset_ptr_spec by lia. cbn [bind]. rewrite !(proj2 (Z.leb_le _ _)) by lia. cbn [andb].
        rewrite (proj2 (Z.eqb_neq _ _)) by (by apply offset_ptr_nonnull). rewrite Etag. cbn [bind Z.eqb FDT_PROP FDT_BEGIN_NODE Pos.eqb].
        rewrite s32_small, offset_ptr_spec by lia. cbn [bind]. rewrite (proj2 (Z.leb_gt _ lim)), andb_false_r by lia. by left. }
    destruct (struct_word (o + 4) ltac:(lia) ltac:(lia)) as (len & Elen & Rlen). rewrite (next_tag_prop o len) by done.
    cbn [post]. apply tag_ok_finish; [done..|]. intros Hs. specialize (Hs H0 Hl4 len Etag Elen). pose proof (prop_pad_range o len).
    rewrite u32_small by lia. split; [lia|]. intros _. exists len. repeat split; done || lia. }
  rewrite (next_tag_plain o tag) by done. cbn [post]. case_bool_decide; [|by left].
  right. cbn [fst snd]. repeat split; try (done || Z.div_mod_to_equations; lia).
Qed.

(** ** Nodes *)

(** An error, or the offset of a tag after [lo]. *)
Definition offset_ok (lo o : Z) : Prop := o < 0 ∨ lo ≤ o ≤ lim + 3 ∧ o mod 4 = 0.

Lemma check_offset_safe tag o : o < 2 ^ 31 →
  post (if (o <? 0) || negb (Z.rem o FDT_TAGSIZE =? 0) then Ret (- FDT_ERR_BADOFFSET) else
        let* '(t, next) := fdt_next_tag m fdt o in
        if negb (t =? tag) then Ret (- FDT_ERR_BADOFFSET) else Ret next)
    (λ n, n < 0 ∨ 0 ≤ o ∧ o mod 4 = 0 ∧ tag_ok o (tag, n)).
Proof.
  intros Ho. destruct (Z.ltb_spec o 0); [by left|]. cbn [orb]. rewrite Z.rem_mod_nonneg by done. unfold FDT_TAGSIZE.
  destruct (Z.eqb_spec (o mod 4) 0); [|by left]. cbn [negb]. apply post_bind. eapply post_mono; [by apply next_tag_safe|].
  intros [t n] Ht. destruct (Z.eqb_spec t tag) as [->|]; [|by left]. cbn [negb post]. by right.
Qed.

Context (Hsmall : ∀ o, o mod 4 = 0 → small_prop o).

Lemma tag_ok_next o tag n : tag_ok o (tag, n) → o mod 4 = 0 → n < 0 ∨ o + 4 ≤ n ≤ lim + 3 ∧ n mod 4 = 0.
Proof. intros [[_ H]|(_ & ? & ? & ? & H)] Ho; [by left|]. right. destruct (H (Hsmall o Ho)). cbn [fst snd] in *. lia. Qed.

Lemma next_node_loop_safe f o d : 0 ≤ o ≤ lim + 3 → o mod 4 = 0 → lim + 4 - o < Z.of_nat f →
  post (next_node_loop m f fdt o d) (λ '(o', _), offset_ok o o').
Proof.
  pose proof lim_int. revert o d. induction f as [|f IH]; intros o d Ho Ho4 Hf; [lia|]. cbn [next_node_loop]. apply post_bind.
  eapply post_mono; [apply next_tag_safe; lia|]. intros [tag n] Htag. pose proof (tag_ok_next _ _ _ Htag Ho4) as Hn.
  destruct (Z.eqb_spec tag FDT_BEGIN_NODE); [right; lia|].
  assert (Hrec : tag ≠ FDT_END → ∀ d, post (next_node_loop m f fdt n d) (λ '(o', _), offset_ok o o')).
  { intros Hne d'. destruct Htag as [[? _]|Htag]; [done|]. cbn in Htag. eapply post_mono; [apply IH; lia|]. intros [o' d''] [?|?]; [by left|right; lia]. }
  destruct (Z.eqb_spec tag FDT_END_NODE) as [->|].
  { destruct d as [d|]; [|by apply Hrec]. destruct (d - 1 <? 0); [|by apply Hrec]. destruct Hn as [?|?]; [by left|right; lia]. }
  destruct (Z.eqb_spec tag FDT_END); [|by apply Hrec]. destruct (Z.leb_spec 0 n); [by left|]. cbn [orb]. destruct (_ && _); [by left|]. by left.
Qed.

Lemma next_node_safe o d : o < 2 ^ 31 → post (fdt_next_node m fdt o d) (λ '(o', _), offset_ok (o + 1) o').
Proof.
  intros Ho. pose proof blob_fuel. pose proof lim_int. unfold fdt_next_node. pose proof (ho_limit _ _ _ _ Hok) as (_ & Rl & _).
  destruct (Z.leb_spec 0 o).
  - apply post_bind. eapply post_mono; [by apply (check_offset_safe FDT_BEGIN_NODE)|]. intros n Hn. destruct (Z.ltb_spec n 0); [by left|].
    destruct Hn as [?|(_ & Ho4 & Hn)]; [lia|]. apply tag_ok_next in Hn as [?|?]; [lia| |done].
    eapply post_mono; [apply next_node_loop_safe; lia|]. intros [o' d'] [?|?]; [by left|right; lia].
  - eapply post_mono; [apply next_node_loop_safe; done || lia|]. intros [o' d'] [?|?]; [by left|right; lia].
Qed.

Lemma first_subnode_safe o : o < 2 ^ 31 → post (fdt_first_subnode m fdt o) (offset_ok (o + 1)).
Proof.
  intros Ho. unfold fdt_first_subnode. apply post_bind. eapply post_mono; [by apply next_node_safe|]. intros [o' d] H. by destruct (_ || _); [left|].
Qed.

Lemma next_subnode_loop_safe f o d : o < 2 ^ 31 → Z.max 0 (lim + 4 - Z.max o (-1)) < Z.of_nat f →
  post (next_subnode_loop m f fdt o d) (offset_ok (o + 1)).
Proof.
  pose proof lim_int. pose proof (ho_limit _ _ _ _ Hok) as (_ & Rl & _).
  revert o d. induction f as [|f IH]; intros o d Ho Hf; [lia|]. cbn [next_subnode_loop]. apply post_bind.
  eapply post_mono; [by apply next_node_safe|]. intros [o' d'] H'. destruct (Z.ltb_spec o' 0); [by left|]. cbn [orb].
  destruct (depth_of d' <? 1); [by left|]. destruct H' as [?|H']; [lia|]. destruct (1 <? depth_of d'); [|by right].
  eapply post_mono; [apply IH; lia|]. intros o'' [?|?]; [by left|right; lia].
Qed.

Lemma next_subnode_safe o : o < 2 ^ 31 → post (fdt_next_subnode m fdt o) (offset_ok (o + 1)).
Proof. intros. apply next_subnode_loop_safe; [done|]. pose proof blob_fuel. pose proof (ho_limit _ _ _ _ Hok). lia. Qed.

(** ** Properties *)

(** An error, or the offset of a property. *)
Definition prop_ok (lo o : Z) : Prop := o < 0 ∨ lo ≤ o ≤ lim + 3 ∧ o mod 4 = 0 ∧ ∃ n, tag_ok o (FDT_PROP, n).

Lemma nextprop_safe o : 0 ≤ o ≤ lim + 3 → o mod 4 = 0 → post (nextprop_ m fdt o) (prop_ok o).
Proof.
  unfold nextprop_. intros Ho Ho4. assert (Hf : lim + 4 - o < Z.of_nat (fuel m)) by (pose proof blob_fuel; lia).
  pose proof lim_int. revert o Ho Ho4 Hf. generalize (fuel m) as f. induction f as [|f IH]; intros o Ho Ho4 Hf; [lia|].
  cbn [nextprop_loop]. apply post_bind. eapply post_mono; [apply next_tag_safe; lia|]. intros [tag n] Htag.
  destruct (Z.eqb_spec tag FDT_END); [destruct (Z.leb_spec 0 n); by left|].
  destruct (Z.eqb_spec tag FDT_PROP) as [->|]; [right; eauto with lia|]. destruct (Z.eqb_spec tag FDT_NOP); [|by left].
  pose proof (tag_ok_next _ _ _ Htag Ho4) as Hn. destruct Htag as [[? _]|Htag]; [done|]. cbn in Htag.
  eapply post_mono; [apply IH; lia|]. intros o' [?|(? & ? & ?)]; [by left|right; split_and!; done || lia].
Qed.

Lemma first_property_safe o : o < 2 ^ 31 → post (fdt_first_property_offset m fdt o) (prop_ok (o + 1)).
Proof.
  intros Ho. apply post_bind. eapply post_mono; [by apply (check_offset_safe FDT_BEGIN_NODE)|]. intros n Hn. destruct (Z.ltb_spec n 0); [by left|].
  destruct Hn as [?|(? & Ho4 & Hn)]; [lia|]. apply tag_ok_next in Hn as [?|?]; [lia| |done].
  eapply post_mono; [apply nextprop_safe; lia|]. intros o' [?|(? & ? & ?)]; [by left|right; split_and!; done || lia].
Qed.

Lemma next_property_safe o : o < 2 ^ 31 → post (fdt_next_property_offset m fdt o) (prop_ok (o + 1)).
Proof.
  intros Ho. apply post_bind. eapply post_mono; [by apply (check_offset_safe FDT_PROP)|]. intros n Hn. destruct (Z.ltb_spec n 0); [by left|].
  destruct Hn as [?|(? & Ho4 & Hn)]; [lia|]. apply tag_ok_next in Hn as [?|?]; [lia| |done].
  eapply post_mono; [apply nextprop_safe; lia|]. intros o' [?|(? & ? & ?)]; [by left|right; split_and!; done || lia].
Qed.

(** ** Values *)

Lemma ro_probe_spec : fdt_ro_probe_ m fdt = Ret (if tot <? INT32_MAX then tot else - FDT_ERR_TRUNCATED).
Proof. clear -Hok.
  destruct Hok as [Ha Hm [Hv Rv] (la & Hla & Rla) [Ht _] _ _ _]. unfold fdt_ro_probe_. rewrite Ht, Ha, Hm, Hv, Hla. cbn [bind negb Z.eqb].
  rewrite Z.eqb_refl. unfold FDT_FIRST_SUPPORTED_VERSION, FDT_LAST_SUPPORTED_VERSION.
  destruct (Z.ltb_spec ver 2), (Z.ltb_spec 17 la); done || lia.
Qed.

(** A range of bytes inside the blob. *)
Definition inside (p n : Z) : Prop := fdt ≤ p ∧ 0 ≤ n ∧ p + n ≤ fdt + tot.

Lemma bytes_inside p n : inside p n → bytes m p (take (Z.to_nat n) (drop (Z.to_nat (p - fdt)) blob)) ∧
  length (take (Z.to_nat n) (drop (Z.to_nat (p - fdt)) blob)) = Z.to_nat n.
Proof.
  intros (? & ? & ?). split; [|rewrite length_take, length_drop; lia].
  replace p with (fdt + (p - fdt)) at 1 by lia. apply bytes_sub; [done|lia..].
Qed.

Lemma memchr_safe p c n : inside p n → post (memchr m p c n) (λ q, q = 0 ∨ p ≤ q < p + n).
Proof.
  intros H. destruct (bytes_inside p n H) as [Hb Hl]. destruct H as (_ & Hn & _). rewrite <- (Z2Nat.id n) by done.
  rewrite (memchr_spec _ _ _ _ _ Hb Hl). cbn [post]. destruct (list_find _ _) as [[i x]|] eqn:E; [right|by left]. cbn.
  apply list_find_Some in E as (E%lookup_lt_Some & _). lia.
Qed.

Lemma get_string_safe so : so < 2 ^ 31 → post (fdt_get_string m fdt so) (λ '(p, l), p = 0 ∨ inside p l).
Proof.
  intros Hso. unfold fdt_get_string. rewrite ro_probe_spec. cbn [bind]. destruct Hok as [_ Hm [Hv Rv] _ [Ht Rt] _ _ (o & n & Ho & Hn & Ro & Rn & Ron)].
  rewrite Ho, Hm, Hv, Hn. cbn [bind]. destruct (tot <? INT32_MAX); [|by left]. destruct (Z.ltb_spec tot 0); [lia|].
  destruct (Z.leb_spec tot (u32 (so + o))) as [|Hlt]; [by left|]. rewrite Z.eqb_refl. destruct (Z.ltb_spec so 0); [by left|].
  assert (Hfin : ∀ len, 0 ≤ len ≤ tot - u32 (so + o) → post (let* n := memchr m (fdt + u32 (so + o)) 0 len in
    if n =? 0 then Ret (0, - FDT_ERR_TRUNCATED) else Ret (fdt + u32 (so + o), n - (fdt + u32 (so + o)))) (λ '(p, l), p = 0 ∨ inside p l)).
  { intros len Hlen. pose proof (u32_range (so + o)). apply post_bind. eapply post_mono; [apply memchr_safe; unfold inside; lia|].
    intros q [->|Hq]; [by left|]. destruct (Z.eqb_spec q 0); [by left|]. right. unfold inside. lia. }
  destruct (17 <=? ver); [|apply Hfin; lia]. destruct (n <=? u32 so); [by left|]. apply Hfin. pose proof (u32_range (n - so)).
  destruct (Z.ltb_spec (u32 (n - so)) (tot - u32 (so + o))); lia.
Qed.

Context (name : Z) (nm : list Z) (Hname : bytes m name nm).

Lemma string_eq_safe so : so < 2 ^ 31 → post (fdt_string_eq_ m fdt so name (Z.of_nat (length nm))) (λ _, True).
Proof.
  intros Hso. unfold fdt_string_eq_. apply post_bind. eapply post_mono; [by apply get_string_safe|]. intros [p l] H.
  destruct (Z.eqb_spec p 0); [done|]. destruct H as [?|H]; [done|]. destruct (Z.eqb_spec l (Z.of_nat (length nm))) as [->|]; [|done].
  destruct (bytes_inside p _ H) as [Hb Hl]. rewrite (memcmp_spec _ _ _ _ _ _ Hb Hname); [done|lia|done].
Qed.

(** A property with its header inside the structure block. *)
Definition property_at (prop len o : Z) : Prop :=
  prop = fdt + offs + o ∧ 0 ≤ o ∧ 0 ≤ len ∧ o + 12 + prop_pad o len + len ≤ lim ∧ fdt32_ld m (fdt + offs + (o + 4)) = Ret len.

Lemma property_by_offset_safe o : o < 2 ^ 31 →
  post (fdt_get_property_by_offset_ m fdt o) (λ '(prop, len), prop = 0 ∨ property_at prop len o).
Proof.
  intros Ho. unfold fdt_get_property_by_offset_. apply post_bind. eapply post_mono; [by apply (check_offset_safe FDT_PROP)|].
  intros n Hn. destruct (Z.ltb_spec n 0); [by left|]. destruct Hn as [?|(Ho0 & Ho4 & [[? _]|(_ & _ & _ & _ & H')])]; [lia|done|].
  destruct (H' (Hsmall o Ho4)) as [_ Hp]. destruct Hp as (len & Hl & Rl & Hle); [done|].
  unfold fdt_offset_ptr_, fdt32_ld_. destruct (ho_struct _ _ _ _ Hok) as [-> Rs]. cbn [bind]. rewrite <- (Z.add_assoc _ o 4), Hl. cbn [bind post]. right.
  pose proof lim_int. pose proof (prop_pad_range o len). rewrite s32_small by lia. by repeat split.
Qed.

Lemma get_property_loop_safe f o : o < 2 ^ 31 → Z.max 0 (lim + 4 - Z.max o (-1)) < Z.of_nat f →
  post (get_property_loop m f fdt o name (Z.of_nat (length nm))) (λ '(prop, len, po), prop = 0 ∨ property_at prop len po).
Proof.
  pose proof lim_int. pose proof (ho_limit _ _ _ _ Hok) as (_ & Rl & _).
  revert o. induction f as [|f IH]; intros o Ho Hf; [lia|]. cbn [get_property_loop]. destruct (Z.ltb_spec o 0); [by left|].
  apply post_bind. eapply post_mono; [by apply property_by_offset_safe|]. intros [prop len] Hp.
  destruct (Z.eqb_spec prop 0); [by left|]. destruct Hp as [?|Hp]; [done|]. destruct Hp as (-> & Hp0 & Hlen & Hlim & Hw).
  pose proof (prop_pad_range o len). destruct (struct_word (o + 8)) as (no & Eno & Rno); [lia..|].
  unfold fdt32_ld_. rewrite <- (Z.add_assoc _ o 8), Eno. cbn [bind]. apply post_bind. eapply post_mono.
  { apply string_eq_safe. pose proof (sgn_range 32 no). unfold s32. lia. }
  intros eq _. destruct eq; [by right|]. apply post_bind. eapply post_mono; [apply next_property_safe; lia|].
  intros o' Ho'. destruct (Z.lt_ge_cases o' 0); [destruct f; [lia|]; cbn [get_property_loop]; destruct (Z.ltb_spec o' 0); [by left|lia]|].
  destruct Ho' as [?|(? & ? & ?)]; [lia|]. apply IH; lia.
Qed.

(** The value of a property, or an error. *)
Lemma getprop_namelen_safe o : o < 2 ^ 31 →
  post (fdt_getprop_namelen m fdt o name (Z.of_nat (length nm))) (λ '(p, l), p = 0 ∨ inside p l).
Proof.
  intros Ho. unfold fdt_getprop_namelen, fdt_get_property_namelen_. apply post_bind, post_bind.
  eapply post_mono; [by apply first_property_safe|]. intros o' Ho'. pose proof lim_int. pose proof (ho_limit _ _ _ _ Hok) as (_ & Rl & Rlim). eapply post_mono.
  { apply get_property_loop_safe; [destruct Ho' as [?|?]; lia|]. pose proof blob_fuel. lia. }
  intros [[prop len] po] Hp. destruct (Z.eqb_spec prop 0); [by left|]. destruct Hp as [?|Hp]; [done|]. destruct Hp as (-> & Hp0 & Hlen & Hlim & Hw).
  unfold prop_data, fdt32_ld_. pose proof Hok as [_ _ [Hv _] _ _ [_ Rs] _ _]. rewrite Hv, <- (Z.add_assoc _ po 4), Hw. cbn [bind].
  unfold prop_pad in Hlim. destruct (ver <? 16), ((po + 12) mod 8 =? 0), (8 <=? len); cbn [andb negb bind post] in *; right; unfold inside; lia.
Qed.
End blob.

(** ** Theorems *)

(** A blob with a checked header; the rest of it is not trusted. *)
Definition checked_blob (m : memory) (fdt : Z) (blob : list Z) : Prop :=
  bytes m fdt blob ∧ 40 ≤ Z.of_nat (length blob) ∧
  fdt_check_header m fdt = Ret 0 ∧ fdt_totalsize m fdt = Ret (Z.of_nat (length blob)).

(** No property has a length so large that the offset behind it wraps around. *)
Definition no_wrap (m : memory) (fdt : Z) : Prop :=
  ∀ o p len, 0 ≤ o < 2 ^ 31 → o mod 4 = 0 → fdt_offset_ptr m fdt o 8 = Ret p → p ≠ 0 →
    fdt32_ld m p = Ret FDT_PROP → fdt32_ld m (p + 4) = Ret len → len < 2 ^ 32 - 16.

Lemma checked_header m fdt blob : checked_blob m fdt blob →
  ∃ ver offs lim, header_ok m fdt ver (Z.of_nat (length blob)) offs lim.
Proof.
  intros (Hb & Hs & Hc & Ht). destruct (check_header_ok m fdt blob Hb Hs Hc) as (ver & tot & offs & lim & Hok).
  pose proof (ho_total _ _ _ _ _ _ Hok) as [Ht' _]. assert (tot = Z.of_nat (length blob)) as -> by congruence. eauto.
Qed.

(** C22: reading a tag is memory safe.  In a blob with a checked header, whatever
    its structure block holds, [fdt_next_tag] returns for every offset without
    reading outside of the blob: an error, or the tag at that offset and an
    aligned offset behind it that lies inside the blob. *)
Theorem fdt_next_tag_safe m fdt blob o : checked_blob m fdt blob → - 2 ^ 31 ≤ o < 2 ^ 31 →
  post (fdt_next_tag m fdt o) (λ '(tag, next),
    tag = FDT_END ∧ next < 0 ∨
    0 ≤ o ≤ next ∧ next < Z.of_nat (length blob) ∧ next mod 4 = 0 ∧
      (let* p := fdt_offset_ptr_ m fdt o in fdt32_ld m p) = Ret tag).
Proof.
  intros Hc Ho. destruct (checked_header _ _ _ Hc) as (ver & offs & lim & Hok). destruct Hc as (Hb & Hs & _).
  eapply post_mono; [eapply next_tag_safe; done || lia|]. intros [tag n] [?|(Hw & ? & ? & ? & _)]; [by left|right]. cbn [fst snd] in *.
  destruct Hok as [_ _ _ _ _ [E Rs] (_ & _ & Rlim) _]. unfold fdt_offset_ptr_. rewrite E. cbn [bind]. repeat split; done || lia.
Qed.

(** C19: walking over the nodes and properties of an untrusted blob ends.  When no
    property length wraps around, the functions that iterate over nodes,
    subnodes and properties return from every offset: an error, or an aligned
    offset further on inside the blob.  The value [fdt_getprop_namelen] returns
    lies inside the blob with all its bytes. *)
Theorem fdt_walk_terminates m fdt blob name nm o : checked_blob m fdt blob → no_wrap m fdt →
  bytes m name nm → - 2 ^ 31 ≤ o < 2 ^ 31 →
  let further o' := o' < 0 ∨ o < o' < Z.of_nat (length blob) ∧ o' mod 4 = 0 in
  (∀ depth, post (fdt_next_node m fdt o depth) (λ '(o', _), further o')) ∧
  post (fdt_first_subnode m fdt o) further ∧ post (fdt_next_subnode m fdt o) further ∧
  post (fdt_first_property_offset m fdt o) further ∧ post (fdt_next_property_offset m fdt o) further ∧
  post (fdt_getprop_namelen m fdt o name (Z.of_nat (length nm))) (λ '(p, len),
    p = 0 ∨ fdt ≤ p ∧ 0 ≤ len ∧ p + len ≤ fdt + Z.of_nat (length blob)).
Proof.
  intros Hc Hw Hn Ho further. destruct (checked_header _ _ _ Hc) as (ver & offs & lim & Hok). destruct Hc as (Hb & Hs & _).
  pose proof Hok as [_ _ _ _ _ [E Rs] (_ & _ & Rlim) _].
  assert (Hsm : ∀ o, o mod 4 = 0 → small_prop m fdt offs lim o).
  { intros x Hx Hx0 Hxl len Ht Hlen. pose proof (lim_int _ _ _ _ _ _ Hok). rewrite Z.add_assoc in Hlen. eapply (Hw x (fdt + offs + x)); [lia|done| |eapply offset_ptr_nonnull; done|done..].
    rewrite (offset_ptr_spec _ _ _ _ _ _ Hok) by lia. by rewrite !(proj2 (Z.leb_le _ _)) by lia. }
  assert (Hoff : ∀ o', offset_ok lim (o + 1) o' → further o') by (intros o' [?|?]; [by left|right; lia]).
  assert (Hprop : ∀ o', prop_ok m fdt ver offs lim (o + 1) o' → further o') by (intros o' [?|(? & ? & _)]; [by left|right; lia]).
  split_and!.
  - intros d. eapply post_mono; [eapply next_node_safe; done || lia|]. intros [o' d'] ?. auto.
  - eapply post_mono; [eapply first_subnode_safe; done || lia|]. auto.
  - eapply post_mono; [eapply next_subnode_safe; done || lia|]. auto.
  - eapply post_mono; [eapply first_property_safe; done || lia|]. auto.
  - eapply post_mono; [eapply next_property_safe; done || lia|]. auto.
  - eapply getprop_namelen_safe; done || lia.
Qed.

(** C40: a property length that wraps around stops the walk.  The offset behind a
    property is computed in an [int]; with the length 2^32 - 12 it is the offset
    of the property itself, and the bounds check accepts it.  The loop of
    [fdt_next_node] then never comes to an end, and the property is its own
    successor, although the header of the blob is correct. *)
Theorem fdt_property_length_hangs m fdt blob ver o p :
  checked_blob m fdt blob → fdt_version m fdt = Ret ver → 16 ≤ ver → 0 ≤ o < 2 ^ 31 → o mod 4 = 0 →
  fdt_offset_ptr m fdt o 8 = Ret p → p ≠ 0 → fdt32_ld m p = Ret FDT_PROP → fdt32_ld m (p + 4) = Ret (2 ^ 32 - 12) →
  fdt_next_tag m fdt o = Ret (FDT_PROP, o) ∧ (∀ f depth, next_node_loop m f fdt o depth = Hang) ∧
  fdt_next_property_offset m fdt o = Ret o.
Proof.
  intros Hc Hv Rv Ho Ho4 Hp Hp0 Htag Hlen. destruct (checked_header _ _ _ Hc) as (ver' & offs & lim & Hok). destruct Hc as (Hb & Hs & _).
  assert (ver' = ver) as -> by (destruct (ho_version _ _ _ _ _ _ Hok); congruence).
  erewrite offset_ptr_spec in Hp by (done || lia). injection Hp as <-. destruct (Z.leb_spec 0 o), (Z.leb_spec (o + 8) lim); try done. cbn [andb] in *.
  assert (Hn : fdt_next_tag m fdt o = Ret (FDT_PROP, o)).
  { rewrite <- Z.add_assoc in Hlen. erewrite next_tag_prop by (done || lia). unfold prop_pad. rewrite (proj2 (Z.ltb_ge ver 16)) by lia. cbn [andb].
    change (u32 (12 + 0 + (2 ^ 32 - 12))) with 0. cbv zeta. rewrite (proj2 (Z.leb_le (o + 0) lim)) by lia. do 2 f_equal. Z.div_mod_to_equations; lia. }
  split; [done|]. split.
  - intros f depth. induction f as [|f IH]; [done|]. cbn [next_node_loop]. rewrite Hn. exact IH.
  - unfold fdt_next_property_offset, fdt_check_prop_offset_. rewrite (proj2 (Z.ltb_ge o 0)), Z.rem_mod_nonneg by done.
    unfold FDT_TAGSIZE. rewrite Ho4, Hn. cbn [bind negb orb]. rewrite !Z.eqb_refl. cbn [bind negb].
    rewrite (proj2 (Z.ltb_ge o 0)) by lia. unfold nextprop_, fuel. cbn [nextprop_loop]. by rewrite Hn.
Qed.
