(* ===== verification/FdtTree.v ===== *)
(** * lib/libfdt: the tree a blob holds

    The structure block is a sequence of tokens; without the no-ops it is the
    flattening of a tree.  Each node and property carries the offset of its
    token, by which the functions of libfdt name it. *)

From S2P Require Import Prelude.
From S2P Require Import CMem.
From S2P Require Import CString.
From S2P Require Import CStringSpec.
From S2P Require Import Fdt.
From S2P Require Import FdtRo.
From S2P Require Import FdtProps.

(** ** Tokens and trees *)

Inductive token :=
  | T_BEGIN (name : list Z)
  | T_END_NODE
  | T_PROP (name val : list Z)
  | T_NOP
  | T_END.
#[global] Instance token_eq_dec : EqDecision token.
Proof. solve_decision. Defined.

Definition tag_of (t : token) : Z :=
  match t with
  | T_BEGIN _ => FDT_BEGIN_NODE
  | T_END_NODE => FDT_END_NODE
  | T_PROP _ _ => FDT_PROP
  | T_NOP => FDT_NOP
  | T_END => FDT_END
  end.

(** A property: the offset of its token, its name and its value. *)
Record property := Property { p_off : Z; p_name : list Z; p_val : list Z }.

(** A node from its FDT_BEGIN_NODE at [n_off] to its FDT_END_NODE at [n_end]. *)
Unset Elimination Schemes.
Inductive node := Node (n_off n_end : Z) (n_name : list Z) (n_props : list property) (n_kids : list node).
Set Elimination Schemes.
Definition n_off (n : node) : Z := let 'Node o _ _ _ _ := n in o.
Definition n_name (n : node) : list Z := let 'Node _ _ s _ _ := n in s.
Definition n_props (n : node) : list property := let 'Node _ _ _ ps _ := n in ps.
Definition n_kids (n : node) : list node := let 'Node _ _ _ _ ks := n in ks.

Abbreviation item := (Z * token)%type.
Definition prop_item (p : property) : item := (p_off p, T_PROP (p_name p) (p_val p)).

Fixpoint flat (n : node) : list item :=
  let 'Node o e s ps ks := n in
  (o, T_BEGIN s) :: map prop_item ps ++ flat_map flat ks ++ [(e, T_END_NODE)].

(** A node and all nodes below it, in the order of the blob. *)
Fixpoint nodes (n : node) : list node := let 'Node _ _ _ _ ks := n in n :: flat_map nodes ks.

Lemma node_ind' (P : node → Prop) :
  (∀ o e s ps ks, Forall P ks → P (Node o e s ps ks)) → ∀ n, P n.
Proof.
  intros H. fix IH 1. intros [o e s ps ks]. apply H. induction ks as [|k ks IHk]; constructor; [apply IH|apply IHk].
Qed.

Lemma flat_sub n k : k ∈ nodes n → ∃ pre post, flat n = pre ++ flat k ++ post.
Proof.
  revert k. induction n as [o e s ps ks IH] using node_ind'. intros k Hk. cbn [nodes] in Hk. apply elem_of_cons in Hk as [->|Hk].
  { exists [], []. by rewrite app_nil_r. }
  apply list_elem_of_In, in_flat_map in Hk as (c & Hc%list_elem_of_In & Hk%list_elem_of_In). rewrite Forall_forall in IH.
  destruct (IH c Hc k Hk) as (pre & post & E). apply list_elem_of_split in Hc as (k1 & k2 & ->).
  exists ((o, T_BEGIN s) :: map prop_item ps ++ flat_map flat k1 ++ pre), (post ++ flat_map flat k2 ++ [(e, T_END_NODE)]).
  cbn [flat]. rewrite flat_map_app. cbn [flat_map]. rewrite E. cbn [app]. f_equal. by rewrite <- !app_assoc.
Qed.

(** ** Tokens in memory *)

Definition align4 (x : Z) : Z := x + 3 - (x + 3) mod 4.

(** Where the blocks of a blob lie. *)
Record layout := Layout { l_struct : Z; l_limit : Z; l_strings : Z; l_nstrings : Z }.

Section tree.
Context (m : memory) (fdt : Z) (L : layout).

Definition word_at (o : Z) (w : Z) : Prop := fdt32_ld m (fdt + l_struct L + o) = Ret w.

(** The string [s] at the offset [no] into the strings block. *)
Definition string_at (no : Z) (s : list Z) : Prop :=
  0 ≤ no ∧ no + Z.of_nat (length s) + 1 ≤ l_nstrings L ∧ cstr m (fdt + l_strings L + no) s.

(** The token [t] lies at the offset [o], the next one at [o']. *)
Definition token_at (o : Z) (t : token) (o' : Z) : Prop :=
  0 ≤ o ∧ o mod 4 = 0 ∧ word_at o (tag_of t) ∧
  match t with
  | T_BEGIN s =>
      cstr m (fdt + l_struct L + (o + 4)) s ∧ o + 4 + Z.of_nat (length s) + 1 ≤ l_limit L ∧
      o' = align4 (o + 4 + Z.of_nat (length s) + 1)
  | T_PROP s v =>
      word_at (o + 4) (Z.of_nat (length v)) ∧ (∃ no, word_at (o + 8) no ∧ string_at no s) ∧
      bytes m (fdt + l_struct L + (o + 12)) v ∧ o + 12 + Z.of_nat (length v) ≤ l_limit L ∧
      o' = align4 (o + 12 + Z.of_nat (length v))
  | _ => o + 4 ≤ l_limit L ∧ o' = o + 4
  end.

(** A sequence of tokens from [o] on. *)
Fixpoint stream (o : Z) (l : list item) : Prop :=
  match l with
  | [] => True
  | (o1, t) :: l => o1 = o ∧ ∃ o', token_at o t o' ∧ stream o' l
  end.

(** The tokens from [o] on, without the no-ops. *)
Definition holds (o : Z) (l : list item) : Prop :=
  ∃ l', stream o l' ∧ filter (λ i, i.2 ≠ T_NOP) l' = l.

(** The structure block is the tree [root]. *)
Definition holds_tree (root : node) : Prop := ∃ e, holds 0 (flat root ++ [(e, T_END)]).

Lemma token_next o t o' : token_at o t o' → o + 4 ≤ o' ≤ l_limit L + 3 ∧ o' mod 4 = 0.
Proof.
  intros (H0 & H4 & _ & H). unfold align4 in *. destruct t.
  1: destruct H as (_ & ? & ->). 3: destruct H as (_ & _ & _ & ? & ->). all: Z.div_mod_to_equations; lia.
Qed.

Lemma stream_length o l : stream o l → l ≠ [] → o + 4 * Z.of_nat (length l) ≤ l_limit L + 3.
Proof.
  revert o. induction l as [|[o1 t] l IH]; intros o; [done|]. intros (-> & o' & Ht & Hl) _. apply token_next in Ht as Hn.
  cbn [length]. destruct l as [|i l]; [cbn; lia|]. specialize (IH o' Hl ltac:(done)). lia.
Qed.

(** Splitting off the first token. *)
Lemma holds_cons o o1 t l : holds o ((o1, t) :: l) → o ≤ o1 ∧ ∃ o', token_at o1 t o' ∧ holds o' l.
Proof.
  intros (l' & Hs & Hf). revert o Hs. induction l' as [|[o2 u] l' IH]; intros o; [done|]. intros (-> & o' & Ht & Hs).
  apply token_next in Ht as Hn. rewrite filter_cons in Hf. cbn [snd] in Hf. case_decide as Hd.
  - injection Hf as -> -> Hf. split; [done|]. exists o'. split; [done|]. by exists l'.
  - destruct (IH Hf o' Hs) as (? & ?). split; [lia|done].
Qed.

Lemma holds_app o l1 l2 : holds o (l1 ++ l2) → ∃ o', o ≤ o' ∧ holds o' l2.
Proof.
  revert o. induction l1 as [|[o1 t] l1 IH]; intros o H; [by exists o|].
  apply holds_cons in H as (? & o' & Ht & H). apply token_next in Ht. destruct (IH o' H) as (o'' & ? & ?). exists o''. split; [lia|done].
Qed.
End tree.
