(* ===== verification/FdtWalk.v ===== *)
(** * lib/libfdt: walking over a tree

    In a blob that holds a tree, the functions that iterate over nodes and
    properties enumerate those of the tree, and the lookups find the subnode or
    property of the given name. *)

From S2P Require Import Prelude.
From S2P Require Import CMem.
From S2P Require Import CString.
From S2P Require Import CStringSpec.
From S2P Require Import Fdt.
From S2P Require Import FdtRo.
From S2P Require Import FdtProps.
From S2P Require Import FdtTree.

Section walk.
Context (m : memory) (fdt : Z) (blob : list Z) (Hblob : bytes m fdt blob) (Hsize : 40 ≤ Z.of_nat (length blob)).
Context (ver tot : Z) (L : layout) (Hok : header_ok m fdt ver tot (l_struct L) (l_limit L)).
Context (Htot : tot ≤ Z.of_nat (length blob)) (Hver : 16 ≤ ver).
Local Abbreviation offs := (l_struct L).
Local Abbreviation lim := (l_limit L).
Local Abbreviation token_at := (token_at m fdt L).
Local Abbreviation holds := (holds m fdt L).

Lemma lim_small : lim + 28 < 2 ^ 31.
Proof. exact (lim_int m fdt ver tot offs lim Hok). Qed.

Lemma ptr_spec o len : o < 2 ^ 31 → 0 ≤ len < 2 ^ 32 →
  fdt_offset_ptr m fdt o len = Ret (if (0 <=? o) && (o + len <=? lim) then fdt + offs + o else 0).
Proof. exact (offset_ptr_spec m fdt ver tot offs lim Hok o len). Qed.

(** ** One token *)

Lemma skip_name_cstr f o s : cstr m (fdt + offs + o) s → 0 ≤ o → o + Z.of_nat (length s) + 1 ≤ lim → (length s < f)%nat →
  skip_name m f fdt o = Ret (fdt + offs + (o + Z.of_nat (length s)), o + Z.of_nat (length s) + 1).
Proof.
  pose proof lim_small as Hli. revert o s. induction f as [|f IH]; intros o s Hs H0 Hl Hf; [lia|]. cbn [skip_name].
  rewrite ptr_spec by lia. rewrite !(proj2 (Z.leb_le _ _)) by lia. cbn [bind andb].
  rewrite (proj2 (Z.eqb_neq _ _)) by (eapply offset_ptr_nonnull; done). rewrite s32_small by lia.
  destruct s as [|c s].
  - rewrite (ldc_ldb _ _ _ (cstr_nil _ _ Hs)). cbn [bind negb Z.eqb s8 length]. change (s8 0 =? 0) with true. cbn [negb]. do 2 f_equal; lia.
  - destruct (cstr_cons _ _ _ _ Hs) as (Hl' & Hc & Hs'). rewrite (ldc_ldb _ _ _ Hl'). cbn [bind]. rewrite s8_zero by lia.
    rewrite (proj2 (Z.eqb_neq _ _)) by lia. cbn [negb length] in *. rewrite <- Z.add_assoc in Hs'. rewrite (IH _ s) by (done || lia).
    do 2 f_equal; lia.
Qed.

Lemma prop_pad_new o len : prop_pad ver o len = 0.
Proof. unfold prop_pad. by rewrite (proj2 (Z.ltb_ge ver 16)) by lia. Qed.

Lemma next_tag_token o t o' : token_at o t o' → fdt_next_tag m fdt o = Ret (tag_of t, o').
Proof.
  pose proof lim_small as Hli. intros (H0 & H4 & Hw & Ht). destruct t; cbn [tag_of] in *.
  1: { destruct Ht as (Hs & Hl & ->). erewrite next_tag_begin by (done || lia).
       rewrite (skip_name_cstr _ _ name) by (done || lia || by apply cstr_fuel in Hs). cbn [bind].
       rewrite (proj2 (Z.eqb_neq _ _)) by (eapply offset_ptr_nonnull; done || lia).
       replace (o + 4 + Z.of_nat (length name) + 1) with (s32 (o + (4 + Z.of_nat (length name) + 1))) by (rewrite s32_small; lia).
       erewrite finish_spec by (done || lia). rewrite u32_small, s32_small by lia. rewrite (proj2 (Z.leb_le _ _)) by lia. done. }
  2: { destruct Ht as (Hlen & _ & _ & Hl & ->). erewrite next_tag_prop by (done || lia). rewrite prop_pad_new, u32_small by lia. cbv zeta.
       rewrite (proj2 (Z.leb_le _ _)) by lia. do 2 f_equal. unfold align4. by replace (o + (12 + 0 + Z.of_nat (length val))) with (o + 12 + Z.of_nat (length val)) by lia. }
  all: destruct Ht as (Hl & ->); erewrite next_tag_plain by (done || lia); rewrite bool_decide_true by set_solver;
    do 2 f_equal; Z.div_mod_to_equations; lia.
Qed.

Lemma check_node_token o s o' : token_at o (T_BEGIN s) o' → fdt_check_node_offset_ m fdt o = Ret o'.
Proof.
  intros Ht. unfold fdt_check_node_offset_. rewrite (next_tag_token _ _ _ Ht). cbn [bind]. destruct Ht as (H0 & H4 & _).
  rewrite (proj2 (Z.ltb_ge _ _)), Z.rem_mod_nonneg by done. unfold FDT_TAGSIZE. by rewrite H4.
Qed.

Lemma check_prop_token o s v o' : token_at o (T_PROP s v) o' → fdt_check_prop_offset_ m fdt o = Ret o'.
Proof.
  intros Ht. unfold fdt_check_prop_offset_. rewrite (next_tag_token _ _ _ Ht). cbn [bind]. destruct Ht as (H0 & H4 & _).
  rewrite (proj2 (Z.ltb_ge _ _)), Z.rem_mod_nonneg by done. unfold FDT_TAGSIZE. by rewrite H4.
Qed.

(** ** The next node *)

(** Where a walk from inside a node ends: at a node, above the depth it started
    from, or at the end of the tree. *)
Inductive stop := At (o : Z) (d : option Z) | Above (d : Z) | Stop.

Fixpoint walk (d : option Z) (l : list item) : option stop :=
  match l with
  | [] => None
  | (o, t) :: l =>
      match t with
      | T_BEGIN _ => Some (At o ((λ d, d + 1) <$> d))
      | T_END_NODE =>
          match d with
          | Some d => if d - 1 <? 0 then Some (Above (d - 1)) else walk (Some (d - 1)) l
          | None => walk None l
          end
      | T_END => Some Stop
      | _ => walk d l
      end
  end.

Definition stopped (s : stop) (r : Z * option Z) : Prop :=
  match s with
  | At o d => r = (o, d)
  | Above d => 0 ≤ r.1 ∧ r.2 = Some d
  | Stop => r.1 = - FDT_ERR_NOTFOUND
  end.

Lemma next_node_loop_stream f o l d s : stream m fdt L o l → walk d l = Some s → (length l < f)%nat →
  post (next_node_loop m f fdt o d) (stopped s).
Proof.
  revert o l d. induction f as [|f IH]; intros o l d Hs Hw Hf; [lia|]. destruct l as [|[o1 t] l]; [done|].
  destruct Hs as (-> & o' & Ht & Hs). cbn [next_node_loop]. rewrite (next_tag_token _ _ _ Ht). cbn [bind length] in *.
  assert (0 ≤ o') by (apply token_next in Ht as ?; destruct Ht; lia).
  destruct t; cbn [tag_of walk] in *.
  - injection Hw as <-. done.
  - destruct d as [d|]; [|eapply IH; done || lia]. cbn. destruct (d - 1 <? 0); [|eapply IH; done || lia]. by injection Hw as <-.
  - eapply IH; done || lia.
  - eapply IH; done || lia.
  - injection Hw as <-. cbn. by rewrite (proj2 (Z.leb_le 0 o')) by lia.
Qed.

Lemma walk_nops d l : walk d (filter (λ i, i.2 ≠ T_NOP) l) = walk d l.
Proof.
  revert d. induction l as [|[o t] l IH]; intros d; [done|]. rewrite filter_cons. cbn [snd]. case_decide as Hd.
  - destruct t; cbn [walk]; try done. destruct d; [|done]. by rewrite IH.
  - rewrite IH. by destruct t; try (destruct Hd; done).
Qed.

Lemma next_node_loop_holds o l d s : 0 ≤ o → holds o l → walk d l = Some s → post (next_node_loop m (fuel m) fdt o d) (stopped s).
Proof.
  intros H0 (l' & Hs & <-) Hw. rewrite walk_nops in Hw. eapply next_node_loop_stream; [done..|].
  pose proof (blob_fuel _ _ _ Hblob _ _ _ _ Hok Htot) as Hf. destruct l' as [|i l']; [done|].
  apply stream_length in Hs; [lia|done].
Qed.

Lemma next_node_holds o off s l d r : holds o ((off, T_BEGIN s) :: l) → walk d l = Some r →
  post (fdt_next_node m fdt off d) (stopped r).
Proof.
  intros Hh Hw. apply holds_cons in Hh as (_ & o' & Ht & Hh). unfold fdt_next_node. pose proof (token_next _ _ _ _ _ _ Ht) as Hn.
  destruct Ht as (H0 & Ht). rewrite (proj2 (Z.leb_le 0 off)), (check_node_token _ _ _ (conj H0 Ht)) by done. cbn [bind].
  rewrite (proj2 (Z.ltb_ge o' 0)) by lia. eapply next_node_loop_holds; done || lia.
Qed.

(** ** Subnodes *)

Lemma holds_off o l1 o1 t l2 : holds o (l1 ++ (o1, t) :: l2) → 0 ≤ o1 ∧ ∃ o', holds o' ((o1, t) :: l2).
Proof. intros (o' & _ & H)%holds_app. split; [|by exists o']. by apply holds_cons in H as (_ & ? & (? & _) & _). Qed.

Lemma walk_props d ps l : walk d (map prop_item ps ++ l) = walk d l.
Proof. induction ps as [|p ps IH]; [done|]. cbn. apply IH. Qed.

Lemma first_subnode_holds o n post : holds o (flat n ++ post) →
  fdt_first_subnode m fdt (n_off n) = Ret (match n_kids n with k :: _ => n_off k | [] => - FDT_ERR_NOTFOUND end).
Proof.
  destruct n as [off e s ps ks]. cbn [flat n_off n_kids app]. intros Hh. unfold fdt_first_subnode.
  destruct ks as [|[k ke ksn kps kks] ks]; cbn [flat_map flat app] in *; rewrite <- ?app_assoc in Hh; cbn [app] in Hh.
  - edestruct (post_inv (fdt_next_node m fdt off (Some 0))) as [([o' d'] & -> & Hs) _].
    { eapply next_node_holds; [done|]. by rewrite walk_props. }
    destruct Hs as [? [= ->]]. cbn [bind]. by rewrite orb_true_r.
  - edestruct (post_inv (fdt_next_node m fdt off (Some 0))) as [([o' d'] & -> & Hs) _].
    { eapply next_node_holds; [done|]. rewrite walk_props. done. }
    injection Hs as -> ->. rewrite app_comm_cons in Hh. apply holds_off in Hh as [Hk _]. cbn.
    by rewrite (proj2 (Z.ltb_ge k 0)).
Qed.

(** The first node one level below the start with a name that satisfies [P]; an
    answer of [None] is that there is none. *)
Fixpoint find (P : list Z → bool) (d : Z) (l : list item) : option (option Z) :=
  match l with
  | [] => None
  | (o, t) :: l =>
      match t with
      | T_BEGIN s => if (d + 1 =? 1) && P s then Some (Some o) else find P (d + 1) l
      | T_END_NODE => if d - 1 <? 0 then Some None else find P (d - 1) l
      | T_END => Some None
      | _ => find P d l
      end
  end.

Lemma find_props P d ps l : find P d (map prop_item ps ++ l) = find P d l.
Proof. induction ps as [|p ps IH]; [done|]. cbn. apply IH. Qed.

(** Nodes further down are passed over. *)
Lemma find_deep P d n l : 1 ≤ d → find P d (flat n ++ l) = find P d l.
Proof.
  revert d l. induction n as [o e s ps ks IH] using node_ind'. intros d l Hd. cbn [flat app find].
  rewrite (proj2 (Z.eqb_neq (d + 1) 1)) by lia. cbn [andb]. rewrite <- !app_assoc, find_props.
  assert (Hks : ∀ l', find P (d + 1) (flat_map flat ks ++ l') = find P (d + 1) l').
  { induction IH as [|k ks Hk _ IHks]; intros l'; [done|]. cbn [flat_map]. rewrite <- app_assoc, Hk, IHks by lia. done. }
  rewrite Hks. cbn [app find]. rewrite (proj2 (Z.ltb_ge _ _)) by lia. f_equal. lia.
Qed.

Lemma find_deep_list P d ks l : 1 ≤ d → find P d (flat_map flat ks ++ l) = find P d l.
Proof. intros Hd. induction ks as [|k ks IH]; [done|]. cbn [flat_map]. by rewrite <- app_assoc, find_deep. Qed.

(** Among siblings the first one that matches is found. *)
Lemma find_kids P ks e l : find P 0 (flat_map flat ks ++ (e, T_END_NODE) :: l) = Some (n_off <$> List.find (λ k, P (n_name k)) ks).
Proof.
  induction ks as [|[o ke s ps kks] ks IH]; [done|]. cbn [flat_map flat app find List.find n_name]. change (0 + 1) with 1.
  cbn [Z.eqb Pos.eqb andb]. destruct (P s); [done|]. rewrite <- !app_assoc, find_props, find_deep_list by lia. exact IH.
Qed.

Lemma find_walk P d l r : 0 ≤ d → find P d l = Some r → ∃ w, walk (Some d) l = Some w ∧
  match w with
  | At o' d' => ∃ d1 l1 s l2, d' = Some d1 ∧ 1 ≤ d1 ∧ l = l1 ++ (o', T_BEGIN s) :: l2 ∧
      if (d1 =? 1) && P s then r = Some o' else find P d1 l2 = Some r
  | Above d' => d' < 0 ∧ r = None
  | Stop => r = None
  end.
Proof.
  revert d. induction l as [|[o t] l IH]; intros d Hd; [done|]. cbn [find walk].
  assert (Hrec : ∀ d, 0 ≤ d → find P d l = Some r → ∃ w, walk (Some d) l = Some w ∧
    match w with
    | At o' d' => ∃ d1 l1 s l2, d' = Some d1 ∧ 1 ≤ d1 ∧ (o, t) :: l = l1 ++ (o', T_BEGIN s) :: l2 ∧
        if (d1 =? 1) && P s then r = Some o' else find P d1 l2 = Some r
    | Above d' => d' < 0 ∧ r = None
    | Stop => r = None
    end).
  { intros d' Hd' Hf. destruct (IH d' Hd' Hf) as (w & Hw & H). exists w. split; [done|]. destruct w; try done.
    destruct H as (d1 & l1 & s & l2 & ? & ? & -> & ?). exists d1, ((o, t) :: l1), s, l2. done. }
  destruct t; try by apply Hrec.
  - intros Hf. eexists. split; [done|]. cbn. exists (d + 1), [], name, l. repeat split; [lia|].
    destruct ((d + 1 =? 1) && P name); by simplify_eq.
  - destruct (Z.ltb_spec (d - 1) 0); [|by apply Hrec]. intros [= <-]. eexists. split; [done|]. cbn. split; [lia|done].
  - intros [= <-]. by eexists.
Qed.

Definition or_notfound (r : option Z) : Z := default (- FDT_ERR_NOTFOUND) r.

Lemma next_subnode_loop_holds f o off s l d r : holds o ((off, T_BEGIN s) :: l) → 0 ≤ d → find (λ _, true) d l = Some r →
  (length l < f)%nat → next_subnode_loop m f fdt off d = Ret (or_notfound r).
Proof.
  revert o off s l d. induction f as [|f IH]; intros o off s l d Hh Hd Hf Hlen; [lia|]. cbn [next_subnode_loop].
  destruct (find_walk _ _ _ _ Hd Hf) as (w & Hw & Hr). pose proof (next_node_holds _ _ _ _ _ _ Hh Hw) as Hn.
  apply post_inv in Hn as ([o' d'] & -> & Hs). cbn [bind]. destruct w as [o1 d1|d1|]; cbn [stopped fst snd] in Hs.
  - injection Hs as -> ->. destruct Hr as (d2 & l1 & s2 & l2 & -> & Hd2 & -> & Hr). cbn [depth_of].
    rewrite app_comm_cons in Hh. apply holds_off in Hh as [H1 [o2 Hh]]. rewrite (proj2 (Z.ltb_ge o1 0)), (proj2 (Z.ltb_ge d2 1)) by lia. cbn [orb].
    rewrite andb_true_r in Hr. destruct (Z.eqb_spec d2 1) as [->|]; [by subst|]. rewrite (proj2 (Z.ltb_lt 1 d2)) by lia.
    eapply IH; [done|lia|done|]. rewrite length_app in Hlen. cbn in Hlen. lia.
  - destruct Hs as [_ ->]. destruct Hr as [? ->]. cbn [depth_of]. by rewrite (proj2 (Z.ltb_lt d1 1)), orb_true_r by lia.
  - subst. done.
Qed.

Lemma holds_fuel o i l : 0 ≤ o → holds o (i :: l) → (S (length l) < fuel m)%nat.
Proof.
  intros H0 (l' & Hs & Hf). assert (Hle : (length (i :: l) ≤ length l')%nat) by (rewrite <- Hf; apply length_filter). cbn [length] in Hle.
  pose proof (blob_fuel _ _ _ Hblob _ _ _ _ Hok Htot). apply stream_length in Hs; [lia|]. by intros ->.
Qed.

Lemma next_subnode_holds o k ks e l : 0 ≤ o → holds o (flat k ++ flat_map flat ks ++ (e, T_END_NODE) :: l) →
  fdt_next_subnode m fdt (n_off k) = Ret (match ks with k' :: _ => n_off k' | [] => - FDT_ERR_NOTFOUND end).
Proof.
  destruct k as [off ke s ps kks]. cbn [flat app n_off]. rewrite <- !app_assoc. intros H0 Hh. unfold fdt_next_subnode.
  rewrite (next_subnode_loop_holds (fuel m) _ _ _ _ 1 (n_off <$> head ks) Hh); [by destruct ks|done| |exact (Nat.lt_succ_l _ _ (holds_fuel _ _ _ H0 Hh))].
  rewrite find_props, find_deep_list by done. cbn [app find]. change (1 - 1 <? 0) with false. cbv match. change (1 - 1) with 0.
  rewrite find_kids. by destruct ks.
Qed.

(** ** Names *)

Context (Hlt : tot < INT32_MAX).

Lemma ro_probe_ok : fdt_ro_probe_ m fdt = Ret tot ∧ 0 ≤ tot.
Proof.
  rewrite (ro_probe_spec m fdt _ _ _ _ Hok). rewrite (proj2 (Z.ltb_lt _ _)) by done. split; [done|]. destruct (ho_total _ _ _ _ _ _ Hok). lia.
Qed.

Lemma FDT_RO_PROBE_ok k : FDT_RO_PROBE m fdt k = k.
Proof. destruct ro_probe_ok as [E ?]. unfold FDT_RO_PROBE. rewrite E. cbn [bind]. by rewrite (proj2 (Z.ltb_ge _ _)). Qed.

(** A component of a path names a node exactly, or without its unit address. *)
Definition name_matches (nm s : list Z) : bool :=
  bool_decide (s = nm) || bool_decide (c_at ∉ nm) && bool_decide (nm ++ [c_at] `prefix_of` s).

Lemma get_name_token o s o' : token_at o (T_BEGIN s) o' →
  fdt_get_name m fdt o = Ret (fdt + offs + (o + 4), Z.of_nat (length s)).
Proof.
  intros Ht. destruct ro_probe_ok as [E ?]. unfold fdt_get_name, fdt_offset_ptr_.
  destruct (ho_struct _ _ _ _ _ _ Hok) as [-> _], (ho_version _ _ _ _ _ _ Hok) as [-> _]. rewrite E, (check_node_token _ _ _ Ht). cbn [bind].
  pose proof (token_next _ _ _ _ _ _ Ht). pose proof lim_small. destruct Ht as (Ho & _ & _ & Hs & Hl & _).
  rewrite !(proj2 (Z.ltb_ge _ 0)), (proj2 (Z.ltb_ge ver 16)) by lia. cbn [bind].
  rewrite <- Z.add_assoc. rewrite (proj2 (Z.eqb_neq _ 0)) by (eapply offset_ptr_nonnull; done || lia).
  rewrite (strlen_spec _ _ _ Hs). cbn [bind]. by rewrite s32_small by lia.
Qed.

Lemma memchr_absent p l c : bytes m p l → 0 ≤ c < 256 →
  ∃ q, memchr m p c (Z.of_nat (length l)) = Ret q ∧ (q =? 0) = bool_decide (c ∉ l).
Proof.
  intros Hb Hc. rewrite (memchr_spec _ _ _ _ _ Hb eq_refl). eexists. split; [done|]. rewrite u8_byte by done.
  destruct (list_find (λ x, x = c) l) as [[i x]|] eqn:E; cbn.
  - apply list_find_Some in E as (E & -> & _). rewrite bool_decide_false by (intros H; apply H; by eapply list_elem_of_lookup_2).
    apply Z.eqb_neq. destruct (bytes_lookup _ _ _ _ _ Hb E) as (_ & _ & Ha%addr_ok_iff). lia.
  - apply list_find_None in E. rewrite bool_decide_true; [done|]. intros H. rewrite Forall_forall in E. by apply (E c).
Qed.

Lemma prefix_at_spec nm c rest : nm ++ [c_at] `prefix_of` nm ++ c :: rest ↔ c = c_at.
Proof.
  split; [|intros ->; by exists rest; rewrite <- app_assoc]. intros [k Hk]. rewrite <- app_assoc in Hk. apply app_inv_head in Hk. by injection Hk.
Qed.

Lemma nodename_eq_token o s o' name nm : token_at o (T_BEGIN s) o' → bytes m name nm →
  fdt_nodename_eq_ m fdt o name (Z.of_nat (length nm)) = Ret (name_matches nm s).
Proof.
  intros Ht Hnm. unfold fdt_nodename_eq_. rewrite (get_name_token _ _ _ Ht). cbn [bind]. destruct Ht as (H0 & _ & _ & [Hs Hc] & _).
  rewrite (proj2 (Z.eqb_neq _ 0)) by (eapply offset_ptr_nonnull; done || lia). cbn [orb]. unfold name_matches.
  destruct (Z.ltb_spec (Z.of_nat (length s)) (Z.of_nat (length nm))).
  { rewrite (bool_decide_false (s = nm)), (bool_decide_false (_ `prefix_of` s)), andb_false_r; [done| |intros ->; lia].
    intros Hp%prefix_length; rewrite length_app in Hp; lia. }
  rewrite <- (take_drop (length nm) s) in Hs, Hc |- *. set (s1 := take (length nm) s) in *. set (rest := drop (length nm) s) in *.
  assert (Hl1 : length s1 = length nm) by (unfold s1; rewrite length_take; lia). clearbody s1 rest.
  rewrite <- app_assoc in Hs. apply bytes_app in Hs as [Hb1 Hb2]. rewrite (memcmp_spec _ _ _ _ _ _ Hb1 Hnm Hl1 eq_refl). cbn [bind].
  destruct (Z.eqb_spec (byte_diff s1 nm) 0) as [->%byte_diff_zero|Hne]; [|done|]; cbn [negb].
  2:{ assert (s1 ≠ nm) by (intros ->; apply Hne; by apply byte_diff_zero). rewrite (bool_decide_false (_ = nm)), (bool_decide_false (_ `prefix_of` _)), andb_false_r; [done| |].
      - intros [k Hk]. rewrite <- app_assoc in Hk. apply app_inj_1 in Hk as [? _]; done.
      - intros Hk. apply (f_equal length) in Hk as Hlen. rewrite length_app in Hlen. destruct rest; [by rewrite app_nil_r in Hk|cbn in Hlen; lia]. }
  destruct rest as [|c rest]; cbn [app] in Hb2.
  { rewrite (ldc_ldb _ _ _ (ldb_bytes _ _ _ _ Hb2)). cbn. by rewrite app_nil_r, bool_decide_true. }
  rewrite (ldc_ldb _ _ _ (ldb_bytes _ _ _ _ Hb2)). cbn [bind]. apply Forall_app in Hc as [_ Hc]. apply Forall_cons in Hc as [Hc _].
  rewrite s8_zero, (proj2 (Z.eqb_neq c 0)) by lia. destruct (memchr_absent name nm c_at Hnm ltac:(by unfold c_at)) as (q & -> & Hq). cbn [bind]. rewrite Hq.
  rewrite (bool_decide_false (_ = nm)) by (intros E%(f_equal length); rewrite length_app in E; cbn in E; lia). cbn [orb]. do 2 f_equal.
  change c_at with (s8 c_at) at 1. rewrite char_eq by lia. change (u8 c_at) with c_at. apply eq_true_iff_eq.
  by rewrite Z.eqb_eq, bool_decide_eq_true, prefix_at_spec.
Qed.

(** ** Subnodes by name *)

Lemma subnode_loop_holds f o off s l d r name nm : holds o ((off, T_BEGIN s) :: l) → bytes m name nm → 0 ≤ d →
  (d =? 1) && name_matches nm s = false → find (name_matches nm) d l = Some r → (length l < f)%nat →
  subnode_loop m (S f) fdt off d name (Z.of_nat (length nm)) = Ret (or_notfound r).
Proof.
  intros Hh Hnm. revert o off s l d Hh. induction f as [|f IH]; intros o off s l d Hh Hd Hne Hf Hlen; [lia|]. remember (S f) as f' eqn:Ef.
  destruct (find_walk _ _ _ _ Hd Hf) as (w & Hw & Hr). pose proof (next_node_holds _ _ _ _ _ _ Hh Hw) as Hn.
  pose proof Hh as (_ & o' & Ht & _)%holds_cons. cbn [subnode_loop].
  rewrite (proj2 (Z.leb_le 0 d)), (proj2 (Z.leb_le 0 off)) by (done || by destruct Ht). cbn [andb].
  assert (Hhit : (if d =? 1 then fdt_nodename_eq_ m fdt off name (Z.of_nat (length nm)) else Ret false) = Ret false).
  { rewrite (nodename_eq_token _ _ _ _ _ Ht Hnm). destruct (d =? 1); [|done]. cbn [andb] in Hne. by rewrite Hne. }
  rewrite Hhit. cbn [bind]. apply post_inv in Hn as ([o1 d1] & -> & Hs). cbn [bind]. destruct w as [o2 d2|d2|]; cbn [stopped fst snd] in Hs.
  - injection Hs as -> ->. destruct Hr as (d1 & l1 & s2 & l2 & -> & Hd1 & -> & Hr). cbn [depth_of].
    rewrite app_comm_cons in Hh. apply holds_off in Hh as [H2 [o3 Hh]]. destruct ((d1 =? 1) && name_matches nm s2) eqn:E.
    + subst. cbn [subnode_loop]. rewrite !(proj2 (Z.leb_le 0 _)) by lia. cbn [andb]. apply andb_true_iff in E as [-> E].
      pose proof Hh as (_ & o4 & Ht4 & _)%holds_cons. rewrite (nodename_eq_token _ _ _ _ _ Ht4 Hnm). cbn [bind]. by rewrite E.
    + subst f'. eapply IH; [done|lia|done..|]. rewrite length_app in Hlen. cbn in Hlen. lia.
  - destruct Hs as [? ->]. destruct Hr as [? ->]. subst f'. cbn [subnode_loop depth_of]. rewrite (proj2 (Z.leb_gt 0 d2)), andb_false_r by lia.
    by rewrite (proj2 (Z.ltb_lt d2 0)) by lia.
  - subst. cbn [subnode_loop]. cbn. by destruct (depth_of d1 <? 0).
Qed.

(** The subnode of a node that a path component names. *)
Definition subnode (n : node) (nm : list Z) : option node := List.find (λ k, name_matches nm (n_name k)) (n_kids n).

Lemma subnode_holds o n l name nm : 0 ≤ o → holds o (flat n ++ l) → bytes m name nm →
  fdt_subnode_offset_namelen m fdt (n_off n) name (Z.of_nat (length nm)) = Ret (or_notfound (n_off <$> subnode n nm)).
Proof.
  destruct n as [off e s ps ks]. cbn [flat app n_off]. rewrite <- !app_assoc. intros H0 Hh Hnm. unfold fdt_subnode_offset_namelen.
  rewrite FDT_RO_PROBE_ok. unfold fuel. pose proof (holds_fuel _ _ _ H0 Hh) as Hf. unfold fuel in Hf.
  eapply subnode_loop_holds; [done|done|done|done| |].
  - rewrite find_props. apply find_kids.
  - exact (proj2 (Nat.succ_lt_mono _ _) Hf).
Qed.

(** ** Properties *)

Lemma nextprop_holds o l o1 t l' : 0 ≤ o → holds o l → l = (o1, t) :: l' →
  nextprop_ m fdt o = Ret (match t with
    | T_PROP _ _ => o1 | T_END => - FDT_ERR_BADSTRUCTURE | _ => - FDT_ERR_NOTFOUND end).
Proof.
  intros H0 (ls & Hs & Hf) ->. unfold nextprop_. assert (Hlen : (length ls < fuel m)%nat).
  { pose proof (blob_fuel _ _ _ Hblob _ _ _ _ Hok Htot). apply stream_length in Hs; [lia|]. by intros ->. }
  revert o H0 ls Hs Hf Hlen. generalize (fuel m) as f. induction f as [|f IH]; intros o H0 ls Hs Hf Hlen; [lia|].
  destruct ls as [|[o2 u] ls]; [done|]. destruct Hs as (-> & o' & Ht & Hs). cbn [nextprop_loop]. rewrite (next_tag_token _ _ _ Ht). cbn [bind].
  pose proof (token_next _ _ _ _ _ _ Ht). rewrite filter_cons in Hf. cbn [snd length] in *. case_decide as Hd.
  - injection Hf as -> -> Hf. destruct t; cbn; try done. by rewrite (proj2 (Z.leb_le 0 o')) by lia.
  - destruct (decide (u = T_NOP)) as [->|]; [|by destruct Hd]. cbn. apply (IH o' ltac:(lia) ls); [done..|lia].
Qed.

Lemma property_token o s v o' : token_at o (T_PROP s v) o' →
  fdt_get_property_by_offset_ m fdt o = Ret (fdt + offs + o, Z.of_nat (length v)).
Proof.
  intros Ht. unfold fdt_get_property_by_offset_. rewrite (check_prop_token _ _ _ _ Ht). cbn [bind].
  pose proof (token_next _ _ _ _ _ _ Ht). pose proof lim_small. destruct Ht as (Ho & _ & _ & Hlen & _ & _ & Hl & _).
  rewrite (proj2 (Z.ltb_ge o' 0)) by lia. unfold fdt_offset_ptr_, fdt32_ld_. destruct (ho_struct _ _ _ _ _ _ Hok) as [-> _]. cbn [bind].
  unfold word_at in Hlen. rewrite <- (Z.add_assoc _ o 4), Hlen. cbn [bind]. by rewrite s32_small by lia.
Qed.

Lemma memchr_cstr p l s : bytes m p l → cstr m p s → (length s < length l)%nat →
  memchr m p 0 (Z.of_nat (length l)) = Ret (p + Z.of_nat (length s)).
Proof.
  intros Hl [Hs Hc] Hlen. rewrite (memchr_spec _ _ _ _ _ Hl eq_refl). rewrite <- (take_drop (length s + 1) l) in Hl |- *.
  apply bytes_app in Hl as [Hl _]. rewrite (bytes_unique _ _ _ _ Hl Hs) by (rewrite length_take, length_app; cbn; lia).
  rewrite <- app_assoc. change (u8 0) with 0. rewrite list_find_app_r; [cbn; do 2 f_equal; lia|].
  apply list_find_None. apply (Forall_impl _ _ _ Hc). intros; lia.
Qed.

Context (Hstrings : fdt_off_dt_strings m fdt = Ret (l_strings L)) (Hnstrings : fdt_size_dt_strings m fdt = Ret (l_nstrings L)).

Lemma strings_range : 28 ≤ l_strings L ∧ 0 ≤ l_nstrings L ∧ l_strings L + l_nstrings L ≤ tot.
Proof.
  destruct (ho_strings _ _ _ _ _ _ Hok) as (o & n & Eo & En & H). by assert (o = l_strings L ∧ n = l_nstrings L) as [<- <-] by (split; congruence).
Qed.

Lemma get_string_at no s : string_at m fdt L no s → fdt_get_string m fdt no = Ret (fdt + l_strings L + no, Z.of_nat (length s)).
Proof.
  intros (H0 & Hn & Hs). destruct strings_range as (Ro & Rn & Rt). destruct ro_probe_ok as [E ?]. unfold INT32_MAX in *.
  unfold fdt_get_string. rewrite E, Hstrings, Hnstrings. cbn [bind].
  rewrite (proj2 (Z.ltb_ge tot 0)), (u32_small (no + _)), (proj2 (Z.leb_gt tot _)) by lia.
  rewrite (ho_magic _ _ _ _ _ _ Hok). destruct (ho_version _ _ _ _ _ _ Hok) as [-> _]. cbn [bind]. rewrite Z.eqb_refl, (proj2 (Z.ltb_ge no 0)) by lia.
  assert (Hfin : ∀ len, Z.of_nat (length s) < len ≤ tot - (no + l_strings L) →
    (let* n := memchr m (fdt + (no + l_strings L)) 0 len in
     if n =? 0 then Ret (0, - FDT_ERR_TRUNCATED) else Ret (fdt + (no + l_strings L), n - (fdt + (no + l_strings L)))) =
    Ret (fdt + l_strings L + no, Z.of_nat (length s))).
  { intros len Hlen. replace (fdt + (no + l_strings L)) with (fdt + l_strings L + no) by lia.
    destruct (bytes_inside _ _ _ Hblob Hsize tot Htot (fdt + l_strings L + no) len) as [Hb Hl]; [unfold inside; lia|].
    rewrite <- (Z2Nat.id len), <- Hl by lia. rewrite (memchr_cstr _ _ _ Hb Hs) by lia. cbn [bind].
    rewrite (proj2 (Z.eqb_neq _ 0)) by (apply cstr_range in Hs; lia). do 2 f_equal. lia. }
  destruct (17 <=? ver); [|apply Hfin; lia]. rewrite (u32_small no), (proj2 (Z.leb_gt (l_nstrings L) no)), (u32_small (_ - no)) by lia.
  apply Hfin. destruct (Z.ltb_spec (l_nstrings L - no) (tot - (no + l_strings L))); lia.
Qed.

Lemma string_eq_at no s name nm : string_at m fdt L no s → bytes m name nm →
  fdt_string_eq_ m fdt no name (Z.of_nat (length nm)) = Ret (bool_decide (s = nm)).
Proof.
  intros Hs Hnm. unfold fdt_string_eq_. rewrite (get_string_at _ _ Hs). cbn [bind]. destruct Hs as (_ & _ & Hs).
  rewrite (proj2 (Z.eqb_neq _ 0)) by (apply cstr_range in Hs; lia). destruct (Z.eqb_spec (Z.of_nat (length s)) (Z.of_nat (length nm))) as [E|E]; cbn [negb].
  - destruct Hs as [[Hs _]%bytes_app _]. rewrite (memcmp_spec _ _ _ _ _ _ Hs Hnm) by lia. cbn [bind]. f_equal.
    apply eq_true_iff_eq. rewrite Z.eqb_eq, bool_decide_eq_true. apply byte_diff_zero. lia.
  - rewrite bool_decide_false; [done|]. by intros ->.
Qed.

(** The property of a node by its name. *)
Definition prop (n : node) (nm : list Z) : option property := List.find (λ p, bool_decide (p_name p = nm)) (n_props n).

Lemma get_property_loop_holds f o ps o1 t l name nm : 0 ≤ o → holds o (map prop_item ps ++ (o1, t) :: l) →
  (∀ s v, t ≠ T_PROP s v) → t ≠ T_END → bytes m name nm → (length ps < f)%nat →
  get_property_loop m f fdt (match ps with p :: _ => p_off p | [] => - FDT_ERR_NOTFOUND end) name (Z.of_nat (length nm)) =
  Ret (match List.find (λ p, bool_decide (p_name p = nm)) ps with
       | Some p => (fdt + offs + p_off p, Z.of_nat (length (p_val p)), p_off p)
       | None => (0, - FDT_ERR_NOTFOUND, 0)
       end).
Proof.
  intros H0 Hh Ht Ht' Hnm. revert o ps H0 Hh. induction f as [|f IH]; intros o ps H0 Hh Hf; [lia|].
  destruct ps as [|[po s v] ps]; [done|]. cbn [map prop_item app p_off p_name p_val List.find] in *. cbn [get_property_loop].
  change (prop_item (Property po s v)) with (po, T_PROP s v) in Hh.
  apply holds_cons in Hh as (? & o' & Hp & Hh). pose proof (token_next _ _ _ _ _ _ Hp). rewrite (proj2 (Z.ltb_ge po 0)) by lia.
  rewrite (property_token _ _ _ _ Hp). cbn [bind]. rewrite (proj2 (Z.eqb_neq _ 0)) by (eapply offset_ptr_nonnull; done || lia).
  pose proof Hp as (_ & _ & _ & _ & (no & Hno & Hs) & _). unfold fdt32_ld_. rewrite <- (Z.add_assoc _ po 8), Hno. cbn [bind].
  assert (Hr : s32 no = no). { apply s32_small. destruct Hs as (? & ? & _), strings_range as (? & ? & ?). unfold INT32_MAX in *. lia. }
  rewrite Hr, (string_eq_at _ _ _ _ Hs Hnm). cbn [bind]. case_bool_decide; [done|].
  unfold fdt_next_property_offset. rewrite (check_prop_token _ _ _ _ Hp). cbn [bind]. rewrite (proj2 (Z.ltb_ge o' 0)) by lia.
  cbn [length] in Hf. specialize (IH o' ps ltac:(lia) Hh ltac:(lia)). destruct ps as [|[po2 s2 v2] ps]; cbn [map prop_item app] in Hh.
  - erewrite nextprop_holds by (done || lia). destruct t; try done. by destruct (Ht name0 val).
  - erewrite nextprop_holds by (done || lia). exact IH.
Qed.

(** The address of a value and its length. *)
Definition value_of (r : option property) : Z * Z :=
  match r with
  | Some p => (fdt + offs + (p_off p + 12), Z.of_nat (length (p_val p)))
  | None => (0, - FDT_ERR_NOTFOUND)
  end.

(** The bytes at that address are the value, inside the structure block. *)
Lemma value_bytes o n l nm p : holds o (flat n ++ l) → prop n nm = Some p →
  bytes m (fdt + offs + (p_off p + 12)) (p_val p) ∧ 0 ≤ p_off p ∧ p_off p + 12 + Z.of_nat (length (p_val p)) ≤ lim.
Proof.
  destruct n as [off e s ps ks]. cbn [flat app]. rewrite <- !app_assoc. intros Hh Ep.
  apply List.find_some in Ep as [Hin _]. cbn in Hin. apply list_elem_of_In, list_elem_of_split in Hin as (l1 & l2 & ->).
  rewrite map_app, <- app_assoc in Hh. cbn [map app] in Hh. rewrite app_comm_cons in Hh. unfold prop_item at 2 in Hh. apply holds_off in Hh as [_ [o' Hh]].
  apply holds_cons in Hh as (_ & o2 & (? & _ & _ & _ & _ & Hb & Hl & _) & _). done.
Qed.

(** The property itself: its address, length and offset. *)
Definition prop_of (r : option property) : Z * Z * Z :=
  match r with
  | Some p => (fdt + offs + p_off p, Z.of_nat (length (p_val p)), p_off p)
  | None => (0, - FDT_ERR_NOTFOUND, 0)
  end.

Lemma get_property_holds o n l name nm : 0 ≤ o → holds o (flat n ++ l) → bytes m name nm →
  fdt_get_property_namelen_ m fdt (n_off n) name (Z.of_nat (length nm)) = Ret (prop_of (prop n nm)).
Proof.
  destruct n as [off e s ps ks]. cbn [flat app n_off]. rewrite <- !app_assoc. intros H0 Hh Hnm.
  unfold fdt_get_property_namelen_, fdt_first_property_offset, prop. cbn [n_props].
  pose proof (holds_fuel _ _ _ H0 Hh) as Hf. apply holds_cons in Hh as (? & o' & Hb & Hh). pose proof (token_next _ _ _ _ _ _ Hb).
  rewrite (check_node_token _ _ _ Hb). cbn [bind]. rewrite (proj2 (Z.ltb_ge o' 0)) by (destruct Hb; lia).
  assert (Hlast : ∃ o1 t l', flat_map flat ks ++ [(e, T_END_NODE)] ++ l = (o1, t) :: l' ∧ (t = T_END_NODE ∨ ∃ s, t = T_BEGIN s)).
  { destruct ks as [|[ko ke ks' kps kks] ks]; cbn; eauto 10. }
  destruct Hlast as (o1 & t & l' & El & Ht). rewrite El in Hh, Hf.
  assert (Hfirst : nextprop_ m fdt o' = Ret (match ps with p :: _ => p_off p | [] => - FDT_ERR_NOTFOUND end)).
  { destruct ps as [|p ps]; cbn [map app] in Hh; erewrite nextprop_holds by (done || destruct Hb; lia); [|done]. by destruct Ht as [->|[? ->]]. }
  rewrite Hfirst. cbn [bind]. rewrite (get_property_loop_holds _ o' ps o1 t l' name nm);
    [|destruct Hb; lia|done|destruct Ht as [->|[? ->]]; done|destruct Ht as [->|[? ->]]; done|done|].
  - by destruct (List.find _ ps).
  - rewrite length_app, length_map in Hf. lia.
Qed.

Lemma getprop_holds o n l name nm : 0 ≤ o → holds o (flat n ++ l) → bytes m name nm →
  fdt_getprop_namelen m fdt (n_off n) name (Z.of_nat (length nm)) = Ret (value_of (prop n nm)).
Proof.
  intros H0 Hh Hnm. unfold fdt_getprop_namelen. rewrite (get_property_holds _ _ _ _ _ H0 Hh Hnm). cbn [bind].
  destruct (prop n nm) as [p|] eqn:Ep; [|done]. cbn [prop_of]. destruct (value_bytes _ _ _ _ _ Hh Ep) as (_ & Hp & _).
  rewrite (proj2 (Z.eqb_neq _ 0)) by (eapply offset_ptr_nonnull; done || lia). unfold prop_data.
  destruct (ho_version _ _ _ _ _ _ Hok) as [-> _]. cbn [bind]. rewrite (proj2 (Z.ltb_ge ver 16)) by lia. cbn [andb bind value_of]. do 2 f_equal. lia.
Qed.

(** By a name that is a string. *)
Lemma fdt_get_property_cstr o n l name nm : 0 ≤ o → holds o (flat n ++ l) → cstr m name nm → Z.of_nat (length nm) < 2 ^ 31 →
  fdt_get_property m fdt (n_off n) name = Ret (fst (prop_of (prop n nm))).
Proof.
  intros H0 Hh Hnm Hl. unfold fdt_get_property, fdt_get_property_namelen. rewrite (strlen_spec _ _ _ Hnm). cbn [bind].
  destruct (ho_version _ _ _ _ _ _ Hok) as [-> _]. cbn [bind]. rewrite (proj2 (Z.ltb_ge ver 16)), s32_small by lia.
  destruct Hnm as [[Hnm _]%bytes_app _]. rewrite (get_property_holds _ _ _ _ _ H0 Hh Hnm). cbn [bind]. by destruct (prop n nm).
Qed.

Lemma fdt_getprop_cstr o n l name nm : 0 ≤ o → holds o (flat n ++ l) → cstr m name nm → Z.of_nat (length nm) < 2 ^ 31 →
  fdt_getprop m fdt (n_off n) name = Ret (value_of (prop n nm)).
Proof.
  intros H0 Hh Hnm Hl. unfold fdt_getprop. rewrite (strlen_spec _ _ _ Hnm). cbn [bind]. rewrite s32_small by lia.
  destruct Hnm as [[Hnm _]%bytes_app _]. by apply (getprop_holds o n l).
Qed.
End walk.
