(* ===== verification/FdtPath.v ===== *)
(** * lib/libfdt: resolving paths

    [fdt_path_offset_namelen] against the resolution of a path in the tree: the
    components between slashes are looked up one after the other; a path that
    does not begin with a slash begins with an alias, a property of /aliases
    whose value is the path of a node. *)

From S2P Require Import Prelude.
From S2P Require Import CMem.
From S2P Require Import CString.
From S2P Require Import CStringSpec.
From S2P Require Import Fdt.
From S2P Require Import FdtRo.
From S2P Require Import FdtProps.
From S2P Require Import FdtTree.
From S2P Require Import FdtWalk.

(** ** Paths *)

Definition no_slash (s : list Z) : Prop := Forall (λ c, c ≠ c_slash) s.

(** The components of a path: the non-empty parts between slashes; [cur] is the
    part read so far. *)
Fixpoint split_path (cur pth : list Z) : list (list Z) :=
  match pth with
  | [] => match cur with [] => [] | _ => [cur] end
  | c :: pth =>
      if c =? c_slash then match cur with [] => split_path [] pth | _ => cur :: split_path [] pth end
      else split_path (cur ++ [c]) pth
  end.
Definition components (pth : list Z) : list (list Z) := split_path [] pth.

Fixpoint resolve (n : node) (cs : list (list Z)) : option node :=
  match cs with
  | [] => Some n
  | c :: cs => subnode n c ≫= λ k, resolve k cs
  end.

Lemma split_path_cur cur c pth : no_slash c →
  split_path cur (c ++ pth) = split_path (cur ++ c) pth.
Proof.
  intros Hc. revert cur. induction Hc as [|x c Hx _ IH]; intros cur; [by rewrite app_nil_r|]. cbn [app split_path].
  rewrite (proj2 (Z.eqb_neq _ _)) by done. rewrite IH. by rewrite <- app_assoc.
Qed.

Lemma components_slash pth : components (c_slash :: pth) = components pth.
Proof. done. Qed.

(** A first component and what follows it. *)
Lemma components_cons c pth : no_slash c → c ≠ [] → (pth = [] ∨ head pth = Some c_slash) →
  components (c ++ pth) = c :: components pth.
Proof.
  intros Hc Hne Hp. unfold components. rewrite split_path_cur by done. cbn [app]. destruct pth as [|x pth]; cbn [split_path].
  - by destruct c.
  - destruct Hp as [?|[= ->]]; [done|]. rewrite Z.eqb_refl. by destruct c.
Qed.

Lemma components_repeat k pth : components (replicate k c_slash ++ pth) = components pth.
Proof. induction k as [|k IH]; [done|]. exact IH. Qed.

(** Any path: slashes, then a component, then the rest. *)
Lemma path_shape pth : ∃ k c rest, pth = replicate k c_slash ++ c ++ rest ∧ no_slash c ∧
  (c = [] → rest = []) ∧ (rest = [] ∨ head rest = Some c_slash).
Proof.
  induction pth as [|x pth (k & c & rest & -> & Hc & Hne & Hr)]; [by exists 0%nat, [], []; repeat split; try constructor; auto|].
  destruct (decide (x = c_slash)) as [->|Hx]; [by exists (S k), c, rest|]. destruct k as [|k].
  - exists 0%nat, (x :: c), rest. repeat split; [by constructor|done|done].
  - exists 0%nat, [x], (replicate (S k) c_slash ++ c ++ rest). repeat split; [by repeat constructor|done|by right].
Qed.

Section path.
Context (m : memory) (fdt : Z) (blob : list Z) (Hblob : bytes m fdt blob) (Hsize : 40 ≤ Z.of_nat (length blob)).
Context (ver tot : Z) (L : layout) (Hok : header_ok m fdt ver tot (l_struct L) (l_limit L)).
Context (Htot : tot ≤ Z.of_nat (length blob)) (Hver : 16 ≤ ver) (Hlt : tot < INT32_MAX).
Local Abbreviation holds := (holds m fdt L).

(** ** Scanning *)

Lemma skip_slashes_spec f k p pth : bytes m p (replicate k c_slash ++ pth) → head pth ≠ Some c_slash → (k < f)%nat →
  (k = 0%nat → pth ≠ []) →
  skip_slashes m f p (p + Z.of_nat (k + length pth)) = Ret (p + Z.of_nat k, bool_decide (pth = [])).
Proof.
  revert k p. induction f as [|f IH]; intros k p Hb Hh Hf Hne; [lia|]. cbn [skip_slashes]. destruct k as [|k]; cbn [replicate app] in Hb.
  - destruct pth as [|x pth]; [by destruct Hne|]. rewrite (ldc_ldb _ _ _ (ldb_bytes _ _ _ _ Hb)). cbn [bind].
    change c_slash with (s8 c_slash). rewrite char_eq by (by destruct Hb as (_ & ? & _)). change (u8 c_slash) with c_slash.
    rewrite (proj2 (Z.eqb_neq x c_slash)) by (intros ->; done). rewrite Z.add_0_r. done.
  - rewrite (ldc_ldb _ _ _ (ldb_bytes _ _ _ _ Hb)). cbn [bind]. change (s8 c_slash) with c_slash. rewrite Z.eqb_refl.
    destruct Hb as (_ & _ & _ & Hb). destruct (Z.eqb_spec (p + 1) (p + Z.of_nat (S k + length pth))).
    + destruct pth; [|cbn in *; lia]. rewrite bool_decide_true by done. do 2 f_equal. cbn in *. lia.
    + replace (p + Z.of_nat (S k + length pth)) with (p + 1 + Z.of_nat (k + length pth)) by lia.
      rewrite IH; [do 2 f_equal; lia|done|done|lia|]. intros -> ->. cbn in *. lia.
Qed.

Lemma memchr_component p c rest : bytes m p (c ++ rest) → no_slash c → (rest = [] ∨ head rest = Some c_slash) →
  ∃ q, memchr m p c_slash (Z.of_nat (length (c ++ rest))) = Ret q ∧
       (if q =? 0 then p + Z.of_nat (length (c ++ rest)) else q) = p + Z.of_nat (length c).
Proof.
  intros Hb Hc Hr. rewrite (memchr_spec _ _ _ _ _ Hb eq_refl). eexists. split; [done|]. change (u8 c_slash) with c_slash.
  rewrite list_find_app_r by (by apply list_find_None). destruct rest as [|x rest]; cbn; [by rewrite app_nil_r|].
  destruct Hr as [?|[= ->]]; [done|]. rewrite decide_True by done. cbn. apply bytes_app in Hb as [_ (_ & _ & Ha%addr_ok_iff & _)].
  rewrite (proj2 (Z.eqb_neq _ 0)) by lia. lia.
Qed.

(** ** Nodes below a node *)

Lemma holds_kid o n l k : 0 ≤ o → holds o (flat n ++ l) → k ∈ n_kids n → ∃ o' l', 0 ≤ o' ∧ holds o' (flat k ++ l').
Proof.
  destruct n as [off e s ps ks]. cbn [flat n_kids]. intros H0 Hh (k1 & k2 & ->)%list_elem_of_split.
  rewrite flat_map_app in Hh. cbn [flat_map] in Hh. rewrite app_comm_cons in Hh. rewrite <- !app_assoc in Hh.
  apply holds_app in Hh as (o1 & ? & Hh). apply holds_app in Hh as (o2 & ? & Hh). exists o2, (flat_map flat k2 ++ [(e, T_END_NODE)] ++ l). split; [lia|done].
Qed.

Lemma subnode_kid n c k : subnode n c = Some k → k ∈ n_kids n.
Proof. unfold subnode. intros [Hin _]%List.find_some. by apply list_elem_of_In. Qed.

Lemma node_off o n l : holds o (flat n ++ l) → 0 ≤ n_off n.
Proof. destruct n as [off e s ps ks]. cbn [flat app n_off]. intros Hh. by apply (holds_off m fdt L o []) in Hh as [? _]. Qed.

(** ** Following a path *)

(** A node of the blob, or none, as an offset. *)
Definition at_node (r : option node) : Z := or_notfound (n_off <$> r).
Definition in_blob (r : option node) : Prop :=
  match r with Some n => ∃ o l, 0 ≤ o ∧ holds o (flat n ++ l) | None => True end.

Lemma subnode_offset_spec r name nm : in_blob r → bytes m name nm →
  fdt_subnode_offset_namelen m fdt (at_node r) name (Z.of_nat (length nm)) = Ret (at_node (r ≫= λ n, subnode n nm)).
Proof.
  intros Hr Hnm. destruct r as [n|].
  - destruct Hr as (o & l & H0 & Hh). by eapply subnode_holds.
  - unfold fdt_subnode_offset_namelen. erewrite FDT_RO_PROBE_ok by done. done.
Qed.

Lemma in_blob_subnode r nm : in_blob r → in_blob (r ≫= λ n, subnode n nm).
Proof.
  destruct r as [n|]; [|done]. intros (o & l & H0 & Hh). cbn. destruct (subnode n nm) as [k|] eqn:E; [|done].
  eapply holds_kid; [done..|]. by eapply subnode_kid.
Qed.

Lemma at_node_neg r : in_blob r → (at_node r <? 0) = bool_decide (r = None).
Proof.
  destruct r as [n|]; [|done]. intros (o & l & _ & Hh). rewrite bool_decide_false by done. apply Z.ltb_ge. by eapply node_off.
Qed.

Lemma path_loop_spec f r p pth : in_blob r → bytes m p pth → (length pth < f)%nat →
  path_loop m f fdt (at_node r) p (p + Z.of_nat (length pth)) = Ret (at_node (r ≫= λ n, resolve n (components pth))).
Proof.
  revert r p pth. induction f as [|f IH]; intros r p pth Hr Hb Hf; [lia|]. cbn [path_loop].
  destruct (path_shape pth) as (k & c & rest & E & Hc & Hce & Hrest).
  destruct (decide (pth = [])) as [Hnil|Hnil].
  { rewrite Hnil. cbn. rewrite Z.add_0_r, Z.ltb_irrefl. by destruct r. }
  assert (0 < length pth)%nat by (destruct pth; [done|cbn; lia]). rewrite (proj2 (Z.ltb_lt _ _)) by lia.
  subst pth. pose proof (bytes_fuel _ _ _ Hb) as Hfuel. rewrite length_app, length_replicate in *.
  rewrite (skip_slashes_spec _ k p (c ++ rest)); [|done| |lia|intros -> ?; by destruct Hnil].
  2:{ destruct c as [|x c]; [by rewrite Hce|]. cbn. intros [= ->]. by apply Forall_cons in Hc as [? _]. }
  cbn [bind]. rewrite components_repeat. case_bool_decide as Hcr.
  { rewrite Hcr. by destruct r. }
  assert (Hc0 : c ≠ []) by (intros ->; by rewrite Hce in Hcr). rewrite components_cons by done.
  apply bytes_app in Hb as [_ Hb]. rewrite length_replicate in Hb.
  destruct (memchr_component _ _ _ Hb Hc Hrest) as (q & Eq & Hq).
  replace (p + Z.of_nat (k + length (c ++ rest)) - (p + Z.of_nat k)) with (Z.of_nat (length (c ++ rest))) by lia.
  replace (p + Z.of_nat (k + length (c ++ rest))) with (p + Z.of_nat k + Z.of_nat (length (c ++ rest))) by lia.
  rewrite Eq. cbn [bind]. rewrite Hq. apply bytes_app in Hb as [Hb1 Hb2].
  replace (p + Z.of_nat k + Z.of_nat (length c) - (p + Z.of_nat k)) with (Z.of_nat (length c)) by lia.
  rewrite (subnode_offset_spec _ _ _ Hr Hb1). cbn [bind]. rewrite at_node_neg by (by apply in_blob_subnode).
  assert (Hres : (r ≫= λ n, resolve n (c :: components rest)) = (r ≫= λ n, subnode n c) ≫= λ n, resolve n (components rest)) by (by destruct r).
  rewrite Hres. case_bool_decide as Hn; [by rewrite Hn|]. rewrite length_app in *.
  replace (p + Z.of_nat k + Z.of_nat (length c + length rest)) with (p + Z.of_nat k + Z.of_nat (length c) + Z.of_nat (length rest)) by lia.
  apply IH; [by apply in_blob_subnode|done|]. destruct c; [done|]. cbn in *. lia.
Qed.

(** ** Absolute paths and aliases *)

Context (Hstrings : fdt_off_dt_strings m fdt = Ret (l_strings L)) (Hnstrings : fdt_size_dt_strings m fdt = Ret (l_nstrings L)).
Context (root : node) (Hroot : holds_tree m fdt L root) (Hoff : n_off root = 0).
Context (lit_aliases : Z) (aliases : list Z) (Hlit : cstr m lit_aliases (c_slash :: aliases)).
Context (Hlen : Z.of_nat (length aliases) < 2 ^ 30).

Lemma root_in_blob : in_blob (Some root).
Proof. destruct Hroot as [e He]. by exists 0, [(e, T_END)]. Qed.

Lemma path_absolute f path pth : bytes m path (c_slash :: pth) →
  path_offset_namelen m lit_aliases (S f) fdt path (Z.of_nat (length (c_slash :: pth))) = Ret (at_node (resolve root (components pth))).
Proof.
  intros Hb. cbn [path_offset_namelen]. erewrite FDT_RO_PROBE_ok by done. rewrite (ldc_ldb _ _ _ (ldb_bytes _ _ _ _ Hb)). cbn [bind].
  change (s8 c_slash =? c_slash) with true. cbn [negb].
  replace 0 with (at_node (Some root)) at 1 by (cbn; by rewrite Hoff).
  apply (path_loop_spec _ (Some root)); [apply root_in_blob|done|by apply bytes_fuel in Hb].
Qed.

Lemma in_blob_resolve n cs : in_blob (Some n) → in_blob (resolve n cs).
Proof.
  revert n. induction cs as [|c cs IH]; intros n Hn; [done|]. cbn [resolve]. pose proof (in_blob_subnode (Some n) c Hn) as H. cbn in H.
  destruct (subnode n c) as [k|]; [|done]. cbn. by apply IH.
Qed.

(** The property of /aliases with that name. *)
Definition alias (a : list Z) : option property := resolve root (components aliases) ≫= λ n, prop n a.

Lemma path_alias f path a rest : bytes m path (a ++ rest) → no_slash a → a ≠ [] → (rest = [] ∨ head rest = Some c_slash) →
  path_offset_namelen m lit_aliases (S (S f)) fdt path (Z.of_nat (length (a ++ rest))) =
  match alias a with
  | None => Ret (- FDT_ERR_BADPATH)
  | Some p =>
      let* l := strlen m (fdt + l_struct L + (p_off p + 12)) in
      let* offset := path_offset_namelen m lit_aliases (S f) fdt (fdt + l_struct L + (p_off p + 12)) (s32 l) in
      path_loop m (fuel m) fdt offset (path + Z.of_nat (length a)) (path + Z.of_nat (length (a ++ rest)))
  end.
Proof.
  intros Hb Ha Hne Hr. remember (S f) as f' eqn:Ef. cbn [path_offset_namelen]. erewrite FDT_RO_PROBE_ok by done.
  assert (Hc : ∃ c, ldc m path = Ret c ∧ (c =? c_slash) = false).
  { destruct a as [|x a]; [done|]. cbn [app] in Hb. rewrite (ldc_ldb _ _ _ (ldb_bytes _ _ _ _ Hb)). eexists. split; [done|].
    change c_slash with (s8 c_slash). rewrite char_eq by (by destruct Hb as (_ & ? & _)). apply Forall_cons in Ha as [Ha _]. by apply Z.eqb_neq. }
  destruct Hc as (c & -> & Hc). cbn [bind]. rewrite Hc. cbn [negb].
  destruct (memchr_component _ _ _ Hb Ha Hr) as (q & -> & Hq). cbn [bind]. rewrite Hq.
  rewrite (strlen_spec _ _ _ Hlit). cbn [bind]. rewrite s32_small by (cbn; lia).
  subst f'. rewrite (path_absolute f lit_aliases aliases) by (by apply (bytes_app _ _ (c_slash :: aliases) [0]), (proj1 Hlit)). cbn [bind].
  pose proof (in_blob_resolve root (components aliases) root_in_blob) as Hal. rewrite at_node_neg by done. unfold alias.
  destruct (resolve root (components aliases)) as [n|]; [|done]. rewrite bool_decide_false by done. cbn [mbind option_bind].
  replace (path + Z.of_nat (length a) - path) with (Z.of_nat (length a)) by lia. apply bytes_app in Hb as [Hb _].
  destruct Hal as (o & l & H0 & Hh). change (at_node (Some n)) with (n_off n). erewrite getprop_holds by done. cbn [bind].
  destruct (prop n a) as [p|] eqn:Ep; [|done]. cbn [value_of].
  rewrite (proj2 (Z.eqb_neq _ 0)); [done|]. eapply value_bytes in Ep as (_ & ? & _); [|done..]. eapply offset_ptr_nonnull; done || lia.
Qed.

(** The value of an alias is the string [s]. *)
Lemma alias_value a p s : alias a = Some p → p_val p = s ++ [0] → chars s →
  cstr m (fdt + l_struct L + (p_off p + 12)) s ∧ Z.of_nat (length s) < 2 ^ 31.
Proof.
  unfold alias. pose proof (in_blob_resolve root (components aliases) root_in_blob) as Hal.
  destruct (resolve root (components aliases)) as [n|]; [|done]. cbn. intros Ep Ev Hs. destruct Hal as (o & l & H0 & Hh).
  eapply value_bytes in Ep as (Hb & ? & Hl); [|done..]. rewrite Ev in Hb, Hl. rewrite length_app in Hl. pose proof (lim_int m fdt _ _ _ _ Hok). split; [done|lia].
Qed.
End path.
