(* ===== verification/FdtThms.v ===== *)
(** * lib/libfdt: reading the tree of a blob

    The theorems about a blob that holds a tree: iteration over subnodes,
    properties by name, paths and aliases. *)

From S2P Require Import Prelude.
From S2P Require Import CMem.
From S2P Require Import CString.
From S2P Require Import CStringSpec.
From S2P Require Import Fdt.
From S2P Require Import FdtRo.
From S2P Require Import FdtProps.
From S2P Require Import FdtTree.
From S2P Require Import FdtWalk.
From S2P Require Import FdtPath.

(** A blob of version 17 with a checked header whose structure block is the tree
    [root]. *)
Definition layout_of (m : memory) (fdt : Z) (L : layout) : Prop :=
  fdt_off_dt_struct m fdt = Ret (l_struct L) ∧ fdt_size_dt_struct m fdt = Ret (l_limit L) ∧
  fdt_off_dt_strings m fdt = Ret (l_strings L) ∧ fdt_size_dt_strings m fdt = Ret (l_nstrings L).

Definition blob_tree (m : memory) (fdt : Z) (root : node) : Prop :=
  ∃ blob L ver, checked_blob m fdt blob ∧ Z.of_nat (length blob) < INT32_MAX ∧
    fdt_version m fdt = Ret ver ∧ 17 ≤ ver ∧ layout_of m fdt L ∧ holds_tree m fdt L root ∧ n_off root = 0.

Lemma blob_tree_header m fdt blob L ver : checked_blob m fdt blob → fdt_version m fdt = Ret ver → 17 ≤ ver → layout_of m fdt L →
  header_ok m fdt ver (Z.of_nat (length blob)) (l_struct L) (l_limit L).
Proof.
  intros Hc Hv Rv (Hs & Hl & _). destruct (checked_header _ _ _ Hc) as (ver' & offs & lim & Hok).
  destruct (ho_version _ _ _ _ _ _ Hok) as [Hv' _], (ho_struct _ _ _ _ _ _ Hok) as [Hs' _].
  assert (ver' = ver ∧ offs = l_struct L) as [-> ->] by (split; congruence).
  destruct (ho_limit _ _ _ _ _ _ Hok) as [Hl' _]. rewrite (proj2 (Z.leb_le 17 ver)) in Hl' by done.
  assert (lim = l_limit L) as <- by congruence. done.
Qed.

Lemma nodes_hold m fdt L root n : holds_tree m fdt L root → n ∈ nodes root → ∃ o l, 0 ≤ o ∧ holds m fdt L o (flat n ++ l).
Proof.
  intros [e He] (pre & post & E)%flat_sub. rewrite E, <- !app_assoc in He. apply holds_app in He as (o & ? & He). by exists o, (post ++ [(e, T_END)]).
Qed.

(** C20: the subnodes of a node.  In a blob that holds a tree, starting from
    [fdt_first_subnode] repeated calls of [fdt_next_subnode] yield the children
    of a node one by one in their order and then -FDT_ERR_NOTFOUND, without
    descending into their subtrees; [fdt_subnode_offset_namelen] yields the
    first child with that name, where a name without a unit address also
    matches a child that has one. *)
Theorem fdt_subnodes_correct m fdt root n : blob_tree m fdt root → n ∈ nodes root →
  let at_kid i := Ret (match n_kids n !! i with Some k => n_off k | None => - FDT_ERR_NOTFOUND end) in
  fdt_first_subnode m fdt (n_off n) = at_kid 0%nat ∧
  (∀ i k, n_kids n !! i = Some k → fdt_next_subnode m fdt (n_off k) = at_kid (S i)) ∧
  (∀ name nm, bytes m name nm →
     fdt_subnode_offset_namelen m fdt (n_off n) name (Z.of_nat (length nm)) = Ret (at_node (subnode n nm))).
Proof.
  intros (blob & L & ver & Hc & Hlt & Hv & Rv & HL & Ht & _) Hn at_kid. pose proof (blob_tree_header _ _ _ _ _ Hc Hv Rv HL) as Hok.
  destruct Hc as (Hb & Hs & _). destruct (nodes_hold _ _ _ _ _ Ht Hn) as (o & l & H0 & Hh). assert (Hle : 16 ≤ ver) by lia. split_and!.
  - erewrite first_subnode_holds by done. unfold at_kid. by destruct (n_kids n).
  - intros i k Hk. destruct n as [off e s ps ks]. cbn [n_kids] in *. pose proof Hk as Hk2. apply list_elem_of_split_length in Hk as (k1 & k2 & -> & ->).
    cbn [flat] in Hh. rewrite flat_map_app in Hh. cbn [flat_map] in Hh. rewrite app_comm_cons, <- !app_assoc in Hh.
    apply holds_app in Hh as (o1 & ? & Hh). apply holds_app in Hh as (o2 & ? & Hh). cbn [app] in Hh.
    rewrite (next_subnode_holds m fdt blob Hb Hs ver _ L Hok (Z.le_refl _) Hle o2 k k2 e l ltac:(lia) Hh). unfold at_kid. rewrite lookup_app_r by lia.
    replace (S (length k1) - length k1)%nat with 1%nat by lia. by destruct k2.
  - intros name nm Hnm. erewrite subnode_holds; done.
Qed.

(** C21: properties.  [fdt_getprop_namelen] yields the address and the length of
    the value of the node's first property with that name, and the bytes there
    are its value; or the null pointer with -FDT_ERR_NOTFOUND. *)
Theorem fdt_getprop_correct m fdt root n name nm : blob_tree m fdt root → n ∈ nodes root → bytes m name nm →
  post (fdt_getprop_namelen m fdt (n_off n) name (Z.of_nat (length nm))) (λ '(p, len),
    match prop n nm with
    | Some pr => p ≠ 0 ∧ len = Z.of_nat (length (p_val pr)) ∧ bytes m p (p_val pr)
    | None => p = 0 ∧ len = - FDT_ERR_NOTFOUND
    end).
Proof.
  intros (blob & L & ver & Hc & Hlt & Hv & Rv & HL & Ht & _) Hn Hnm. pose proof (blob_tree_header _ _ _ _ _ Hc Hv Rv HL) as Hok.
  destruct Hc as (Hb & Hs & _), HL as (_ & _ & Hstr & Hnstr). destruct (nodes_hold _ _ _ _ _ Ht Hn) as (o & l & H0 & Hh). assert (Hle : 16 ≤ ver) by lia.
  erewrite getprop_holds by done. cbn [post]. destruct (prop n nm) as [pr|] eqn:Ep; [|done]. cbn.
  eapply value_bytes in Ep as (? & ? & _); [|done..]. split_and!; [eapply offset_ptr_nonnull; done || lia|done..].
Qed.

(** The name "aliases". *)
Definition aliases_name : list Z := [97; 108; 105; 97; 115; 101; 115].

(** C17: paths.  [fdt_path_offset_namelen] resolves an absolute path in the tree,
    component by component from the root.  A path that begins with an alias is
    resolved from the node whose absolute path is the value of that property of
    /aliases; without such a property it is -FDT_ERR_BADPATH. *)
Theorem fdt_path_offset_correct m fdt root lit path : blob_tree m fdt root → cstr m lit (c_slash :: aliases_name) →
  (∀ pth, bytes m path (c_slash :: pth) →
     fdt_path_offset_namelen m lit fdt path (Z.of_nat (length (c_slash :: pth))) = Ret (at_node (resolve root (components pth)))) ∧
  (∀ a rest, bytes m path (a ++ rest) → no_slash a → a ≠ [] → rest = [] ∨ head rest = Some c_slash →
     let r := fdt_path_offset_namelen m lit fdt path (Z.of_nat (length (a ++ rest))) in
     match alias root aliases_name a with
     | None => r = Ret (- FDT_ERR_BADPATH)
     | Some p => ∀ s, p_val p = (c_slash :: s) ++ [0] → chars s →
         r = Ret (at_node (resolve root (components s) ≫= λ n, resolve n (components rest)))
     end).
Proof.
  intros (blob & L & ver & Hc & Hlt & Hv & Rv & HL & Ht & H0) Hlit. pose proof (blob_tree_header _ _ _ _ _ Hc Hv Rv HL) as Hok.
  destruct Hc as (Hb & Hs & _), HL as (_ & _ & Hstr & Hnstr). assert (Hle : 16 ≤ ver) by lia. unfold fdt_path_offset_namelen, PATH_NESTING. split.
  - intros pth Hp. erewrite path_absolute by done. done.
  - intros a rest Hp Ha Hne Hr. erewrite path_alias by done. destruct (alias root aliases_name a) as [p|] eqn:Ea; [|done].
    intros s Hv' Hs'. assert (Hcs : chars (c_slash :: s)) by (by constructor).
    eapply alias_value in Ea as [Hcstr Hlen]; [|done..]. rewrite (strlen_spec _ _ _ Hcstr). cbn [bind]. rewrite s32_small by (cbn in *; lia).
    erewrite path_absolute; [|done..|by destruct Hcstr as [[? _]%bytes_app _]]. cbn [bind].
    pose proof (bytes_fuel _ _ _ Hp) as Hf. apply bytes_app in Hp as [_ Hp]. rewrite length_app in *.
    replace (path + Z.of_nat (length a + length rest)) with (path + Z.of_nat (length a) + Z.of_nat (length rest)) by lia.
    eapply path_loop_spec; [done..| |done|lia]. eapply in_blob_resolve, root_in_blob; done.
Qed.

(** An alias that names itself.  When the value of an alias is its own name,
    [fdt_path_offset_namelen] calls itself without end, although the blob holds
    a correct tree: no number of nested calls is enough. *)
Theorem fdt_alias_cycle_hangs m fdt root lit a p : blob_tree m fdt root → cstr m lit (c_slash :: aliases_name) →
  alias root aliases_name a = Some p → p_val p = a ++ [0] → chars a → no_slash a → a ≠ [] →
  ∀ f path, bytes m path a → path_offset_namelen m lit f fdt path (Z.of_nat (length a)) = Hang.
Proof.
  intros (blob & L & ver & Hc & Hlt & Hv & Rv & HL & Ht & H0) Hlit Ha Hval Hch Hns Hne.
  pose proof (blob_tree_header _ _ _ _ _ Hc Hv Rv HL) as Hok.
  destruct Hc as (Hb & Hs & _), HL as (_ & _ & Hstr & Hnstr). assert (Hle : 16 ≤ ver) by lia.
  pose proof Ha as Hv'. eapply alias_value in Hv' as [Hcstr Hlen]; [|done..]. intros f. induction f as [|f IH]; intros path Hp; [done|].
  destruct f as [|f].
  - cbn [path_offset_namelen]. erewrite FDT_RO_PROBE_ok by done. destruct a as [|c a]; [done|].
    rewrite (ldc_ldb _ _ _ (ldb_bytes _ _ _ _ Hp)). cbn [bind]. apply Forall_cons in Hns as [Hns _]. apply Forall_cons in Hch as [Hch _].
    change c_slash with (s8 c_slash). rewrite char_eq by lia. change (u8 c_slash) with c_slash. rewrite (proj2 (Z.eqb_neq c c_slash)) by done. cbn [negb].
    rewrite (memchr_spec _ _ _ _ _ Hp eq_refl). cbn [bind]. by rewrite (strlen_spec _ _ _ Hlit).
  - rewrite <- (app_nil_r a) in Hp |- *. erewrite path_alias by (done || by left). rewrite Ha, (strlen_spec _ _ _ Hcstr). cbn [bind].
    rewrite s32_small by lia. rewrite IH; [done|]. by destruct Hcstr as [[? _]%bytes_app _].
Qed.

(** ** An example

    / { aliases { x = "x"; s = "/s@1"; }; s@1 { reg = <1>; }; }; *)
Module Example.
Definition be (w : Z) : list Z := [w / 2 ^ 24; w / 2 ^ 16 mod 256; w / 2 ^ 8 mod 256; w mod 256].
Definition s_x : list Z := [120].
Definition s_s : list Z := [115].
Definition s_s1 : list Z := [115; 64; 49].
Definition s_reg : list Z := [114; 101; 103].

Definition struct_block (len : Z) : list Z :=
  be 1 ++ [0; 0; 0; 0] ++
  be 1 ++ aliases_name ++ [0] ++
  be 3 ++ be 2 ++ be 0 ++ s_x ++ [0; 0; 0] ++
  be 3 ++ be 5 ++ be 2 ++ [47] ++ s_s1 ++ [0; 0; 0; 0] ++
  be 2 ++
  be 1 ++ s_s1 ++ [0] ++
  be 3 ++ be len ++ be 4 ++ [0; 0; 0; 1] ++
  be 2 ++ be 2 ++ be 9.
Definition strings_block : list Z := s_x ++ [0] ++ s_s ++ [0] ++ s_reg ++ [0].

(** The length of the property "reg" is a parameter. *)
Definition blob (len : Z) : list Z :=
  be FDT_MAGIC ++ be 160 ++ be 56 ++ be 152 ++ be 40 ++ be 17 ++ be 16 ++ be 0 ++ be 8 ++ be 96 ++
  replicate 16 0 ++ struct_block len ++ strings_block.

Definition mem (len : Z) : memory :=
  upd (upd ∅ 4096 (blob len)) 8192 ([47] ++ aliases_name ++ [0] ++ s_s ++ [0] ++ s_x ++ [0]).

Definition root : node :=
  Node 0 88 [] []
    [Node 8 56 aliases_name [Property 20 s_x (s_x ++ [0]); Property 36 s_s ([47] ++ s_s1 ++ [0])] [];
     Node 60 84 s_s1 [Property 68 s_reg [0; 0; 0; 1]] []].

Definition L : layout := Layout 56 96 152 8.

(** Deciding [bytes]. *)
Fixpoint bytes_test (m : memory) (p : Z) (l : list Z) : bool :=
  match l with
  | [] => true
  | b :: l => match m !! p with Some c => (c =? b) && (0 <=? b) && (b <? 256) | None => false end && addr_ok p && bytes_test m (p + 1) l
  end.
Lemma bytes_test_ok m p l : bytes_test m p l = true → bytes m p l.
Proof.
  revert p. induction l as [|b l IH]; intros p; [done|]. cbn [bytes_test bytes]. destruct (m !! p) as [c|]; [|done].
  rewrite !andb_true_iff, Z.eqb_eq, Z.leb_le, Z.ltb_lt. intros [[[[-> ?] ?] ?] Hl]. split_and!; auto.
Qed.

Lemma checked len : bytes_test (mem len) 4096 (blob len) = true → fdt_check_header (mem len) 4096 = Ret 0 →
  fdt_totalsize (mem len) 4096 = Ret 160 → checked_blob (mem len) 4096 (blob len).
Proof. intros H1 H2 H3. split_and!; [by apply bytes_test_ok|done|done|done]. Qed.

Lemma mem_checked : checked_blob (mem 4) 4096 (blob 4).
Proof. apply checked; by vm_compute. Qed.

(** One token of the block at a concrete offset. *)
Ltac mem_cstr := split; [apply bytes_test_ok; by vm_compute|by repeat constructor].
Ltac mem_token :=
  split; [done|]; eexists; split;
    [split; [done|]; split; [done|]; split; [by vm_compute|];
     first [ split; [done|reflexivity]
           | split; [mem_cstr|]; split; [done|reflexivity]
           | split; [by vm_compute|]; split; [eexists; split; [by vm_compute|]; split; [done|]; split; [done|mem_cstr]|];
             split; [apply bytes_test_ok; by vm_compute|]; split; [done|reflexivity] ]|].

Lemma mem_tree : blob_tree (mem 4) 4096 root.
Proof.
  exists (blob 4), L, 17. split; [exact mem_checked|]. split; [done|]. split; [by vm_compute|]. split; [done|].
  split; [repeat split; by vm_compute|]. split; [|done]. exists 92. exists (flat root ++ [(92, T_END)]). split; [|done].
  cbn [flat root flat_map map app prop_item p_off p_name p_val stream].
  do 10 mem_token. done.
Qed.

(** The lengths of the properties, by cases on the offset. *)
Definition lengths_test (m : memory) (p : Z) (n : nat) : bool :=
  forallb (λ j, match fdt32_ld m (p + 4 * Z.of_nat j), fdt32_ld m (p + 4 * Z.of_nat j + 4) with
                | Ret t, Ret len => negb (t =? FDT_PROP) || (len <? 2 ^ 32 - 16)
                | _, _ => true
                end) (seq 0 n).

Lemma mem_no_wrap : no_wrap (mem 4) 4096.
Proof.
  intros o p len Ho Ho4 Hp Hp0 Ht Hl. destruct (checked_header _ _ _ mem_checked) as (ver & offs & lim & Hok).
  rewrite (offset_ptr_spec _ _ _ _ _ _ Hok) in Hp by lia. injection Hp as Hp. destruct (ho_struct _ _ _ _ _ _ Hok) as [Es _].
  assert (offs = 56) as -> by (assert (fdt_off_dt_struct (mem 4) 4096 = Ret 56) by (by vm_compute); congruence).
  pose proof (ho_limit _ _ _ _ _ _ Hok) as (_ & _ & Hlim). change (Z.of_nat (length (blob 4))) with 160 in Hlim.
  destruct (Z.leb_spec 0 o), (Z.leb_spec (o + 8) lim); cbn [andb] in Hp; [|by destruct Hp0..].
  assert (H2 : lengths_test (mem 4) 4152 30 = true) by (by vm_compute). unfold lengths_test in H2. rewrite forallb_forall in H2.
  specialize (H2 (Z.to_nat (o / 4))). rewrite Z2Nat.id in H2 by (apply Z.div_pos; lia).
  replace (4152 + 4 * (o / 4)) with p in H2 by (Z.div_mod_to_equations; lia). rewrite Ht, Hl in H2.
  assert (In (Z.to_nat (o / 4)) (seq 0 30)) as Hin by (apply in_seq; Z.div_mod_to_equations; lia). specialize (H2 Hin). rewrite Z.eqb_refl in H2. cbn [negb orb] in H2. lia.
Qed.

(** The addresses of the strings "/aliases", "s" and "x", and of "reg". *)
Lemma mem_lit : cstr (mem 4) 8192 (c_slash :: aliases_name).
Proof. mem_cstr. Qed.
Lemma mem_s : bytes (mem 4) 8201 (s_s ++ []).
Proof. apply bytes_test_ok. by vm_compute. Qed.
Lemma mem_x : bytes (mem 4) 8203 s_x.
Proof. apply bytes_test_ok. by vm_compute. Qed.
Lemma mem_reg : bytes (mem 4) 4252 s_reg.
Proof. apply bytes_test_ok. by vm_compute. Qed.
Lemma mem_wrapped : checked_blob (mem (2 ^ 32 - 12)) 4096 (blob (2 ^ 32 - 12)).
Proof. apply checked; by vm_compute. Qed.
#[global] Opaque mem.
End Example.

Lemma fdt_next_tag_safe_witness :
  post (fdt_next_tag (Example.mem 4) 4096 20) (λ '(tag, next),
    tag = FDT_END ∧ next < 0 ∨
    0 ≤ 20 ≤ next ∧ next < Z.of_nat (length (Example.blob 4)) ∧ next mod 4 = 0 ∧
      (let* p := fdt_offset_ptr_ (Example.mem 4) 4096 20 in fdt32_ld (Example.mem 4) p) = Ret tag).
Proof. exact (fdt_next_tag_safe (Example.mem 4) 4096 (Example.blob 4) 20 Example.mem_checked ltac:(lia)). Defined.

Lemma fdt_walk_terminates_witness :
  post (fdt_next_subnode (Example.mem 4) 4096 8) (λ o', o' < 0 ∨ 8 < o' < Z.of_nat (length (Example.blob 4)) ∧ o' mod 4 = 0).
Proof.
  destruct (fdt_walk_terminates (Example.mem 4) 4096 (Example.blob 4) 4252 Example.s_reg 8 Example.mem_checked Example.mem_no_wrap
    Example.mem_reg ltac:(lia)) as (_ & _ & H & _). exact H.
Defined.

Lemma fdt_property_length_hangs_witness :
  fdt_next_tag (Example.mem (2 ^ 32 - 12)) 4096 68 = Ret (FDT_PROP, 68) ∧
  ∀ f depth, next_node_loop (Example.mem (2 ^ 32 - 12)) f 4096 68 depth = Hang.
Proof.
  destruct (fdt_property_length_hangs (Example.mem (2 ^ 32 - 12)) 4096 (Example.blob (2 ^ 32 - 12)) 17 68 4220 Example.mem_wrapped
    ltac:(by vm_compute) ltac:(lia) ltac:(lia) eq_refl ltac:(by vm_compute) ltac:(lia) ltac:(by vm_compute) ltac:(by vm_compute)) as (H1 & H2 & _).
  exact (conj H1 H2).
Defined.

Lemma fdt_subnodes_correct_witness :
  fdt_first_subnode (Example.mem 4) 4096 0 = Ret 8 ∧ fdt_next_subnode (Example.mem 4) 4096 8 = Ret 60 ∧
  fdt_next_subnode (Example.mem 4) 4096 60 = Ret (- FDT_ERR_NOTFOUND) ∧
  fdt_subnode_offset_namelen (Example.mem 4) 4096 0 8201 1 = Ret 60.
Proof.
  destruct (fdt_subnodes_correct (Example.mem 4) 4096 Example.root Example.root Example.mem_tree ltac:(by left)) as (H1 & H2 & H3).
  exact (conj H1 (conj (H2 0%nat _ eq_refl) (conj (H2 1%nat _ eq_refl) (H3 8201 Example.s_s Example.mem_s)))).
Defined.

Lemma fdt_getprop_correct_witness :
  post (fdt_getprop_namelen (Example.mem 4) 4096 60 4252 3) (λ '(p, len), p ≠ 0 ∧ len = 4 ∧ bytes (Example.mem 4) p [0; 0; 0; 1]).
Proof.
  exact (fdt_getprop_correct (Example.mem 4) 4096 Example.root (Node 60 84 Example.s_s1 [Property 68 Example.s_reg [0; 0; 0; 1]] []) 4252 Example.s_reg
    Example.mem_tree ltac:(cbn; set_solver) Example.mem_reg).
Defined.

Lemma fdt_path_offset_correct_witness :
  fdt_path_offset_namelen (Example.mem 4) 8192 4096 8192 8 = Ret 8 ∧
  fdt_path_offset_namelen (Example.mem 4) 8192 4096 8201 1 = Ret 60.
Proof.
  pose proof (fdt_path_offset_correct (Example.mem 4) 4096 Example.root 8192 8192 Example.mem_tree Example.mem_lit) as [H1 _].
  pose proof (fdt_path_offset_correct (Example.mem 4) 4096 Example.root 8192 8201 Example.mem_tree Example.mem_lit) as [_ H2]. split.
  - apply (H1 aliases_name). exact (proj1 (proj1 (bytes_app _ _ (c_slash :: aliases_name) [0]) (proj1 Example.mem_lit))).
  - apply (H2 Example.s_s [] Example.mem_s ltac:(by repeat constructor) ltac:(done) ltac:(by left) Example.s_s1 eq_refl). by repeat constructor.
Defined.

Lemma fdt_alias_cycle_hangs_witness :
  fdt_path_offset_namelen (Example.mem 4) 8192 4096 8203 1 = Hang.
Proof.
  exact (fdt_alias_cycle_hangs (Example.mem 4) 4096 Example.root 8192 Example.s_x (Property 20 Example.s_x (Example.s_x ++ [0]))
    Example.mem_tree Example.mem_lit eq_refl eq_refl ltac:(by repeat constructor) ltac:(by repeat constructor) ltac:(done)
    PATH_NESTING 8203 Example.mem_x).
Defined.
