(* ===== verification/FdtSearch.v ===== *)
(** * lib/libfdt: parents and searches over the whole tree

    The nodes of a tree in the order of the blob with their depths; walking
    from node to node follows this list, the parent of a node is the last node
    one level above in front of it, and a search finds the first node after the
    start for which the test succeeds. *)

From S2P Require Import Prelude.
From S2P Require Import CMem.
From S2P Require Import CString.
From S2P Require Import CStringSpec.
From S2P Require Import Fdt.
From S2P Require Import FdtRo.
From S2P Require Import FdtProps.
From S2P Require Import FdtTree.
From S2P Require Import FdtWalk.
From S2P Require Import FdtPath.
From S2P Require Import FdtThms.
From Stdlib Require Import Sorted.

(** ** The order of the nodes *)

(** Offsets and depths. *)
Fixpoint pre (d : Z) (n : node) : list (Z * Z) :=
  let 'Node o _ _ _ ks := n in (o, d) :: flat_map (pre (d + 1)) ks.

(** The same from the tokens; [d] is the depth of the node they are in. *)
Fixpoint nodes_of (d : Z) (l : list item) : list (Z * Z) :=
  match l with
  | [] => []
  | (o, t) :: l =>
      match t with
      | T_BEGIN _ => (o, d + 1) :: nodes_of (d + 1) l
      | T_END_NODE => nodes_of (d - 1) l
      | T_END => []
      | _ => nodes_of d l
      end
  end.

Lemma nodes_of_props d ps l : nodes_of d (map prop_item ps ++ l) = nodes_of d l.
Proof. induction ps as [|p ps IH]; [done|]. exact IH. Qed.

Lemma nodes_of_flat d n l : nodes_of d (flat n ++ l) = pre (d + 1) n ++ nodes_of d l.
Proof.
  revert d l. induction n as [o e s ps ks IH] using node_ind'. intros d l. cbn [flat app nodes_of pre]. f_equal. rewrite <- !app_assoc, nodes_of_props.
  assert (Hks : ∀ l', nodes_of (d + 1) (flat_map flat ks ++ l') = flat_map (pre (d + 1 + 1)) ks ++ nodes_of (d + 1) l').
  { induction IH as [|k ks Hk _ IHks]; intros l'; [done|]. cbn [flat_map]. by rewrite <- !app_assoc, Hk, IHks. }
  rewrite Hks. cbn [app nodes_of]. do 2 f_equal. lia.
Qed.

Lemma pre_offs d n : map fst (pre d n) = map n_off (nodes n).
Proof.
  revert d. induction n as [o e s ps ks IH] using node_ind'. intros d. cbn [pre nodes map]. f_equal.
  induction IH as [|k ks Hk _ IHks]; [done|]. cbn [flat_map]. by rewrite !map_app, Hk, IHks.
Qed.

Lemma pre_depth d n : ∃ l, pre d n = (n_off n, d) :: l ∧ Forall (λ x, d + 1 ≤ x.2) l.
Proof.
  revert d. induction n as [o e s ps ks IH] using node_ind'. intros d. exists (flat_map (pre (d + 1)) ks). split; [done|].
  induction IH as [|k ks Hk _ IHks]; [constructor|]. cbn [flat_map]. apply Forall_app. split; [|done].
  destruct (Hk (d + 1)) as (l & E & Hl). rewrite E. constructor; [cbn; lia|]. eapply Forall_impl; [exact Hl|]. cbn. intros. lia.
Qed.

(** A node and one of its children. *)
Lemma pre_kid d n k : k ∈ n_kids n → ∃ l2 l3, pre d n = (n_off n, d) :: l2 ++ (n_off k, d + 1) :: l3 ∧ Forall (λ x, d + 1 ≤ x.2) l2.
Proof.
  destruct n as [o e s ps ks]. cbn [n_kids n_off pre]. intros (k1 & k2 & ->)%list_elem_of_split. rewrite flat_map_app. cbn [flat_map].
  destruct (pre_depth (d + 1) k) as (l & -> & _). eexists _, _. split; [done|]. clear. induction k1 as [|x k1 IH]; [constructor|]. cbn [flat_map].
  apply Forall_app. split; [|done]. destruct (pre_depth (d + 1) x) as (l' & -> & Hl). constructor; [cbn; lia|]. eapply Forall_impl; [exact Hl|]. cbn. intros. lia.
Qed.

Lemma pre_sub d n p : p ∈ nodes n → ∃ l1 l2 e, pre d n = l1 ++ pre e p ++ l2 ∧ d ≤ e.
Proof.
  revert d. induction n as [o e s ps ks IH] using node_ind'. intros d Hp. cbn [nodes] in Hp. apply elem_of_cons in Hp as [->|Hp].
  { exists [], [], d. rewrite app_nil_r. split; [done|lia]. }
  apply list_elem_of_In, in_flat_map in Hp as (c & Hc%list_elem_of_In & Hp%list_elem_of_In). rewrite Forall_forall in IH.
  destruct (IH c Hc (d + 1) Hp) as (l1 & l2 & e' & E & He). apply list_elem_of_split in Hc as (k1 & k2 & ->).
  exists ((o, d) :: flat_map (pre (d + 1)) k1 ++ l1), (l2 ++ flat_map (pre (d + 1)) k2), e'. split; [|lia].
  cbn [pre]. rewrite flat_map_app. cbn [flat_map]. rewrite E. cbn [app]. f_equal. by rewrite <- !app_assoc.
Qed.

(** ** Walking along the list *)

Lemma nodes_of_split d l l1 o e l2 : nodes_of d l = l1 ++ (o, e) :: l2 →
  ∃ la s rest, l = la ++ (o, T_BEGIN s) :: rest ∧ nodes_of e rest = l2.
Proof.
  revert d l1. induction l as [|[o' t] l IH]; intros d l1; [by destruct l1|]. cbn [nodes_of].
  assert (Hrec : ∀ d l1, nodes_of d l = l1 ++ (o, e) :: l2 → ∃ la s rest, (o', t) :: l = la ++ (o, T_BEGIN s) :: rest ∧ nodes_of e rest = l2).
  { intros d' l1' E. destruct (IH d' l1' E) as (la & s & rest & -> & ?). by exists ((o', t) :: la), s, rest. }
  destruct t; try apply Hrec; [|by destruct l1]. destruct l1 as [|x l1]; cbn [app].
  - intros [= -> <- E]. exists [], name, l. done.
  - intros [= <- E]. by eapply Hrec.
Qed.

Lemma nodes_of_head d l o e l2 : nodes_of d l = (o, e) :: l2 → e ≤ d + 1.
Proof.
  revert d. induction l as [|[o' t] l IH]; intros d; [done|]. cbn [nodes_of]. destruct t; try apply IH; try done.
  - intros [= _ <- _]. lia.
  - intros E%IH. lia.
Qed.

Lemma walk_next d l o e l2 : nodes_of d l = (o, e) :: l2 → 1 ≤ e → walk (Some d) l = Some (At o (Some e)).
Proof.
  revert d. induction l as [|[o' t] l IH]; intros d; [done|]. cbn [nodes_of walk]. intros E He. destruct t; try done; try by apply IH.
  - by injection E as -> <- _.
  - apply nodes_of_head in E as Hd. rewrite (proj2 (Z.ltb_ge _ _)) by lia. by apply IH.
Qed.

Lemma walk_next_none d l o e l2 : nodes_of d l = (o, e) :: l2 → walk None l = Some (At o None).
Proof.
  revert d. induction l as [|[o' t] l IH]; intros d; [done|]. cbn [nodes_of walk]. destruct t; try apply IH; try done.
  by intros [= -> _ _].
Qed.

Lemma walk_last d l : nodes_of d l = [] → T_END ∈ l.*2 → walk None l = Some Stop.
Proof.
  revert d. induction l as [|[o' t] l IH]; intros d; cbn [nodes_of walk]; [by intros _ ?%not_elem_of_nil|]. rewrite fmap_cons. intros E [Ht|Ht]%elem_of_cons.
  - cbn in Ht. by subst t.
  - destruct t; try done; by eapply IH.
Qed.

Section search.
Context (m : memory) (fdt : Z) (blob : list Z) (Hblob : bytes m fdt blob) (Hsize : 40 ≤ Z.of_nat (length blob)).
Context (ver tot : Z) (L : layout) (Hok : header_ok m fdt ver tot (l_struct L) (l_limit L)).
Context (Htot : tot ≤ Z.of_nat (length blob)) (Hver : 16 ≤ ver) (Hlt : tot < INT32_MAX).
Context (root : node) (Hroot : n_off root = 0) (Htree : holds_tree m fdt L root).
Local Abbreviation holds := (holds m fdt L).

(** A node in the list and the tokens behind it. *)
Lemma pre_at l1 o d l2 : pre 0 root = l1 ++ (o, d) :: l2 →
  ∃ o' s rest, 0 ≤ o' ∧ holds o' ((o, T_BEGIN s) :: rest) ∧ nodes_of d rest = l2 ∧ T_END ∈ rest.*2.
Proof.
  intros E. destruct Htree as [e He]. assert (En : nodes_of (-1) (flat root ++ [(e, T_END)]) = l1 ++ (o, d) :: l2).
  { rewrite nodes_of_flat. cbn [nodes_of]. by rewrite app_nil_r. }
  destruct (nodes_of_split _ _ _ _ _ _ En) as (la & s & rest & El & Er). rewrite El in He. apply holds_app in He as (o' & ? & He).
  exists o', s, rest. split_and!; [done..|].
  assert (Hl : last (flat root ++ [(e, T_END)]) = last (la ++ (o, T_BEGIN s) :: rest)) by by rewrite El.
  rewrite last_snoc, last_app_cons in Hl. destruct rest as [|x rest]; [done|]. rewrite last_cons_cons in Hl.
  symmetry in Hl. apply last_Some in Hl as [l' ->]. rewrite fmap_app. apply elem_of_app. right. by apply list_elem_of_singleton.
Qed.

Lemma next_node_pre l1 o d o' d' l2 : pre 0 root = l1 ++ (o, d) :: (o', d') :: l2 → fdt_next_node m fdt o (Some d) = Ret (o', Some d').
Proof.
  intros E. assert (Hd : 1 ≤ d').
  { destruct (pre_depth 0 root) as (l & Ep & Hl). rewrite Ep in E. destruct l1 as [|x l1]; cbn in E.
    - injection E as _ _ ->. by inversion Hl.
    - injection E as _ ->. apply Forall_app in Hl as [_ Hl]. inversion Hl as [|? ? _ Hl']. by inversion Hl'. }
  destruct (pre_at _ _ _ _ E) as (o1 & s & rest & _ & Hh & Hn & _).
  pose proof (next_node_holds m fdt blob Hblob Hsize ver tot L Hok Htot Hver _ _ _ _ _ _ Hh (walk_next _ _ _ _ _ Hn Hd)) as Hp.
  destruct (fdt_next_node m fdt o (Some d)); try done. cbn in Hp. by subst.
Qed.

(** Without a depth to track. *)
Lemma next_node_none l1 o d l2 : pre 0 root = l1 ++ (o, d) :: l2 →
  post (fdt_next_node m fdt o None) (λ r, r.1 = match l2 with (o', _) :: _ => o' | [] => - FDT_ERR_NOTFOUND end).
Proof.
  intros E. destruct (pre_at _ _ _ _ E) as (o1 & s & rest & _ & Hh & Hn & Hend). destruct l2 as [|[o' d'] l2].
  - eapply post_mono; [eapply (next_node_holds m fdt blob); try done; by eapply walk_last|]. done.
  - eapply post_mono; [eapply (next_node_holds m fdt blob); try done; by eapply walk_next_none|]. by intros ? ->.
Qed.

Lemma next_node_start : fdt_next_node m fdt (-1) None = Ret (0, None).
Proof.
  destruct Htree as [e He]. unfold fdt_next_node. cbn [Z.leb Z.compare]. destruct root as [o eo s ps ks]. cbn [flat app n_off] in *. subst o.
  assert (Hp : post (next_node_loop m (fuel m) fdt 0 None) (stopped (At 0 None))).
  { eapply (next_node_loop_holds m fdt blob); done || lia. }
  destruct (next_node_loop m (fuel m) fdt 0 None); try done. cbn in Hp. by subst.
Qed.

Lemma pre_fuel : (length (pre 0 root) < fuel m)%nat.
Proof.
  destruct Htree as [e He]. assert (Hl : (length (pre 0 root) ≤ length (flat root))%nat).
  { clear. generalize 0. induction root as [o e s ps ks IH] using node_ind'. intros d. cbn [pre flat length]. rewrite !length_app. cbn [length].
    enough (length (flat_map (pre (d + 1)) ks) ≤ length (flat_map flat ks))%nat by lia.
    induction IH as [|k ks Hk _ IHks]; [done|]. cbn [flat_map]. rewrite !length_app. specialize (Hk (d + 1)). lia. }
  destruct root as [o eo s ps ks]. cbn [flat app] in He. assert (0 ≤ 0) as H0 by lia.
  pose proof (holds_fuel m fdt blob Hblob ver tot L Hok Htot _ _ _ H0 He) as Hf. cbn [flat length] in Hl. rewrite !length_app in *. cbn in *. lia.
Qed.

(** ** The parent *)

Lemma nodes_of_sorted o d l : holds o l → Forall (λ x, o ≤ x.1) (nodes_of d l) ∧ StronglySorted (λ x y, x.1 < y.1) (nodes_of d l).
Proof.
  revert o d. induction l as [|[o1 t] l IH]; intros o d Hh; [split; constructor|].
  apply holds_cons in Hh as (? & o' & Ht & Hh). apply token_next in Ht. cbn [nodes_of].
  assert (Hrec : ∀ d, Forall (λ x, o1 < x.1) (nodes_of d l) ∧ StronglySorted (λ x y, x.1 < y.1) (nodes_of d l)).
  { intros d'. destruct (IH o' d' Hh) as [Hf Hs]. split; [|done]. eapply Forall_impl; [exact Hf|]. cbn. intros. lia. }
  assert (Hle : ∀ d, Forall (λ x, o ≤ x.1) (nodes_of d l)).
  { intros d'. eapply Forall_impl; [apply Hrec|]. cbn. intros. lia. }
  destruct t; (split; [|try apply Hrec; try constructor]); try apply Hle; try apply Hrec; constructor; [done|apply Hle].
Qed.

Lemma pre_order l1 o d l2 o' d' l3 : pre 0 root = l1 ++ (o, d) :: l2 ++ (o', d') :: l3 → 0 ≤ o < o'.
Proof.
  intros E. destruct (pre_at _ _ _ _ E) as (o1 & s & rest & ? & Hh & Hn & _).
  apply (nodes_of_sorted _ (d - 1)) in Hh as [Hf Hs]. cbn [nodes_of] in *. replace (d - 1 + 1) with d in * by lia. rewrite Hn in *.
  inversion Hf. apply StronglySorted_inv in Hs as [_ Hs]. rewrite Forall_app, Forall_cons in Hs. cbn in *. lia.
Qed.

(** The last node at a depth. *)
Definition last_at (d so : Z) (l : list (Z * Z)) : Z := fold_left (λ so x, if x.2 =? d then x.1 else so) l so.

Lemma supernode_loop_pre f l1 o d l2 t dt l3 sd so : pre 0 root = l1 ++ l2 ++ (t, dt) :: l3 → head (l2 ++ [(t, dt)]) = Some (o, d) →
  (length l2 < f)%nat →
  supernode_loop m f fdt o d t sd so = Ret (if dt <? sd then - FDT_ERR_NOTFOUND else last_at sd so (l2 ++ [(t, dt)]), dt).
Proof.
  revert l1 l2 o d so. induction f as [|f IH]; intros l1 l2 o d so E Eh Hf; [lia|]. cbn [supernode_loop].
  destruct l2 as [|x l2]; cbn [app head] in Eh.
  - injection Eh as -> ->. destruct (pre_at _ _ _ _ E) as (o1 & s & rest & ? & [? _]%holds_cons & _).
    rewrite (proj2 (Z.leb_le 0 o)), (proj2 (Z.leb_le o o)), Z.eqb_refl by lia. cbn [andb]. by destruct (d <? sd).
  - injection Eh as ->. cbn [app] in E. destruct (pre_order _ _ _ _ _ _ _ E). rewrite (proj2 (Z.leb_le 0 o)), (proj2 (Z.leb_le o t)), (proj2 (Z.eqb_neq o t)) by lia. cbn [andb].
    destruct (l2 ++ [(t, dt)]) as [|[o' d'] l4] eqn:E4; [by destruct l2|]. assert (E' : l2 ++ (t, dt) :: l3 = (o', d') :: l4 ++ l3).
    { by rewrite cons_middle, app_assoc, E4. }
    rewrite E' in E. rewrite (next_node_pre _ _ _ _ _ _ E). cbn [bind depth_of]. rewrite <- E' in E.
    rewrite (IH (l1 ++ [(o, d)]) l2); [done|by rewrite <- app_assoc|by rewrite E4|cbn in Hf; lia].
Qed.

Lemma supernode_pre l1 t dt l2 sd : pre 0 root = l1 ++ (t, dt) :: l2 → 0 ≤ sd →
  fdt_supernode_atdepth_offset m fdt t sd = Ret (if dt <? sd then - FDT_ERR_NOTFOUND else last_at sd (- FDT_ERR_INTERNAL) (l1 ++ [(t, dt)]), dt).
Proof.
  intros E Hsd. unfold fdt_supernode_atdepth_offset. rewrite (ro_probe_spec m fdt ver tot (l_struct L) (l_limit L) Hok). cbn [bind].
  rewrite (proj2 (Z.ltb_lt tot INT32_MAX)), (proj2 (Z.ltb_ge sd 0)) by done. rewrite (proj2 (Z.ltb_ge tot 0)) by (destruct (ho_total _ _ _ _ _ _ Hok); lia).
  apply (supernode_loop_pre _ [] _ _ _ _ _ l2); [done| |].
  - destruct (pre_depth 0 root) as (l & Ep & _). rewrite Ep, Hroot in E. destruct l1 as [|x l1]; cbn in *; [by injection E as <- <- _|by injection E as <- _].
  - pose proof pre_fuel as Hf. rewrite E, length_app in Hf. lia.
Qed.

Lemma last_at_app d so l1 l2 : last_at d so (l1 ++ l2) = last_at d (last_at d so l1) l2.
Proof. apply fold_left_app. Qed.

Lemma last_at_below d so l : Forall (λ x, d + 1 ≤ x.2) l → last_at d so l = so.
Proof.
  revert so. induction l as [|x l IH]; intros so; [done|]. rewrite Forall_cons. intros [Hx Hl]. cbn. rewrite (proj2 (Z.eqb_neq _ _)) by lia. by apply IH.
Qed.

Lemma node_depth_pre l1 t dt l2 : pre 0 root = l1 ++ (t, dt) :: l2 → fdt_node_depth m fdt t = Ret dt ∧ 0 ≤ dt.
Proof.
  intros E. destruct (pre_depth 0 root) as (l & Ep & Hl). assert (Hd : 0 ≤ dt ∧ last_at 0 (- FDT_ERR_INTERNAL) (l1 ++ [(t, dt)]) = 0).
  { rewrite Ep, Hroot in E. destruct l1 as [|x l1]; cbn [app] in *.
    - by injection E as <- <- _.
    - injection E as <- ->. rewrite cons_middle, app_assoc, Forall_app in Hl. destruct Hl as [Hl _]. cbn [last_at fold_left]. cbn [snd Z.eqb fst].
      split; [|by apply last_at_below]. rewrite Forall_app, Forall_cons in Hl. cbn in Hl. lia. }
  unfold fdt_node_depth. rewrite (supernode_pre _ _ _ _ _ E) by lia. rewrite (proj2 (Z.ltb_ge dt 0)), (proj2 Hd) by lia. split; [done|lia].
Qed.

Lemma parent_offset_pre p k : p ∈ nodes root → k ∈ n_kids p → fdt_parent_offset m fdt (n_off k) = Ret (n_off p).
Proof.
  intros Hp Hk. destruct (pre_sub 0 _ _ Hp) as (l1 & l2 & d & E & Hd), (pre_kid d _ _ Hk) as (l3 & l4 & E' & Hl3).
  assert (Ek : pre 0 root = (l1 ++ (n_off p, d) :: l3) ++ (n_off k, d + 1) :: l4 ++ l2) by (rewrite E, E'; by simplify_list_eq).
  unfold fdt_parent_offset. rewrite (proj1 (node_depth_pre _ _ _ _ Ek)). cbn [bind]. rewrite (proj2 (Z.ltb_ge _ 0)) by lia.
  rewrite (supernode_pre _ _ _ _ _ Ek) by lia. cbn [bind]. rewrite (proj2 (Z.ltb_ge _ _)) by lia. f_equal.
  replace (d + 1 - 1) with d by lia. rewrite last_at_app, last_at_app. cbn [last_at fold_left fst snd]. rewrite Z.eqb_refl.
  rewrite (proj2 (Z.eqb_neq _ _)) by lia. by apply last_at_below.
Qed.

Lemma parent_offset_root : fdt_parent_offset m fdt 0 = Ret (- FDT_ERR_NOTFOUND).
Proof.
  destruct (pre_depth 0 root) as (l & Ep & _). rewrite Hroot in Ep. unfold fdt_parent_offset.
  rewrite (proj1 (node_depth_pre [] _ _ _ Ep)). cbn [bind Z.ltb Z.compare]. unfold fdt_supernode_atdepth_offset.
  rewrite (ro_probe_spec m fdt ver tot (l_struct L) (l_limit L) Hok). cbn [bind]. rewrite (proj2 (Z.ltb_lt tot INT32_MAX)) by done.
  by rewrite (proj2 (Z.ltb_ge tot 0)) by (destruct (ho_total _ _ _ _ _ _ Hok); lia).
Qed.

(** ** Searches *)

(** The first of the nodes at [l] for which [hit] gives a result. *)
Fixpoint first_hit (hit : Z → res (option Z)) (l : list Z) : res Z :=
  match l with
  | [] => Ret (- FDT_ERR_NOTFOUND)
  | o :: l => let* r := hit o in match r with Some r => Ret r | None => first_hit hit l end
  end.

Lemma first_hit_find (P : node → bool) hit ns : (∀ n, n ∈ ns → hit (n_off n) = Ret (if P n then Some (n_off n) else None)) →
  first_hit hit (map n_off ns) = Ret (at_node (List.find P ns)).
Proof.
  induction ns as [|n ns IH]; intros H; [done|]. cbn [map first_hit List.find]. rewrite H by left. cbn [bind]. destruct (P n); [done|].
  apply IH. intros. apply H. by right.
Qed.

Lemma node_search_pre f l1 o d l2 hit : pre 0 root = l1 ++ (o, d) :: l2 → (length l2 < f)%nat →
  node_search m f fdt o hit = first_hit hit (map fst l2).
Proof.
  revert l1 o d l2. induction f as [|f IH]; intros l1 o d l2 E Hf; [lia|]. cbn [node_search].
  pose proof (next_node_none _ _ _ _ E) as Hn. destruct (fdt_next_node m fdt o None) as [[o' d']| | |]; try done. cbn in Hn. subst o'. cbn [bind].
  destruct l2 as [|[o' d2] l2]; [done|]. destruct (pre_order l1 o d [] o' d2 l2 E). rewrite (proj2 (Z.ltb_ge o' 0)) by lia. cbn [map fst first_hit].
  destruct (hit o') as [[r|]| | |]; cbn [bind]; try done. apply (IH (l1 ++ [(o, d)]) o' d2); [by rewrite <- app_assoc|cbn in Hf; lia].
Qed.

Lemma node_search_start hit : node_search m (fuel m) fdt (-1) hit = first_hit hit (map n_off (nodes root)).
Proof.
  rewrite <- (pre_offs 0). destruct (pre_depth 0 root) as (l & Ep & _). pose proof pre_fuel as Hf. rewrite Ep in *. destruct (fuel m) as [|f] eqn:Ef; [lia|].
  cbn [node_search]. rewrite next_node_start. cbn [bind Z.ltb Z.compare map fst first_hit]. rewrite Hroot in *.
  destruct (hit 0) as [[r|]| | |]; cbn [bind]; try done. apply (node_search_pre _ [] _ 0); [done|cbn in Hf; lia].
Qed.
End search.

(** ** The interface to the clients of libfdt

    What the functions of libfdt return in a blob that holds the tree [root]. *)
Class fdt_tree (m : memory) (fdt : Z) (root : node) : Prop := {
  ft_off n : n ∈ nodes root → 0 ≤ n_off n;
  ft_fuel : (length (nodes root) < fuel m)%nat;
  ft_probe k : FDT_RO_PROBE m fdt k = k;
  ft_property n name nm : n ∈ nodes root → cstr m name nm → Z.of_nat (length nm) < 2 ^ 31 →
    match prop n nm with
    | Some p => ∃ ptr, ptr ≠ 0 ∧ ptr + 12 ≠ 0 ∧ bytes m (ptr + 12) (p_val p) ∧ Z.of_nat (length (p_val p)) < 2 ^ 31 ∧
        fdt_get_property m fdt (n_off n) name = Ret (ptr, Z.of_nat (length (p_val p))) ∧
        fdt_getprop m fdt (n_off n) name = Ret (ptr + 12, Z.of_nat (length (p_val p)))
    | None => fdt_get_property m fdt (n_off n) name = Ret (0, - FDT_ERR_NOTFOUND) ∧ fdt_getprop m fdt (n_off n) name = Ret (0, - FDT_ERR_NOTFOUND)
    end;
  ft_parent p k : p ∈ nodes root → k ∈ n_kids p → fdt_parent_offset m fdt (n_off k) = Ret (n_off p);
  ft_parent_root : fdt_parent_offset m fdt (n_off root) = Ret (- FDT_ERR_NOTFOUND);
  ft_search_start hit : node_search m (fuel m) fdt (-1) hit = first_hit hit (map n_off (nodes root));
  ft_search ns1 n ns2 hit : nodes root = ns1 ++ n :: ns2 → node_search m (fuel m) fdt (n_off n) hit = first_hit hit (map n_off ns2);
  ft_first_subnode n : n ∈ nodes root → fdt_first_subnode m fdt (n_off n) = Ret (at_node (head (n_kids n)));
  ft_next_subnode n k1 k k2 : n ∈ nodes root → n_kids n = k1 ++ k :: k2 → fdt_next_subnode m fdt (n_off k) = Ret (at_node (head k2));
  ft_path_namelen lit path pth : bytes m path (c_slash :: pth) →
    fdt_path_offset_namelen m lit fdt path (Z.of_nat (length (c_slash :: pth))) = Ret (at_node (resolve root (components pth)))
}.

Lemma pre_nodes root ns1 n ns2 : nodes root = ns1 ++ n :: ns2 → ∃ l1 d l2, pre 0 root = l1 ++ (n_off n, d) :: l2 ∧ map fst l2 = map n_off ns2.
Proof.
  intros E. pose proof (pre_offs 0 root) as Hp. rewrite E, map_app in Hp. cbn [map] in Hp. apply map_eq_app in Hp as (l1 & l2 & -> & _ & Hp).
  apply map_eq_cons in Hp as ([o d] & l3 & -> & <- & Hp). by exists l1, d, l3.
Qed.

#[global] Instance blob_tree_fdt_tree m fdt root : blob_tree m fdt root → fdt_tree m fdt root.
Proof.
  intros (blob & L & ver & Hc & Hlt & Hv & Rv & HL & Ht & H0). pose proof (blob_tree_header _ _ _ _ _ Hc Hv Rv HL) as Hok.
  destruct Hc as (Hb & Hs & _), HL as (_ & _ & Hstr & Hnstr). assert (Hle : 16 ≤ ver) by lia. pose proof (Z.le_refl (Z.of_nat (length blob))) as Hrefl. split.
  - intros n (o & l & ? & Hh)%(nodes_hold _ _ _ _ _ Ht). by eapply node_off.
  - rewrite <- (length_map n_off), <- (pre_offs 0), length_map. by eapply pre_fuel.
  - intros k. by eapply FDT_RO_PROBE_ok.
  - intros n name nm (o & l & Ho & Hh)%(nodes_hold _ _ _ _ _ Ht) Hnm Hl.
    erewrite fdt_get_property_cstr, fdt_getprop_cstr by done. destruct (prop n nm) as [p|] eqn:Ep; [|done]. cbn [prop_of value_of fst].
    eapply value_bytes in Ep as (Hbv & Hp & Hlim); [|done..]. pose proof (lim_small m fdt ver _ L Hok).
    exists (fdt + l_struct L + p_off p). rewrite <- (Z.add_assoc _ (p_off p)). split_and!; try done; try (eapply offset_ptr_nonnull; done || lia). lia.
  - intros. by eapply parent_offset_pre.
  - rewrite H0. by eapply parent_offset_root.
  - intros. by eapply node_search_start.
  - intros ns1 n ns2 hit E. destruct (pre_nodes _ _ _ _ E) as (l1 & d & l2 & Ep & <-). eapply node_search_pre; [done..|].
    assert (Hf : (length (pre 0 root) < fuel m)%nat) by (by eapply pre_fuel). rewrite Ep, length_app in Hf. cbn in Hf. lia.
  - intros n (o & l & Ho & Hh)%(nodes_hold _ _ _ _ _ Ht). erewrite first_subnode_holds by done. by destruct (n_kids n).
  - intros n k1 k k2 (o & l & Ho & Hh)%(nodes_hold _ _ _ _ _ Ht) E. destruct n as [off e s ps ks]. cbn [n_kids flat] in *. subst ks.
    rewrite flat_map_app in Hh. cbn [flat_map] in Hh. rewrite app_comm_cons, <- !app_assoc in Hh.
    apply holds_app in Hh as (o1 & ? & Hh). apply holds_app in Hh as (o2 & ? & Hh). cbn [app] in Hh.
    rewrite (next_subnode_holds m fdt blob Hb Hs ver _ L Hok Hrefl Hle o2 k k2 e l ltac:(lia) Hh). by destruct k2.
  - intros lit path pth Hp. unfold fdt_path_offset_namelen, PATH_NESTING. by apply (path_absolute m fdt blob Hb Hs ver _ L Hok Hrefl Hle Hlt root).
Qed.

Lemma ft_path m fdt root `{!fdt_tree m fdt root} lit path pth : cstr m path (c_slash :: pth) → Z.of_nat (length pth) + 1 < 2 ^ 31 →
  fdt_path_offset m lit fdt path = Ret (at_node (resolve root (components pth))).
Proof.
  intros Hp Hl. unfold fdt_path_offset. rewrite (strlen_spec _ _ _ Hp). cbn [bind]. rewrite s32_small by (cbn [length]; lia).
  apply ft_path_namelen. by destruct Hp as [[? _]%bytes_app _].
Qed.
