(* ===== verification/DeviceTree.v ===== *)
(** * lib/devicetree.c: what the guest needs from the device tree

    The accessors on top of libfdt.  The blob and the string literals of the
    source lie in byte memory, the literals at the addresses of [lits].  Output
    arguments are returned next to the result; those of a failed call are
    absent. *)

From S2P Require Import Prelude.
From S2P Require Import CMem.
From S2P Require Import CString.
From S2P Require Import Fdt.
From S2P Require Import FdtRo.

(** ** lib/devicetree.h *)

Definition MAX_ADDRESS_CELLS : Z := 4.
Definition MAX_SIZE_CELLS : Z := 4.
Record dt_reg := DtReg {
  nr_address_cells : Z;
  nr_size_cells : Z;
  address_cells : list Z;
  size_cells : list Z
}.
Record dt_pbus_reg := PbusReg { pr_addr : Z; pr_size : Z }.

(** An element of an array of the record. *)
Definition cell (l : list Z) (i : nat) : res Z := match l !! i with Some x => Ret x | None => Fault end.

Definition dt_pbus_read_cells (nr_cells : Z) (cells : list Z) : res Z :=
  if nr_cells =? 1 then cell cells 0
  else if nr_cells =? 2 then
    let* hi := cell cells 0 in
    let* lo := cell cells 1 in
    Ret (Z.lor (Z.shiftl hi 32) lo)
  else Ret (2 ^ 64 - 1).

(** The addresses of the string literals. *)
Record lits := Lits {
  s_root : Z; s_aliases : Z; s_compatible : Z; s_address_cells : Z; s_size_cells : Z; s_reg : Z; s_device_type : Z; s_memory : Z;
  s_cpus : Z; s_cpu : Z; s_chosen : Z; s_bootargs : Z; s_stdout_path : Z; s_linux_stdout_path : Z; s_initrd_start : Z; s_initrd_end : Z
}.

Section dt.
Variables (m : memory) (L : lits).

Section tree.
(** the static variable [fdt] *)
Variable fdt : Z.

Definition dt_available : res bool :=
  if fdt =? 0 then Ret false else
  let* r := fdt_check_header m fdt in Ret (r =? 0).

(** The result, and the numbers of cells. *)
Definition dt_get_nr_cells (fdtnode : Z) : res (Z * option (Z * Z)) :=
  let* '(prop, len) := fdt_get_property m fdt fdtnode (s_address_cells L) in
  if prop =? 0 then Ret (len, None) else
  let* nac := fdt32_ld m (prop + 12) in
  let* '(prop, len) := fdt_get_property m fdt fdtnode (s_size_cells L) in
  if prop =? 0 then Ret (len, None) else
  let* nsc := fdt32_ld m (prop + 12) in
  Ret (0, Some (nac, nsc)).

Definition dt_reg_init (nr_address_cells nr_size_cells : Z) : dt_reg :=
  DtReg nr_address_cells nr_size_cells (replicate (Z.to_nat MAX_ADDRESS_CELLS) 0) (replicate (Z.to_nat MAX_SIZE_CELLS) 0).

(** [n] cells from the index [regidx] on are stored from the start of an array. *)
Definition read_cells (n : Z) (data regidx : Z) (dst : list Z) : res (list Z) :=
  for_ (Z.to_nat n) 0 (λ i dst,
    let* c := fdt32_ld m (data + 4 * u32 (regidx + i)) in
    valid! (i <? Z.of_nat (length dst));
    Ret (<[Z.to_nat i := c]> dst)) dst.

Definition dt_get_reg (fdtnode regidx : Z) (reg : dt_reg) : res (Z * dt_reg) :=
  let* '(prop, len) := fdt_get_property m fdt fdtnode (s_reg L) in
  if prop =? 0 then Ret (len, reg) else
  let cells := prop + 12 in
  let nr_tuple_cells := u32 (nr_address_cells reg + nr_size_cells reg) in
  let regidx := s32 (regidx * nr_tuple_cells) in
  if u64 len / 4 <? u32 (regidx + nr_tuple_cells) then Ret (- FDT_ERR_NOTFOUND, reg) else
  let* ac := read_cells (nr_address_cells reg) cells regidx (address_cells reg) in
  let regidx := s32 (regidx + nr_address_cells reg) in
  let* sc := read_cells (nr_size_cells reg) cells regidx (size_cells reg) in
  Ret (0, DtReg (nr_address_cells reg) (nr_size_cells reg) ac sc).

Definition dt_pbus_translate_node (fdtnode regidx : Z) : res (Z * option dt_pbus_reg) :=
  let* parent := fdt_parent_offset m fdt fdtnode in
  if parent <? 0 then Ret (parent, None) else
  let* '(ret, cells) := dt_get_nr_cells parent in
  match cells with
  | None => Ret (ret, None)
  | Some (nac, nsc) =>
      let* '(ret, raw_reg) := dt_get_reg fdtnode regidx (dt_reg_init nac nsc) in
      if ret <? 0 then Ret (ret, None) else
      let* addr := dt_pbus_read_cells (nr_address_cells raw_reg) (address_cells raw_reg) in
      let* size := dt_pbus_read_cells (nr_size_cells raw_reg) (size_cells raw_reg) in
      Ret (0, Some (PbusReg addr size))
  end.

(** ** Devices and buses *)

Section bus.
Context {S : Type}.
(** [match] and [translate] of a bus, on the state of the device *)
Record dt_bus := DtBus {
  match_ : Z → S → res (Z * S);
  translate : Z → Z → res (Z * option dt_pbus_reg)
}.
Record dt_device := DtDevice { fdtnode : Z; bus : dt_bus; info : S }.

Definition dt_pbus_translate (node regidx : Z) : res (Z * option dt_pbus_reg) := dt_pbus_translate_node node regidx.
Definition dt_bus_match_any (fdtnode : Z) (info : S) : res (Z * S) := Ret (if fdtnode <? 0 then fdtnode else 1, info).
Definition dt_default_bus : dt_bus := DtBus dt_bus_match_any dt_pbus_translate.
Definition dt_device_init (b : dt_bus) (i : S) : dt_device := DtDevice 0 b i.
Definition dt_device_bind_node (dev : dt_device) (node : Z) : dt_device := DtDevice node (bus dev) (info dev).
Definition dt_pbus_get_base (dev : dt_device) : res (Z * option dt_pbus_reg) := dt_pbus_translate (fdtnode dev) 0.

Fixpoint find_compatible_loop (f : nat) (dev : dt_device) (node compatible : Z) : res (Z * S) :=
  match f with
  | O => Hang
  | Datatypes.S f =>
      if 0 <=? node then
        let* '(ret, i) := match_ (bus dev) node (info dev) in
        if ret <? 0 then Ret (ret, i) else
        if negb (ret =? 0) then Ret (node, i) else
        let* node := fdt_node_offset_by_compatible m (s_compatible L) fdt node compatible in
        find_compatible_loop f (DtDevice (fdtnode dev) (bus dev) i) node compatible
      else Ret (node, info dev)
  end.
Definition dt_device_find_compatible (dev : dt_device) (compatible : Z) : res (Z * S) :=
  let* node := fdt_node_offset_by_compatible m (s_compatible L) fdt (-1) compatible in
  find_compatible_loop (fuel m) dev node compatible.
End bus.

Definition dt_pbus_get_base_compatible (compatible : Z) : res (Z * option dt_pbus_reg) :=
  let dev := dt_device_init dt_default_bus tt in
  let* '(node, _) := dt_device_find_compatible dev compatible in
  if node <? 0 then Ret (node, None) else
  dt_pbus_get_base (dt_device_bind_node dev node).

(** ** Memory, processors and boot information *)

(** The registers of one node; the result is negative, or 0 with the registers
    found so far. *)
Fixpoint memory_regs (f : nat) (node reg_idx nr nr_regs : Z) (regs : list dt_pbus_reg) : res (Z * Z * list dt_pbus_reg) :=
  match f with
  | O => Hang
  | S f =>
      if nr <? nr_regs then
        let* '(ret, reg) := dt_pbus_translate_node node reg_idx in
        if ret =? - FDT_ERR_NOTFOUND then Ret (0, nr, regs) else
        match reg with
        | None => Ret (ret, nr, regs)
        | Some reg => memory_regs f node (reg_idx + 1) (nr + 1) nr_regs (regs ++ [reg])
        end
      else Ret (0, nr, regs)
  end.

Fixpoint memory_nodes (f : nat) (node nr nr_regs : Z) (pl : Z) (regs : list dt_pbus_reg) : res (Z * list dt_pbus_reg) :=
  match f with
  | O => Hang
  | S f =>
      if 0 <=? node then
        let* '(ret, nr, regs) := memory_regs (S (Z.to_nat (nr_regs - nr))) node 0 nr nr_regs regs in
        if ret <? 0 then Ret (ret, regs) else
        let* node := fdt_node_offset_by_prop_value m fdt node (s_device_type L) (s_memory L) pl in
        memory_nodes f node nr nr_regs pl regs
      else Ret (if negb (node =? - FDT_ERR_NOTFOUND) then node else nr, regs)
  end.

Definition dt_get_memory_params (nr_regs : Z) : res (Z * list dt_pbus_reg) :=
  let* l := strlen m (s_memory L) in
  let pl := s32 (l + 1) in
  let* node := fdt_node_offset_by_prop_value m fdt (-1) (s_device_type L) (s_memory L) pl in
  memory_nodes (fuel m) node 0 nr_regs pl [].

(** The body of [dt_for_each_subnode] for one processor. *)
Definition cpu_node {S} (func : Z → Z → S → res S) (nac : Z) (cpu : Z) (raw_reg : dt_reg) (s : S) : res (Z * dt_reg * S) :=
  let* '(prop, len) := fdt_get_property m fdt cpu (s_device_type L) in
  if prop =? 0 then Ret (0, raw_reg, s) else
  let* skip := if negb (len =? 4) then Ret true else let* c := strcmp m (prop + 12) (s_cpu L) in Ret (negb (c =? 0)) in
  if skip : bool then Ret (0, raw_reg, s) else
  let* '(ret, raw_reg) := dt_get_reg cpu 0 raw_reg in
  if ret <? 0 then Ret (ret, raw_reg, s) else
  let* regval := cell (address_cells raw_reg) 0 in
  let* regval := if nac =? 2 then let* lo := cell (address_cells raw_reg) 1 in Ret (Z.lor (u64 (Z.shiftl regval 32)) lo) else Ret regval in
  let* s := func cpu regval s in
  Ret (0, raw_reg, s).

Fixpoint cpu_loop {S} (f : nat) (func : Z → Z → S → res S) (nac cpu : Z) (raw_reg : dt_reg) (s : S) : res (Z * S) :=
  match f with
  | O => Hang
  | Datatypes.S f =>
      if cpu =? - FDT_ERR_NOTFOUND then Ret (0, s) else
      let* '(ret, raw_reg, s) := cpu_node func nac cpu raw_reg s in
      if ret <? 0 then Ret (ret, s) else
      let* cpu := fdt_next_subnode m fdt cpu in
      cpu_loop f func nac cpu raw_reg s
  end.

Definition dt_for_each_cpu_node {S} (func : Z → Z → S → res S) (s : S) : res (Z * S) :=
  let* cpus := fdt_path_offset m (s_aliases L) fdt (s_cpus L) in
  if cpus <? 0 then Ret (cpus, s) else
  let* '(ret, cells) := dt_get_nr_cells cpus in
  match cells with
  | None => Ret (ret, s)
  | Some (nac, nsc) =>
      let* cpu := fdt_first_subnode m fdt cpus in
      cpu_loop (fuel m) func nac cpu (dt_reg_init nac nsc) s
  end.

Definition dt_get_bootargs : res (Z * Z) :=
  let* node := fdt_path_offset m (s_aliases L) fdt (s_chosen L) in
  if node <? 0 then Ret (node, 0) else
  let* '(prop, len) := fdt_get_property m fdt node (s_bootargs L) in
  if prop =? 0 then Ret (len, 0) else Ret (0, prop + 12).

Definition dt_get_default_console_node : res Z :=
  let* node := fdt_path_offset m (s_aliases L) fdt (s_chosen L) in
  if node <? 0 then Ret node else
  let* '(p, len) := fdt_getprop m fdt node (s_stdout_path L) in
  let* '(p, len) := if p =? 0 then fdt_getprop m fdt node (s_linux_stdout_path L) else Ret (p, len) in
  if p =? 0 then Ret len else
  let* q := strchrnul m p 58 in
  fdt_path_offset_namelen m (s_aliases L) fdt p (s32 (q - p)).

(** One cell, or two if the property has eight bytes. *)
Definition initrd_cells (data len : Z) : res Z :=
  let* start := fdt32_ld m data in
  if len =? 8 then let* lo := fdt32_ld m (data + 4) in Ret (Z.lor (u64 (Z.shiftl start 32)) lo) else Ret start.

(** The result, the address and the size. *)
Definition dt_get_initrd : res (Z * Z * Z) :=
  let* node := fdt_path_offset m (s_aliases L) fdt (s_chosen L) in
  if node <? 0 then Ret (node, 0, 0) else
  let* '(prop, len) := fdt_get_property m fdt node (s_initrd_start L) in
  if prop =? 0 then Ret (len, 0, 0) else
  let* start := initrd_cells (prop + 12) len in
  let* '(prop, len) := fdt_get_property m fdt node (s_initrd_end L) in
  if prop =? 0 then assert! (negb (len =? - FDT_ERR_NOTFOUND)); Ret (len, 0, 0) else
  let* end_ := initrd_cells (prop + 12) len in
  assert! (start <? end_);
  Ret (0, start, u32 (end_ - start)).
End tree.

(** The result and the new value of [fdt]. *)
Definition dt_init (fdt fdt_ptr : Z) : res (Z * Z) :=
  let* ret := fdt_check_header m fdt_ptr in
  if ret <? 0 then Ret (ret, fdt) else
  let* ret := fdt_path_offset m (s_aliases L) fdt_ptr (s_root L) in
  if ret <? 0 then Ret (ret, fdt) else Ret (0, fdt_ptr).
End dt.
