(* ===== verification/DtProps.v ===== *)
(** * lib/devicetree.c: what the accessors return

    Against the interface of libfdt: the registers of a node, the memory of the
    machine and its processors, as the tree gives them. *)

From Stdlib Require Import String Ascii.
From S2P Require Import Prelude.
From S2P Require Import CMem.
From S2P Require Import CString.
From S2P Require Import CStringSpec.
From S2P Require Import Fdt.
From S2P Require Import FdtRo.
From S2P Require Import FdtProps.
From S2P Require Import FdtTree.
From S2P Require Import FdtWalk.
From S2P Require Import FdtPath.
From S2P Require Import FdtThms.
From S2P Require Import FdtSearch.
From S2P Require Import DeviceTree.

(** ** The specification *)

Definition lit (s : string) : list Z := map (λ c, Z.of_nat (nat_of_ascii c)) (list_ascii_of_string s).

(** The big-endian cells of a value. *)
Fixpoint words (v : list Z) : list Z :=
  match v with
  | b0 :: b1 :: b2 :: b3 :: v => be32 b0 b1 b2 b3 :: words v
  | _ => []
  end.

(** #address-cells and #size-cells of a node. *)
Definition first_cell (n : node) (nm : list Z) : option Z := prop n nm ≫= λ p, head (words (p_val p)).
Definition cells (n : node) : option (Z * Z) :=
  nac ← first_cell n (lit "#address-cells"); nsc ← first_cell n (lit "#size-cells"); Some (nac, nsc).

(** The [i]-th pair of an address and a size. *)
Definition tuple (nac nsc : Z) (ws : list Z) (i : Z) : option (list Z * list Z) :=
  let t := drop (Z.to_nat (i * (nac + nsc))) ws in
  if Z.of_nat (length t) <? nac + nsc then None
  else Some (take (Z.to_nat nac) t, take (Z.to_nat nsc) (drop (Z.to_nat nac) t)).

(** A number of one or two cells. *)
Definition number (cs : list Z) : Z :=
  match cs with [w] => w | [hi; lo] => Z.lor (Z.shiftl hi 32) lo | _ => 2 ^ 64 - 1 end.

Definition reg_at (p n : node) (i : Z) : option dt_pbus_reg :=
  '(nac, nsc) ← cells p; pr ← prop n (lit "reg"); '(a, s) ← tuple nac nsc (words (p_val pr)) i;
  Some (PbusReg (number a) (number s)).

(** The nodes with their parents. *)
Fixpoint with_parents (p : option node) (n : node) : list (option node * node) :=
  (p, n) :: (let 'Node _ _ _ _ ks := n in flat_map (with_parents (Some n)) ks).

Definition has_type (ty : list Z) (n : node) : bool :=
  match prop n (lit "device_type") with Some pr => bool_decide (p_val pr = ty ++ [0]) | None => false end.

(** The registers of the memory nodes, in the order of the tree. *)
Definition reg_count (p n : node) : Z :=
  match cells p, prop n (lit "reg") with
  | Some (nac, nsc), Some pr => Z.of_nat (length (words (p_val pr))) / (nac + nsc)
  | _, _ => 0
  end.
Definition node_regs (p : option node) (n : node) : list dt_pbus_reg :=
  match p with Some p => omap (reg_at p n) (seqZ 0 (reg_count p n)) | None => [] end.
Definition memory_of (l : list (option node * node)) : list dt_pbus_reg :=
  flat_map (λ '(p, n), if has_type (lit "memory") n then node_regs p n else []) l.

(** The processors among some nodes, each with its number; [func] is called for
    them in turn, until one has no number. *)
Definition cpu_number (cs : list Z) : Z := match cs with [hi; lo] => Z.lor (Z.shiftl hi 32) lo | w :: _ => w | [] => 0 end.
Fixpoint visit_cpus {S} (func : Z → Z → S → res S) (nac nsc : Z) (ks : list node) (s : S) : res (Z * S) :=
  match ks with
  | [] => Ret (0, s)
  | k :: ks =>
      if has_type (lit "cpu") k then
        match prop k (lit "reg") ≫= λ pr, tuple nac nsc (words (p_val pr)) 0 with
        | Some (a, _) => let* s := func (n_off k) (cpu_number a) s in visit_cpus func nac nsc ks s
        | None => Ret (- FDT_ERR_NOTFOUND, s)
        end
      else visit_cpus func nac nsc ks s
  end.

(** The literals of the source in memory. *)
Record lits_ok (m : memory) (L : lits) : Prop := {
  l_address_cells : cstr m (s_address_cells L) (lit "#address-cells");
  l_size_cells : cstr m (s_size_cells L) (lit "#size-cells");
  l_reg : cstr m (s_reg L) (lit "reg");
  l_device_type : cstr m (s_device_type L) (lit "device_type");
  l_memory : cstr m (s_memory L) (lit "memory");
  l_cpus : cstr m (s_cpus L) (lit "/cpus");
  l_cpu : cstr m (s_cpu L) (lit "cpu");
  l_compatible : cstr m (s_compatible L) (lit "compatible");
  l_chosen : cstr m (s_chosen L) (lit "/chosen");
  l_bootargs : cstr m (s_bootargs L) (lit "bootargs");
  l_stdout_path : cstr m (s_stdout_path L) (lit "stdout-path");
  l_linux_stdout_path : cstr m (s_linux_stdout_path L) (lit "linux,stdout-path");
  l_initrd_start : cstr m (s_initrd_start L) (lit "linux,initrd-start");
  l_initrd_end : cstr m (s_initrd_end L) (lit "linux,initrd-end")
}.

(** The properties with the numbers of cells hold a cell, if they are there. *)
Definition cells_ok (n : node) : Prop :=
  ∀ nm p, nm = lit "#address-cells" ∨ nm = lit "#size-cells" → prop n nm = Some p → (4 ≤ length (p_val p))%nat.

(** ** Cells *)

Lemma words_length v : Z.of_nat (length (words v)) = Z.of_nat (length v) / 4.
Proof.
  induction v as [v IH] using (induction_ltof1 _ (@length Z)). destruct v as [|b0 [|b1 [|b2 [|b3 v]]]]; try done.
  cbn [words length]. rewrite Nat2Z.inj_succ, IH by (unfold ltof; cbn; lia). Z.div_mod_to_equations. lia.
Qed.

Lemma ld_words m p v i w : bytes m p v → words v !! i = Some w → fdt32_ld m (p + 4 * Z.of_nat i) = Ret w.
Proof.
  revert p v. induction i as [|i IH]; intros p v Hb Hw; destruct v as [|b0 [|b1 [|b2 [|b3 v]]]]; try done.
  - injection Hw as <-. rewrite Z.add_0_r. apply fdt32_ld_bytes. by apply (bytes_app _ _ [b0; b1; b2; b3] v) in Hb as [? _].
  - apply (bytes_app _ _ [b0; b1; b2; b3] v) in Hb as [_ Hb]. cbn [length] in Hb.
    replace (p + 4 * Z.of_nat (S i)) with (p + Z.of_nat 4 + 4 * Z.of_nat i) by lia. by apply (IH _ v).
Qed.

Lemma words_range m p v : bytes m p v → Forall (λ w, 0 ≤ w < 2 ^ 32) (words v).
Proof.
  revert p. induction v as [v IH] using (induction_ltof1 _ (@length Z)). intros p Hb. destruct v as [|b0 [|b1 [|b2 [|b3 v]]]]; try by constructor.
  apply (bytes_app _ _ [b0; b1; b2; b3] v) in Hb as [Hb Hv]. constructor; [|eapply IH; [unfold ltof; cbn; lia|done]].
  destruct Hb as (_ & ? & _ & _ & ? & _ & _ & ? & _ & _ & ? & _). unfold be32. lia.
Qed.

Section client.
Context (m : memory) (L : lits) (fdt : Z) (root : node) `{!fdt_tree m fdt root} (HL : lits_ok m L).

Lemma read_cells_spec data v idx n dst : bytes m data v → 0 ≤ idx → 0 ≤ n → idx + n ≤ Z.of_nat (length (words v)) → idx + n < 2 ^ 32 →
  n ≤ Z.of_nat (length dst) →
  read_cells m n data idx dst = Ret (take (Z.to_nat n) (drop (Z.to_nat idx) (words v)) ++ drop (Z.to_nat n) dst).
Proof.
  intros Hb Hi Hn Hl Hu Hd. unfold read_cells.
  assert (Hg : ∀ k i (dst : list Z), (i + k ≤ length dst)%nat → idx + Z.of_nat i + Z.of_nat k ≤ Z.of_nat (length (words v)) → idx + Z.of_nat i + Z.of_nat k < 2 ^ 32 →
    for_ k (Z.of_nat i) (λ i dst, let* c := fdt32_ld m (data + 4 * u32 (idx + i)) in valid! (i <? Z.of_nat (length dst)); Ret (<[Z.to_nat i := c]> dst)) dst =
    Ret (take i dst ++ take k (drop (Z.to_nat idx + i) (words v)) ++ drop (i + k) dst)).
  2:{ specialize (Hg (Z.to_nat n) 0%nat dst). rewrite Nat.add_0_r in Hg. apply Hg; lia. }
  clear - Hb Hi. intros k. induction k as [|k IH]; intros i dst Hd Hl Hu; cbn [for_].
  { rewrite Nat.add_0_r, take_0. cbn [app]. by rewrite take_drop. }
  destruct (lookup_lt_is_Some_2 (words v) (Z.to_nat idx + i)) as [w Hw]; [lia|]. rewrite u32_small by lia.
  replace (idx + Z.of_nat i) with (Z.of_nat (Z.to_nat idx + i)) by lia. rewrite (ld_words _ _ _ _ _ Hb Hw). cbn [bind].
  rewrite (proj2 (Z.ltb_lt _ _)) by lia. cbn [bind]. rewrite Nat2Z.id. replace (Z.of_nat i + 1) with (Z.of_nat (S i)) by lia.
  rewrite IH by (rewrite ?length_insert; lia). f_equal. rewrite (drop_S _ _ _ Hw), firstn_cons.
  rewrite drop_insert_lt by lia. replace (S i + k)%nat with (i + S k)%nat by lia. replace (Z.to_nat idx + S i)%nat with (S (Z.to_nat idx + i)) by lia.
  erewrite take_S_r by (apply list_lookup_insert_eq; lia). rewrite take_insert_ge by lia. by rewrite <- app_assoc.
Qed.

(** More cells than the array has room for. *)
Lemma read_cells_fault data v idx n dst : bytes m data v → 0 ≤ idx → 0 ≤ n → idx + n ≤ Z.of_nat (length (words v)) → idx + n < 2 ^ 32 →
  Z.of_nat (length dst) < n → read_cells m n data idx dst = Fault.
Proof.
  intros Hb Hi Hn Hl Hu Hd. unfold read_cells.
  assert (Hg : ∀ k i (dst : list Z), (i ≤ length dst < i + k)%nat → idx + Z.of_nat i + Z.of_nat k ≤ Z.of_nat (length (words v)) → idx + Z.of_nat i + Z.of_nat k < 2 ^ 32 →
    for_ k (Z.of_nat i) (λ i dst, let* c := fdt32_ld m (data + 4 * u32 (idx + i)) in valid! (i <? Z.of_nat (length dst)); Ret (<[Z.to_nat i := c]> dst)) dst = Fault).
  2:{ apply (Hg (Z.to_nat n) 0%nat dst); lia. }
  clear - Hb Hi. intros k. induction k as [|k IH]; intros i dst Hd Hl Hu; [lia|]. cbn [for_].
  destruct (lookup_lt_is_Some_2 (words v) (Z.to_nat idx + i)) as [w Hw]; [lia|]. rewrite u32_small by lia.
  replace (idx + Z.of_nat i) with (Z.of_nat (Z.to_nat idx + i)) by lia. rewrite (ld_words _ _ _ _ _ Hb Hw). cbn [bind].
  destruct (Z.ltb_spec (Z.of_nat i) (Z.of_nat (length dst))); [|done]. cbn [bind]. replace (Z.of_nat i + 1) with (Z.of_nat (S i)) by lia.
  apply IH; rewrite ?length_insert; lia.
Qed.

Lemma cell_spec n nm ptr pr v : prop n nm = Some pr → p_val pr = v → bytes m ptr v → (4 ≤ length v)%nat →
  ∃ w, first_cell n nm = Some w ∧ fdt32_ld m ptr = Ret w ∧ 0 ≤ w < 2 ^ 32.
Proof.
  intros Hp <- Hb Hl. unfold first_cell. rewrite Hp. cbn [mbind option_bind]. destruct (words (p_val pr)) as [|w ws] eqn:Ew.
  { pose proof (words_length (p_val pr)) as Hw. rewrite Ew in Hw. cbn in Hw. Z.div_mod_to_equations. lia. }
  exists w. pose proof (words_range _ _ _ Hb) as Hr. rewrite Ew in Hr. apply Forall_cons in Hr as [Hr _]. split_and!; [done| |lia..].
  rewrite <- (Z.add_0_r ptr). apply (ld_words m ptr _ 0 w Hb). by rewrite Ew.
Qed.

Lemma no_cell n nm : prop n nm = None → first_cell n nm = None.
Proof. unfold first_cell. by intros ->. Qed.

Lemma get_nr_cells_spec p : p ∈ nodes root → cells_ok p →
  dt_get_nr_cells m L fdt (n_off p) = Ret (match cells p with Some c => (0, Some c) | None => (- FDT_ERR_NOTFOUND, None) end) ∧
  (∀ nac nsc, cells p = Some (nac, nsc) → 0 ≤ nac < 2 ^ 32 ∧ 0 ≤ nsc < 2 ^ 32).
Proof.
  intros Hp Hc. unfold dt_get_nr_cells, cells.
  pose proof (ft_property p _ _ Hp (l_address_cells _ _ HL) ltac:(done)) as Ha. pose proof (ft_property p _ _ Hp (l_size_cells _ _ HL) ltac:(done)) as Hs.
  pose proof (Hc (lit "#address-cells")) as Hca. pose proof (Hc (lit "#size-cells")) as Hcs.
  destruct (prop p (lit "#address-cells")) as [pa|] eqn:Epa.
  2:{ destruct Ha as [-> _]. by rewrite (no_cell _ _ Epa). }
  destruct Ha as (ptr & Hptr & _ & Hb & _ & -> & _). cbn [bind]. rewrite (proj2 (Z.eqb_neq ptr 0)) by done.
  destruct (cell_spec _ _ _ _ _ Epa eq_refl Hb (Hca _ (or_introl eq_refl) eq_refl)) as (nac & -> & -> & ?). cbn [bind mbind option_bind].
  destruct (prop p (lit "#size-cells")) as [ps|] eqn:Eps.
  2:{ destruct Hs as [-> _]. by rewrite (no_cell _ _ Eps). }
  destruct Hs as (ptr' & Hptr' & _ & Hb' & _ & -> & _). cbn [bind]. rewrite (proj2 (Z.eqb_neq ptr' 0)) by done.
  destruct (cell_spec _ _ _ _ _ Eps eq_refl Hb' (Hcs _ (or_intror eq_refl) eq_refl)) as (nsc & -> & -> & ?). cbn [bind mbind option_bind].
  split; [done|]. by intros ? ? [= <- <-].
Qed.

(** The registers of a node are the given tuple of cells, or are not there. *)
Lemma get_reg_spec n i reg : n ∈ nodes root → 0 ≤ i → i * (nr_address_cells reg + nr_size_cells reg) < 2 ^ 30 →
  0 ≤ nr_address_cells reg ≤ 4 → 0 ≤ nr_size_cells reg ≤ 4 →
  length (address_cells reg) = 4%nat → length (size_cells reg) = 4%nat →
  dt_get_reg m L fdt (n_off n) i reg = Ret (
    match prop n (lit "reg") ≫= λ pr, tuple (nr_address_cells reg) (nr_size_cells reg) (words (p_val pr)) i with
    | Some (a, s) => (0, DtReg (nr_address_cells reg) (nr_size_cells reg) (a ++ drop (length a) (address_cells reg)) (s ++ drop (length s) (size_cells reg)))
    | None => (- FDT_ERR_NOTFOUND, reg)
    end).
Proof.
  destruct reg as [nac nsc ac sc]. cbn [nr_address_cells nr_size_cells address_cells size_cells]. intros Hn Hi Hit Ha Hs La Ls. unfold dt_get_reg.
  pose proof (ft_property n _ _ Hn (l_reg _ _ HL) ltac:(done)) as Hr. destruct (prop n (lit "reg")) as [pr|]; [|by destruct Hr as [-> _]].
  destruct Hr as (ptr & Hptr & _ & Hb & Hlen & -> & _). cbn [bind mbind option_bind nr_address_cells nr_size_cells address_cells size_cells].
  rewrite (proj2 (Z.eqb_neq ptr 0)) by done. rewrite (u32_small (nac + nsc)) by lia. assert (Hk : 0 ≤ i * (nac + nsc)) by nia.
  assert (Hz : nac + nsc = 0 → i * (nac + nsc) = 0) by (intros ->; lia). unfold tuple. set (k := i * (nac + nsc)) in *. clearbody k.
  rewrite (s32_small k), (u32_small (k + (nac + nsc))), u64_small by lia. rewrite <- words_length, length_drop.
  destruct (Z.ltb_spec (Z.of_nat (length (words (p_val pr)))) (k + (nac + nsc))) as [Hlt|Hge].
  { by rewrite (proj2 (Z.ltb_lt _ _)) by lia. }
  rewrite (proj2 (Z.ltb_ge _ _)), (s32_small (k + nac)) by lia. erewrite !read_cells_spec by (done || lia). cbn [bind].
  rewrite drop_drop, !length_take, !length_drop. rewrite !Nat.min_l by lia. by replace (Z.to_nat k + Z.to_nat nac)%nat with (Z.to_nat (k + nac)) by lia.
Qed.

Lemma pbus_read_cells_spec nr cs rest : length cs = Z.to_nat nr → 0 ≤ nr → dt_pbus_read_cells nr (cs ++ rest) = Ret (number cs).
Proof.
  intros Hl Hn. unfold dt_pbus_read_cells. destruct (Z.eqb_spec nr 1) as [->|]; [by destruct cs as [|? [|]]|].
  destruct (Z.eqb_spec nr 2) as [->|]; [by destruct cs as [|? [|? [|]]]|]. destruct cs as [|? [|? [|]]]; cbn in Hl; done || lia.
Qed.

Lemma tuple_lengths nac nsc ws i a s : 0 ≤ nac → 0 ≤ nsc → tuple nac nsc ws i = Some (a, s) → length a = Z.to_nat nac ∧ length s = Z.to_nat nsc.
Proof.
  unfold tuple. intros Ha Hs. set (t := drop _ _). destruct (Z.ltb_spec (Z.of_nat (length t)) (nac + nsc)); [done|]. intros [= <- <-].
  rewrite !length_take, !length_drop. lia.
Qed.

Lemma translate_node_spec p n i : p ∈ nodes root → n ∈ n_kids p → n ∈ nodes root → cells_ok p → 0 ≤ i →
  (∀ nac nsc, cells p = Some (nac, nsc) → nac ≤ 4 ∧ nsc ≤ 4 ∧ i * (nac + nsc) < 2 ^ 30) →
  dt_pbus_translate_node m L fdt (n_off n) i = Ret (match reg_at p n i with Some r => (0, Some r) | None => (- FDT_ERR_NOTFOUND, None) end).
Proof.
  intros Hp Hn Hn' Hc Hi H4. unfold dt_pbus_translate_node, reg_at. rewrite (ft_parent p n) by done. cbn [bind].
  rewrite (proj2 (Z.ltb_ge _ _)) by (by apply ft_off). destruct (get_nr_cells_spec p Hp Hc) as [-> Hr]. cbn [bind].
  destruct (cells p) as [[nac nsc]|]; [|done]. destruct (Hr _ _ eq_refl), (H4 _ _ eq_refl) as (? & ? & ?). cbn [mbind option_bind].
  rewrite get_reg_spec by (done || cbn; lia). cbn [bind nr_address_cells nr_size_cells dt_reg_init].
  destruct (prop n (lit "reg")) as [pr|]; [|done]. cbn [mbind option_bind]. destruct (tuple nac nsc (words (p_val pr)) i) as [[a s]|] eqn:Et; [|done].
  apply tuple_lengths in Et as [La Ls]; [|lia..]. cbn [Z.ltb Z.compare bind nr_address_cells nr_size_cells address_cells size_cells].
  by rewrite !pbus_read_cells_spec by (done || lia).
Qed.

(** More cells than [dt_reg] has room for. *)
Lemma translate_node_fault p n nac nsc pr : p ∈ nodes root → n ∈ n_kids p → n ∈ nodes root → cells_ok p →
  cells p = Some (nac, nsc) → prop n (lit "reg") = Some pr → nac + nsc ≤ Z.of_nat (length (words (p_val pr))) → 4 < nac ∨ 4 < nsc →
  dt_pbus_translate_node m L fdt (n_off n) 0 = Fault.
Proof.
  intros Hp Hn Hn' Hc Ec Er Hl H4. unfold dt_pbus_translate_node. rewrite (ft_parent p n) by done. cbn [bind].
  rewrite (proj2 (Z.ltb_ge _ _)) by (by apply ft_off). destruct (get_nr_cells_spec p Hp Hc) as [-> Hr]. cbn [bind]. rewrite Ec.
  destruct (Hr _ _ Ec). unfold dt_get_reg. cbn [nr_address_cells nr_size_cells dt_reg_init address_cells size_cells].
  pose proof (ft_property n _ _ Hn' (l_reg _ _ HL) ltac:(done)) as Hq. rewrite Er in Hq. destruct Hq as (ptr & Hptr & _ & Hb & Hlen & -> & _). cbn [bind].
  rewrite (proj2 (Z.eqb_neq ptr 0)) by done. pose proof (words_length (p_val pr)) as Hw. assert (nac + nsc < 2 ^ 30) by (Z.div_mod_to_equations; lia).
  rewrite (u32_small (nac + nsc)), Z.mul_0_l by lia. change (s32 0) with 0. rewrite !Z.add_0_l, u32_small, u64_small by lia. rewrite <- Hw.
  rewrite (proj2 (Z.ltb_ge _ _)), (s32_small nac) by lia. destruct (Z.le_gt_cases nac 4).
  - erewrite read_cells_spec by (done || rewrite ?length_replicate; change (Z.to_nat MAX_ADDRESS_CELLS) with 4%nat; lia). cbn [bind].
    by erewrite read_cells_fault by (done || rewrite ?length_replicate; change (Z.to_nat MAX_SIZE_CELLS) with 4%nat; lia).
  - by erewrite read_cells_fault by (done || rewrite ?length_replicate; change (Z.to_nat MAX_ADDRESS_CELLS) with 4%nat; lia).
Qed.

(** ** Memory *)

Lemma with_parents_nodes p n : map snd (with_parents p n) = nodes n.
Proof.
  revert p. induction n as [o e s ps ks IH] using node_ind'. intros p. cbn [with_parents nodes map snd]. f_equal.
  generalize (Some (Node o e s ps ks)). intros q. induction IH as [|k ks Hk _ IHks]; [done|]. cbn [flat_map]. by rewrite map_app, Hk, IHks.
Qed.

Lemma with_parents_kid q p n r : (Some p, n) ∈ with_parents q r → q = Some p ∧ n = r ∨ p ∈ nodes r ∧ n ∈ n_kids p.
Proof.
  revert q. induction r as [o e s ps ks IH] using node_ind'. intros q. cbn [with_parents nodes]. intros [[= -> ->]|Hin]%elem_of_cons; [by left|right].
  apply list_elem_of_In, in_flat_map in Hin as (k & Hk%list_elem_of_In & Hin%list_elem_of_In). rewrite Forall_forall in IH.
  destruct (IH k Hk _ Hin) as [[[= <-] ->]|[Hp Hn]]; [split; [by left|done]|]. split; [|done]. right. apply list_elem_of_In, in_flat_map.
  exists k. by rewrite <- !list_elem_of_In.
Qed.

Lemma with_parents_root q n r : (None, n) ∈ with_parents q r → q = None ∧ n = r.
Proof.
  revert q. induction r as [o e s ps ks IH] using node_ind'. intros q. cbn [with_parents]. intros [[= <- <-]|Hin]%elem_of_cons; [done|].
  apply list_elem_of_In, in_flat_map in Hin as (k & Hk%list_elem_of_In & Hin%list_elem_of_In). rewrite Forall_forall in IH.
  by destruct (IH k Hk _ Hin).
Qed.

(** The tuples that are there come first. *)
Lemma tuple_mono nac nsc ws i : 0 < nac + nsc → 0 ≤ nac → 0 ≤ nsc → 0 ≤ i → is_Some (tuple nac nsc ws i) ↔ (i + 1) * (nac + nsc) ≤ Z.of_nat (length ws).
Proof.
  intros. unfold tuple. rewrite length_drop. destruct (Z.ltb_spec (Z.of_nat (length ws - Z.to_nat (i * (nac + nsc)))) (nac + nsc)).
  - split; [by intros [? ?]|]. nia.
  - split; [nia|]. done.
Qed.

(** The number of cells of a tuple is as [dt_reg] has room for. *)
Definition cells_fit (p : node) : Prop := cells_ok p ∧ ∀ nac nsc, cells p = Some (nac, nsc) → nac ≤ 4 ∧ nsc ≤ 4 ∧ 0 < nac + nsc.

Lemma reg_count_nonneg p n : cells_fit p → 0 ≤ reg_count p n.
Proof.
  intros [_ H4]. unfold reg_count. destruct (cells p) as [[nac nsc]|]; [|done]. destruct (H4 _ _ eq_refl) as (_ & _ & ?).
  destruct (prop n (lit "reg")); [|done]. apply Z.div_pos; lia.
Qed.

Lemma reg_count_spec p n i : p ∈ nodes root → cells_fit p → 0 ≤ i → is_Some (reg_at p n i) ↔ i < reg_count p n.
Proof.
  intros Hp [Hc H4] Hi. destruct (get_nr_cells_spec p Hp Hc) as [_ Hr]. unfold reg_at, reg_count.
  destruct (cells p) as [[nac nsc]|]; [|split; [by intros [? ?]|lia]]. cbn [mbind option_bind]. destruct (Hr _ _ eq_refl), (H4 _ _ eq_refl) as (? & ? & ?).
  destruct (prop n (lit "reg")) as [pr|]; [|split; [by intros [? ?]|lia]]. cbn [mbind option_bind].
  pose proof (tuple_mono nac nsc (words (p_val pr)) i) as Ht. transitivity (is_Some (tuple nac nsc (words (p_val pr)) i)).
  { destruct (tuple nac nsc (words (p_val pr)) i) as [[a s]|]; cbn; [done|]. split; by intros [? ?]. }
  rewrite Ht by lia. set (w := Z.of_nat _). clearbody w. clear - Hi H3. split; intros.
  - apply Z.lt_le_trans with (i + 1); [lia|]. apply Z.div_le_lower_bound; lia.
  - assert (i + 1 ≤ w / (nac + nsc)) by lia. pose proof (Z.mul_div_le w (nac + nsc) H3). nia.
Qed.

Lemma translate_count p n i : p ∈ nodes root → n ∈ n_kids p → n ∈ nodes root → cells_fit p → 0 ≤ i ≤ reg_count p n →
  dt_pbus_translate_node m L fdt (n_off n) i = Ret (match reg_at p n i with Some r => (0, Some r) | None => (- FDT_ERR_NOTFOUND, None) end).
Proof.
  intros Hp Hn Hn' [Hc H4] Hi. apply translate_node_spec; [done..|lia|]. intros nac nsc Ec. destruct (H4 _ _ Ec) as (? & ? & ?). split_and!; [done..|].
  unfold reg_count in Hi. rewrite Ec in Hi. pose proof (ft_property n _ _ Hn' (l_reg _ _ HL) ltac:(done)) as Hr.
  destruct (prop n (lit "reg")) as [pr|]; [|nia]. destruct Hr as (ptr & _ & _ & _ & Hl & _). pose proof (words_length (p_val pr)) as Hw.
  set (w := Z.of_nat (length (words _))) in *. clearbody w. pose proof (Z.mul_div_le w (nac + nsc) ltac:(lia)). assert (w < 2 ^ 30) by (Z.div_mod_to_equations; lia). nia.
Qed.

Lemma memory_regs_spec p n : p ∈ nodes root → n ∈ n_kids p → n ∈ nodes root → cells_fit p → ∀ f i nr nr_regs regs,
  0 ≤ i ≤ reg_count p n → nr ≤ nr_regs → nr_regs - nr < Z.of_nat f →
  let l := take (Z.to_nat (nr_regs - nr)) (omap (reg_at p n) (seqZ i (reg_count p n - i))) in
  memory_regs m L fdt f (n_off n) i nr nr_regs regs = Ret (0, nr + Z.of_nat (length l), regs ++ l).
Proof.
  intros Hp Hn Hn' Hc f. induction f as [|f IH]; intros i nr nr_regs regs Hi Hr Hf l; [lia|]. cbn [memory_regs]. subst l.
  destruct (Z.ltb_spec nr nr_regs).
  2:{ replace (Z.to_nat (nr_regs - nr)) with 0%nat by lia. rewrite take_0, app_nil_r, Z.add_0_r. done. }
  rewrite (translate_count p) by done. cbn [bind]. pose proof (reg_count_spec p n i Hp Hc ltac:(lia)) as Hs.
  destruct (Z.eq_decidable i (reg_count p n)) as [->|].
  { destruct (reg_at p n _); [destruct Hs as [Hs _]; specialize (Hs ltac:(done)); lia|]. rewrite (seqZ_nil _ (_ - _)) by lia. cbn [omap list_omap]. rewrite take_nil, app_nil_r, Z.add_0_r. done. }
  rewrite (seqZ_cons i) by lia. cbn [omap list_omap]. destruct (reg_at p n i) as [r|]; [|destruct Hs as [_ Hs]; destruct (Hs ltac:(lia)); done].
  cbn [Z.eqb]. rewrite IH by lia. replace (Z.to_nat (nr_regs - nr)) with (S (Z.to_nat (nr_regs - (nr + 1)))) by lia.
  rewrite firstn_cons, <- app_assoc. replace (Z.pred (reg_count p n - i)) with (reg_count p n - (i + 1)) by lia. rewrite <- Z.add_1_r. cbn [length app].
  do 3 f_equal. lia.
Qed.

(** The search for a node with a device type. *)
Lemma by_type_hit propval ty ns : cstr m propval ty → Z.of_nat (length ty) < 2 ^ 30 → (∀ n, n ∈ ns → n ∈ nodes root) →
  first_hit (λ offset,
    let* '(val, len) := fdt_getprop m fdt offset (s_device_type L) in
    if (val =? 0) || negb (len =? Z.of_nat (length ty) + 1) then Ret None else
    let* c := memcmp m val propval len in Ret (if c =? 0 then Some offset else None)) (map n_off ns) =
  Ret (at_node (List.find (has_type ty) ns)).
Proof.
  intros Hv Hl Hns. apply first_hit_find. intros n Hn.
  pose proof (ft_property n _ _ (Hns n Hn) (l_device_type _ _ HL) ltac:(done)) as Hp. unfold has_type.
  destruct (prop n (lit "device_type")) as [pr|]; [|by destruct Hp as [_ ->]].
  destruct Hp as (ptr & _ & Hptr & Hb & _ & _ & ->). cbn [bind]. rewrite (proj2 (Z.eqb_neq _ 0)) by done. cbn [orb].
  destruct (Z.eqb_spec (Z.of_nat (length (p_val pr))) (Z.of_nat (length ty) + 1)) as [El|El]; cbn [negb].
  - rewrite (memcmp_spec _ _ _ (p_val pr) (ty ++ [0]) _ Hb (proj1 Hv)) by (rewrite ?length_app; cbn; lia). cbn [bind].
    pose proof (byte_diff_zero (p_val pr) (ty ++ [0])) as Hd. rewrite length_app in Hd. cbn [length] in Hd. specialize (Hd ltac:(lia)).
    destruct (Z.eqb_spec (byte_diff (p_val pr) (ty ++ [0])) 0), (bool_decide_reflect (p_val pr = ty ++ [0])); naive_solver.
  - rewrite bool_decide_false; [done|]. intros E. apply El. rewrite E, length_app. cbn. lia.
Qed.

Lemma by_type_start propval ty : cstr m propval ty → Z.of_nat (length ty) < 2 ^ 30 →
  fdt_node_offset_by_prop_value m fdt (-1) (s_device_type L) propval (Z.of_nat (length ty) + 1) = Ret (at_node (List.find (has_type ty) (nodes root))).
Proof. intros. unfold fdt_node_offset_by_prop_value. rewrite ft_probe, ft_search_start. by apply by_type_hit. Qed.

Lemma by_type_next propval ty ns1 n ns2 : cstr m propval ty → Z.of_nat (length ty) < 2 ^ 30 → nodes root = ns1 ++ n :: ns2 →
  fdt_node_offset_by_prop_value m fdt (n_off n) (s_device_type L) propval (Z.of_nat (length ty) + 1) = Ret (at_node (List.find (has_type ty) ns2)).
Proof.
  intros Hv Hl E. unfold fdt_node_offset_by_prop_value. rewrite ft_probe, (ft_search ns1 n ns2) by done. apply by_type_hit; [done..|].
  intros k Hk. rewrite E. set_solver.
Qed.

(** The registers of one memory node. *)
Lemma memory_node_spec p n nr nr_regs regs : (p, n) ∈ with_parents None root → (∀ q, p = Some q → cells_fit q) → nr ≤ nr_regs →
  let l := take (Z.to_nat (nr_regs - nr)) (node_regs p n) in
  memory_regs m L fdt (S (Z.to_nat (nr_regs - nr))) (n_off n) 0 nr nr_regs regs = Ret (0, nr + Z.of_nat (length l), regs ++ l).
Proof.
  intros Hin Hc Hr l. assert (Hn : n ∈ nodes root) by (rewrite <- (with_parents_nodes None); by apply (list_elem_of_fmap_2 snd) in Hin).
  subst l. destruct p as [p|].
  - apply with_parents_kid in Hin as [[? _]|[Hp Hk]]; [done|]. cbn [node_regs]. specialize (Hc p eq_refl).
    pose proof (reg_count_nonneg p n Hc).
    rewrite (memory_regs_spec p n) by (done || lia). by rewrite Z.sub_0_r.
  - apply with_parents_root in Hin as [_ ->].
    cbn [memory_regs node_regs]. rewrite take_nil, app_nil_r. cbn [length]. rewrite Z.add_0_r. destruct (nr <? nr_regs); [|done].
    unfold dt_pbus_translate_node. rewrite ft_parent_root. done.
Qed.

Lemma memory_nodes_spec nr_regs l2 : ∀ f l1 nr regs, with_parents None root = l1 ++ l2 → (length l2 < f)%nat → nr ≤ nr_regs →
  (∀ p n, (Some p, n) ∈ l2 → has_type (lit "memory") n = true → cells_fit p) → 0 ≤ nr →
  let l := take (Z.to_nat (nr_regs - nr)) (memory_of l2) in
  memory_nodes m L fdt f (at_node (List.find (has_type (lit "memory")) (map snd l2))) nr nr_regs 7 regs = Ret (nr + Z.of_nat (length l), regs ++ l).
Proof.
  induction l2 as [|[p n] l2 IH]; intros f l1 nr regs E Hf Hr Hc H0 l; subst l.
  { destruct f; [lia|]. cbn. by rewrite take_nil, app_nil_r, Z.add_0_r. }
  assert (E' : with_parents None root = (l1 ++ [(p, n)]) ++ l2) by (by rewrite <- app_assoc). cbn [map snd List.find memory_of flat_map].
  destruct (has_type (lit "memory") n) eqn:Et; [|apply (IH f _ nr regs E'); [cbn in Hf; lia|done|set_solver|done]].
  destruct f as [|f]; [lia|]. cbn [memory_nodes]. assert (Hin : (p, n) ∈ with_parents None root) by (rewrite E; set_solver).
  assert (En : nodes root = map snd l1 ++ n :: map snd l2) by (by rewrite <- (with_parents_nodes None), E, map_app).
  change (at_node (Some n)) with (n_off n). rewrite (proj2 (Z.leb_le 0 (n_off n))) by (apply ft_off; rewrite En; set_solver).
  rewrite (memory_node_spec p n); [|done|intros q ->; apply (Hc q n); [left|done]|done]. cbn [bind Z.ltb Z.compare].
  pose proof (by_type_next _ (lit "memory") _ _ _ (l_memory _ _ HL) ltac:(done) En) as Hs. change (Z.of_nat _ + 1) with 7 in Hs. rewrite Hs. cbn [bind]. fold (memory_of l2).
  set (a := node_regs p n). rewrite (IH f _ _ _ E'); [|cbn in Hf; lia|rewrite length_take; lia|set_solver|lia].
  assert (Ek : Z.to_nat (nr_regs - (nr + Z.of_nat (length (take (Z.to_nat (nr_regs - nr)) a)))) = (Z.to_nat (nr_regs - nr) - length a)%nat)
    by (rewrite length_take; lia).
  rewrite Ek, take_app, length_app, <- app_assoc, Nat2Z.inj_add, Z.add_assoc. done.
Qed.

(** ** Processors *)

(** Comparing with a string stops at the first difference. *)
Lemma strcmp_bytes p v q s : bytes m p v → cstr m q s → length v = S (length s) → ∃ r, strcmp m p q = Ret r ∧ (r = 0 ↔ v = s ++ [0]).
Proof.
  intros Hv Hs Hl. unfold strcmp, strncmp. pose proof (cstr_range _ _ _ Hs) as Hr.
  assert (Hf : (length s < fuel m)%nat) by (by eapply cstr_fuel). assert (Hn : Z.of_nat (length s) < SIZE_MAX) by (unfold SIZE_MAX; lia).
  clear Hr. revert p q s Hv Hs Hl Hf Hn. generalize SIZE_MAX. generalize (fuel m). clear. intros f. revert v.
  induction f as [|f IH]; intros v n p q s Hv Hs Hl Hf Hn; [lia|]. cbn [strncmp_loop]. rewrite (proj2 (Z.eqb_neq n 0)) by lia.
  destruct v as [|x v]; [done|]. injection Hl as Hl. rewrite (ldc_ldb _ _ _ (ldb_bytes _ _ _ _ Hv)). cbn [bind]. destruct Hv as (_ & Hx & _ & Hv).
  destruct s as [|c s].
  - rewrite (ldc_ldb _ _ _ (cstr_nil _ _ Hs)). cbn [bind]. destruct v; [|done]. destruct (Z.eq_dec x 0) as [->|Hne]; [by exists 0|].
    change (s8 0) with 0. rewrite (s8_zero x), (proj2 (Z.eqb_neq x 0)) by lia. cbn [negb orb]. eexists. split; [done|].
    pose proof (s8_zero x Hx) as Hz. rewrite (proj2 (Z.eqb_neq x 0)) in Hz by lia. apply Z.eqb_neq in Hz. split; [lia|by intros [= ->]].
  - destruct (cstr_cons _ _ _ _ Hs) as (Hc & Hcr & Hs'). rewrite (ldc_ldb _ _ _ Hc). cbn [bind]. destruct (Z.eq_dec x c) as [->|Hne].
    + rewrite Z.eqb_refl, s8_zero, (proj2 (Z.eqb_neq c 0)) by lia. cbn [negb orb]. cbn [length] in *.
      destruct (IH v (n - 1) (p + 1) (q + 1) s) as (r & Hr & Hi); [done..|lia|lia|]. exists r. split; [done|]. rewrite Hi. cbn. naive_solver.
    + destruct (Z.eqb_spec (s8 x) (s8 c)) as [E|E]; [apply s8_inj in E; lia|]. cbn [negb orb]. eexists. split; [done|]. split; [lia|by intros [= -> _]].
Qed.

Lemma tuple_range nac nsc v i a s p : bytes m p v → tuple nac nsc (words v) i = Some (a, s) → Forall (λ w, 0 ≤ w < 2 ^ 32) a.
Proof.
  intros Hb%words_range. unfold tuple. destruct (_ <? _); [done|]. intros [= <- _]. by apply Forall_take, Forall_drop.
Qed.

Lemma cpu_cells_number nac a rest : length a = Z.to_nat nac → 1 ≤ nac → Forall (λ w, 0 ≤ w < 2 ^ 32) a →
  (let* regval := cell (a ++ rest) 0 in if nac =? 2 then let* lo := cell (a ++ rest) 1 in Ret (Z.lor (u64 (Z.shiftl regval 32)) lo) else Ret regval) =
  Ret (cpu_number a).
Proof.
  intros Hl Hn Hr. destruct a as [|w a]; [cbn in Hl; lia|]. apply Forall_cons in Hr as [Hw _]. cbn [app cell lookup list_lookup bind].
  destruct (Z.eqb_spec nac 2) as [->|]; [|destruct a as [|? [|]]; cbn in *; done || lia].
  destruct a as [|lo [|]]; try done. cbn. rewrite Z.shiftl_mul_pow2 by lia. by rewrite u64_small by lia.
Qed.

(** One child of the node /cpus. *)
Lemma cpu_node_spec {S} (func : Z → Z → S → res S) nac nsc k reg s : k ∈ nodes root → 1 ≤ nac ≤ 4 → 0 ≤ nsc ≤ 4 →
  nr_address_cells reg = nac → nr_size_cells reg = nsc → length (address_cells reg) = 4%nat → length (size_cells reg) = 4%nat →
  ∃ reg', nr_address_cells reg' = nac ∧ nr_size_cells reg' = nsc ∧ length (address_cells reg') = 4%nat ∧ length (size_cells reg') = 4%nat ∧
  cpu_node m L fdt func nac (n_off k) reg s =
    if has_type (lit "cpu") k then
      match prop k (lit "reg") ≫= λ pr, tuple nac nsc (words (p_val pr)) 0 with
      | Some (a, _) => let* s := func (n_off k) (cpu_number a) s in Ret (0, reg', s)
      | None => Ret (- FDT_ERR_NOTFOUND, reg', s)
      end
    else Ret (0, reg', s).
Proof.
  intros Hk Ha Hs En1 En2 La Ls. unfold cpu_node, has_type. pose proof (ft_property k _ _ Hk (l_device_type _ _ HL) ltac:(done)) as Hp.
  destruct (prop k (lit "device_type")) as [pr|]; [|destruct Hp as [-> _]; by exists reg].
  destruct Hp as (ptr & Hptr & _ & Hb & _ & -> & _). cbn [bind]. rewrite (proj2 (Z.eqb_neq ptr 0)) by done.
  destruct (Z.eqb_spec (Z.of_nat (length (p_val pr))) 4) as [El|El]; cbn [negb].
  2:{ rewrite bool_decide_false by (intros E; apply El; by rewrite E). by exists reg. }
  destruct (strcmp_bytes _ _ _ _ Hb (l_cpu _ _ HL)) as (r & -> & Hr); [cbn; lia|]. cbn [bind].
  destruct (Z.eqb_spec r 0) as [Er|Er]; cbn [negb].
  2:{ rewrite bool_decide_false by (by rewrite <- Hr). by exists reg. }
  rewrite bool_decide_true by (by apply Hr). rewrite get_reg_spec by (done || lia). rewrite En1, En2. cbn [bind].
  pose proof (ft_property k _ _ Hk (l_reg _ _ HL) ltac:(done)) as Hq.
  destruct (prop k (lit "reg")) as [pq|]; [|by exists reg]. cbn [mbind option_bind]. destruct (tuple nac nsc (words (p_val pq)) 0) as [[a sz]|] eqn:Et; [|by exists reg].
  destruct Hq as (q & _ & _ & Hqb & _). apply tuple_range with (p := q + 12) in Et as Hra; [|done]. apply tuple_lengths in Et as [Hla Hlz]; [|lia..].
  exists (DtReg nac nsc (a ++ drop (length a) (address_cells reg)) (sz ++ drop (length sz) (size_cells reg))).
  cbn [nr_address_cells nr_size_cells address_cells size_cells]. rewrite !length_app, !length_drop. split_and!; [done|done|lia|lia|].
  cbn [Z.ltb Z.compare]. pose proof (cpu_cells_number nac a (drop (length a) (address_cells reg)) Hla ltac:(lia) Hra) as Hc.
  destruct (cell (a ++ drop (length a) (address_cells reg)) 0); try done. cbn [bind] in *. by rewrite Hc.
Qed.

Lemma cpu_loop_spec {S} (func : Z → Z → S → res S) nac nsc c k2 : c ∈ nodes root → (∀ k, k ∈ n_kids c → k ∈ nodes root) → 1 ≤ nac ≤ 4 → 0 ≤ nsc ≤ 4 →
  ∀ f k1 reg s, n_kids c = k1 ++ k2 → (length k2 < f)%nat →
  nr_address_cells reg = nac → nr_size_cells reg = nsc → length (address_cells reg) = 4%nat → length (size_cells reg) = 4%nat →
  cpu_loop m L fdt f func nac (at_node (head k2)) reg s = visit_cpus func nac nsc k2 s.
Proof.
  intros Hc Hks Ha Hs. induction k2 as [|k k2 IH]; intros f k1 reg s E Hf En1 En2 La Ls; (destruct f as [|f]; [lia|]); [done|]. cbn [cpu_loop head].
  assert (Hk : k ∈ nodes root) by (apply Hks; rewrite E; set_solver). pose proof (ft_off k Hk). change (at_node (Some k)) with (n_off k).
  rewrite (proj2 (Z.eqb_neq _ _)) by (unfold FDT_ERR_NOTFOUND; lia). cbn [visit_cpus].
  destruct (cpu_node_spec func nac nsc k reg s) as (reg' & ? & ? & ? & ? & ->); [done..|].
  assert (Hnext : ∀ s, (let* cpu := fdt_next_subnode m fdt (n_off k) in cpu_loop m L fdt f func nac cpu reg' s) = visit_cpus func nac nsc k2 s).
  { intros s'. rewrite (ft_next_subnode c k1 k k2) by done. cbn [bind]. apply (IH f (k1 ++ [k])); try done; [by rewrite <- app_assoc|cbn in Hf; lia]. }
  destruct (has_type (lit "cpu") k); [|cbn [bind Z.ltb Z.compare]; apply Hnext].
  destruct (prop k (lit "reg") ≫= _) as [[a sz]|]; [|done]. destruct (func (n_off k) (cpu_number a) s) as [s'| | |]; try done. cbn [bind Z.ltb Z.compare]. apply Hnext.
Qed.
End client.

(** The children of a node of the tree are nodes of the tree, and there are not
    more of them. *)
Lemma kids_nodes root c k : c ∈ nodes root → k ∈ n_kids c → k ∈ nodes root.
Proof.
  revert c k. induction root as [o e s ps ks IH] using node_ind'. intros c k. cbn [nodes]. intros [->|Hc]%elem_of_cons Hk.
  - right. cbn [n_kids] in Hk. apply list_elem_of_In, in_flat_map. exists k. rewrite <- !list_elem_of_In. split; [done|]. destruct k. by left.
  - right. apply list_elem_of_In, in_flat_map in Hc as (q & Hq%list_elem_of_In & Hc%list_elem_of_In). apply list_elem_of_In, in_flat_map.
    exists q. rewrite <- !list_elem_of_In. split; [done|]. rewrite Forall_forall in IH. by eapply IH.
Qed.

Lemma kids_length root c : c ∈ nodes root → (length (n_kids c) < length (nodes root))%nat.
Proof.
  revert c. induction root as [o e s ps ks IH] using node_ind'. intros c. cbn [nodes length]. intros [->|Hc]%elem_of_cons.
  - cbn [n_kids]. clear IH. induction ks as [|[] ks IH]; cbn [flat_map length]; [lia|]. rewrite length_app. cbn [nodes length]. lia.
  - apply list_elem_of_In, in_flat_map in Hc as (q & Hq%list_elem_of_In & Hc%list_elem_of_In). rewrite Forall_forall in IH. specialize (IH q Hq c Hc).
    apply list_elem_of_split in Hq as (k1 & k2 & ->). rewrite flat_map_app. cbn [flat_map]. rewrite !length_app. lia.
Qed.

(** All memory of the machine. *)
Lemma memory_params_spec m L fdt root `{!fdt_tree m fdt root} nr_regs : lits_ok m L →
  (∀ p n, (Some p, n) ∈ with_parents None root → has_type (lit "memory") n = true → cells_fit p) → 0 ≤ nr_regs →
  let total := memory_of (with_parents None root) in
  dt_get_memory_params m L fdt nr_regs = Ret (Z.min nr_regs (Z.of_nat (length total)), take (Z.to_nat nr_regs) total).
Proof.
  intros HL Hc Hr total. unfold dt_get_memory_params. rewrite (strlen_spec _ _ _ (l_memory _ _ HL)). cbn [bind].
  change (s32 (Z.of_nat (length (lit "memory")) + 1)) with 7.
  pose proof (by_type_start m L fdt root HL _ (lit "memory") (l_memory _ _ HL) ltac:(done)) as Hs. change (Z.of_nat _ + 1) with 7 in Hs. rewrite Hs. cbn [bind].
  rewrite <- (with_parents_nodes None). rewrite (memory_nodes_spec m L fdt root HL nr_regs _ _ []); [|done| |done..].
  - rewrite Z.sub_0_r, Z.add_0_l, app_nil_l, length_take, Nat2Z.inj_min, Z2Nat.id by done. done.
  - rewrite <- (length_map snd), with_parents_nodes. apply ft_fuel.
Qed.
