(* ===== verification/DtExample.v ===== *)
(** * An example of a machine's device tree

    / { #address-cells = <a>; #size-cells = <1>;
        memory { device_type = "memory"; reg = <0 0x40000000 0x8000000>, <1 0 0x1000>; };
        chosen { bootargs = "-v"; stdout-path = "/v:9"; linux,initrd-start = <4096>; linux,initrd-end = <0 8192>; };
        v { compatible = "a", "virtio,mmio"; reg = <0 4096 512>; };
        cpus { #address-cells = <1>; #size-cells = <0>;
          cpu@0 { device_type = "cpu"; reg = <0>; }; cpu@1 { device_type = "cpu"; reg = <1>; }; }; }; *)

From Stdlib Require Import String.
From S2P Require Import Prelude.
From S2P Require Import CMem.
From S2P Require Import CString.
From S2P Require Import CStringSpec.
From S2P Require Import Fdt.
From S2P Require Import FdtRo.
From S2P Require Import FdtProps.
From S2P Require Import FdtTree.
From S2P Require Import FdtWalk.
From S2P Require Import FdtPath.
From S2P Require Import FdtThms.
From S2P Require Import FdtSearch.
From S2P Require Import DeviceTree.
From S2P Require Import DtProps.

Module Machine.
Import Example.
Definition pad (l : list Z) : list Z := l ++ replicate (Z.to_nat (- Z.of_nat (length l) mod 4)) 0.
Definition begin_ (s : list Z) : list Z := be 1 ++ pad (s ++ [0]).
Definition prop_ (no : Z) (v : list Z) : list Z := be 3 ++ be (Z.of_nat (length v)) ++ be no ++ pad v.
Definition end_ : list Z := be 2.

Definition mem_reg : list Z := be 0 ++ be 1073741824 ++ be 134217728 ++ be 1 ++ be 0 ++ be 4096.
Definition v_reg : list Z := be 0 ++ be 4096 ++ be 512.
Definition v_compatible : list Z := lit "a" ++ [0] ++ lit "virtio,mmio" ++ [0].
Definition cpu_ (i : Z) : list Z := begin_ (lit "cpu@" ++ [48 + i]) ++ prop_ 27 (lit "cpu" ++ [0]) ++ prop_ 39 (be i) ++ end_.
Definition struct_block (a : Z) : list Z :=
  begin_ [] ++ prop_ 0 (be a) ++ prop_ 15 (be 1) ++
  begin_ (lit "memory") ++ prop_ 27 (lit "memory" ++ [0]) ++ prop_ 39 mem_reg ++ end_ ++
  begin_ (lit "chosen") ++ prop_ 54 (lit "-v" ++ [0]) ++ prop_ 69 (lit "/v:9" ++ [0]) ++
    prop_ 81 (be 4096) ++ prop_ 100 (be 0 ++ be 8192) ++ end_ ++
  begin_ (lit "v") ++ prop_ 43 v_compatible ++ prop_ 39 v_reg ++ end_ ++
  begin_ (lit "cpus") ++ prop_ 0 (be 1) ++ prop_ 15 (be 0) ++ cpu_ 0 ++ cpu_ 1 ++ end_ ++
  end_ ++ be 9.
Definition strings_block : list Z :=
  lit "#address-cells" ++ [0] ++ lit "#size-cells" ++ [0] ++ lit "device_type" ++ [0] ++ lit "reg" ++ [0] ++ lit "compatible" ++ [0] ++ lit "bootargs" ++ [0] ++ lit "linux,stdout-path" ++ [0] ++ lit "linux,initrd-start" ++ [0] ++ lit "linux,initrd-end" ++ [0].

Definition blob (a : Z) : list Z :=
  be FDT_MAGIC ++ be 589 ++ be 56 ++ be 472 ++ be 40 ++ be 17 ++ be 16 ++ be 0 ++ be 117 ++ be 416 ++
  replicate 16 0 ++ struct_block a ++ strings_block.
Definition mem (a : Z) : memory :=
  upd (upd ∅ 4096 (blob a)) 8192 (strings_block ++ lit "memory" ++ [0] ++ lit "/cpus" ++ [0] ++ lit "cpu" ++ [0] ++ lit "/chosen" ++ [0] ++ lit "virtio,mmio" ++ [0]).
Definition L : lits := Lits 0 0 8235 8192 8207 8231 8219 8309 8316 8322 8326 8246 8261 8255 8273 8292.
(** The address of the string "virtio,mmio". *)
Definition s_virtio_mmio : Z := 8334.

Definition memory_node : node :=
  Node 40 108 (lit "memory") [Property 52 (lit "device_type") (lit "memory" ++ [0]); Property 72 (lit "reg") mem_reg] [].
Definition chosen_node : node :=
  Node 112 196 (lit "chosen")
    [Property 124 (lit "bootargs") (lit "-v" ++ [0]); Property 140 (lit "stdout-path") (lit "/v:9" ++ [0]);
     Property 160 (lit "linux,initrd-start") (be 4096); Property 176 (lit "linux,initrd-end") (be 0 ++ be 8192)] [].
Definition v_node : node :=
  Node 200 260 (lit "v") [Property 208 (lit "compatible") v_compatible; Property 236 (lit "reg") v_reg] [].
Definition cpu_node (o i : Z) : node :=
  Node o (o + 44) (lit "cpu@" ++ [48 + i]) [Property (o + 12) (lit "device_type") (lit "cpu" ++ [0]); Property (o + 28) (lit "reg") (be i)] [].
Definition cpus_node : node :=
  Node 264 404 (lit "cpus") [Property 276 (lit "#address-cells") (be 1); Property 292 (lit "#size-cells") (be 0)]
    [cpu_node 308 0; cpu_node 356 1].
Definition root (a : Z) : node :=
  Node 0 408 [] [Property 8 (lit "#address-cells") (be a); Property 24 (lit "#size-cells") (be 1)]
    [memory_node; chosen_node; v_node; cpus_node].

(** The tokens of the block one by one; the offset of the next is known. *)
Ltac machine_next :=
  first [ match goal with |- ∃ o', @?P o' ∧ (?o2 = o' ∧ @?Q o') => let o2 := eval vm_compute in o2 in exists o2 end | eexists ].
Ltac machine_token :=
  split; [by vm_compute|]; machine_next; split;
    [split; [done|]; split; [done|]; split; [by vm_compute|];
     lazymatch goal with
     | |- cstr _ _ _ ∧ _ => split; [mem_cstr|]; split; [done|by vm_compute]
     | |- word_at _ _ _ _ _ ∧ _ =>
         split; [by vm_compute|]; split; [eexists; split; [by vm_compute|]; split; [done|]; split; [done|mem_cstr]|];
         split; [apply bytes_test_ok; by vm_compute|]; split; [done|by vm_compute]
     | _ => split; [done|first [by vm_compute|reflexivity]]
     end|].
Ltac machine_tree :=
  match goal with |- blob_tree (mem ?a) _ _ =>
  exists (blob a), (Layout 56 416 472 117), 17; split; [split_and!; [apply bytes_test_ok|..]; by vm_compute|]; split; [done|]; split; [by vm_compute|];
  split; [done|]; split; [repeat split; by vm_compute|]; split; [|done]; exists 412; exists (flat (root a) ++ [(412, T_END)]); split; [|done];
  cbn [flat root memory_node chosen_node v_node cpus_node cpu_node flat_map map app prop_item p_off p_name p_val stream]; do 31 machine_token; done end.
Lemma machine_blob : blob_tree (mem 2) 4096 (root 2).
Proof. machine_tree. Qed.
Lemma machine_blob_wide : blob_tree (mem 5) 4096 (root 5).
Proof. machine_tree. Qed.
Lemma mem_lits a : a = 2 ∨ a = 5 → lits_ok (mem a) L.
Proof. intros [-> | ->]; split; mem_cstr. Qed.
Lemma mem_virtio_mmio : cstr (mem 2) s_virtio_mmio (lit "virtio,mmio").
Proof. mem_cstr. Qed.
Lemma root_cells a : a = 2 ∨ a = 5 → cells_ok (root a).
Proof. intros H nm p [-> | ->] Hp; destruct H as [-> | ->]; vm_compute in Hp; injection Hp as <-; cbn; lia. Qed.
Lemma root_fits : cells_fit (root 2).
Proof. split; [apply root_cells; by left|]. intros nac nsc E. vm_compute in E. injection E as <- <-. lia. Qed.
Lemma parents_fit p n : (Some p, n) ∈ with_parents None (root 2) → has_type (lit "memory") n = true → cells_fit p.
Proof.
  intros Hin Ht. cbn [with_parents root memory_node cpu_node flat_map app] in Hin. repeat (apply elem_of_cons in Hin as [Hin|Hin]); [..|by apply not_elem_of_nil in Hin];
  (try discriminate Hin); injection Hin as -> ->; try (by vm_compute in Ht). exact root_fits.
Qed.
Lemma cpus_cells c : subnode (root 2) (lit "cpus") = Some c → cells_ok c ∧ ∀ nac nsc, cells c = Some (nac, nsc) → 1 ≤ nac ≤ MAX_ADDRESS_CELLS ∧ nsc ≤ MAX_SIZE_CELLS.
Proof.
  intros E. vm_compute in E. injection E as <-. split.
  - intros nm p [-> | ->] Hp; vm_compute in Hp; injection Hp as <-; cbn; lia.
  - intros nac nsc E. vm_compute in E. injection E as <- <-. done.
Qed.
#[global] Opaque mem.
End Machine.
