(* ===== verification/DtThms.v ===== *)
(** * lib/devicetree.c: registers, memory and processors

    The theorems about the accessors in a blob that holds a tree. *)

From Stdlib Require Import String.
From S2P Require Import Prelude.
From S2P Require Import CMem.
From S2P Require Import CString.
From S2P Require Import CStringSpec.
From S2P Require Import Fdt.
From S2P Require Import FdtRo.
From S2P Require Import FdtProps.
From S2P Require Import FdtTree.
From S2P Require Import FdtWalk.
From S2P Require Import FdtPath.
From S2P Require Import FdtThms.
From S2P Require Import FdtSearch.
From S2P Require Import DeviceTree.
From S2P Require Import DtProps.
From S2P Require Import DtExample.

(** C36: the registers of a node.  [dt_pbus_translate_node] reads the cells of the
    [i]-th pair in "reg" as its parent's #address-cells and #size-cells say; it
    is -FDT_ERR_NOTFOUND when one of the three properties is missing or "reg"
    ends before that pair.  The arrays of [struct dt_reg] have room for four
    cells and the counts are not checked: with more than four it writes beyond
    an array. *)
Theorem dt_pbus_translate_node_correct m L fdt root p n : blob_tree m fdt root → lits_ok m L →
  p ∈ nodes root → n ∈ n_kids p → cells_ok p →
  (∀ i, 0 ≤ i → (∀ nac nsc, cells p = Some (nac, nsc) → nac ≤ MAX_ADDRESS_CELLS ∧ nsc ≤ MAX_SIZE_CELLS ∧ i * (nac + nsc) < 2 ^ 30) →
     dt_pbus_translate_node m L fdt (n_off n) i =
     Ret (match reg_at p n i with Some r => (0, Some r) | None => (- FDT_ERR_NOTFOUND, None) end)) ∧
  (∀ nac nsc pr, cells p = Some (nac, nsc) → prop n (lit "reg") = Some pr → nac + nsc ≤ Z.of_nat (length (words (p_val pr))) →
     MAX_ADDRESS_CELLS < nac ∨ MAX_SIZE_CELLS < nsc → dt_pbus_translate_node m L fdt (n_off n) 0 = Fault).
Proof.
  intros Ht%blob_tree_fdt_tree HL Hp Hn Hc. pose proof (kids_nodes _ _ _ Hp Hn) as Hn'. split.
  - intros i Hi H4. by apply (translate_node_spec m L fdt root).
  - intros nac nsc pr Ec Er Hl H4. by apply (translate_node_fault m L fdt root HL p n nac nsc pr).
Qed.

(** C18: the memory of the machine.  [dt_get_memory_params] returns the registers
    of all nodes of the device type "memory", in the order of the tree and
    within a node in the order of its "reg", cut off after [nr_regs] of them,
    and their number. *)
Theorem dt_get_memory_params_correct m L fdt root nr_regs : blob_tree m fdt root → lits_ok m L →
  (∀ p n, (Some p, n) ∈ with_parents None root → has_type (lit "memory") n = true → cells_fit p) → 0 ≤ nr_regs →
  let total := memory_of (with_parents None root) in
  dt_get_memory_params m L fdt nr_regs = Ret (Z.min nr_regs (Z.of_nat (length total)), take (Z.to_nat nr_regs) total).
Proof.
  intros Ht%blob_tree_fdt_tree HL Hc Hr. by apply (memory_params_spec m L fdt root).
Qed.

(** C23: the processors.  [dt_for_each_cpu_node] calls the function for each child
    of /cpus of the device type "cpu" in turn, with the number in its "reg";
    it stops with -FDT_ERR_NOTFOUND at one that has no number, or when /cpus or
    its numbers of cells are missing. *)
Theorem dt_for_each_cpu_node_correct m L fdt root {S} (func : Z → Z → S → res S) (s : S) : blob_tree m fdt root → lits_ok m L →
  (∀ c, subnode root (lit "cpus") = Some c → cells_ok c ∧
     ∀ nac nsc, cells c = Some (nac, nsc) → 1 ≤ nac ≤ MAX_ADDRESS_CELLS ∧ nsc ≤ MAX_SIZE_CELLS) →
  dt_for_each_cpu_node m L fdt func s =
  match c ← subnode root (lit "cpus"); cs ← cells c; Some (c, cs) with
  | Some (c, (nac, nsc)) => visit_cpus func nac nsc (n_kids c) s
  | None => Ret (- FDT_ERR_NOTFOUND, s)
  end.
Proof.
  intros Ht%blob_tree_fdt_tree HL Hc. unfold dt_for_each_cpu_node. rewrite (ft_path _ _ root _ _ (lit "cpus") (l_cpus _ _ HL)) by done. cbn [bind].
  change (components (lit "cpus")) with [lit "cpus"]. cbn [resolve]. destruct (subnode root (lit "cpus")) as [c|] eqn:Ec; [|done]. cbn [mbind option_bind].
  assert (Hcn : c ∈ nodes root) by (apply (kids_nodes _ root); [destruct root; by left|by eapply subnode_kid]).
  change (at_node (Some c)) with (n_off c). rewrite (proj2 (Z.ltb_ge _ 0)) by (by apply ft_off). destruct (Hc c eq_refl) as [Hok H4].
  destruct (get_nr_cells_spec m L fdt root HL c Hcn Hok) as [-> Hr]. cbn [bind]. destruct (cells c) as [[nac nsc]|]; [|done]. cbn [mbind option_bind].
  destruct (Hr _ _ eq_refl), (H4 _ _ eq_refl). rewrite (ft_first_subnode c) by done. cbn [bind]. unfold MAX_ADDRESS_CELLS, MAX_SIZE_CELLS in *.
  apply (cpu_loop_spec m L fdt root HL func nac nsc c (n_kids c)) with (k1 := []); try done; [by intros; eapply kids_nodes| |].
  - lia.
  - pose proof (kids_length _ _ Hcn). pose proof (ft_fuel (m := m) (fdt := fdt) (root := root)). lia.
Qed.

Lemma dt_pbus_translate_node_correct_witness :
  dt_pbus_translate_node (Machine.mem 2) Machine.L 4096 40 1 = Ret (0, Some (PbusReg 4294967296 4096)) ∧
  dt_pbus_translate_node (Machine.mem 2) Machine.L 4096 40 2 = Ret (- FDT_ERR_NOTFOUND, None) ∧
  dt_pbus_translate_node (Machine.mem 5) Machine.L 4096 40 0 = Fault.
Proof.
  destruct (dt_pbus_translate_node_correct (Machine.mem 2) Machine.L 4096 (Machine.root 2) (Machine.root 2) Machine.memory_node Machine.machine_blob
    (Machine.mem_lits 2 (or_introl eq_refl)) ltac:(by left) ltac:(by left) (Machine.root_cells 2 (or_introl eq_refl))) as [H _].
  assert (Hb : ∀ i, i ≤ 2 → ∀ nac nsc, cells (Machine.root 2) = Some (nac, nsc) → nac ≤ MAX_ADDRESS_CELLS ∧ nsc ≤ MAX_SIZE_CELLS ∧ i * (nac + nsc) < 2 ^ 30).
  { intros i Hi nac nsc E. vm_compute in E. injection E as <- <-. unfold MAX_ADDRESS_CELLS, MAX_SIZE_CELLS. lia. }
  split; [exact (H 1 ltac:(lia) (Hb 1 ltac:(lia)))|]. split; [exact (H 2 ltac:(lia) (Hb 2 ltac:(lia)))|].
  destruct (dt_pbus_translate_node_correct (Machine.mem 5) Machine.L 4096 (Machine.root 5) (Machine.root 5) Machine.memory_node Machine.machine_blob_wide
    (Machine.mem_lits 5 (or_intror eq_refl)) ltac:(by left) ltac:(by left) (Machine.root_cells 5 (or_intror eq_refl))) as [_ H5].
  apply (H5 5 1 (Property 72 (lit "reg") Machine.mem_reg) eq_refl eq_refl); [by vm_compute|by left].
Defined.

Lemma dt_get_memory_params_correct_witness :
  dt_get_memory_params (Machine.mem 2) Machine.L 4096 16 = Ret (2, [PbusReg 1073741824 134217728; PbusReg 4294967296 4096]) ∧
  dt_get_memory_params (Machine.mem 2) Machine.L 4096 1 = Ret (1, [PbusReg 1073741824 134217728]).
Proof.
  pose proof (dt_get_memory_params_correct (Machine.mem 2) Machine.L 4096 (Machine.root 2) 16 Machine.machine_blob (Machine.mem_lits 2 (or_introl eq_refl))
    Machine.parents_fit ltac:(lia)) as H16.
  pose proof (dt_get_memory_params_correct (Machine.mem 2) Machine.L 4096 (Machine.root 2) 1 Machine.machine_blob (Machine.mem_lits 2 (or_introl eq_refl))
    Machine.parents_fit ltac:(lia)) as H1.
  exact (conj H16 H1).
Defined.

Lemma dt_for_each_cpu_node_correct_witness :
  dt_for_each_cpu_node (Machine.mem 2) Machine.L 4096 (λ _ i s, Ret (s ++ [i])) [] = Ret (0, [0; 1]).
Proof.
  exact (dt_for_each_cpu_node_correct (Machine.mem 2) Machine.L 4096 (Machine.root 2) (λ _ i s, Ret (s ++ [i])) [] Machine.machine_blob
    (Machine.mem_lits 2 (or_introl eq_refl)) Machine.cpus_cells).
Defined.
