(* ===== verification/DtFind.v ===== *)
(** * lib/devicetree.c: finding a device by its compatible string

    fdt_stringlist_contains and the search by a compatible string, and the
    devices a bus matches. *)

From Stdlib Require Import String.
From S2P Require Import Prelude.
From S2P Require Import CMem.
From S2P Require Import CString.
From S2P Require Import CStringSpec.
From S2P Require Import Fdt.
From S2P Require Import FdtRo.
From S2P Require Import FdtProps.
From S2P Require Import FdtTree.
From S2P Require Import FdtWalk.
From S2P Require Import FdtPath.
From S2P Require Import FdtThms.
From S2P Require Import FdtSearch.
From S2P Require Import DeviceTree.
From S2P Require Import DtProps.
From S2P Require Import DtExample.

(** ** Lists of strings *)

(** The terminated strings of a value. *)
Fixpoint strings_from (cur v : list Z) : list (list Z) :=
  match v with
  | [] => []
  | c :: v => if c =? 0 then cur :: strings_from [] v else strings_from (cur ++ [c]) v
  end.
Definition strings (v : list Z) : list (list Z) := strings_from [] v.

Definition stringlist (ss : list (list Z)) : list Z := flat_map (λ s, s ++ [0]) ss.

Lemma strings_from_app cur s v : chars s → strings_from cur (s ++ 0 :: v) = (cur ++ s) :: strings_from [] v.
Proof.
  revert cur. induction s as [|c s IH]; intros cur Hs; cbn [app strings_from]; [by rewrite app_nil_r|].
  apply Forall_cons in Hs as [Hc Hs]. rewrite (proj2 (Z.eqb_neq c 0)) by lia. by rewrite IH, <- app_assoc.
Qed.

Lemma strings_stringlist ss : Forall chars ss → strings (stringlist ss) = ss.
Proof.
  unfold strings. induction 1 as [|s ss Hs _ IH]; [done|]. cbn [stringlist flat_map]. rewrite <- app_assoc. cbn [app].
  rewrite strings_from_app by done. fold (stringlist ss). by rewrite IH.
Qed.

Lemma memcmp_loop_S n m a b : memcmp_loop (S n) m a b =
  let* ca := ldb m a in let* cb := ldb m b in if ca - cb =? 0 then memcmp_loop n m (a + 1) (b + 1) else Ret (ca - cb).
Proof. done. Qed.

(** The comparison stops at the first difference, inside both strings. *)
Lemma memcmp_strings m a b t s v : bytes m a (t ++ [0]) → bytes m b (s ++ 0 :: v) → chars t → chars s →
  ∃ r, memcmp m a b (Z.of_nat (length t) + 1) = Ret r ∧ (r = 0 ↔ t = s).
Proof.
  unfold memcmp. replace (Z.to_nat (Z.of_nat (length t) + 1)) with (S (length t)) by lia. revert a b s.
  induction t as [|x t IH]; intros a b s Ha Hb Ht Hs; cbn [length]; rewrite memcmp_loop_S;
    rewrite (ldb_bytes _ _ _ _ Ha); destruct s as [|y s]; cbn [app] in *; rewrite (ldb_bytes _ _ _ _ Hb); cbn [bind].
  - exists 0. done.
  - apply Forall_cons in Hs as [Hy _]. rewrite (proj2 (Z.eqb_neq _ 0)) by lia. eexists. split; [done|]. split; [lia|done].
  - apply Forall_cons in Ht as [Hx _]. rewrite (proj2 (Z.eqb_neq _ 0)) by lia. eexists. split; [done|]. split; [lia|done].
  - apply Forall_cons in Hs as [Hy Hs]. apply Forall_cons in Ht as [Hx Ht]. destruct (Z.eqb_spec (x - y) 0) as [E|E].
    + assert (x = y) as -> by lia. destruct Ha as (_ & _ & _ & Ha), Hb as (_ & _ & _ & Hb).
      destruct (IH _ _ s Ha Hb Ht Hs) as (r & Hr & Hi). exists r. split; [exact Hr|]. rewrite Hi. naive_solver.
    + eexists. split; [done|]. split; [lia|]. intros [= -> _]. lia.
Qed.

Lemma find_zero s v : chars s → list_find (λ x, x = 0) (s ++ 0 :: v) = Some (length s, 0).
Proof.
  induction 1 as [|c s Hc _ IH]; [done|]. cbn [app list_find length]. destruct (decide (c = 0)); [lia|]. by rewrite IH.
Qed.

Lemma contains_loop_spec m f str t p ss : bytes m p (stringlist ss) → Forall chars ss → cstr m str t → t ≠ [] →
  Z.of_nat (length (stringlist ss)) < 2 ^ 31 → (length ss < f)%nat →
  contains_loop m f p (Z.of_nat (length (stringlist ss))) str (Z.of_nat (length t)) = Ret (bool_decide (t ∈ ss)).
Proof.
  intros Hp Hss [Hb Hc] Ht. revert p ss Hp Hss. induction f as [|f IH]; intros p ss Hp Hss Hl Hf; [lia|]. cbn [contains_loop].
  destruct ss as [|s ss].
  { rewrite (proj2 (Z.leb_gt _ _)) by (destruct t; [done|cbn; lia]). by rewrite bool_decide_false by apply not_elem_of_nil. }
  apply Forall_cons in Hss as [Hs Hss]. cbn [stringlist flat_map] in *. fold (stringlist ss) in *. rewrite <- app_assoc in *. cbn [app] in *.
  destruct (Z.leb_spec (Z.of_nat (length t)) (Z.of_nat (length (s ++ 0 :: stringlist ss)))) as [Hle|Hgt].
  2:{ f_equal. symmetry. apply bool_decide_false. intros Hin. assert (Hlt : (length t < length (stringlist (s :: ss)))%nat).
      { clear - Hin. induction Hin as [u l|u w l _ IH]; cbn [stringlist flat_map]; rewrite !length_app; cbn [length] in *; [lia|].
        fold (stringlist l). lia. }
      cbn [stringlist flat_map] in Hlt. fold (stringlist ss) in Hlt. rewrite <- app_assoc in Hlt. cbn [app] in Hlt. lia. }
  destruct (memcmp_strings _ _ _ _ _ _ Hb Hp Hc Hs) as (r & -> & Hr). cbn [bind]. destruct (Z.eqb_spec r 0) as [E|E].
  { apply Hr in E as ->. by rewrite bool_decide_true by left. }
  rewrite (memchr_spec _ _ _ _ _ Hp eq_refl). change (u8 0) with 0. rewrite (find_zero s) by done. cbn [fmap option_fmap option_map fst ptr_at bind].
  pose proof (bytes_range _ _ _ Hp ltac:(by destruct s)) as [? _]. rewrite (proj2 (Z.eqb_neq _ 0)) by lia.
  apply (bytes_app _ _ s) in Hp as [_ Hp]. apply (bytes_app _ _ [0]) in Hp as [_ Hp]. rewrite length_app in *. cbn [length] in *.
  replace (s32 _) with (Z.of_nat (length (stringlist ss))) by (rewrite s32_small; lia). rewrite IH; [|done|done|lia|lia].
  f_equal. apply bool_decide_ext. rewrite elem_of_cons. naive_solver.
Qed.

Lemma stringlist_contains_spec m str t p ss : bytes m p (stringlist ss) → Forall chars ss → cstr m str t → t ≠ [] → Z.of_nat (length t) < 2 ^ 31 →
  Z.of_nat (length (stringlist ss)) < 2 ^ 31 →
  fdt_stringlist_contains m p (Z.of_nat (length (stringlist ss))) str = Ret (bool_decide (t ∈ ss)).
Proof.
  intros Hp Hss Hs Ht Hlt Hl. unfold fdt_stringlist_contains. rewrite (strlen_spec _ _ _ Hs). cbn [bind]. rewrite s32_small by lia.
  apply contains_loop_spec; try done. pose proof (bytes_fuel _ _ _ Hp).
  enough (length ss ≤ length (stringlist ss))%nat by lia. clear. induction ss as [|s ss IH]; [done|].
  cbn [stringlist flat_map length]. rewrite !length_app. fold (stringlist ss). cbn. lia.
Qed.

(** ** Devices *)

Definition compatible (t : list Z) (n : node) : bool :=
  match prop n (lit "compatible") with Some pr => bool_decide (t ∈ strings (p_val pr)) | None => false end.

(** The property is a list of strings, if it is there. *)
Definition compatible_ok (n : node) : Prop :=
  ∀ pr, prop n (lit "compatible") = Some pr → ∃ ss, Forall chars ss ∧ p_val pr = stringlist ss.

(** The first of some nodes the bus takes. *)
Fixpoint first_match {S} (match_ : Z → S → res (Z * S)) (ns : list node) (s : S) : res (Z * S) :=
  match ns with
  | [] => Ret (- FDT_ERR_NOTFOUND, s)
  | n :: ns =>
      let* '(ret, s) := match_ (n_off n) s in
      if ret <? 0 then Ret (ret, s) else if ret =? 0 then first_match match_ ns s else Ret (n_off n, s)
  end.

Section client.
Context (m : memory) (L : lits) (fdt : Z) (root : node) `{!fdt_tree m fdt root} (HL : lits_ok m L).
Context (Hok : ∀ n, n ∈ nodes root → compatible_ok n).
Context (str : Z) (t : list Z) (Hstr : cstr m str t) (Ht : t ≠ []) (Hlen : Z.of_nat (length t) < 2 ^ 31).

Lemma by_compatible_hit ns : (∀ n, n ∈ ns → n ∈ nodes root) →
  first_hit (λ offset,
    let* err := fdt_node_check_compatible m (s_compatible L) fdt offset str in
    if (err <? 0) && negb (err =? - FDT_ERR_NOTFOUND) then Ret (Some err) else Ret (if err =? 0 then Some offset else None)) (map n_off ns) =
  Ret (at_node (List.find (compatible t) ns)).
Proof.
  intros Hns. apply first_hit_find. intros n Hn%Hns. unfold fdt_node_check_compatible, compatible.
  pose proof (ft_property n _ _ Hn (l_compatible _ _ HL) ltac:(done)) as Hp. pose proof (Hok n Hn) as Hc. unfold compatible_ok in Hc.
  destruct (prop n (lit "compatible")) as [pr|]; [|by destruct Hp as [_ ->]].
  destruct Hp as (ptr & _ & Hptr & Hb & Hl & _ & ->). cbn [bind]. rewrite (proj2 (Z.eqb_neq _ 0)) by done.
  destruct (Hc _ eq_refl) as (ss & Hss & E). rewrite E in *. rewrite (stringlist_contains_spec m str t) by done. cbn [bind].
  rewrite strings_stringlist by done. by destruct (bool_decide (t ∈ ss)).
Qed.

Lemma by_compatible_start : fdt_node_offset_by_compatible m (s_compatible L) fdt (-1) str = Ret (at_node (List.find (compatible t) (nodes root))).
Proof. unfold fdt_node_offset_by_compatible. rewrite ft_probe, ft_search_start. by apply by_compatible_hit. Qed.

Lemma by_compatible_next ns1 n ns2 : nodes root = ns1 ++ n :: ns2 →
  fdt_node_offset_by_compatible m (s_compatible L) fdt (n_off n) str = Ret (at_node (List.find (compatible t) ns2)).
Proof.
  intros E. unfold fdt_node_offset_by_compatible. rewrite ft_probe, (ft_search ns1 n ns2) by done. apply by_compatible_hit.
  intros k Hk. rewrite E. set_solver.
Qed.

Lemma find_compatible_loop_spec {S} node (b : @dt_bus S) ns : ∀ f ns1 i, nodes root = ns1 ++ ns → (length ns < f)%nat →
  find_compatible_loop m L fdt f (DtDevice node b i) (at_node (List.find (compatible t) ns)) str = first_match (match_ b) (List.filter (compatible t) ns) i.
Proof.
  induction ns as [|n ns IH]; intros f ns1 i E Hf; (destruct f as [|f]; [lia|]); [done|]. cbn [List.find List.filter].
  assert (E' : nodes root = (ns1 ++ [n]) ++ ns) by (by rewrite <- app_assoc). cbn [length] in Hf.
  destruct (compatible t n) eqn:Ec; [|apply (IH (Datatypes.S f) _ i E'); lia]. cbn [find_compatible_loop first_match].
  change (at_node (Some n)) with (n_off n). rewrite (proj2 (Z.leb_le 0 (n_off n))) by (apply ft_off; rewrite E; set_solver). cbn [bus info fdtnode].
  destruct (match_ b (n_off n) i) as [[ret i']| | |]; cbn [bind]; try done. destruct (ret <? 0); [done|]. destruct (ret =? 0); cbn [negb]; [|done].
  rewrite (by_compatible_next _ _ _ E). cbn [bind]. apply (IH f _ i' E'). lia.
Qed.

Lemma find_compatible_spec {S} (dev : @dt_device S) :
  dt_device_find_compatible m L fdt dev str = first_match (match_ (bus dev)) (List.filter (compatible t) (nodes root)) (info dev).
Proof.
  destruct dev as [node b i]. unfold dt_device_find_compatible. rewrite by_compatible_start. cbn [bind].
  apply (find_compatible_loop_spec node b (nodes root) (fuel m) []); [done|apply ft_fuel].
Qed.
End client.

(** Finding a device.  [dt_device_find_compatible] offers the nodes whose
    compatible property contains the string to the bus, in the order of the
    tree, and returns the first that the bus takes, the error of the bus, or
    -FDT_ERR_NOTFOUND after the last. *)
Theorem dt_device_find_compatible_correct m L fdt root str t {S} (dev : @dt_device S) : blob_tree m fdt root → lits_ok m L →
  (∀ n, n ∈ nodes root → compatible_ok n) → cstr m str t → t ≠ [] → Z.of_nat (length t) < 2 ^ 31 →
  dt_device_find_compatible m L fdt dev str = first_match (match_ (bus dev)) (List.filter (compatible t) (nodes root)) (info dev).
Proof. intros Ht%blob_tree_fdt_tree HL Hc Hs Hne Hl. by apply (find_compatible_spec m L fdt root HL Hc str t). Qed.

Lemma machine_compatible n : n ∈ nodes (Machine.root 2) → compatible_ok n.
Proof.
  intros Hn pr Hp. cbn [nodes Machine.root Machine.memory_node Machine.chosen_node Machine.v_node Machine.cpus_node Machine.cpu_node flat_map app] in Hn.
  repeat (apply elem_of_cons in Hn as [->|Hn]; [try (by vm_compute in Hp)|]); [|by apply not_elem_of_nil in Hn].
  vm_compute in Hp. injection Hp as <-. exists [lit "a"; lit "virtio,mmio"]. split; [by repeat constructor|done].
Qed.

Lemma dt_device_find_compatible_correct_witness :
  dt_device_find_compatible (Machine.mem 2) Machine.L 4096 (DtDevice 0 (DtBus (λ n s, Ret (1, n :: s)) (λ _ _, Ret (0, None))) []) Machine.s_virtio_mmio =
  Ret (200, [200]).
Proof.
  exact (dt_device_find_compatible_correct (Machine.mem 2) Machine.L 4096 (Machine.root 2) Machine.s_virtio_mmio (lit "virtio,mmio")
    (DtDevice 0 (DtBus (λ n s, Ret (1, n :: s)) (λ _ _, Ret (0, None))) []) Machine.machine_blob (Machine.mem_lits 2 (or_introl eq_refl))
    machine_compatible Machine.mem_virtio_mmio ltac:(done) ltac:(done)).
Defined.
