(* ===== verification/DtChosen.v ===== *)
(** * lib/devicetree.c: boot information

    The properties of the node /chosen: arguments, console and initial
    ramdisk. *)

From Stdlib Require Import String.
From S2P Require Import Prelude.
From S2P Require Import CMem.
From S2P Require Import CString.
From S2P Require Import CStringSpec.
From S2P Require Import Fdt.
From S2P Require Import FdtRo.
From S2P Require Import FdtProps.
From S2P Require Import FdtTree.
From S2P Require Import FdtWalk.
From S2P Require Import FdtPath.
From S2P Require Import FdtThms.
From S2P Require Import FdtSearch.
From S2P Require Import DeviceTree.
From S2P Require Import DtProps.
From S2P Require Import DtExample.

Definition chosen_prop (root : node) (nm : string) : option property := subnode root (lit "chosen") ≫= λ c, prop c (lit nm).

(** One cell, or two in a value of eight bytes. *)
Definition cells_value (v : list Z) : Z := if Z.of_nat (length v) =? 8 then number (words v) else default 0 (head (words v)).

(** The path in front of the options of the console. *)
Definition console_path (s : list Z) : list Z := take (default (length s) (first_char 58 s)) s.

Lemma first_char_le c s i : first_char c s = Some i → (i ≤ length s)%nat.
Proof.
  revert i. induction s as [|x s IH]; intros i; cbn [first_char length].
  - destruct (0 =? c); [|done]. intros [= <-]. lia.
  - destruct (x =? c); [intros [= <-]; lia|]. destruct (first_char c s); [|done]. intros [= <-]. specialize (IH _ eq_refl). lia.
Qed.

Section client.
Context (m : memory) (L : lits) (fdt : Z) (root : node) `{!fdt_tree m fdt root} (HL : lits_ok m L).

Lemma root_node : root ∈ nodes root.
Proof. destruct root. by left. Qed.

(** The properties of /chosen. *)
Lemma chosen_offset : fdt_path_offset m (s_aliases L) fdt (s_chosen L) = Ret (at_node (subnode root (lit "chosen"))).
Proof.
  rewrite (ft_path _ _ root _ _ (lit "chosen") (l_chosen _ _ HL)) by done. change (components (lit "chosen")) with [lit "chosen"]. cbn [resolve].
  by destruct (subnode root (lit "chosen")).
Qed.

Lemma chosen_in c : subnode root (lit "chosen") = Some c → c ∈ nodes root ∧ 0 ≤ n_off c.
Proof. intros E%subnode_kid. pose proof (kids_nodes _ _ _ root_node E). split; [done|by apply ft_off]. Qed.

Lemma bootargs_spec :
  post (dt_get_bootargs m L fdt) (λ '(ret, p), match chosen_prop root "bootargs" with Some pr => ret = 0 ∧ bytes m p (p_val pr) | None => ret = - FDT_ERR_NOTFOUND ∧ p = 0 end).
Proof.
  unfold dt_get_bootargs, chosen_prop. rewrite chosen_offset. destruct (subnode root (lit "chosen")) as [c|] eqn:Ec; [|done]. cbn [mbind option_bind bind].
  destruct (chosen_in _ Ec) as [Hc H0]. change (at_node (Some c)) with (n_off c). rewrite (proj2 (Z.ltb_ge _ 0)) by done.
  pose proof (ft_property c _ _ Hc (l_bootargs _ _ HL) ltac:(done)) as Hp. destruct (prop c (lit "bootargs")) as [pr|]; [|by destruct Hp as [-> _]].
  destruct Hp as (ptr & Hptr & _ & Hb & _ & -> & _). cbn [bind]. by rewrite (proj2 (Z.eqb_neq _ 0)) by done.
Qed.

Lemma initrd_cells_spec p v : bytes m p v → (4 ≤ length v)%nat → initrd_cells m p (Z.of_nat (length v)) = Ret (cells_value v).
Proof.
  intros Hb Hl. unfold initrd_cells, cells_value. pose proof (words_length v) as Hw. pose proof (words_range _ _ _ Hb) as Hr.
  pose proof (ld_words m p v 0) as H0. pose proof (ld_words m p v 1) as H1. rewrite Z.add_0_r in H0. change (4 * Z.of_nat 1) with 4 in H1.
  destruct (words v) as [|w0 ws]; [cbn in Hw; Z.div_mod_to_equations; lia|]. rewrite (H0 w0) by done. cbn [bind head default].
  destruct (Z.eqb_spec (Z.of_nat (length v)) 8) as [E|]; [|done]. rewrite E in Hw. change (8 / 4) with 2 in Hw. destruct ws as [|w1 [|]]; cbn [length] in Hw; [lia| |lia].
  rewrite (H1 w1) by done. cbn [bind number]. apply Forall_cons in Hr as [Hr _]. by rewrite u64_small by (rewrite Z.shiftl_mul_pow2; lia).
Qed.

Lemma initrd_spec c : subnode root (lit "chosen") = Some c →
  (∀ nm pr, nm = lit "linux,initrd-start" ∨ nm = lit "linux,initrd-end" → prop c nm = Some pr → (4 ≤ length (p_val pr))%nat) →
  dt_get_initrd m L fdt =
  match prop c (lit "linux,initrd-start"), prop c (lit "linux,initrd-end") with
  | Some s, Some e => if cells_value (p_val s) <? cells_value (p_val e) then Ret (0, cells_value (p_val s), u32 (cells_value (p_val e) - cells_value (p_val s))) else Abort
  | Some _, None => Abort
  | None, _ => Ret (- FDT_ERR_NOTFOUND, 0, 0)
  end.
Proof.
  intros Ec Hl. destruct (chosen_in _ Ec) as [Hc H0]. unfold dt_get_initrd. rewrite chosen_offset, Ec. cbn [bind].
  change (at_node (Some c)) with (n_off c). rewrite (proj2 (Z.ltb_ge _ 0)) by done.
  pose proof (ft_property c _ _ Hc (l_initrd_start _ _ HL) ltac:(done)) as Hs. pose proof (ft_property c _ _ Hc (l_initrd_end _ _ HL) ltac:(done)) as He.
  destruct (prop c (lit "linux,initrd-start")) as [s|] eqn:Es; [|by destruct Hs as [-> _]].
  destruct Hs as (ptr & Hptr & _ & Hb & _ & -> & _). cbn [bind]. rewrite (proj2 (Z.eqb_neq _ 0)) by done.
  rewrite (initrd_cells_spec _ _ Hb (Hl _ _ (or_introl eq_refl) Es)). cbn [bind].
  destruct (prop c (lit "linux,initrd-end")) as [e|] eqn:Ee; [|by destruct He as [-> _]].
  destruct He as (ptr' & Hptr' & _ & Hb' & _ & -> & _). cbn [bind]. rewrite (proj2 (Z.eqb_neq _ 0)) by done.
  rewrite (initrd_cells_spec _ _ Hb' (Hl _ _ (or_intror eq_refl) Ee)). cbn [bind]. by destruct (_ <? _).
Qed.

Lemma console_spec c s pth : subnode root (lit "chosen") = Some c →
  (pr ← (match prop c (lit "stdout-path") with Some pr => Some pr | None => prop c (lit "linux,stdout-path") end); Some (p_val pr)) = Some (s ++ [0]) →
  chars s → console_path s = c_slash :: pth →
  dt_get_default_console_node m L fdt = Ret (at_node (resolve root (components pth))).
Proof.
  intros Ec Hp Hs Epth. destruct (chosen_in _ Ec) as [Hc H0]. unfold dt_get_default_console_node. rewrite chosen_offset, Ec. cbn [bind].
  change (at_node (Some c)) with (n_off c). rewrite (proj2 (Z.ltb_ge _ 0)) by done.
  assert (Hptr : ∃ p len, (let* '(p, len) := fdt_getprop m fdt (n_off c) (s_stdout_path L) in
    if p =? 0 then fdt_getprop m fdt (n_off c) (s_linux_stdout_path L) else Ret (p, len)) = Ret (p, len) ∧ p ≠ 0 ∧ cstr m p s ∧ Z.of_nat (length s) < 2 ^ 31).
  { pose proof (ft_property c _ _ Hc (l_stdout_path _ _ HL) ltac:(done)) as H1. pose proof (ft_property c _ _ Hc (l_linux_stdout_path _ _ HL) ltac:(done)) as H2.
    destruct (prop c (lit "stdout-path")) as [pr|].
    - injection Hp as Ev. rewrite Ev in H1. destruct H1 as (ptr & _ & Hptr & Hb & Hlen & _ & ->). cbn [bind]. rewrite (proj2 (Z.eqb_neq _ 0)) by done.
      eexists _, _. split; [done|]. split; [done|]. split; [by split|]. rewrite length_app in Hlen. cbn in Hlen. lia.
    - destruct H1 as [_ ->]. cbn [bind Z.eqb]. destruct (prop c (lit "linux,stdout-path")) as [pr|]; [|done].
      injection Hp as Ev. rewrite Ev in H2. destruct H2 as (ptr & _ & Hptr & Hb & Hlen & _ & ->).
      eexists _, _. split; [done|]. split; [done|]. split; [by split|]. rewrite length_app in Hlen. cbn in Hlen. lia. }
  destruct Hptr as (p & len & Eq & Hp0 & Hcs & Hlen).
  destruct (fdt_getprop m fdt (n_off c) (s_stdout_path L)) as [[p1 l1]| | |]; try done. cbn [bind] in *. rewrite Eq. cbn [bind].
  rewrite (proj2 (Z.eqb_neq _ 0)) by done. rewrite (strchrnul_spec _ _ _ _ Hcs). cbn [bind]. change (u8 58) with 58.
  set (k := default (length s) (first_char 58 s)) in *.
  assert (Hk : (k ≤ length s)%nat) by (unfold k; destruct (first_char 58 s) as [i|] eqn:Ei; [by apply first_char_le in Ei|done]).
  replace (p + Z.of_nat k - p) with (Z.of_nat k) by lia. rewrite s32_small by lia. destruct Hcs as [[Hb _]%bytes_app _].
  rewrite <- (take_drop k s) in Hb. apply bytes_app in Hb as [Hb _]. change (take k s) with (console_path s) in Hb. rewrite Epth in Hb.
  rewrite <- (ft_path_namelen (s_aliases L) p pth Hb), <- Epth. unfold console_path. fold k. by rewrite length_take, Nat.min_l by done.
Qed.
End client.

(** Boot information.  [dt_get_bootargs] points to the value of bootargs;
    [dt_get_initrd] returns the start and the length of the initial ramdisk,
    whose bounds are one or two cells each, and asserts that both are there or
    none, in this order; [dt_get_default_console_node] resolves the path in
    stdout-path up to a colon. *)
Theorem dt_chosen_correct m L fdt root : blob_tree m fdt root → lits_ok m L →
  post (dt_get_bootargs m L fdt) (λ '(ret, p),
    match chosen_prop root "bootargs" with Some pr => ret = 0 ∧ bytes m p (p_val pr) | None => ret = - FDT_ERR_NOTFOUND ∧ p = 0 end) ∧
  ∀ c, subnode root (lit "chosen") = Some c →
  ((∀ nm pr, nm = lit "linux,initrd-start" ∨ nm = lit "linux,initrd-end" → prop c nm = Some pr → (4 ≤ length (p_val pr))%nat) →
   dt_get_initrd m L fdt =
   match prop c (lit "linux,initrd-start"), prop c (lit "linux,initrd-end") with
   | Some s, Some e => if cells_value (p_val s) <? cells_value (p_val e) then Ret (0, cells_value (p_val s), u32 (cells_value (p_val e) - cells_value (p_val s))) else Abort
   | Some _, None => Abort
   | None, _ => Ret (- FDT_ERR_NOTFOUND, 0, 0)
   end) ∧
  (∀ s pth, (pr ← (match prop c (lit "stdout-path") with Some pr => Some pr | None => prop c (lit "linux,stdout-path") end); Some (p_val pr)) = Some (s ++ [0]) →
   chars s → console_path s = c_slash :: pth → dt_get_default_console_node m L fdt = Ret (at_node (resolve root (components pth)))).
Proof.
  intros Ht%blob_tree_fdt_tree HL. split; [by apply bootargs_spec|]. intros c Ec. split.
  - intros Hl. by apply (initrd_spec m L fdt root).
  - intros s pth Hp Hs Epth. by apply (console_spec m L fdt root HL c s).
Qed.

Lemma dt_chosen_correct_witness :
  dt_get_initrd (Machine.mem 2) Machine.L 4096 = Ret (0, 4096, 4096) ∧ dt_get_default_console_node (Machine.mem 2) Machine.L 4096 = Ret 200.
Proof.
  destruct (dt_chosen_correct (Machine.mem 2) Machine.L 4096 (Machine.root 2) Machine.machine_blob (Machine.mem_lits 2 (or_introl eq_refl))) as [_ H].
  destruct (H Machine.chosen_node eq_refl) as [Hi Hc]. split.
  - apply Hi. intros nm pr [-> | ->] Hp; vm_compute in Hp; injection Hp as <-; cbn; lia.
  - exact (Hc (lit "/v:9") (lit "v") eq_refl ltac:(by repeat constructor) eq_refl).
Defined.
