(* ===== verification/RiscvSetup.v ===== *)
(** * lib/riscv/setup.c: memory from the device tree to the page tables

    [mem_init] and [mem_allocator_init] of the 64-bit build without
    CONFIG_EFI, and [__setup_vm] of lib/vmalloc.c with the [setup_mmu] of
    RISC-V (where [find_highmem] does nothing). *)

From S2P Require Import Prelude.
From S2P Require Import Bitops.
From S2P Require Import AllocPage.
From S2P Require Import AllocPhys.
From S2P Require Import Alloc.
From S2P Require Import Memregions.
From S2P Require Import PageMem.
From S2P Require Import CMem.
From S2P Require Import DeviceTree.
From S2P Require Import RiscvMmu.

Definition SZ_1M : Z := 2 ^ 20.
Definition SZ_1G : Z := 2 ^ 30.
Definition VA_BASE : Z := 3 * SZ_1G.
Definition VA_TOP : Z := 4 * SZ_1G.
Definition MAX_DT_MEM_REGIONS : Z := 16.
Definition NR_MEM_REGIONS : Z := MAX_DT_MEM_REGIONS + 16.

(** The values of [alloc_ops]. *)
Inductive ops_kind : Type := early_ops | page_ops | vmalloc_ops.

Record rv_boot : Type := mk_rvb {
  rb_regions : mr_state;
  rb_phys : phys_state;
  rb_mmu : mmu_state page_alloc;
  rb_ops : ops_kind;
  rb_vlock : bool;          (** the lock of vmalloc.c *)
  rb_vfree_top : Z;
  rb_page_root : Z;
}.

Definition set_regions (r : mr_state) (b : rv_boot) : rv_boot :=
  mk_rvb r (rb_phys b) (rb_mmu b) (rb_ops b) (rb_vlock b) (rb_vfree_top b) (rb_page_root b).
Definition set_phys (p : phys_state) (b : rv_boot) : rv_boot :=
  mk_rvb (rb_regions b) p (rb_mmu b) (rb_ops b) (rb_vlock b) (rb_vfree_top b) (rb_page_root b).
Definition set_mmu (s : mmu_state page_alloc) (b : rv_boot) : rv_boot :=
  mk_rvb (rb_regions b) (rb_phys b) s (rb_ops b) (rb_vlock b) (rb_vfree_top b) (rb_page_root b).
Definition set_ops (o : ops_kind) (b : rv_boot) : rv_boot :=
  mk_rvb (rb_regions b) (rb_phys b) (rb_mmu b) o (rb_vlock b) (rb_vfree_top b) (rb_page_root b).
Definition set_vfree_top (p : Z) (b : rv_boot) : rv_boot :=
  mk_rvb (rb_regions b) (rb_phys b) (rb_mmu b) (rb_ops b) (rb_vlock b) p (rb_page_root b).
Definition set_page_root (p : Z) (b : rv_boot) : rv_boot :=
  mk_rvb (rb_regions b) (rb_phys b) (rb_mmu b) (rb_ops b) (rb_vlock b) (rb_vfree_top b) p.

Definition is_vmalloc (o : ops_kind) : bool := match o with vmalloc_ops => true | _ => false end.

(** [r->flags = f(r->flags)] for the region at index [i]. *)
Definition update_flags (i : nat) (f : Z → Z) (s : mr_state) : res mr_state :=
  let* r := region_at i s in
  Ret (mk_mr (<[i := mk_region (mr_start r) (mr_end r) (f (mr_flags r))]> (mem_regions s)) (nr_regions s)).

(** vmalloc.c; the lock is free on entry. *)
Definition init_alloc_vpage (top : Z) (b : rv_boot) : res rv_boot :=
  if rb_vlock b then Hang else
  assert! (negb (is_vmalloc (rb_ops b)));
  Ret (set_vfree_top top b).

(** The second part of [mem_allocator_init], after the regions. *)
Definition start_allocators (freemem_start freemem_end : Z) (b : rv_boot) : res rv_boot :=
  assert! (SZ_1M * 16 <=? u64 (freemem_end - freemem_start));
  let* b := init_alloc_vpage (__va VA_TOP) b in
  let* ph := phys_alloc_init freemem_start (u64 (freemem_end - freemem_start)) (rb_phys b) in
  let* ph := phys_alloc_set_minimum_alignment PAGE_SIZE ph in
  let* '(base, top, ph) := phys_alloc_get_unused ph in
  let b := set_phys ph b in
  assert! ((base =? freemem_start) && (top =? freemem_end));
  let* a := page_alloc_init_area 0 (Z.shiftr freemem_start PAGE_SHIFT) (Z.shiftr freemem_end PAGE_SHIFT) (mm_pages (rb_mmu b)) in
  let* '(_, a) := page_alloc_ops_enable a in
  Ret (set_ops page_ops (set_mmu (set_pages a (rb_mmu b)) b)).

Definition mem_allocator_init (freemem : nat) (freemem_start : Z) (b : rv_boot) : res rv_boot :=
  let* r := region_at freemem (rb_regions b) in
  let freemem_start := PAGE_ALIGN freemem_start in
  let freemem_end := Z.land (mr_end r) PHYS_PAGE_MASK in
  let* '(freemem_end, b) :=
    if VA_BASE <? freemem_end then
      let* '(curr, rest, rg) := memregions_split VA_BASE (rb_regions b) in
      assert! (match curr with Some i => (i =? freemem)%nat | None => false end);
      let* rg := match rest with Some i => update_flags i (λ _, MR_F_UNUSED) rg | None => Ret rg end in
      Ret (VA_BASE, set_regions rg b)
    else Ret (freemem_end, b) in
  start_allocators freemem_start freemem_end b.

(** [riscv_mem_regions], as the program is loaded. *)
Definition riscv_mem_regions : list mem_region := replicate (Z.to_nat (NR_MEM_REGIONS + 1)) (mk_region 0 0 0).

Definition mem_init (m : memory) (L : lits) (fdt etext freemem_start : Z) (b : rv_boot) : res rv_boot :=
  let rg := memregions_init riscv_mem_regions NR_MEM_REGIONS in
  let* '(nr, regs) := dt_get_memory_params m L fdt MAX_DT_MEM_REGIONS in
  let* rg := memregions_add_dt_regions nr ((λ r, (pr_addr r, pr_size r)) <$> regs) rg in
  let* '(code, data, rg) := memregions_split etext rg in
  match code with
  | None => Abort
  | Some code =>
      let* rg := update_flags code (λ f, Z.lor f MR_F_CODE) rg in
      let* freemem := memregions_find freemem_start rg in
      match freemem with
      | None => Abort
      | Some freemem =>
          let* r := region_at freemem rg in
          assert! (Z.land (mr_flags r) (Z.lor MR_F_IO MR_F_CODE) =? 0);
          mem_allocator_init freemem freemem_start (set_regions rg b)
      end
  end.

(** [page_alloc_init_area(AREA_ANY_NUMBER, ..)]: RISC-V has the area 0 only. *)
Definition init_any_area (base top : Z) (a : page_alloc) : res page_alloc :=
  let* '(_, a) := __page_alloc_init_area 0 0 base top a in Ret a.

Definition __setup_vm (b : rv_boot) : res rv_boot :=
  if is_vmalloc (rb_ops b) then Ret b else
  let* '(base, top, ph) := phys_alloc_get_unused (rb_phys b) in
  let b := set_phys ph b in
  assert! (negb (base =? top) || page_alloc_initialized (mm_pages (rb_mmu b)));
  let* b :=
    if page_alloc_initialized (mm_pages (rb_mmu b)) then Ret b else
    let base := Z.shiftr (PAGE_ALIGN base) PAGE_SHIFT in
    let top := Z.shiftr top PAGE_SHIFT in
    let* a := init_any_area base top (mm_pages (rb_mmu b)) in
    let* '(_, a) := page_alloc_ops_enable a in
    Ret (set_ops page_ops (set_mmu (set_pages a (rb_mmu b)) b)) in
  let* '(base, top, ph) := phys_alloc_get_unused (rb_phys b) in
  let b := set_phys ph b in
  let* '(page_root, s) := setup_mmu page_alloc_pages (rb_regions b) top (rb_mmu b) in
  let b := set_page_root page_root (set_mmu s b) in
  let* b :=
    if negb (base =? top) then
      let base := Z.shiftr (PAGE_ALIGN base) PAGE_SHIFT in
      let top := Z.shiftr top PAGE_SHIFT in
      let* a := init_any_area base top (mm_pages (rb_mmu b)) in
      Ret (set_mmu (set_pages a (rb_mmu b)) b)
    else Ret b in
  if rb_vlock b then Hang else
  assert! (negb (is_vmalloc (rb_ops b)));
  Ret (set_ops vmalloc_ops b).

Definition setup_vm (b : rv_boot) : res rv_boot := __setup_vm b.
