(* ===== verification/RiscvSetupProps.v ===== *)
(** * lib/riscv/setup.c: the memory of the machine is mapped to itself

    From the memory nodes of the device tree to the page tables: the regions,
    the allocators and the translation after [mem_init] and [setup_vm]. *)

From Stdlib Require Import String.
From S2P Require Import Prelude.
From S2P Require Import Bitops.
From S2P Require Import LinkedList.
From S2P Require Import AllocPage.
From S2P Require Import AllocPageInv.
From S2P Require Import AllocPageSpec.
From S2P Require Import AllocPageInit.
From S2P Require Import AllocPageThm.
From S2P Require Import AllocPageReach.
From S2P Require Import AllocPageProps.
From S2P Require Import AllocPhys.
From S2P Require Import Alloc.
From S2P Require Import Memregions.
From S2P Require Import PageMem.
From S2P Require Import CMem.
From S2P Require Import FdtTree.
From S2P Require Import FdtSearch.
From S2P Require Import DeviceTree.
From S2P Require Import DtProps.
From S2P Require Import DtExample.
From S2P Require Import RiscvMmu.
From S2P Require Import RiscvMmuProps.
From S2P Require Import RiscvMmuThms.
From S2P Require Import RiscvSetup.

(** ** The table of regions *)

Definition region_of (r : dt_pbus_reg) : mem_region := mk_region (pr_addr r) (pr_addr r + pr_size r) 0.

Lemma add_dt_loop_spec regs s live :
  mr_ok s live → Forall (λ r, 0 ≤ pr_addr r ∧ 0 < pr_size r ∧ pr_addr r + pr_size r < 2 ^ 64) regs →
  Z.of_nat (length live) + Z.of_nat (length regs) ≤ nr_regions s →
  ∃ s', add_dt_loop ((λ r, (pr_addr r, pr_size r)) <$> regs) s = Ret s' ∧
    mr_ok s' (live ++ (region_of <$> regs)) ∧ nr_regions s' = nr_regions s.
Proof.
  intros Hok Hr. revert s live Hok. induction Hr as [|r regs (H0 & H1 & H2) _ IH]; intros s live Hok Hn; cbn [fmap list_fmap add_dt_loop].
  { exists s. by rewrite app_nil_r. }
  rewrite u64_small by lia. cbn [length] in Hn.
  destruct (memregions_add_spec s live (mk_region (pr_addr r) (pr_addr r + pr_size r) 0) Hok) as [Hadd _]; [cbn; lia|].
  destruct Hadd as (s1 & -> & Hok1 & Hnr); [lia|]. cbn [bind]. fold (region_of r) in Hok1.
  destruct (IH s1 _ Hok1) as (s' & -> & Hok' & Hnr'); [rewrite length_app; cbn [length]; lia|].
  exists s'. split; [done|]. split; [by rewrite <- app_assoc in Hok'|congruence].
Qed.

Definition with_flags (f : Z) (r : mem_region) : mem_region := mk_region (mr_start r) (mr_end r) f.

Lemma update_flags_spec s live i f r :
  mr_ok s live → live !! i = Some r →
  ∃ s', update_flags i f s = Ret s' ∧ mr_ok s' (<[i := with_flags (f (mr_flags r)) r]> live) ∧ nr_regions s' = nr_regions s.
Proof.
  intros Hok Hi. unfold update_flags, region_at. destruct (ok_split _ _ Hok) as (blank & E & _).
  rewrite E, (lookup_app_l_Some _ _ _ _ Hi), <- E. cbn [bind]. eexists. split; [done|]. split; [|done].
  apply mr_ok_insert; [done|by eapply lookup_lt_Some|]. cbn. exact (proj1 (Forall_lookup _ _) (ok_live _ _ Hok) i r Hi).
Qed.

Lemma contains_flags f r a : contains (with_flags f r) a ↔ contains r a.
Proof. done. Qed.

(** Flags do not matter for overlaps. *)
Lemma disjoint_flags live i f r : live !! i = Some r → disjoint_table live → disjoint_table (<[i := with_flags f r]> live).
Proof.
  intros Hi Hd j1 j2 r1 r2 a H1 H2 Ha1 Ha2.
  assert (H : ∀ j r', <[i := with_flags f r]> live !! j = Some r' → contains r' a → ∃ r0, live !! j = Some r0 ∧ contains r0 a).
  { intros j r' Hj Ha. destruct (decide (j = i)) as [->|Hne].
    - rewrite list_lookup_insert_eq in Hj by (by eapply lookup_lt_Some). injection Hj as <-. eauto.
    - rewrite list_lookup_insert_ne in Hj by done. eauto. }
  destruct (H _ _ H1 Ha1) as (q1 & Hq1 & Hc1), (H _ _ H2 Ha2) as (q2 & Hq2 & Hc2). by eapply Hd.
Qed.

Lemma find_region_at live a i r : disjoint_table live → live !! i = Some r → contains r a → find_region live a = Some i.
Proof.
  intros Hd Hi Ha. destruct (find_region live a) as [j|] eqn:E.
  - destruct (find_region_Some _ _ _ E) as (r' & Hj & Hr'). f_equal. by eapply Hd.
  - by destruct (find_region_None _ _ _ _ E Hi).
Qed.

(** ** Regions of whole pages *)

Definition page_region (r : mem_region) : Prop :=
  0 ≤ mr_start r < mr_end r ∧ mr_end r ≤ 2 ^ 38 ∧ mr_start r mod 4096 = 0 ∧ mr_end r mod 4096 = 0.

Lemma region_has_contains r v : page_region r → region_has r v = containsb r (v * 4096).
Proof.
  intros (_ & _ & Hs & He). apply Z.mod_divide in Hs as [s Hs], He as [e He]; [|done..]. unfold region_has, containsb. rewrite Hs, He.
  rewrite Z.div_mul, Z.div_add_l by done. change (4095 / 4096) with 0. rewrite Z.add_0_r. f_equal; apply eq_bool_prop_intro;
    rewrite ?Is_true_true, ?Z.leb_le, ?Z.ltb_lt; lia.
Qed.

Lemma disjoint_tail r live : disjoint_table (r :: live) → disjoint_table live.
Proof. intros H i j ri rj a Hi Hj Hai Haj. by apply (Nat.succ_inj i j), (H (S i) (S j) ri rj a). Qed.

(** The protection of a page in a table without overlaps. *)
Lemma page_prot_find live blank v :
  disjoint_table live → Forall (λ r, page_region r ∧ region_mapped r = true) live → Forall (λ r, mr_end r = 0) blank →
  page_prot (live ++ blank) v = region_prot <$> (i ← find_region live (v * 4096); live !! i).
Proof.
  intros Hd Hl Hb. induction Hl as [|r live [Hr Hm] Hl IH]; cbn [app page_prot find_region].
  { destruct Hb as [|b blank Hb0 _]; [done|]. cbn [page_prot]. by rewrite Hb0. }
  rewrite (proj2 (Z.eqb_neq (mr_end r) 0)) by (destruct Hr; lia). rewrite (IH (disjoint_tail _ _ Hd)), Hm, region_has_contains by done.
  cbn [andb]. destruct (containsb r (v * 4096)) eqn:E.
  - destruct (find_region live (v * 4096)) as [j|] eqn:Ej; [|done]. exfalso. destruct (find_region_Some _ _ _ Ej) as (r' & Hj & Hr').
    apply containsb_spec in E. by specialize (Hd 0%nat (S j) r r' _ eq_refl Hj E Hr').
  - destruct (find_region live (v * 4096)) as [j|]; [|done]. cbn [fmap option_fmap option_map mbind option_bind].
    change ((r :: live) !! S j) with (live !! j). by destruct (live !! j).
Qed.

Lemma regions_ok_live live blank :
  Forall (λ r, page_region r ∧ region_mapped r = true) live → Forall (λ r, mr_end r = 0) blank → blank ≠ [] → regions_ok (live ++ blank).
Proof.
  intros Hl Hb Hne. induction Hl as [|r live [(H1 & H2 & _) _] _ IH]; cbn [app regions_ok].
  - destruct Hb as [|b blank Hb0 _]; [done|]. cbn [regions_ok]. by rewrite Hb0.
  - rewrite (proj2 (Z.eqb_neq (mr_end r) 0)) by lia. by split.
Qed.

(** ** The allocators *)

(** The first area of the page allocator. *)
Lemma first_area_spec (R : Z → Prop) b t a0 :
  areas_mask a0 = 0 → lock a0 = false → 0 ≤ b → b + 4 < t → t < 2 ^ 52 → (∀ f, b ≤ f < t → R (vaddr (Page f))) →
  post (page_alloc_init_area 0 b t a0) (λ a, pages_live R a ∅ ∧ page_alloc_initialized a = true ∧ lock a = false).
Proof.
  intros Hm Hl Hb Ht H52 HR. pose proof (boot_inactive a0) as Hno.
  eapply post_mono; [apply (init_area_ret 0 b t a0 ∅ (reach_boot _ Hm Hl)); try (done || lia)|].
  - split; [done|]. split; [by apply Hno|]. split; [lia|]. split; [lia|]. intros k Hk. by destruct (Hno k Hm).
  - intros a (Hr & Hact & Hpa & Hlay). destruct (reach_inv _ _ Hr) as (_ & Hlk & Hrel). split_and!; [|apply negb_true_iff, Z.eqb_neq|done].
    + exists ∅. split_and!; [done..| |]; [intros p; split; [done|by intros (? & _ & ?)]|]. intros n f [->|Hn]%Hact Hf; [|by destruct (Hno n Hm)].
      apply (same_layout_frame _ _ _ Hlay) in Hf. unfold usable_frame, new_area in Hf. cbn [base top] in Hf. apply HR.
      unfold PAGE_SIZE in Hf. Z.div_mod_to_equations. lia.
    + intros E. destruct (proj2 (Hact 0) (or_introl eq_refl)) as [_ Hx]. by rewrite E in Hx.
Qed.

Lemma ops_enable_spec a : page_alloc_initialized a = true → lock a = false → page_alloc_ops_enable a = Ret (Some page_alloc_ops, a).
Proof.
  intros Hi Hl. unfold page_alloc_ops_enable, spin_lock. rewrite Hl. cbn [bind].
  replace (page_alloc_initialized (set_lock true a)) with true by (symmetry; exact Hi). by destruct a; cbn in *; subst.
Qed.

(** The physical allocator is set up and emptied at once. *)
Lemma phys_dance base size ph :
  p_lock ph = false → p_regions ph ≠ [] → 0 ≤ base → 0 < size → base + size < 2 ^ 64 →
  ∃ ph1 ph2 ph', phys_alloc_init base size ph = Ret ph1 ∧ phys_alloc_set_minimum_alignment PAGE_SIZE ph1 = Ret ph2 ∧
    phys_alloc_get_unused ph2 = Ret (base, base + size, ph') ∧ p_base ph' = base + size ∧ p_top ph' = base + size.
Proof.
  intros Hl Hne Hb Hs H64. unfold phys_alloc_init, phys_alloc_set_minimum_alignment, phys_spin_lock. rewrite Hl. cbn [bind].
  destruct (p_regions ph) as [|x l] eqn:E; [done|]. do 3 eexists. split; [reflexivity|]. split; [reflexivity|].
  rewrite (u64_small (base + size)) by lia. unfold phys_alloc_get_unused, phys_spin_lock, log_region. cbn.
  rewrite (proj2 (Z.eqb_neq _ _)) by lia. rewrite E. cbn [length]. rewrite (proj2 (Z.ltb_lt _ _)) by lia. cbn. done.
Qed.

Definition free_start (freemem_start : Z) : Z := (freemem_start + 4095) / 4096 * 4096.
Definition free_end (d : mem_region) : Z := Z.min (mr_end d) VA_BASE.
(** The pages that the page allocator gets. *)
Definition free_page_of (d : mem_region) (freemem_start p : Z) : Prop :=
  page_addr p ∧ 0 < p ∧ free_start freemem_start ≤ p < free_end d.

#[export] Instance free_table_pages d fs : table_pages (free_page_of d fs).
Proof. intros p (H1 & H2 & _). by split. Qed.

(** The state of the machine before [mem_init]. *)
Record rv_start (b : rv_boot) : Prop := {
  rs_phys : p_lock (rb_phys b) = false ∧ p_regions (rb_phys b) ≠ [];
  rs_pages : areas_mask (mm_pages (rb_mmu b)) = 0 ∧ lock (mm_pages (rb_mmu b)) = false;
  rs_ops : rb_vlock b = false ∧ rb_ops b = early_ops;
}.

(** And after it. *)
Record rv_ready (fin : list mem_region) (d : mem_region) (freemem_start : Z) (b b' : rv_boot) : Prop := {
  rr_regions : mr_ok (rb_regions b') fin;
  rr_phys : p_base (rb_phys b') = free_end d ∧ p_top (rb_phys b') = free_end d;
  rr_mmu : rb_mmu b' = set_pages (mm_pages (rb_mmu b')) (rb_mmu b);
  rr_pages : pages_live (free_page_of d freemem_start) (mm_pages (rb_mmu b')) ∅;
  rr_init : page_alloc_initialized (mm_pages (rb_mmu b')) = true;
  rr_ops : rb_vlock b' = false ∧ rb_ops b' = page_ops ∧ rb_vfree_top b' = VA_TOP;
}.

Lemma start_allocators_spec fin d fs b :
  rv_start b → mr_ok (rb_regions b) fin → page_region d → mr_start d ≤ fs → 0 < fs → free_start fs + 2 ^ 24 ≤ free_end d →
  post (start_allocators (free_start fs) (free_end d) b) (rv_ready fin d fs b).
Proof.
  intros [[Hpl Hpr] [Hm Hl] [Hvl Hops]] Hrg (Hd1 & Hd2 & Hd3 & Hd4) Hfs Hpos Hsz.
  assert (Ha : free_end d mod 4096 = 0) by (unfold free_end; destruct (Z.min_spec (mr_end d) VA_BASE) as [[_ ->]|[_ ->]]; done).
  assert (He : free_end d ≤ 2 ^ 38) by (unfold free_end; lia). assert (H0 : 0 < free_start fs) by (unfold free_start; Z.div_mod_to_equations; lia).
  assert (Hs : free_start fs mod 4096 = 0) by (apply Z.mod_mul; lia). unfold start_allocators.
  rewrite u64_small by lia. rewrite (proj2 (Z.leb_le _ _)) by (change (SZ_1M * 16) with (2 ^ 24); lia). unfold init_alloc_vpage. rewrite Hvl, Hops.
  cbn [is_vmalloc negb bind rb_phys set_vfree_top].
  destruct (phys_dance (free_start fs) (free_end d - free_start fs) (rb_phys b) Hpl Hpr) as (ph1 & ph2 & ph & -> & E2 & E3 & Hb & Ht); [lia..|].
  cbn [bind]. rewrite E2. cbn [bind]. rewrite E3. cbn [bind rb_mmu set_phys set_vfree_top].
  replace (free_start fs + (free_end d - free_start fs)) with (free_end d) in * by lia. rewrite !Z.eqb_refl. cbn [andb].
  unfold PAGE_SHIFT. rewrite !Z.shiftr_div_pow2 by lia. change (2 ^ 12) with 4096.
  pose proof (first_area_spec (free_page_of d fs) (free_start fs / 4096) (free_end d / 4096) (mm_pages (rb_mmu b)) Hm Hl) as H.
  apply post_inv in H as (a & -> & Hlive & Hi & Hla); [..|Z.div_mod_to_equations; lia|Z.div_mod_to_equations; lia|Z.div_mod_to_equations; lia|].
  - cbn [bind]. rewrite ops_enable_spec by done. cbn [bind post]. constructor; try done; cbn; by rewrite ?Hops.
  - intros f Hf. unfold free_page_of, page_addr. rewrite vaddr_mul. change PAGE_SIZE with 4096. rewrite Z.mod_mul by done. Z.div_mod_to_equations. lia.
Qed.

(** The region of the free memory ends where virtual addresses begin. *)
Definition cut_regions (live : list mem_region) (k : nat) (d : mem_region) : list mem_region :=
  if VA_BASE <? mr_end d
  then <[length live := mk_region VA_BASE (mr_end d) MR_F_UNUSED]> (split_table live k d VA_BASE)
  else live.

Lemma mem_allocator_init_spec live k d fs b rg :
  rv_start b → mr_ok rg live → disjoint_table live → live !! k = Some d → Z.of_nat (length live) < nr_regions rg →
  page_region d → mr_start d ≤ fs → 0 < fs → free_start fs + 2 ^ 24 ≤ free_end d →
  post (mem_allocator_init k fs (set_regions rg b)) (rv_ready (cut_regions live k d) d fs b).
Proof.
  intros Hst Hrg Hd Hk Hroom Hpr Hfs Hpos Hsz. unfold mem_allocator_init. cbn [rb_regions set_regions].
  assert (Hat : region_at k rg = Ret d).
  { unfold region_at. destruct (ok_split _ _ Hrg) as (blank & -> & _). by rewrite (lookup_app_l_Some _ _ _ _ Hk). }
  rewrite Hat. cbn [bind]. pose proof Hpr as (Hd1 & Hd2 & _ & Hd4).
  assert (Hfb : fs ≤ free_start fs) by (unfold free_start; Z.div_mod_to_equations; lia).
  assert (Hfe : free_end d ≤ mr_end d) by (unfold free_end; lia).
  replace (PAGE_ALIGN fs) with (free_start fs).
  2:{ unfold PAGE_ALIGN. change PAGE_SIZE with (2 ^ 12). rewrite ALIGN_pow2 by lia. unfold free_start. change (2 ^ 12) with 4096. Z.div_mod_to_equations; lia. }
  unfold PHYS_PAGE_MASK. rewrite page_mask by lia. replace (mr_end d / 4096 * 2 ^ 12) with (mr_end d) by (Z.div_mod_to_equations; lia).
  unfold cut_regions. destruct (Z.ltb_spec VA_BASE (mr_end d)) as [Hva|Hva].
  - assert (Hf : find_region live VA_BASE = Some k).
    { apply (find_region_at _ _ _ d Hd Hk). unfold contains. unfold free_end in Hsz. lia. }
    destruct (split_inside rg live k d VA_BASE Hrg Hf Hk) as (rg1 & -> & Hok1 & Hnr); [unfold free_end in Hsz; lia|done|].
    cbn [bind]. rewrite Nat.eqb_refl.
    destruct (update_flags_spec rg1 (split_table live k d VA_BASE) (length live) (λ _, MR_F_UNUSED) (mk_region VA_BASE (mr_end d) (mr_flags d)) Hok1)
      as (rg2 & -> & Hok2 & _).
    { unfold split_table. rewrite lookup_app_r, length_insert, Nat.sub_diag by (by rewrite length_insert). done. }
    cbn [bind]. replace VA_BASE with (free_end d) at 1 by (unfold free_end; lia).
    pose proof (start_allocators_spec _ d fs (set_regions rg2 (set_regions rg b)) ltac:(by destruct Hst) Hok2 Hpr Hfs Hpos Hsz) as H.
    eapply post_mono; [exact H|].
    intros b' [? ? ? ? ? ?]. by constructor.
  - cbn [bind]. replace (mr_end d) with (free_end d) by (unfold free_end; lia).
    eapply post_mono; [apply (start_allocators_spec live d fs (set_regions rg b)); [by destruct Hst|done..]|].
    intros b' [? ? ? ? ? ?]. by constructor.
Qed.

(** ** [mem_init] *)

(** The region [r] is split at [etext] into code and data. *)
Definition code_of (r : mem_region) (etext : Z) : mem_region := mk_region (mr_start r) etext MR_F_CODE.
Definition code_data (live : list mem_region) (i : nat) (r : mem_region) (etext : Z) : list mem_region :=
  <[i := code_of r etext]> (split_table live i r etext).
Definition data_of (r : mem_region) (etext : Z) : mem_region := mk_region etext (mr_end r) (mr_flags r).
Definition final_regions (live : list mem_region) (i : nat) (r : mem_region) (etext : Z) : list mem_region :=
  cut_regions (code_data live i r etext) (length live) (data_of r etext).

(** The program is in the region [r] of the memory, followed by 16 MB below [VA_BASE]. *)
Record loaded (live : list mem_region) (i : nat) (r : mem_region) (etext freemem_start : Z) : Prop := {
  ld_at : live !! i = Some r;
  ld_pages : Forall page_region live;
  ld_disjoint : disjoint_table live;
  ld_text : mr_start r < etext ∧ etext mod 4096 = 0;
  ld_free : etext ≤ freemem_start ∧ free_start freemem_start + 2 ^ 24 ≤ free_end r;
}.

Section tables.
Context (live : list mem_region) (i : nat) (r : mem_region) (etext freemem_start : Z).
Hypothesis Hld : loaded live i r etext freemem_start.
Hypothesis Hflags : mr_flags r = 0.

Lemma loaded_bounds : 0 ≤ mr_start r < etext ∧ etext ≤ freemem_start < mr_end r ∧ mr_end r ≤ 2 ^ 38 ∧ freemem_start < VA_BASE.
Proof.
  destruct Hld as [Hi Hp _ [H1 _] [H2 H3]]. destruct (proj1 (Forall_lookup _ _) Hp i r Hi) as (? & ? & _).
  unfold free_end, free_start in *. Z.div_mod_to_equations. lia.
Qed.

Lemma split_length : length (split_table live i r etext) = S (length live).
Proof. unfold split_table. rewrite length_app, length_insert. cbn. lia. Qed.

Lemma split_at_code : split_table live i r etext !! i = Some (mk_region (mr_start r) etext 0).
Proof.
  pose proof (lookup_lt_Some _ _ _ (ld_at _ _ _ _ _ Hld)). unfold split_table.
  rewrite lookup_app_l by (by rewrite length_insert). rewrite list_lookup_insert_eq by done. by rewrite Hflags.
Qed.

Lemma code_data_disjoint : disjoint_table (code_data live i r etext).
Proof.
  pose proof loaded_bounds. destruct Hld as [Hi _ Hd _ _].
  apply (disjoint_flags _ i MR_F_CODE _ split_at_code), split_table_disjoint; try done; lia.
Qed.

Lemma code_data_free : code_data live i r etext !! length live = Some (data_of r etext).
Proof.
  pose proof (lookup_lt_Some _ _ _ (ld_at _ _ _ _ _ Hld)). unfold code_data. rewrite list_lookup_insert_ne by lia.
  unfold split_table. rewrite lookup_app_r, length_insert, Nat.sub_diag by (by rewrite length_insert). done.
Qed.

Lemma data_page_region : page_region (data_of r etext).
Proof.
  pose proof loaded_bounds. destruct Hld as [Hi Hp _ [_ H1] _]. destruct (proj1 (Forall_lookup _ _) Hp i r Hi) as (? & ? & ? & ?).
  unfold page_region. cbn. lia.
Qed.
End tables.

(** The memory of the device tree, as far as the table has room for it. *)
Definition dt_regions (root : node) : list mem_region :=
  region_of <$> take (Z.to_nat MAX_DT_MEM_REGIONS) (memory_of (with_parents None root)).

Lemma dt_regions_flags root i r : dt_regions root !! i = Some r → mr_flags r = 0.
Proof. unfold dt_regions. rewrite list_lookup_fmap. by intros (x & _ & ->)%fmap_Some. Qed.

Lemma empty_regions : mr_ok (memregions_init riscv_mem_regions NR_MEM_REGIONS) [].
Proof. constructor; [|done|done|done]. eexists. split; [reflexivity|]. cbv. by repeat constructor. Qed.

(** The regions are those of the device tree. *)
Lemma add_dt_regions_spec root :
  let regs := memory_of (with_parents None root) in
  Forall page_region (dt_regions root) → dt_regions root ≠ [] →
  ∃ rg, memregions_add_dt_regions (Z.min MAX_DT_MEM_REGIONS (Z.of_nat (length regs)))
          ((λ r, (pr_addr r, pr_size r)) <$> take (Z.to_nat MAX_DT_MEM_REGIONS) regs) (memregions_init riscv_mem_regions NR_MEM_REGIONS) = Ret rg ∧
    mr_ok rg (dt_regions root) ∧ nr_regions rg = NR_MEM_REGIONS.
Proof.
  intros regs Hp Hne. unfold memregions_add_dt_regions, dt_regions in *. fold regs in Hp, Hne |- *.
  assert (Hl : (0 < length regs)%nat) by (destruct regs; [done|cbn; lia]). change MAX_DT_MEM_REGIONS with 16 in *. rewrite (proj2 (Z.ltb_lt _ _)) by lia.
  rewrite take_ge by (rewrite length_fmap, length_take; lia).
  destruct (add_dt_loop_spec (take (Z.to_nat 16) regs) _ [] empty_regions) as (rg & -> & Hok & Hnr).
  - rewrite Forall_fmap in Hp. eapply Forall_impl; [exact Hp|]. intros x (H1 & H2 & _). cbn in *. lia.
  - rewrite length_take. change (nr_regions _) with 32. change (length []) with O. lia.
  - by exists rg.
Qed.

Lemma mem_init_spec m L fdt root `{!fdt_tree m fdt root} i r etext fs b : lits_ok m L →
  (∀ p n, (Some p, n) ∈ with_parents None root → has_type (lit "memory") n = true → cells_fit p) →
  loaded (dt_regions root) i r etext fs → rv_start b →
  post (mem_init m L fdt etext fs b) (rv_ready (final_regions (dt_regions root) i r etext) (data_of r etext) fs b).
Proof.
  intros HL Hc Hld Hst. unfold mem_init. rewrite (memory_params_spec m L fdt root) by done. cbn [bind].
  pose proof (ld_at _ _ _ _ _ Hld) as Hi. pose proof (dt_regions_flags _ _ _ Hi) as Hf. pose proof (loaded_bounds _ _ _ _ _ Hld) as Hb.
  destruct (add_dt_regions_spec root (ld_pages _ _ _ _ _ Hld)) as (rg & -> & Hok & Hnr); [by intros E; rewrite E in Hi|]. cbn [bind].
  assert (Hlen : (length (dt_regions root) ≤ 16)%nat) by (unfold dt_regions; rewrite length_fmap, length_take; change (Z.to_nat MAX_DT_MEM_REGIONS) with 16%nat; lia).
  destruct (split_inside rg _ i r etext Hok) as (rg1 & -> & Hok1 & Hnr1); [|done|lia|rewrite Hnr; change NR_MEM_REGIONS with 32; lia|].
  { apply (find_region_at _ _ _ r (ld_disjoint _ _ _ _ _ Hld) Hi). unfold contains. lia. }
  cbn [bind]. destruct (update_flags_spec rg1 _ i (λ f, Z.lor f MR_F_CODE) _ Hok1 (split_at_code _ _ _ _ _ Hld Hf)) as (rg2 & -> & Hok2 & Hnr2).
  cbn [bind]. change (<[i:=_]> _) with (code_data (dt_regions root) i r etext) in Hok2.
  pose proof (code_data_disjoint _ _ _ _ _ Hld Hf) as Hd. pose proof (code_data_free _ _ _ _ _ Hld) as Hk.
  rewrite (memregions_find_spec _ _ _ Hok2), (find_region_at _ _ _ _ Hd Hk) by (unfold contains; cbn; lia). cbn [bind].
  assert (Hat : region_at (length (dt_regions root)) rg2 = Ret (data_of r etext)).
  { unfold region_at. destruct (ok_split _ _ Hok2) as (blank & -> & _). by rewrite (lookup_app_l_Some _ _ _ _ Hk). }
  rewrite Hat. cbn [bind mr_flags data_of]. rewrite Hf. cbn [Z.land Z.eqb].
  apply mem_allocator_init_spec; try done; [|by eapply data_page_region|cbn; lia|lia|apply Hld].
  unfold code_data. rewrite length_insert, split_length, Hnr2, Hnr1, Hnr. change NR_MEM_REGIONS with 32. lia.
Qed.

(** ** The table after [mem_init] *)

Lemma split_lookup live i r addr j q : (i < length live)%nat → split_table live i r addr !! j = Some q →
  (j = i ∧ q = mk_region (mr_start r) addr (mr_flags r)) ∨ (j = length live ∧ q = mk_region addr (mr_end r) (mr_flags r)) ∨
  (j ≠ i ∧ live !! j = Some q).
Proof.
  intros Hi. unfold split_table. rewrite lookup_app, length_insert. destruct (decide (j = i)) as [->|Hne].
  - rewrite list_lookup_insert_eq by done. intros [= <-]. by left.
  - rewrite list_lookup_insert_ne by done. destruct (live !! j) as [q0|] eqn:E; [intros [= <-]; by right; right|].
    apply lookup_ge_None in E. destruct (j - length live)%nat as [|x] eqn:Ex; [|by destruct x]. intros [= <-]. right; left. split; [lia|done].
Qed.

(** The table [l'] describes the same addresses as [l]. *)
Definition same_addresses (l l' : list mem_region) : Prop :=
  ∀ a, (∃ j q, l !! j = Some q ∧ contains q a) ↔ (∃ j q, l' !! j = Some q ∧ contains q a).

Lemma same_addresses_flags l i f r : l !! i = Some r → same_addresses l (<[i := with_flags f r]> l).
Proof.
  intros Hi a. pose proof (lookup_lt_Some _ _ _ Hi). split; intros (j & q & Hj & Hq); destruct (decide (j = i)) as [->|Hne].
  - exists i, (with_flags f r). rewrite list_lookup_insert_eq by done. by simplify_eq.
  - exists j, q. by rewrite list_lookup_insert_ne.
  - rewrite list_lookup_insert_eq in Hj by done. exists i, r. by simplify_eq.
  - rewrite list_lookup_insert_ne in Hj by done. eauto.
Qed.

Lemma same_addresses_split l i r addr : l !! i = Some r → mr_start r < addr < mr_end r → same_addresses l (split_table l i r addr).
Proof.
  intros Hi Ha a. pose proof (lookup_lt_Some _ _ _ Hi) as Hlt. split; intros (j & q & Hj & Hq).
  - destruct (decide (j = i)) as [->|Hne].
    + rewrite Hi in Hj. injection Hj as <-. unfold contains in Hq. destruct (decide (a < addr)).
      * exists i, (mk_region (mr_start r) addr (mr_flags r)). unfold split_table. rewrite lookup_app_l by (by rewrite length_insert).
        rewrite list_lookup_insert_eq by done. split; [done|]. unfold contains. cbn. lia.
      * exists (length l), (mk_region addr (mr_end r) (mr_flags r)). unfold split_table. rewrite lookup_app_r, length_insert, Nat.sub_diag by (by rewrite length_insert).
        split; [done|]. unfold contains. cbn. lia.
    + exists j, q. unfold split_table. rewrite lookup_app_l by (rewrite length_insert; by eapply lookup_lt_Some). by rewrite list_lookup_insert_ne.
  - destruct (split_table_inv l i r addr j q a Hi) as (k & q0 & Hk & Hq0 & _); try done; try lia. eauto.
Qed.

Section final.
Context (live : list mem_region) (i : nat) (r : mem_region) (etext freemem_start : Z).
Hypothesis Hld : loaded live i r etext freemem_start.
Hypothesis Hflags : ∀ j q, live !! j = Some q → mr_flags q = 0.

Lemma loaded_flags : mr_flags r = 0.
Proof. exact (Hflags i r (ld_at _ _ _ _ _ Hld)). Qed.

Lemma index_lt : (i < length live)%nat.
Proof. exact (lookup_lt_Some _ _ _ (ld_at _ _ _ _ _ Hld)). Qed.

Lemma code_data_length : length (code_data live i r etext) = S (length live).
Proof. unfold code_data. by rewrite length_insert, split_length. Qed.

(** The regions of the table: the code, or whole pages of other memory. *)
Lemma code_data_lookup j q : code_data live i r etext !! j = Some q →
  page_region q ∧ ((j = i ∧ q = code_of r etext) ∨ (j ≠ i ∧ mr_flags q = 0)).
Proof.
  pose proof index_lt as Hi. pose proof (loaded_bounds _ _ _ _ _ Hld) as Hb. pose proof (data_page_region _ _ _ _ _ Hld) as Hd. pose proof loaded_flags as Hr.
  destruct Hld as [Hat Hp _ [_ He] _]. destruct (proj1 (Forall_lookup _ _) Hp i r Hat) as (_ & _ & Hs & _).
  unfold code_data. destruct (decide (j = i)) as [->|Hne].
  - rewrite list_lookup_insert_eq by (rewrite split_length; lia). intros [= <-]. split; [|by left]. unfold page_region. cbn. lia.
  - rewrite list_lookup_insert_ne by done. intros [[-> _]|[[-> ->]|[_ H]]]%split_lookup; [done|by split; [|right]| |done].
    split; [exact (proj1 (Forall_lookup _ _) Hp j q H)|right; by eauto].
Qed.

Lemma final_lookup j q : final_regions live i r etext !! j = Some q →
  page_region q ∧ ((j = i ∧ q = code_of r etext) ∨ (j ≠ i ∧ (mr_flags q = 0 ∨ mr_flags q = MR_F_UNUSED))).
Proof.
  pose proof index_lt as Hi. pose proof (loaded_bounds _ _ _ _ _ Hld) as Hb. pose proof (data_page_region _ _ _ _ _ Hld) as (_ & _ & Hd3 & Hd4).
  pose proof loaded_flags as Hr.
  unfold final_regions, cut_regions. rewrite code_data_length. destruct (Z.ltb_spec VA_BASE (mr_end (data_of r etext))) as [Hva|_].
  2:{ intros [Hp H]%code_data_lookup. split; [done|]. naive_solver. }
  cbn [mr_end data_of] in *. assert (Hk : (length live < length (code_data live i r etext))%nat) by (rewrite code_data_length; lia).
  destruct (decide (j = S (length live))) as [->|Hne].
  - rewrite list_lookup_insert_eq by (unfold split_table; rewrite length_app, length_insert, code_data_length; cbn; lia).
    intros [= <-]. split; [unfold page_region; cbn; split_and!; try done; lia|]. right. split; [lia|by right].
  - rewrite list_lookup_insert_ne by done. rewrite <- code_data_length in Hne.
    intros [[-> ->]|[[-> _]|[Hj [Hp H]%code_data_lookup]]]%split_lookup; [|done| |done].
    + split; [unfold page_region; cbn; split_and!; try done; lia|]. right. split; [lia|by left].
    + split; [done|]. naive_solver.
Qed.

Lemma final_code : final_regions live i r etext !! i = Some (code_of r etext).
Proof.
  pose proof index_lt as Hi. assert (Hc : code_data live i r etext !! i = Some (code_of r etext)).
  { unfold code_data. apply list_lookup_insert_eq. rewrite split_length. lia. }
  unfold final_regions, cut_regions. rewrite code_data_length. destruct (VA_BASE <? _); [|done].
  rewrite list_lookup_insert_ne by lia. unfold split_table. rewrite lookup_app_l by (rewrite length_insert, code_data_length; lia).
  by rewrite list_lookup_insert_ne by lia.
Qed.

Lemma final_disjoint : disjoint_table (final_regions live i r etext).
Proof.
  pose proof (code_data_disjoint _ _ _ _ _ Hld loaded_flags) as Hd. pose proof (code_data_free _ _ _ _ _ Hld) as Hk. pose proof (loaded_bounds _ _ _ _ _ Hld).
  unfold final_regions, cut_regions. destruct (Z.ltb_spec VA_BASE (mr_end (data_of r etext))) as [Hva|_]; [|done].
  apply (disjoint_flags _ _ MR_F_UNUSED (mk_region VA_BASE (mr_end r) (mr_flags r))); [|by apply split_table_disjoint; cbn; try lia].
  unfold split_table. rewrite lookup_app_r, length_insert, Nat.sub_diag by (by rewrite length_insert). done.
Qed.

Lemma final_addresses : same_addresses live (final_regions live i r etext).
Proof.
  pose proof (code_data_free _ _ _ _ _ Hld) as Hk. pose proof (loaded_bounds _ _ _ _ _ Hld). pose proof (ld_at _ _ _ _ _ Hld) as Hi.
  assert (H1 : same_addresses live (code_data live i r etext)).
  { intros a. rewrite (same_addresses_split live i r etext Hi ltac:(lia) a). by apply (same_addresses_flags _ i MR_F_CODE _ (split_at_code _ _ _ _ _ Hld loaded_flags)). }
  unfold final_regions, cut_regions. destruct (Z.ltb_spec VA_BASE (mr_end (data_of r etext))) as [Hva|_]; [|done].
  intros a. rewrite (H1 a), (same_addresses_split _ _ _ VA_BASE Hk ltac:(cbn in *; lia) a).
  apply (same_addresses_flags _ _ MR_F_UNUSED (mk_region VA_BASE (mr_end r) (mr_flags r))).
  unfold split_table. rewrite lookup_app_r, length_insert, Nat.sub_diag by (by rewrite length_insert). done.
Qed.
End final.
