(* ===== verification/RiscvSetupThms.v ===== *)
(** * lib/riscv/setup.c: theorems

    [mem_init] and [setup_vm] together: from the memory nodes of the device
    tree to a page table that maps this memory to itself. *)

From Stdlib Require Import String.
From S2P Require Import Prelude.
From S2P Require Import AllocPage.
From S2P Require Import AllocPageProps.
From S2P Require Import AllocPhys.
From S2P Require Import Alloc.
From S2P Require Import Memregions.
From S2P Require Import PageMem.
From S2P Require Import CMem.
From S2P Require Import FdtTree.
From S2P Require Import FdtThms.
From S2P Require Import FdtSearch.
From S2P Require Import DeviceTree.
From S2P Require Import DtProps.
From S2P Require Import DtExample.
From S2P Require Import RiscvMmu.
From S2P Require Import RiscvMmuProps.
From S2P Require Import RiscvMmuThms.
From S2P Require Import RiscvSetup.
From S2P Require Import RiscvSetupProps.

(** The code of the program is readable and executable, other memory readable
    and writable. *)
Definition prot_at (r : mem_region) (etext a : Z) : Z :=
  if decide (mr_start r ≤ a < etext) then Z.lor _PAGE_READ _PAGE_EXEC else Z.lor _PAGE_READ _PAGE_WRITE.

(** Regions of whole pages contain a page or nothing of it. *)
Lemma page_region_page q a : page_region q → contains q (a / 4096 * 4096) ↔ contains q a.
Proof.
  intros (_ & _ & Hs & He). apply Z.mod_divide in Hs as [s Hs], He as [e He]; [|done..]. unfold contains. rewrite Hs, He.
  Z.div_mod_to_equations. lia.
Qed.

Lemma region_tables_app l blank : Forall (λ q, page_region q) l → Forall (λ q, mr_end q = 0) blank → region_tables (l ++ blank) = region_tables l.
Proof.
  intros Hl Hb. induction Hl as [|q l [Hq _] _ IH]; cbn [app region_tables].
  - destruct Hb as [|q blank Hq _]; [done|]. cbn [region_tables]. by rewrite Hq.
  - rewrite IH. done.
Qed.

Section mapped.
Context (live : list mem_region) (i : nat) (r : mem_region) (etext freemem_start : Z).
Hypothesis Hld : loaded live i r etext freemem_start.
Hypothesis Hflags : ∀ j q, live !! j = Some q → mr_flags q = 0.
Let fin := final_regions live i r etext.

Lemma final_pages : Forall (λ q, page_region q ∧ region_mapped q = true) fin.
Proof.
  apply Forall_lookup. intros j q [Hp H]%(final_lookup live i r etext freemem_start Hld Hflags). split; [done|]. unfold region_mapped.
  destruct H as [[_ ->]|[_ [->| ->]]]; done.
Qed.

(** The protection of the region of an address. *)
Lemma final_prot j q a : fin !! j = Some q → contains q a → region_prot q = prot_at r etext a.
Proof.
  intros Hj Ha. destruct (final_lookup live i r etext freemem_start Hld Hflags j q Hj) as [Hp [[-> ->]|[Hne Hf]]].
  - unfold prot_at. by rewrite decide_True.
  - unfold prot_at. rewrite decide_False; [unfold region_prot; by destruct Hf as [->| ->]|]. intros Hc. apply Hne.
    assert (H : ∃ j' q', fin !! j' = Some q' ∧ j' = i ∧ contains q' a).
    { pose proof (final_code live i r etext freemem_start Hld). eauto 10. }
    destruct H as (j' & q' & Hj' & -> & Ha'). by apply (final_disjoint live i r etext freemem_start Hld Hflags j i q q' a).
Qed.

Lemma final_find a :
  region_prot <$> (j ← find_region fin a; fin !! j) = match find_region live a with Some _ => Some (prot_at r etext a) | None => None end.
Proof.
  pose proof (final_addresses live i r etext freemem_start Hld Hflags a) as Hs. fold fin in Hs. destruct (find_region fin a) as [j|] eqn:Ej.
  - destruct (find_region_Some _ _ _ Ej) as (q & Hj & Hq). cbn [mbind option_bind]. rewrite Hj. cbn. rewrite (final_prot j q a Hj Hq).
    destruct (find_region live a) eqn:E; [done|]. destruct (proj2 Hs) as (k & q' & Hk & Hq'); [by eauto|]. by destruct (find_region_None _ _ _ _ E Hk).
  - destruct (find_region live a) as [k|] eqn:E; [|done]. destruct (find_region_Some _ _ _ E) as (q & Hk & Hq).
    destruct (proj1 Hs) as (j & q' & Hj & Hq'); [by eauto|]. by destruct (find_region_None _ _ _ _ Ej Hj).
Qed.

(** The page of an address and the address. *)
Lemma find_page a : 
  match find_region live (a / 4096 * 4096) with Some _ => Some (prot_at r etext (a / 4096 * 4096)) | None => None end =
  match find_region live a with Some _ => Some (prot_at r etext a) | None => None end.
Proof.
  destruct Hld as [Hi Hp Hd [_ He] _]. rewrite Forall_lookup in Hp.
  assert (Ef : find_region live (a / 4096 * 4096) = find_region live a).
  { destruct (find_region live a) as [k|] eqn:E.
    - destruct (find_region_Some _ _ _ E) as (q & Hk & Hq). apply (find_region_at _ _ _ q Hd Hk). by apply page_region_page; [eapply Hp|].
    - destruct (find_region live (_ * _)) as [k|] eqn:E'; [|done]. destruct (find_region_Some _ _ _ E') as (q & Hk & Hq).
      destruct (find_region_None _ _ _ _ E Hk). by apply page_region_page; [eapply Hp|]. }
  rewrite Ef. destruct (find_region live a); [|done]. f_equal. unfold prot_at. destruct (Hp _ _ Hi) as (_ & _ & Hs & _).
  apply Z.mod_divide in Hs as [s Hs], He as [e He]; [|done..]. rewrite Hs, He. destruct (decide (s * 4096 ≤ a < _)), (decide (s * 4096 ≤ a / _ * _ < _)); try done;
    Z.div_mod_to_equations; lia.
Qed.

(** The page table protection of every canonical address. *)
Lemma final_page_prot blank va : Forall (λ q, mr_end q = 0) blank → 0 ≤ va < 2 ^ 64 → canonical va = true →
  page_prot (fin ++ blank) (va_page va 0) = match find_region live va with Some _ => Some (prot_at r etext va) | None => None end.
Proof.
  intros Hb Hva Hc. rewrite page_prot_find; [|by eapply final_disjoint|apply final_pages|done]. rewrite final_find.
  unfold va_page. change (2 ^ (12 + 9 * Z.of_nat 0)) with 4096. apply orb_true_iff in Hc as [Hc%Z.ltb_lt|Hc%Z.leb_le].
  - rewrite (Z.mod_small va) by lia. apply find_page.
  - assert (Hn : ∀ a, 2 ^ 38 ≤ a → find_region live a = None).
    { intros a Ha. destruct (find_region live a) as [k|] eqn:E; [|done]. destruct (find_region_Some _ _ _ E) as (q & Hk & [_ Hq]).
      destruct (proj1 (Forall_lookup _ _) (ld_pages _ _ _ _ _ Hld) k q Hk) as (_ & ? & _). lia. }
    rewrite !Hn by (Z.div_mod_to_equations; lia). done.
Qed.
End mapped.

(** ** [setup_vm] *)

Lemma get_unused_empty ph : p_base ph = p_top ph → phys_alloc_get_unused ph = Ret (p_top ph, p_top ph, ph).
Proof. intros E. unfold phys_alloc_get_unused. by rewrite E, Z.eqb_refl. Qed.

Lemma rv_setup_vm_spec fin d fs b b1 :
  rv_ready fin d fs b b1 → Forall (λ q, page_region q ∧ region_mapped q = true) fin →
  __initial_pgtable (rb_mmu b) = 0 → (∀ p, free_page_of d fs p → PageMem.words (mm_mem (rb_mmu b)) p) → 0 ≤ free_end d < 2 ^ 64 →
  unless_full page_alloc_pages pages_full (S (region_tables fin)) (mm_pages (rb_mmu b1)) (setup_vm b1) (λ b2, ∃ blank tabs P,
    Forall (λ q, mr_end q = 0) blank ∧
    mmu_inv (pages_live (free_page_of d fs)) (free_page_of d fs) (rb_page_root b2) tabs P (rb_mmu b2) ∧
    enabled (rb_page_root b2) (rb_mmu b2) ∧ rb_ops b2 = vmalloc_ops ∧ rb_vfree_top b2 = VA_TOP ∧
    (∀ a, (∀ p k, is_Some (tabs !! p) → 0 ≤ k < 512 → a ≠ p + 8 * k) → mm_mem (rb_mmu b2) !! a = mm_mem (rb_mmu b) !! a) ∧
    ∀ va, 0 ≤ va < 2 ^ 64 → canonical va = true →
      sv39 (mm_mem (rb_mmu b2)) (rb_page_root b2) va =
        match page_prot (fin ++ blank) (va_page va 0) with Some prot => Some (va, page_flags prot) | None => None end).
Proof.
  intros [Hrg [Hb Ht] Hmm Hlive Hinit (Hvl & Hops & Htop)] Hfin Hi0 Hw Hfe. unfold setup_vm, __setup_vm. rewrite Hops. cbn [is_vmalloc].
  rewrite get_unused_empty by congruence. cbn [bind]. cbn [rb_mmu set_phys]. rewrite Hinit, orb_true_r. cbn [bind rb_phys set_phys].
  rewrite get_unused_empty by congruence. cbn [bind rb_regions rb_mmu set_phys]. rewrite Z.eqb_refl. cbn [negb].
  destruct (ok_blank _ _ Hrg) as (blank & El & Hbl & Hne). apply unless_bind.
  assert (He : early (pages_live (free_page_of d fs)) (free_page_of d fs) ∅ ∅ (rb_mmu b1)).
  { rewrite Hmm. constructor; cbn; [by rewrite Hi0|done|by intros p [? ?]|done]. }
  pose proof (rv_setup_mmu_spec page_alloc_pages _ pages_full _ (rb_regions b1) (p_top (rb_phys b1)) ∅ ∅ (rb_mmu b1) He) as H.
  cbv zeta in H. rewrite El, region_tables_app in H by (done || (eapply Forall_impl; [exact Hfin|by intros q []])).
  eapply unless_mono; [apply H; [by apply regions_ok_live|lia]|]. intros [root s] (tabs & P & Hinv & Hen & _ & Hg & Hsv). right.
  cbn [bind rb_vlock set_page_root set_mmu set_phys rb_ops]. rewrite Hvl, Hops. cbn [is_vmalloc negb post]. exists blank, tabs, P. split; [done|].
  cbn [rb_mmu rb_page_root rb_ops rb_vfree_top set_ops set_page_root set_mmu set_phys]. split_and!; try done.
  - intros a Ha. rewrite (gr_frame _ _ _ _ _ _ _ _ Hg a Ha). cbn. by rewrite Hmm.
  - intros va Hva Hc. rewrite (Hsv va Hva Hc). unfold early_sv39. rewrite Hmm. cbn [__initial_pgtable set_pages]. by rewrite Hi0.
Qed.

(** C5: memory on RISC-V, from the device tree to the page tables.  When the
    program is loaded in a region of the memory that the device tree describes,
    with 16 MB of it behind the program and below the range of virtual
    addresses, [mem_init] succeeds: the table of regions describes this memory,
    the page allocator has the free part and the physical allocator none.  Then
    [setup_vm] enables Sv39 with a well-formed table that maps every address of
    the memory to itself, the code of the program readable and executable and
    all other memory readable and writable, and no other address; no memory but
    the page tables changes, and virtual allocation starts at 4 GB.  It fails
    only if there are fewer free pages than the regions need tables. *)
Theorem riscv_memory_setup_correct m L fdt root i r etext freemem_start b :
  blob_tree m fdt root → lits_ok m L →
  (∀ p n, (Some p, n) ∈ with_parents None root → has_type (lit "memory") n = true → cells_fit p) →
  loaded (dt_regions root) i r etext freemem_start → rv_start b →
  let ram := free_page_of (data_of r etext) freemem_start in
  let fin := final_regions (dt_regions root) i r etext in
  __initial_pgtable (rb_mmu b) = 0 → (∀ p, ram p → PageMem.words (mm_mem (rb_mmu b)) p) →
  post (mem_init m L fdt etext freemem_start b) (λ b1,
    rv_ready fin (data_of r etext) freemem_start b b1 ∧ same_addresses (dt_regions root) fin ∧ disjoint_table fin ∧
    unless_full page_alloc_pages pages_full (S (region_tables fin)) (mm_pages (rb_mmu b1)) (setup_vm b1) (λ b2, ∃ tabs P,
      mmu_inv (pages_live ram) ram (rb_page_root b2) tabs P (rb_mmu b2) ∧ enabled (rb_page_root b2) (rb_mmu b2) ∧
      rb_ops b2 = vmalloc_ops ∧ rb_vfree_top b2 = VA_TOP ∧
      (∀ a, (∀ p k, is_Some (tabs !! p) → 0 ≤ k < 512 → a ≠ p + 8 * k) → mm_mem (rb_mmu b2) !! a = mm_mem (rb_mmu b) !! a) ∧
      ∀ va, 0 ≤ va < 2 ^ 64 → canonical va = true →
        sv39 (mm_mem (rb_mmu b2)) (rb_page_root b2) va =
          match find_region (dt_regions root) va with Some _ => Some (va, page_flags (prot_at r etext va)) | None => None end)).
Proof.
  intros Ht%blob_tree_fdt_tree HL Hc Hld Hst ram fin Hi0 Hw. pose proof (dt_regions_flags root) as Hf.
  pose proof (loaded_bounds _ _ _ _ _ Hld) as Hb. eapply post_mono; [by apply (mem_init_spec m L fdt root i r etext freemem_start b)|].
  intros b1 Hb1. split; [done|]. split; [by eapply final_addresses|]. split; [by eapply final_disjoint|].
  eapply unless_mono; [apply (rv_setup_vm_spec _ _ _ b b1 Hb1); try done|].
  - by eapply final_pages.
  - unfold free_end. cbn. unfold VA_BASE, SZ_1G. lia.
  - intros b2 (blank & tabs & P & Hbl & Hinv & Hen & Ho & Hv & Hfr & Hsv). exists tabs, P. split_and!; try done.
    intros va Hva Hcan. rewrite (Hsv va Hva Hcan), (final_page_prot _ _ _ _ _ Hld Hf blank va Hbl Hva Hcan). by destruct (find_region _ va).
Qed.

(** ** A machine with 128 MB of memory at 1 GB and a page at 4 GB *)

Definition zero_words (base : Z) (n : nat) : pmem := list_to_map ((λ k, (base + 8 * k, 0)) <$> seqZ 0 (Z.of_nat n)).

Lemma zero_words_at base n k : 0 ≤ k < Z.of_nat n → zero_words base n !! (base + 8 * k) = Some 0.
Proof.
  intros Hk. apply elem_of_list_to_map_1.
  - rewrite <- list_fmap_compose. apply NoDup_fmap_2; [intros x y; cbn; lia|apply NoDup_seqZ].
  - apply list_elem_of_fmap. exists k. by rewrite elem_of_seqZ.
Qed.

Lemma two_disjoint q q' : mr_end q ≤ mr_start q' → disjoint_table [q; q'].
Proof. intros H [|[|j1]] [|[|j2]] q1 q2 a [= <-] [= <-] [? ?] [? ?]; done || lia. Qed.

Definition rv_demo_region : mem_region := mk_region (2 ^ 30) (2 ^ 30 + 2 ^ 27) 0.
Definition rv_demo_etext : Z := 2 ^ 30 + 2 ^ 16.
Definition rv_demo_free : Z := 2 ^ 30 + 2 ^ 27 - 2 ^ 25 + 5.
(** A word for each of the last 2^25 bytes of the region. *)
Definition rv_demo_words : pmem := zero_words (2 ^ 30 + 2 ^ 27 - 2 ^ 25) (Z.to_nat (2 ^ 22)).
Definition rv_demo : rv_boot :=
  mk_rvb (mk_mr [] 0) (mk_phys [mk_pr 0 0] 0 false 0 0 0 false []) (mk_mmu rv_demo_words boot 0 0) early_ops false 0 0.

Lemma rv_demo_loaded : loaded (dt_regions (Machine.root 2)) 0 rv_demo_region rv_demo_etext rv_demo_free.
Proof.
  assert (E : dt_regions (Machine.root 2) = [rv_demo_region; mk_region (2 ^ 32) (2 ^ 32 + 4096) 0]) by (vm_compute; reflexivity).
  rewrite E. constructor; [done| |by apply two_disjoint|by split|by split].
  repeat constructor; done.
Qed.

Lemma rv_demo_ram p : free_page_of (data_of rv_demo_region rv_demo_etext) rv_demo_free p →
  PageMem.words (mm_mem (rb_mmu rv_demo)) p.
Proof.
  intros ([Ha _] & _ & Hr) k Hk. exists 0. change PAGE_SIZE with 4096 in Ha.
  change (free_start rv_demo_free) with (2 ^ 30 + 2 ^ 27 - 2 ^ 25 + 4096) in Hr.
  change (free_end _) with (2 ^ 30 + 2 ^ 27) in Hr. cbn [mm_mem rb_mmu rv_demo]. unfold rv_demo_words.
  apply Z.mod_divide in Ha as [x Ha]; [|done].
  replace (p + 8 * k) with (2 ^ 30 + 2 ^ 27 - 2 ^ 25 + 8 * (x * 512 - (2 ^ 27 + 2 ^ 24 - 2 ^ 22) + k)) by lia. apply zero_words_at.
  rewrite Z2Nat.id; lia.
Qed.

#[local] Opaque rv_demo_words.

Lemma riscv_memory_setup_correct_witness :
  post (mem_init (Machine.mem 2) Machine.L 4096 rv_demo_etext rv_demo_free rv_demo) (λ b1,
    unless_full page_alloc_pages pages_full (S (region_tables (final_regions (dt_regions (Machine.root 2)) 0 rv_demo_region rv_demo_etext)))
      (mm_pages (rb_mmu b1)) (setup_vm b1) (λ b2,
      rb_ops b2 = vmalloc_ops ∧ rb_vfree_top b2 = 2 ^ 32 ∧
      sv39 (mm_mem (rb_mmu b2)) (rb_page_root b2) (2 ^ 30 + 12) = Some (2 ^ 30 + 12, page_flags (Z.lor _PAGE_READ _PAGE_EXEC)) ∧
      sv39 (mm_mem (rb_mmu b2)) (rb_page_root b2) (2 ^ 32) = Some (2 ^ 32, page_flags (Z.lor _PAGE_READ _PAGE_WRITE)) ∧
      sv39 (mm_mem (rb_mmu b2)) (rb_page_root b2) 12345 = None)).
Proof.
  eapply post_mono; [apply (riscv_memory_setup_correct (Machine.mem 2) Machine.L 4096 (Machine.root 2) 0 rv_demo_region rv_demo_etext rv_demo_free rv_demo)|].
  - exact Machine.machine_blob.
  - exact (Machine.mem_lits 2 (or_introl eq_refl)).
  - exact Machine.parents_fit.
  - exact rv_demo_loaded.
  - by constructor.
  - reflexivity.
  - intros p. by apply rv_demo_ram.
  - intros b1 (_ & _ & _ & H). eapply unless_mono; [exact H|]. intros b2 (tabs & P & _ & _ & Ho & Hv & _ & Hsv).
    split; [done|]. split; [done|]. split; [|split]; (rewrite Hsv; [by vm_compute|lia|by vm_compute]).
Defined.
