(* ===== verification/Virtio.v ===== *)
(** * lib/virtio.c: queues shared with a device

    A queue consists of the driver's structure and of rings in memory that the
    device reads and writes as well.  Every statement of
    [virtqueue_add_outbuf] that stores something is an instruction, so that the
    device can run between any two of them.  The flexible array [data] has as
    many entries as the caller allocated behind the structure. *)

From S2P Require Import Prelude.

(** ** lib/virtio.h *)

Definition VRING_DESC_F_NEXT : Z := 1.

Record vring_desc := Desc { d_addr : Z; d_len : Z; d_flags : Z; d_next : Z }.
Record vring_used_elem := UsedElem { u_id : Z; u_len : Z }.
#[global] Instance vring_desc_eq_dec : EqDecision vring_desc.
Proof. solve_decision. Defined.
#[global] Instance vring_used_elem_eq_dec : EqDecision vring_used_elem.
Proof. solve_decision. Defined.

(** [struct vring]: where the rings lie. *)
Record vring := Vring { num : Z; desc : Z; avail : Z; used : Z }.

(** The contents of the rings. *)
Record rings := Rings {
  descs : list vring_desc;
  avail_idx : Z;
  avail_ring : list Z;
  used_idx : Z;
  used_ring : list vring_used_elem
}.

Record vring_virtqueue := Vq {
  vq_callback : Z;
  vq_name : Z;
  vq_vdev : Z;
  vq_index : Z;
  num_free : Z;
  vr : vring;
  free_head : Z;
  num_added : Z;
  last_used_idx : Z;
  vq_notify : Z;
  data : list Z
}.

Record queue := Queue { vq : vring_virtqueue; ring : rings }.

(** Updates of fields. *)
Definition set_vring (v : vring) (q : vring_virtqueue) : vring_virtqueue :=
  Vq (vq_callback q) (vq_name q) (vq_vdev q) (vq_index q) (num_free q) v (free_head q) (num_added q) (last_used_idx q) (vq_notify q) (data q).
Definition set_num_free (n : Z) (q : vring_virtqueue) : vring_virtqueue :=
  Vq (vq_callback q) (vq_name q) (vq_vdev q) (vq_index q) n (vr q) (free_head q) (num_added q) (last_used_idx q) (vq_notify q) (data q).
Definition set_free_head (h : Z) (q : vring_virtqueue) : vring_virtqueue :=
  Vq (vq_callback q) (vq_name q) (vq_vdev q) (vq_index q) (num_free q) (vr q) h (num_added q) (last_used_idx q) (vq_notify q) (data q).
Definition set_num_added (n : Z) (q : vring_virtqueue) : vring_virtqueue :=
  Vq (vq_callback q) (vq_name q) (vq_vdev q) (vq_index q) (num_free q) (vr q) (free_head q) n (last_used_idx q) (vq_notify q) (data q).
Definition set_last_used (n : Z) (q : vring_virtqueue) : vring_virtqueue :=
  Vq (vq_callback q) (vq_name q) (vq_vdev q) (vq_index q) (num_free q) (vr q) (free_head q) (num_added q) n (vq_notify q) (data q).
Definition set_data (d : list Z) (q : vring_virtqueue) : vring_virtqueue :=
  Vq (vq_callback q) (vq_name q) (vq_vdev q) (vq_index q) (num_free q) (vr q) (free_head q) (num_added q) (last_used_idx q) (vq_notify q) d.
Definition set_descs (d : list vring_desc) (r : rings) : rings :=
  Rings d (avail_idx r) (avail_ring r) (used_idx r) (used_ring r).
Definition set_avail (i : Z) (l : list Z) (r : rings) : rings :=
  Rings (descs r) i l (used_idx r) (used_ring r).
Definition set_used (i : Z) (l : list vring_used_elem) (r : rings) : rings :=
  Rings (descs r) (avail_idx r) (avail_ring r) i l.
Definition on_vq (f : vring_virtqueue → vring_virtqueue) (q : queue) : queue := Queue (f (vq q)) (ring q).
Definition on_ring (f : rings → rings) (q : queue) : queue := Queue (vq q) (f (ring q)).

Definition set_desc (h : Z) (f : vring_desc → vring_desc) (q : queue) : res queue :=
  let* d := arr_get (descs (ring q)) h in
  let* l := arr_set (descs (ring q)) h (f d) in
  Ret (on_ring (set_descs l) q).

(** ** Initialisation *)

Definition vring_init (n p align : Z) : vring :=
  let avail := u64 (p + n * 16) in
  Vring n p avail (u64 (Z.land (avail + 4 + 2 * n + 2 + align - 1) (Z.lnot (align - 1)))).

(** The loop over the descriptors. *)
Definition init_desc (i : Z) (q : queue) : res queue :=
  let* q := set_desc i (λ d, Desc (d_addr d) (d_len d) (d_flags d) (u16 (i + 1))) q in
  let* l := arr_set (data (vq q)) i 0 in
  Ret (on_vq (set_data l) q).

Definition vring_init_virtqueue (q : queue) (index n vring_align vdev pages notify callback name : Z) : res queue :=
  let v := vring_init n pages vring_align in
  let q := Queue (Vq callback name vdev index n v 0 0 0 notify (data (vq q))) (ring q) in
  let* q := for_ (Z.to_nat (u32 (n - 1))) 0 init_desc q in
  let* l := arr_set (data (vq q)) (u32 (n - 1)) 0 in
  Ret (on_vq (set_data l) q).

(** ** Adding a buffer *)

Section queue.
Variable virt_to_phys : Z → Z.

Inductive instr : Type :=
| DecFree
| SetFlags (head : Z)
| SetAddr (head buf : Z)
| SetLen (head len : Z)
| PopFree (head : Z)
| SetData (head buf : Z)
| SetRing (head : Z)
| IncIdx
| IncAdded.

Definition exec (i : instr) (q : queue) : res queue :=
  match i with
  | DecFree => Ret (on_vq (λ v, set_num_free (u32 (num_free v - 1)) v) q)
  | SetFlags h => set_desc h (λ d, Desc (d_addr d) (d_len d) 0 (d_next d)) q
  | SetAddr h buf => set_desc h (λ d, Desc (virt_to_phys buf) (d_len d) (d_flags d) (d_next d)) q
  | SetLen h len => set_desc h (λ d, Desc (d_addr d) len (d_flags d) (d_next d)) q
  | PopFree h =>
      let* d := arr_get (descs (ring q)) h in
      Ret (on_vq (set_free_head (d_next d)) q)
  | SetData h buf =>
      let* l := arr_set (data (vq q)) h buf in
      Ret (on_vq (set_data l) q)
  | SetRing h =>
      let avail := Z.land (avail_idx (ring q)) (u32 (num (vr (vq q)) - 1)) in
      let* l := arr_set (avail_ring (ring q)) avail (u16 h) in
      Ret (on_ring (λ r, set_avail (avail_idx r) l r) q)
  | IncIdx => Ret (on_ring (λ r, set_avail (u16 (avail_idx r + 1)) (avail_ring r) r) q)
  | IncAdded => Ret (on_vq (λ v, set_num_added (u32 (num_added v + 1)) v) q)
  end.

(** What follows the test for a free descriptor. *)
Definition add_instrs (head buf len : Z) : list instr :=
  [DecFree; SetFlags head; SetAddr head buf; SetLen head len; PopFree head; SetData head buf; SetRing head; IncIdx; IncAdded].

Fixpoint exec_all (l : list instr) (q : queue) : res queue :=
  match l with
  | [] => Ret q
  | i :: l => let* q := exec i q in exec_all l q
  end.

Definition virtqueue_add_outbuf (q : queue) (buf len : Z) : res (Z * queue) :=
  assert! (negb (buf =? 0));
  assert! (negb (len =? 0));
  if num_free (vq q) =? 0 then Ret (-1, q) else
  let head := free_head (vq q) in
  let* q := exec_all (add_instrs head buf len) q in
  Ret (0, q).

(** ** Getting a buffer back *)

(** The loop over the descriptors of one buffer. *)
Fixpoint detach_loop (f : nat) (q : queue) (i : Z) : res (queue * Z) :=
  match f with
  | O => Hang
  | S f =>
      let* d := arr_get (descs (ring q)) i in
      if negb (Z.land (d_flags d) VRING_DESC_F_NEXT =? 0)
      then detach_loop f (on_vq (λ v, set_num_free (u32 (num_free v + 1)) v) q) (d_next d)
      else Ret (q, i)
  end.

Definition detach_buf (q : queue) (head : Z) : res queue :=
  let* l := arr_set (data (vq q)) head 0 in
  let q := on_vq (set_data l) q in
  let* '(q, i) := detach_loop (S (length (descs (ring q)))) q head in
  let* q := set_desc i (λ d, Desc (d_addr d) (d_len d) (d_flags d) (u16 (free_head (vq q)))) q in
  Ret (on_vq (λ v, set_num_free (u32 (num_free v + 1)) (set_free_head head v)) q).

(** The buffer and its length. *)
Definition virtqueue_get_buf (q : queue) : res (Z * Z * queue) :=
  let last_used := Z.land (last_used_idx (vq q)) (u32 (num (vr (vq q)) - 1)) in
  let* e := arr_get (used_ring (ring q)) last_used in
  let* ret := arr_get (data (vq q)) (u_id e) in
  let* q := detach_buf q (u_id e) in
  Ret (ret, u_len e, on_vq (λ v, set_last_used (u16 (last_used_idx v + 1)) v) q).

(** [virtqueue_kick] calls the function stored in the queue. *)
Definition virtqueue_kick {D} (notify : Z → vring_virtqueue → D → bool * D) (q : queue) (d : D) : bool * D :=
  notify (vq_notify (vq q)) (vq q) d.
End queue.
