(* ===== verification/VirtioProps.v ===== *)
(** * lib/virtio.c: what driver and device see of each other

    The driver runs interleaved with a device that behaves as the virtio
    specification demands: it takes the available buffers in their order,
    reading the descriptor when it takes one, and gives them back in any order.
    [virtqueue_get_buf] does not look whether the device has given a buffer
    back; a step of the driver may call it at any time.  Whatever the
    interleaving, all values keep their types and all accesses are within the
    rings.  For a driver that calls it only when there is a used buffer, the
    device sees exactly the requests of the driver, and the driver gets back
    the buffers the device is done with; a driver that calls it earlier can
    overwrite a request that the device has not read. *)

From S2P Require Import Prelude.
From S2P Require Import Bitops.
From S2P Require Import Virtio.

(** ** Driver and device *)

(** [todo]: what is left of a call of [virtqueue_add_outbuf]; [last_avail],
    [taken]: the position of the device in the available ring and the buffers
    it works on; [sent], [seen]: the requests (address and length) of the
    driver so far and those the device has read. *)
Record sys := Sys {
  q : queue;
  todo : list instr;
  last_avail : Z;
  taken : list Z;
  sent : list (Z * Z);
  seen : list (Z * Z)
}.

Section system.
Variable virt_to_phys : Z → Z.
Variable k : Z.
Hypothesis Hk : 0 ≤ k ≤ 15.
Local Abbreviation n := (2 ^ k).

(** The position of an index in a ring. *)
Definition pos (i : Z) : Z := Z.land i (u32 (n - 1)).

(** When the driver calls [virtqueue_get_buf]: as the code permits, or only
    when the device has put a buffer into the used ring. *)
Definition any_time (qq : queue) : Prop := True.
Definition when_used (qq : queue) : Prop := last_used_idx (vq qq) ≠ used_idx (ring qq).

Inductive step (may_get : queue → Prop) (s : sys) : sys → Prop :=
| Call buf len : todo s = [] → 0 < buf < 2 ^ 64 → 0 < len < 2 ^ 32 → num_free (vq (q s)) ≠ 0 →
    step may_get s (Sys (q s) (add_instrs (free_head (vq (q s))) buf len) (last_avail s) (taken s)
              (sent s ++ [(virt_to_phys buf, len)]) (seen s))
| Exec i l q' : todo s = i :: l → exec virt_to_phys i (q s) = Ret q' →
    step may_get s (Sys q' l (last_avail s) (taken s) (sent s) (seen s))
| Fetch h d : last_avail s ≠ avail_idx (ring (q s)) →
    arr_get (avail_ring (ring (q s))) (pos (last_avail s)) = Ret h → arr_get (descs (ring (q s))) h = Ret d →
    step may_get s (Sys (q s) (todo s) (u16 (last_avail s + 1)) (taken s ++ [h]) (sent s) (seen s ++ [(d_addr d, d_len d)]))
| Complete t1 h t2 len l : taken s = t1 ++ h :: t2 → 0 ≤ len < 2 ^ 32 →
    arr_set (used_ring (ring (q s))) (pos (used_idx (ring (q s)))) (UsedElem h len) = Ret l →
    step may_get s (Sys (on_ring (set_used (u16 (used_idx (ring (q s)) + 1)) l) (q s)) (todo s) (last_avail s) (t1 ++ t2) (sent s) (seen s))
| GetBuf b len q' : todo s = [] → may_get (q s) → virtqueue_get_buf (q s) = Ret (b, len, q') →
    step may_get s (Sys q' [] (last_avail s) (taken s) (sent s) (seen s)).

Inductive reachable (may_get : queue → Prop) (s0 : sys) : sys → Prop :=
| Start : reachable may_get s0 s0
| Then s s' : reachable may_get s0 s → step may_get s s' → reachable may_get s0 s'.

(** ** The invariant *)

(** [l] lies in the ring from the index [start] on. *)
Definition slice {A} (r : list A) (start : Z) (l : list A) : Prop :=
  ∀ i x, l !! i = Some x → r !! Z.to_nat ((start + Z.of_nat i) mod n) = Some x.

(** The free descriptors are linked from [h] on. *)
Fixpoint linked (ds : list vring_desc) (h : Z) (free : list Z) : Prop :=
  match free with
  | [] => True
  | x :: free => h = x ∧ ∃ d, ds !! Z.to_nat x = Some d ∧ (0 ≤ d_next d < 2 ^ 16) ∧ linked ds (d_next d) free
  end.

(** The descriptor of a buffer in flight. *)
Definition req_at (qq : queue) (h : Z) : option (Z * Z) := (λ d, (d_addr d, d_len d)) <$> descs (ring qq) !! Z.to_nat h.
Definition in_flight (qq : queue) (h : Z) : Prop :=
  ∃ d b, descs (ring qq) !! Z.to_nat h = Some d ∧ data (vq qq) !! Z.to_nat h = Some b ∧
    d_flags d = 0 ∧ b ≠ 0 ∧ d_addr d = virt_to_phys b.

(** The descriptors are split into the free ones, the one being filled, the
    available ones, those of the device and the used ones. *)
Record split (s : sys) (free pend avq usq : list Z) : Prop := {
  sp_num : num (vr (vq (q s))) = n;
  sp_descs : Z.of_nat (length (descs (ring (q s)))) = n;
  sp_data : Z.of_nat (length (data (vq (q s)))) = n;
  sp_avail : Z.of_nat (length (avail_ring (ring (q s)))) = n;
  sp_used : Z.of_nat (length (used_ring (ring (q s)))) = n;
  sp_range : Forall (λ h, 0 ≤ h < n) (free ++ pend ++ avq ++ taken s ++ usq);
  sp_nodup : NoDup (free ++ pend ++ avq ++ taken s ++ usq);
  sp_total : Z.of_nat (length (free ++ pend ++ avq ++ taken s ++ usq)) = n;
  sp_avq : slice (avail_ring (ring (q s))) (last_avail s) avq;
  sp_avail_idx : avail_idx (ring (q s)) = u16 (last_avail s + Z.of_nat (length avq)) ∧ 0 ≤ last_avail s < 2 ^ 16;
  sp_usq : slice (u_id <$> used_ring (ring (q s))) (last_used_idx (vq (q s))) usq;
  sp_used_idx : used_idx (ring (q s)) = u16 (last_used_idx (vq (q s)) + Z.of_nat (length usq)) ∧ 0 ≤ last_used_idx (vq (q s)) < 2 ^ 16;
  sp_flight : Forall (in_flight (q s)) (avq ++ taken s ++ usq);
}.

(** No call is running, or only its last statement, which nobody observes. *)
Definition idle (s : sys) : Prop :=
  (todo s = [] ∨ todo s = [IncAdded]) ∧ ∃ free avq usq, split s free [] avq usq ∧
    linked (descs (ring (q s))) (free_head (vq (q s))) free ∧ num_free (vq (q s)) = Z.of_nat (length free) ∧
    map Some (sent s) = map Some (seen s) ++ map (req_at (q s)) avq.

(** A call for the descriptor [h] has executed its first [j] statements. *)
Definition adding (s : sys) (j : nat) (h buf len : Z) : Prop :=
  todo s = drop j (add_instrs h buf len) ∧ (j < 8)%nat ∧ buf ≠ 0 ∧ ∃ free avq usq d, split s free [h] avq usq ∧
    descs (ring (q s)) !! Z.to_nat h = Some d ∧
    linked (descs (ring (q s))) (free_head (vq (q s))) (if (j <? 5)%nat then h :: free else free) ∧
    num_free (vq (q s)) = Z.of_nat (length free) + (if (j <? 1)%nat then 1 else 0) ∧
    ((2 ≤ j)%nat → d_flags d = 0) ∧ ((3 ≤ j)%nat → d_addr d = virt_to_phys buf) ∧ ((4 ≤ j)%nat → d_len d = len) ∧
    ((6 ≤ j)%nat → data (vq (q s)) !! Z.to_nat h = Some buf) ∧
    ((7 ≤ j)%nat → avail_ring (ring (q s)) !! Z.to_nat ((last_avail s + Z.of_nat (length avq)) mod n) = Some h) ∧
    map Some (sent s) = map Some (seen s) ++ map (req_at (q s)) avq ++ [Some (virt_to_phys buf, len)].

Definition inv (s : sys) : Prop := idle s ∨ ∃ j h buf len, adding s j h buf len.

(** ** Rings *)

Lemma n_range : 1 ≤ n ≤ 2 ^ 15.
Proof. split; [|apply Z.pow_le_mono_r; lia]. pose proof (Z.pow_pos_nonneg 2 k). lia. Qed.

Lemma pos_mod i : pos i = i mod n.
Proof.
  pose proof n_range. unfold pos. rewrite u32_small by lia. rewrite <- Z.land_ones by lia. f_equal. by rewrite Z.ones_equiv, Z.sub_1_r.
Qed.

Lemma u16_mod x : u16 x mod n = x mod n.
Proof.
  unfold u16. apply Z.mod_mod_divide. exists (2 ^ (16 - k)). rewrite <- Z.pow_add_r by lia. f_equal. lia.
Qed.

Lemma u16_add_mod x y : (u16 x + y) mod n = (x + y) mod n.
Proof. by rewrite <- Zplus_mod_idemp_l, u16_mod, Zplus_mod_idemp_l. Qed.

Lemma mod_inj start i j : 0 ≤ i < n → 0 ≤ j < n → (start + i) mod n = (start + j) mod n → i = j.
Proof.
  intros Hi Hj E. rewrite <- (Z.mod_small i n), <- (Z.mod_small j n) by done.
  assert (E' : ((start + i) mod n - start) mod n = ((start + j) mod n - start) mod n) by (by rewrite E).
  rewrite !Zminus_mod_idemp_l in E'. by replace (start + i - start) with i in E' by lia; replace (start + j - start) with j in E' by lia.
Qed.

Lemma slice_tail {A} (r : list A) start x l : slice r start (x :: l) → slice r (u16 (start + 1)) l.
Proof.
  intros H i y Hi. rewrite u16_add_mod. specialize (H (S i) y Hi). by replace (start + 1 + Z.of_nat i) with (start + Z.of_nat (S i)) by lia.
Qed.

Lemma slice_head {A} (r : list A) start x l : slice r start (x :: l) → arr_get r (pos start) = Ret x.
Proof.
  pose proof n_range. intros H0. specialize (H0 0%nat x eq_refl). rewrite Z.add_0_r in H0. unfold arr_get. rewrite pos_mod.
  pose proof (Z.mod_pos_bound start n). rewrite (proj2 (Z.ltb_ge _ _)) by lia. by rewrite H0.
Qed.

Lemma slice_snoc {A} (r : list A) start x l : Z.of_nat (length r) = n → Z.of_nat (length l) < n → slice r start l →
  slice (<[Z.to_nat ((start + Z.of_nat (length l)) mod n) := x]> r) start (l ++ [x]).
Proof.
  pose proof n_range. intros Hr Hl Hs i y Hi. pose proof (lookup_lt_Some _ _ _ Hi) as Hlt. rewrite length_app in Hlt. cbn in Hlt.
  pose proof (Z.mod_pos_bound (start + Z.of_nat i) n). pose proof (Z.mod_pos_bound (start + Z.of_nat (length l)) n).
  destruct (decide (i = length l)) as [->|Hne].
  - rewrite list_lookup_middle in Hi by done. injection Hi as <-. apply list_lookup_insert_eq. lia.
  - rewrite lookup_app_l in Hi by lia. rewrite list_lookup_insert_ne; [by apply Hs|]. intros E. apply Hne.
    assert (E' : (start + Z.of_nat (length l)) mod n = (start + Z.of_nat i) mod n) by lia. apply mod_inj in E'; lia.
Qed.

(** A write at the next index: it succeeds and is at that position. *)
Lemma arr_set_pos {A} (r : list A) i x : Z.of_nat (length r) = n → arr_set r (pos i) x = Ret (<[Z.to_nat (i mod n) := x]> r).
Proof.
  pose proof n_range. intros Hr. unfold arr_set. rewrite pos_mod. pose proof (Z.mod_pos_bound i n).
  by rewrite (proj2 (Z.leb_le _ _)), (proj2 (Z.ltb_lt _ _)) by lia.
Qed.

Lemma index_eq start (l : list Z) : 0 ≤ start < 2 ^ 16 → Z.of_nat (length l) ≤ n → start ≠ u16 (start + Z.of_nat (length l)) ↔ l ≠ [].
Proof.
  pose proof n_range. intros Hs Hl. destruct l as [|x l].
  - split; [|done]. cbn. rewrite Z.add_0_r. by rewrite u16_small.
  - split; [done|]. intros _ E. unfold u16 in E. cbn [length] in *. rewrite E in Hs at 1. Z.div_mod_to_equations. lia.
Qed.

(** ** Descriptors *)

Lemma linked_ext ds ds' h free :
  (∀ x, x ∈ free → d_next <$> ds' !! Z.to_nat x = d_next <$> ds !! Z.to_nat x) → linked ds h free → linked ds' h free.
Proof.
  revert h. induction free as [|x free IH]; intros h He; [done|]. intros (-> & d & Hd & Hr & Hl). split; [done|].
  specialize (He x ltac:(by left)) as Hx. rewrite Hd in Hx. destruct (ds' !! Z.to_nat x) as [d'|] eqn:E; [|done]. injection Hx as Hx.
  exists d'. rewrite Hx. split; [done|]. split; [done|]. apply IH; [|done]. intros y Hy. apply He. by right.
Qed.

Lemma set_desc_ok f h d (qq : queue) : 0 ≤ h → descs (ring qq) !! Z.to_nat h = Some d →
  set_desc h f qq = Ret (on_ring (set_descs (<[Z.to_nat h := f d]> (descs (ring qq)))) qq).
Proof.
  intros Hh Hd. unfold set_desc. rewrite (arr_get_ok _ _ d) by done. cbn [bind]. rewrite arr_set_ok; [done|]. apply lookup_lt_Some in Hd. lia.
Qed.

(** ** Steps of the device *)

Lemma classes_perm (P : Z → Prop) (l l' : list Z) : l ≡ₚ l' → Forall P l ∧ NoDup l ∧ Z.of_nat (length l) = n →
  Forall P l' ∧ NoDup l' ∧ Z.of_nat (length l') = n.
Proof. intros E (? & ? & ?). by rewrite <- E. Qed.

Lemma avq_length s free pend avq usq : split s free pend avq usq →
  Z.of_nat (length avq + length pend + length (taken s) + length usq) ≤ n.
Proof. intros H. pose proof (sp_total _ _ _ _ _ H). rewrite !length_app in *. lia. Qed.

Lemma fetch_head s free pend avq usq : split s free pend avq usq → last_avail s ≠ avail_idx (ring (q s)) →
  ∃ h avq', avq = h :: avq' ∧ arr_get (avail_ring (ring (q s))) (pos (last_avail s)) = Ret h.
Proof.
  intros Hs Hne. pose proof (avq_length _ _ _ _ _ Hs). destruct (sp_avail_idx _ _ _ _ _ Hs) as [E ?]. rewrite E in Hne.
  apply index_eq in Hne; [|done|lia]. destruct avq as [|h avq']; [done|]. exists h, avq'. split; [done|].
  eapply slice_head, (sp_avq _ _ _ _ _ Hs).
Qed.

Lemma split_fetch s free pend h avq usq r : split s free pend (h :: avq) usq →
  split (Sys (q s) (todo s) (u16 (last_avail s + 1)) (taken s ++ [h]) (sent s) r) free pend avq usq.
Proof.
  intros Hs. pose proof Hs as [? ? ? ? ? Hr Hn Ht Ha [Hi Hi0] Hu ? Hf]. pose proof (conj Hr (conj Hn Ht)) as Hc.
  apply (classes_perm _ _ (free ++ pend ++ avq ++ (taken s ++ [h]) ++ usq)) in Hc as (? & ? & ?); [|solve_Permutation].
  split; cbn; try done.
  - by apply slice_tail in Ha.
  - rewrite Hi. split; [|apply u16_range]. cbn [length]. unfold u16. rewrite Zplus_mod_idemp_l. f_equal. lia.
  - assert (E : (h :: avq) ++ taken s ++ usq ≡ₚ avq ++ (taken s ++ [h]) ++ usq) by solve_Permutation.
    unfold in_flight in *. cbn. by rewrite <- E.
Qed.

Lemma split_complete s free pend avq usq t1 h t2 len : split s free pend avq usq → taken s = t1 ++ h :: t2 →
  arr_set (used_ring (ring (q s))) (pos (used_idx (ring (q s)))) (UsedElem h len) =
    Ret (<[Z.to_nat (used_idx (ring (q s)) mod n) := UsedElem h len]> (used_ring (ring (q s)))) ∧
  split (Sys (on_ring (set_used (u16 (used_idx (ring (q s)) + 1))
               (<[Z.to_nat (used_idx (ring (q s)) mod n) := UsedElem h len]> (used_ring (ring (q s))))) (q s))
           (todo s) (last_avail s) (t1 ++ t2) (sent s) (seen s)) free pend avq (usq ++ [h]).
Proof.
  intros Hs Et. pose proof Hs as [? ? ? ? Hul Hr Hn Ht Ha [Hi Hi0] Hu [Hui Hu0] Hf]. split; [by apply arr_set_pos|].
  pose proof (avq_length _ _ _ _ _ Hs) as Hlen. rewrite Et, length_app in Hlen. cbn in Hlen. rewrite Et in *.
  pose proof (conj Hr (conj Hn Ht)) as Hc.
  apply (classes_perm _ _ (free ++ pend ++ avq ++ (t1 ++ t2) ++ usq ++ [h])) in Hc as (? & ? & ?); [|solve_Permutation].
  split; cbn; try done.
  - by rewrite length_insert.
  - rewrite Hui, u16_mod, list_fmap_insert. cbn [u_id]. apply slice_snoc; [by rewrite length_fmap|lia|done].
  - rewrite Hui. split; [|done]. unfold u16. rewrite Zplus_mod_idemp_l, length_app. f_equal. cbn. lia.
  - assert (E : avq ++ (t1 ++ h :: t2) ++ usq ≡ₚ avq ++ (t1 ++ t2) ++ usq ++ [h]) by solve_Permutation.
    unfold in_flight in *. cbn. by rewrite <- E.
Qed.

(** A device step leaves the state of the driver's call alone. *)
Lemma req_fetch s h avq r : map Some (sent s) = map Some (seen s) ++ map (req_at (q s)) (h :: avq) ++ r →
  ∀ d, descs (ring (q s)) !! Z.to_nat h = Some d →
  map Some (sent s) = map Some (seen s ++ [(d_addr d, d_len d)]) ++ map (req_at (q s)) avq ++ r.
Proof. intros E d Hd. rewrite E, map_app, <- !app_assoc. cbn. unfold req_at at 1. by rewrite Hd. Qed.

Lemma inv_fetch s h d : inv s → last_avail s ≠ avail_idx (ring (q s)) →
  arr_get (avail_ring (ring (q s))) (pos (last_avail s)) = Ret h → arr_get (descs (ring (q s))) h = Ret d →
  inv (Sys (q s) (todo s) (u16 (last_avail s + 1)) (taken s ++ [h]) (sent s) (seen s ++ [(d_addr d, d_len d)])).
Proof.
  intros Hinv Hne Hh Hd. assert (Hd' : descs (ring (q s)) !! Z.to_nat h = Some d).
  { unfold arr_get in Hd. destruct (h <? 0); [done|]. by destruct (_ !! _); simplify_eq. }
  destruct Hinv as [(Htd & free & avq & usq & Hs & Hl & Hn & Hreq)|(j & h0 & buf & len & Htd & Hj & Hb & free & avq & usq & d0 & Hs & Hd0 & Hl & Hn & Hf & Ha & Hlen & Hdt & Hr & Hreq)].
  - left. split; [done|]. destruct (fetch_head _ _ _ _ _ Hs Hne) as (h' & avq' & -> & E). assert (h' = h) as -> by congruence.
    exists free, avq', usq. split; [by eapply split_fetch|]. cbn. split; [done|]. split; [done|].
    pose proof (req_fetch s h avq' []) as Hrf. rewrite !app_nil_r in Hrf. by apply Hrf.
  - right. exists j, h0, buf, len. split; [done|]. split; [done|]. split; [done|].
    destruct (fetch_head _ _ _ _ _ Hs Hne) as (h' & avq' & -> & E). assert (h' = h) as -> by congruence.
    exists free, avq', usq, d0. split; [by eapply split_fetch|]. cbn. split_and!; try done.
    + intros H7. specialize (Hr H7). rewrite u16_add_mod. cbn [length] in Hr. by replace (last_avail s + 1 + Z.of_nat (length avq')) with (last_avail s + Z.of_nat (S (length avq'))) by lia.
    + by apply (req_fetch s h).
Qed.

Lemma inv_complete s t1 h t2 len l : inv s → taken s = t1 ++ h :: t2 →
  arr_set (used_ring (ring (q s))) (pos (used_idx (ring (q s)))) (UsedElem h len) = Ret l →
  inv (Sys (on_ring (set_used (u16 (used_idx (ring (q s)) + 1)) l) (q s)) (todo s) (last_avail s) (t1 ++ t2) (sent s) (seen s)).
Proof.
  intros Hinv Ht Hl'. destruct Hinv as [(Htd & free & avq & usq & Hs & Hl & Hn & Hreq)|(j & h0 & buf & len0 & Htd & Hj & Hb & free & avq & usq & d0 & Hs & Hrest)].
  - destruct (split_complete _ _ _ _ _ _ _ _ len Hs Ht) as [E Hs']. rewrite E in Hl'. injection Hl' as <-. left. split; [done|].
    exists free, avq, (usq ++ [h]). done.
  - destruct (split_complete _ _ _ _ _ _ _ _ len Hs Ht) as [E Hs']. rewrite E in Hl'. injection Hl' as <-. right. exists j, h0, buf, len0.
    split; [done|]. split; [done|]. split; [done|]. exists free, avq, (usq ++ [h]), d0. done.
Qed.

(** ** Adding a buffer *)

Definition with_q (s : sys) (qq : queue) (l : list instr) : sys := Sys qq l (last_avail s) (taken s) (sent s) (seen s).

Lemma pend_ne s free h avq usq x : split s free [h] avq usq → x ∈ free ++ avq ++ taken s ++ usq → Z.to_nat x ≠ Z.to_nat h.
Proof.
  intros Hs Hx. pose proof (sp_range _ _ _ _ _ Hs) as Hr. pose proof (sp_nodup _ _ _ _ _ Hs) as Hn.
  assert (E : free ++ [h] ++ avq ++ taken s ++ usq ≡ₚ h :: free ++ avq ++ taken s ++ usq) by solve_Permutation.
  rewrite E in Hn, Hr. apply NoDup_cons in Hn as [Hn _]. apply Forall_cons in Hr as [Hh Hr]. rewrite Forall_forall in Hr.
  specialize (Hr x Hx). intros Eq. apply Hn. by replace h with x by lia.
Qed.

Lemma pend_range s free h avq usq : split s free [h] avq usq → 0 ≤ h < n.
Proof.
  intros Hs. pose proof (sp_range _ _ _ _ _ Hs) as Hr. apply Forall_app in Hr as [_ Hr]. by apply Forall_cons in Hr as [? _].
Qed.

Lemma flight_desc s free h avq usq (d' : vring_desc) : split s free [h] avq usq →
  Forall (in_flight (on_ring (set_descs (<[Z.to_nat h := d']> (descs (ring (q s))))) (q s))) (avq ++ taken s ++ usq).
Proof.
  intros Hs. pose proof (sp_flight _ _ _ _ _ Hs) as Hf. rewrite !Forall_forall in *. intros x Hx. specialize (Hf x Hx).
  unfold in_flight in *. cbn. rewrite list_lookup_insert_ne; [done|]. apply not_eq_sym. eapply pend_ne; [done|]. apply elem_of_app. by right.
Qed.

Lemma split_desc s free h avq usq d' l : split s free [h] avq usq →
  split (with_q s (on_ring (set_descs (<[Z.to_nat h := d']> (descs (ring (q s))))) (q s)) l) free [h] avq usq.
Proof.
  intros Hs. pose proof (flight_desc _ _ _ _ _ d' Hs). destruct Hs. split; cbn; try done. by rewrite length_insert.
Qed.

Lemma req_desc s free h avq usq d' : split s free [h] avq usq →
  map (req_at (on_ring (set_descs (<[Z.to_nat h := d']> (descs (ring (q s))))) (q s))) avq = map (req_at (q s)) avq.
Proof.
  intros Hs. apply map_ext_in. intros x Hx%list_elem_of_In. unfold req_at. cbn. rewrite list_lookup_insert_ne; [done|].
  apply not_eq_sym. eapply pend_ne; [done|]. set_solver.
Qed.

(** A store to the descriptor being filled that keeps the link. *)
Lemma adding_desc s j h buf len f : adding s j h buf len → (j < 5)%nat → (∀ d, d_next (f d) = d_next d) →
  ((2 ≤ S j)%nat → ∀ d, ((2 ≤ j)%nat → d_flags d = 0) → d_flags (f d) = 0) →
  ((3 ≤ S j)%nat → ∀ d, ((3 ≤ j)%nat → d_addr d = virt_to_phys buf) → d_addr (f d) = virt_to_phys buf) →
  ((4 ≤ S j)%nat → ∀ d, ((4 ≤ j)%nat → d_len d = len) → d_len (f d) = len) → (1 ≤ j < 4)%nat →
  post (set_desc h f (q s)) (λ q', adding (with_q s q' (drop (S j) (add_instrs h buf len))) (S j) h buf len).
Proof.
  intros (Htd & Hj & Hb & free & avq & usq & d & Hs & Hd & Hl & Hn & Hf & Ha & Hlen & Hdt & Hr & Hreq) Hj5 Hnext Hf' Ha' Hlen' Hj4.
  pose proof (pend_range _ _ _ _ _ Hs). erewrite set_desc_ok by (done || lia). cbn [post]. split; [done|]. split; [lia|]. split; [done|].
  exists free, avq, usq, (f d). split; [by apply split_desc|]. cbn [with_q q ring vq on_ring set_descs descs avail_ring last_avail sent seen]. split_and!.
  - apply list_lookup_insert_eq. by apply lookup_lt_Some in Hd.
  - replace ((j <? 5)%nat) with true in Hl by (symmetry; apply Nat.ltb_lt; lia).
    replace ((S j <? 5)%nat) with true by (symmetry; apply Nat.ltb_lt; lia). eapply linked_ext; [|exact Hl]. intros x Hx.
    destruct (decide (Z.to_nat x = Z.to_nat h)) as [->|]; [|by rewrite list_lookup_insert_ne].
    rewrite list_lookup_insert_eq by (by apply lookup_lt_Some in Hd). rewrite Hd. cbn. by rewrite Hnext.
  - rewrite Hn. by destruct j; [lia|].
  - intros ?. apply Hf'; auto with lia.
  - intros ?. apply Ha'; auto with lia.
  - intros ?. apply Hlen'; auto with lia.
  - lia.
  - lia.
  - erewrite req_desc by done. done.
Qed.

Lemma inv_call s buf len : idle s → todo s = [] → buf ≠ 0 → num_free (vq (q s)) ≠ 0 →
  adding (Sys (q s) (add_instrs (free_head (vq (q s))) buf len) (last_avail s) (taken s)
            (sent s ++ [(virt_to_phys buf, len)]) (seen s)) 0 (free_head (vq (q s))) buf len.
Proof.
  intros (_ & free & avq & usq & Hs & Hl & Hn & Hreq) Htd Hb Hnf. destruct free as [|h free]; [cbn in Hn; lia|].
  pose proof Hl as (Eh & d & Hd & _). rewrite Eh. split; [done|]. split; [lia|]. split; [done|]. exists free, avq, usq, d.
  pose proof Hs as [? ? ? ? ? Hr Hnd Ht ? ? ? ? ?]. pose proof (conj Hr (conj Hnd Ht)) as Hc.
  apply (classes_perm _ _ (free ++ [h] ++ avq ++ taken s ++ usq)) in Hc as (? & ? & ?); [|solve_Permutation].
  split; [by split|]. cbn. split_and!; try done; try lia.
  - exact (proj2 Hl).
  - rewrite Hn. cbn. lia.
  - rewrite map_app, Hreq. by rewrite <- app_assoc.
Qed.

Lemma step_dec s h buf len : adding s 0 h buf len →
  post (exec virt_to_phys DecFree (q s)) (λ q', adding (with_q s q' (drop 1 (add_instrs h buf len))) 1 h buf len).
Proof.
  intros (Htd & Hj & Hb & free & avq & usq & d & Hs & Hd & Hl & Hn & _ & _ & _ & _ & _ & Hreq). cbn [exec post].
  split; [done|]. split; [lia|]. split; [done|]. exists free, avq, usq, d. split; [by destruct Hs|]. cbn [Nat.ltb Nat.leb] in *. split_and!; try done; try lia.
  cbn. rewrite Hn. pose proof n_range. pose proof (sp_total _ _ _ _ _ Hs) as Ht. rewrite length_app in Ht. rewrite u32_small by lia. lia.
Qed.

Lemma step_pop s h buf len : adding s 4 h buf len →
  post (exec virt_to_phys (PopFree h) (q s)) (λ q', adding (with_q s q' (drop 5 (add_instrs h buf len))) 5 h buf len).
Proof.
  intros (Htd & Hj & Hb & free & avq & usq & d & Hs & Hd & Hl & Hn & Hf & Ha & Hlen & _ & _ & Hreq). cbn [exec].
  pose proof (pend_range _ _ _ _ _ Hs). rewrite (arr_get_ok _ _ d) by (done || lia). cbn [bind post].
  split; [done|]. split; [lia|]. split; [done|]. exists free, avq, usq, d. split; [by destruct Hs|].
  cbn [Nat.ltb Nat.leb] in *. split_and!; try done; try lia; auto with lia.
  destruct Hl as (_ & d' & Hd' & _ & Hl). by assert (d' = d) as -> by congruence.
Qed.

Lemma step_data s h buf len : adding s 5 h buf len →
  post (exec virt_to_phys (SetData h buf) (q s)) (λ q', adding (with_q s q' (drop 6 (add_instrs h buf len))) 6 h buf len).
Proof.
  intros (Htd & Hj & Hb & free & avq & usq & d & Hs & Hd & Hl & Hn & Hf & Ha & Hlen & _ & _ & Hreq). cbn [exec].
  pose proof (pend_range _ _ _ _ _ Hs). pose proof (sp_data _ _ _ _ _ Hs) as Hdl. rewrite arr_set_ok by lia. cbn [bind post].
  split; [done|]. split; [lia|]. split; [done|]. exists free, avq, usq, d. split.
  - assert (Hfl : Forall (in_flight (on_vq (set_data (<[Z.to_nat h := buf]> (data (vq (q s))))) (q s))) (avq ++ taken s ++ usq)).
    { pose proof (sp_flight _ _ _ _ _ Hs) as Hfl. rewrite !Forall_forall in *. intros x Hx. specialize (Hfl x Hx). unfold in_flight in *. cbn.
      rewrite list_lookup_insert_ne; [done|]. apply not_eq_sym. eapply pend_ne; [done|]. apply elem_of_app. by right. }
    destruct Hs. split; cbn; try done. by rewrite length_insert.
  - cbn [Nat.ltb Nat.leb] in *. split_and!; try done; try lia; auto with lia. intros _. apply list_lookup_insert_eq. lia.
Qed.

Lemma step_ring s h buf len : adding s 6 h buf len →
  post (exec virt_to_phys (SetRing h) (q s)) (λ q', adding (with_q s q' (drop 7 (add_instrs h buf len))) 7 h buf len).
Proof.
  intros (Htd & Hj & Hb & free & avq & usq & d & Hs & Hd & Hl & Hn & Hf & Ha & Hlen & Hdt & _ & Hreq). cbn [exec].
  pose proof (pend_range _ _ _ _ _ Hs). pose proof n_range. pose proof (avq_length _ _ _ _ _ Hs) as Hle. cbn in Hle.
  rewrite (sp_num _ _ _ _ _ Hs). change (Z.land (avail_idx (ring (q s))) (u32 (n - 1))) with (pos (avail_idx (ring (q s)))).
  rewrite arr_set_pos by (by eapply sp_avail). destruct (sp_avail_idx _ _ _ _ _ Hs) as [Hi _]. rewrite Hi, u16_mod, u16_small by lia. cbn [bind post].
  split; [done|]. split; [lia|]. split; [done|]. exists free, avq, usq, d. split.
  - pose proof (slice_snoc (avail_ring (ring (q s))) (last_avail s) h avq (sp_avail _ _ _ _ _ Hs) ltac:(lia) (sp_avq _ _ _ _ _ Hs)) as Hsl.
    destruct Hs. split; cbn; try done; [by rewrite length_insert|]. intros i x Hx. apply Hsl. by apply lookup_app_l_Some.
  - cbn [Nat.ltb Nat.leb] in *. split_and!; try done; try lia; auto with lia. intros _. cbn. apply list_lookup_insert_eq.
    pose proof (sp_avail _ _ _ _ _ Hs). pose proof (Z.mod_pos_bound (last_avail s + Z.of_nat (length avq)) n). lia.
Qed.

Lemma step_idx s h buf len : adding s 7 h buf len →
  post (exec virt_to_phys IncIdx (q s)) (λ q', idle (with_q s q' [IncAdded])).
Proof.
  intros (Htd & Hj & Hb & free & avq & usq & d & Hs & Hd & Hl & Hn & Hf & Ha & Hlen & Hdt & Hr & Hreq). cbn [exec post].
  specialize (Hf ltac:(lia)). specialize (Ha ltac:(lia)). specialize (Hlen ltac:(lia)). specialize (Hdt ltac:(lia)). specialize (Hr ltac:(lia)).
  split; [by right|]. exists free, (avq ++ [h]), usq. cbn [Nat.ltb Nat.leb] in *. split_and!; try done.
  - pose proof Hs as [? ? ? ? ? Hrg Hnd Ht Hsl [Hi Hi0] ? ? Hfl]. pose proof (conj Hrg (conj Hnd Ht)) as Hc.
    apply (classes_perm _ _ (free ++ [] ++ (avq ++ [h]) ++ taken s ++ usq)) in Hc as (? & ? & ?); [|solve_Permutation]. split; cbn; try done.
    + intros i x Hx. destruct (decide (i < length avq)%nat); [apply Hsl; by rewrite lookup_app_l in Hx|].
      pose proof (lookup_lt_Some _ _ _ Hx) as Hlt. rewrite length_app in Hlt. cbn in Hlt. assert (i = length avq) as -> by lia.
      rewrite list_lookup_middle in Hx by done. by injection Hx as <-.
    + rewrite Hi. split; [|done]. unfold u16. rewrite Zplus_mod_idemp_l, length_app. f_equal. cbn. lia.
    + rewrite <- app_assoc. apply Forall_app in Hfl as [Hf1 Hf2]. apply Forall_app. split; [done|]. constructor; [|done]. exists d, buf. done.
  - cbn. lia.
  - cbn. rewrite Hreq, map_app. unfold req_at at 3. cbn. rewrite Hd. cbn. by rewrite Ha, Hlen.
Qed.

(** Every statement of a call returns and keeps the invariant. *)
Lemma adding_step s j h buf len i l : adding s j h buf len → (j < 7)%nat → todo s = i :: l →
  post (exec virt_to_phys i (q s)) (λ q', adding (with_q s q' l) (S j) h buf len).
Proof.
  intros Ha Hj7 Htd. pose proof Ha as (Ht & Hj & _). rewrite Ht in Htd.
  destruct j as [|[|[|[|[|[|[|j]]]]]]]; [injection Htd as <- <-..|lia];
    [by apply step_dec|apply (adding_desc s 1)|apply (adding_desc s 2)|apply (adding_desc s 3)|by apply step_pop|by apply step_data|by apply step_ring];
    done || (cbn; intros; auto with lia).
Qed.

Lemma inv_exec s i l : inv s → todo s = i :: l → post (exec virt_to_phys i (q s)) (λ q', inv (with_q s q' l)).
Proof.
  intros [Hi|(j & h & buf & len & Ha)] Htd.
  - destruct Hi as ([E|E] & free & avq & usq & Hs & Hl & Hn & Hreq); rewrite E in Htd; [done|]. injection Htd as <- <-. cbn [exec post].
    left. split; [by left|]. exists free, avq, usq. split; [by destruct Hs|]. done.
  - pose proof Ha as (Ht & Hj & _). destruct (decide (j = 7%nat)) as [->|Hne].
    + rewrite Ht in Htd. injection Htd as <- <-. eapply post_mono; [by eapply step_idx|]. intros q' Hq'. by left.
    + eapply post_mono; [eapply adding_step; [done|lia|done]|]. intros q' Hq'. right. by eexists (S j), h, buf, len.
Qed.

(** ** Getting a buffer back *)

Lemma idle_todo s : inv s → todo s = [] → idle s.
Proof.
  intros [H|(j & h & buf & len & Ht & Hj & _)] E; [done|]. exfalso. rewrite E in Ht.
  by destruct j as [|[|[|[|[|[|[|[|j]]]]]]]]; [..|lia].
Qed.

Lemma detach_spec (qq : queue) h d : 0 ≤ h → descs (ring qq) !! Z.to_nat h = Some d → d_flags d = 0 → h < Z.of_nat (length (data (vq qq))) →
  detach_buf qq h = Ret (Queue
    (set_num_free (u32 (num_free (vq qq) + 1)) (set_free_head h (set_data (<[Z.to_nat h := 0]> (data (vq qq))) (vq qq))))
    (set_descs (<[Z.to_nat h := Desc (d_addr d) (d_len d) 0 (u16 (free_head (vq qq)))]> (descs (ring qq))) (ring qq))).
Proof.
  intros Hh Hd Hf Hl. unfold detach_buf. rewrite arr_set_ok by lia. cbn [bind detach_loop].
  rewrite (arr_get_ok _ _ d) by done. cbn [bind]. rewrite Hf, Z.land_0_l, Z.eqb_refl. cbn [negb bind].
  erewrite set_desc_ok by done. cbn [bind]. by rewrite Hf.
Qed.

(** The next used buffer: the buffer of its descriptor, which is released. *)
Lemma inv_get_buf s : inv s → todo s = [] → last_used_idx (vq (q s)) ≠ used_idx (ring (q s)) →
  post (virtqueue_get_buf (q s)) (λ '(b, len, q'),
    b ≠ 0 ∧ idle (with_q s q' []) ∧
    ∃ h d, arr_get (used_ring (ring (q s))) (pos (last_used_idx (vq (q s)))) = Ret (UsedElem h len) ∧
      arr_get (data (vq (q s))) h = Ret b ∧ arr_get (descs (ring (q s))) h = Ret d ∧ d_addr d = virt_to_phys b).
Proof.
  intros Hinv Htd Hne. destruct (idle_todo _ Hinv Htd) as (_ & free & avq & usq & Hs & Hl & Hn & Hreq).
  pose proof (avq_length _ _ _ _ _ Hs) as Hle. destruct (sp_used_idx _ _ _ _ _ Hs) as [E Hlu]. rewrite E in Hne. apply index_eq in Hne; [|done|lia].
  destruct usq as [|h usq]; [done|]. pose proof Hs as [Hnum Hds Hdt ? Hul Hr Hnd Ht Hsa ? Hsu _ Hfl].
  pose proof (slice_head _ _ _ _ Hsu) as Hh. unfold virtqueue_get_buf. rewrite Hnum. fold (pos (last_used_idx (vq (q s)))).
  assert (He : ∃ len, arr_get (used_ring (ring (q s))) (pos (last_used_idx (vq (q s)))) = Ret (UsedElem h len)).
  { unfold arr_get in *. destruct (_ <? 0); [done|]. rewrite list_lookup_fmap in Hh. destruct (used_ring (ring (q s)) !! _) as [[i len]|]; [|done].
    cbn in Hh. injection Hh as ->. by exists len. }
  destruct He as [len He]. rewrite He. cbn [bind u_id u_len].
  assert (Hin : in_flight (q s) h) by (rewrite Forall_forall in Hfl; apply Hfl; set_solver). destruct Hin as (d & b & Hd & Hb & Hf & Hb0 & Ha).
  assert (Hh0 : 0 ≤ h < n) by (rewrite Forall_forall in Hr; apply Hr; set_solver).
  rewrite (arr_get_ok _ h b) by (done || lia). cbn [bind]. rewrite (detach_spec _ _ d) by (done || lia). cbn [bind post].
  split; [done|]. split; [|exists h, d; split_and!; [done|apply arr_get_ok; done || lia|apply arr_get_ok; done || lia|done]].
  assert (Hnx : ∀ x, x ∈ free ++ avq ++ taken s ++ usq → Z.to_nat x ≠ Z.to_nat h).
  { intros x Hx Eq. assert (Ep : free ++ [] ++ avq ++ taken s ++ h :: usq ≡ₚ h :: free ++ avq ++ taken s ++ usq) by solve_Permutation.
    rewrite Ep in Hnd, Hr. apply NoDup_cons in Hnd as [Hnd _]. apply Forall_cons in Hr as [_ Hr]. rewrite Forall_forall in Hr. specialize (Hr x Hx).
    apply Hnd. by replace h with x by lia. }
  split; [by left|]. exists (h :: free), avq, usq. pose proof n_range.
  assert (Hlf : Z.of_nat (length free) < n) by (rewrite !length_app in Ht; cbn in Ht; lia). split_and!.
  - pose proof (conj Hr (conj Hnd Ht)) as Hc.
    apply (classes_perm _ _ ((h :: free) ++ [] ++ avq ++ taken s ++ usq)) in Hc as (? & ? & ?); [|solve_Permutation].
    split; cbn; try done.
    + by rewrite length_insert.
    + by rewrite length_insert.
    + by apply slice_tail in Hsu.
    + rewrite E. split; [|apply u16_range]. unfold u16. rewrite Zplus_mod_idemp_l. f_equal. cbn. lia.
    + rewrite !Forall_forall in *. intros x Hx. specialize (Hfl x ltac:(set_solver)). unfold in_flight in *. cbn.
      rewrite !list_lookup_insert_ne by (apply not_eq_sym, Hnx; set_solver). done.
  - cbn. split; [done|]. eexists. split; [apply list_lookup_insert_eq; lia|]. cbn. split; [apply u16_range|].
    eapply linked_ext with (ds := descs (ring (q s))).
    + intros x Hx. rewrite list_lookup_insert_ne; [done|]. apply not_eq_sym, Hnx. set_solver.
    + destruct free as [|x free]; [done|]. destruct Hl as (Ex & Hl). assert (0 ≤ x < n) by (rewrite Forall_forall in Hr; apply Hr; set_solver).
      rewrite u16_small by lia. split; [done|]. done.
  - cbn. rewrite Hn, u32_small by lia. lia.
  - cbn. rewrite Hreq. f_equal. apply map_ext_in. intros x Hx%list_elem_of_In. unfold req_at. cbn. rewrite list_lookup_insert_ne; [done|].
    apply not_eq_sym, Hnx. set_solver.
Qed.

Lemma inv_step s s' : inv s → step when_used s s' → inv s'.
Proof.
  intros Hinv [buf len Htd Hb Hlen Hnf|i l q' Htd Hx|h d Hne Hh Hd|t1 h t2 len l Ht Hlen Hl|b len q' Htd Hne Hg].
  - right. eexists 0%nat, _, _, _. apply inv_call; [by apply idle_todo|done|lia|done].
  - pose proof (inv_exec _ _ _ Hinv Htd) as H. by rewrite Hx in H.
  - by apply inv_fetch.
  - by eapply inv_complete.
  - pose proof (inv_get_buf _ Hinv Htd Hne) as H. rewrite Hg in H. destruct H as (_ & H & _). by left.
Qed.

Lemma inv_reachable s0 s : inv s0 → reachable when_used s0 s → inv s.
Proof. intros H0. induction 1 as [|s s' _ IH Hst]; [done|]. by eapply inv_step. Qed.

(** ** Initialisation *)

(** Rings in pages of zeroes, and a structure of zeroes with room for [dat]. *)
Definition zero_rings : rings :=
  Rings (replicate (Z.to_nat n) (Desc 0 0 0 0)) 0 (replicate (Z.to_nat n) 0) 0 (replicate (Z.to_nat n) (UsedElem 0 0)).
Definition blank (dat : list Z) : queue := Queue (Vq 0 0 0 0 0 (Vring 0 0 0 0) 0 0 0 0 dat) zero_rings.

Lemma linked_seq ds i m : (∀ x, i ≤ x < i + Z.of_nat m → ∃ d, ds !! Z.to_nat x = Some d ∧ 0 ≤ d_next d < 2 ^ 16 ∧ (x + 1 < i + Z.of_nat m → d_next d = x + 1)) →
  linked ds i (seqZ i (Z.of_nat m)).
Proof.
  revert i. induction m as [|m IH]; intros i H; [done|]. rewrite seqZ_cons by lia. split; [done|].
  destruct (H i ltac:(lia)) as (d & Hd & Hr & Hn). exists d. split; [done|]. split; [done|].
  replace (Z.pred (Z.of_nat (S m))) with (Z.of_nat m) by lia. destruct m as [|m]; [done|]. rewrite Hn by lia. apply IH. intros x Hx.
  destruct (H x ltac:(lia)) as (d' & ? & ? & Hn'). exists d'. split; [done|]. split; [done|]. intros. apply Hn'. lia.
Qed.

(** The loop: the first [i] descriptors are linked. *)
Definition init_inv (v : vring_virtqueue) (i : Z) (qq : queue) : Prop :=
  ∃ ds dt, qq = Queue (set_data dt v) (set_descs ds zero_rings) ∧ Z.of_nat (length ds) = n ∧ length dt = length (data v) ∧
  ∀ x, 0 ≤ x < n → ∃ d, ds !! Z.to_nat x = Some d ∧ 0 ≤ d_next d < 2 ^ 16 ∧ (x < i → d_next d = x + 1).

Lemma init_desc_spec v i qq : init_inv v i qq → 0 ≤ i < n - 1 → i < Z.of_nat (length (data v)) → post (init_desc i qq) (init_inv v (i + 1)).
Proof.
  pose proof n_range. intros (ds & dt & -> & Hds & Hdt & Hx) Hi Hl. unfold init_desc. destruct (Hx i ltac:(lia)) as (d & Hd & Hr & _).
  rewrite (set_desc_ok _ _ d) by (done || lia). cbn [bind vq on_ring data set_data]. rewrite arr_set_ok by lia. cbn [bind post].
  eexists _, _. split; [done|]. rewrite !length_insert. split; [done|]. split; [done|]. intros x Hxr.
  destruct (Hx x Hxr) as (d' & Hd' & Hr' & Hn'). destruct (decide (x = i)) as [->|Hne].
  - rewrite list_lookup_insert_eq by (by apply lookup_lt_Some in Hd). eexists. split; [done|]. cbn. rewrite u16_small by lia. split; [lia|done].
  - rewrite list_lookup_insert_ne by lia. exists d'. split; [done|]. split; [done|]. intros. apply Hn'. lia.
Qed.

Lemma init_spec dat index align vdev pages notify cb name : Z.of_nat (length dat) = n →
  post (vring_init_virtqueue (blank dat) index n align vdev pages notify cb name) (λ q', idle (Sys q' [] 0 [] [] []) ∧
    ∃ ds dt, q' = Queue (Vq cb name vdev index n (vring_init n pages align) 0 0 0 notify dt) (set_descs ds zero_rings)).
Proof.
  pose proof n_range. intros Hdat. unfold vring_init_virtqueue. set (v := Vq cb name vdev index n _ 0 0 0 notify _). rewrite u32_small by lia.
  apply post_bind. eapply post_mono.
  { apply (for_inv (init_inv v) (Z.to_nat (n - 1)) 0 init_desc).
    - eexists (descs zero_rings), dat. split; [done|]. split; [cbn; rewrite length_replicate; lia|]. split; [done|]. intros x Hx.
      exists (Desc 0 0 0 0). split; [apply lookup_replicate_2; lia|]. cbn. split; [lia|]. lia.
    - intros i qq Hi Hq. apply init_desc_spec; [done|lia|cbn; lia]. }
  cbn beta. intros qq (ds & dt & -> & Hds & Hdt & Hx). rewrite Z.add_0_l, Z2Nat.id in Hx by lia. cbn [vq set_data data]. cbn in Hdt. rewrite arr_set_ok by lia.
  cbn [bind post]. split; [|by eexists _, _]. split; [by left|]. exists (seqZ 0 n), [], []. split_and!.
  - split; cbn; try done; rewrite ?length_replicate, ?length_insert, ?app_nil_r, ?length_seqZ; try lia; try done.
    + apply Forall_forall. intros x Hxx%elem_of_seqZ. lia.
    + apply NoDup_seqZ.
  - pose proof (linked_seq ds 0 (Z.to_nat n)) as Hlk. rewrite Z2Nat.id in Hlk by lia. apply Hlk. intros x Hxr.
    destruct (Hx x ltac:(lia)) as (d & ? & ? & Hn). exists d. split; [done|]. split; [done|]. intros. apply Hn. lia.
  - cbn. rewrite length_seqZ. lia.
  - done.
Qed.

(** ** One call *)

Lemma inv_exec_all s l : inv s → todo s = l → post (exec_all virt_to_phys l (q s)) (λ q', inv (with_q s q' [])).
Proof.
  revert s. induction l as [|i l IH]; intros s Hinv Htd.
  - cbn. by destruct s; cbn in *; subst.
  - cbn [exec_all]. apply post_bind. eapply post_mono; [by apply inv_exec|]. intros q' Hq'. exact (IH (with_q s q' l) Hq' eq_refl).
Qed.

Lemma exec_used i (qq q' : queue) : exec virt_to_phys i qq = Ret q' →
  used_ring (ring q') = used_ring (ring qq) ∧ used_idx (ring q') = used_idx (ring qq) ∧
  last_used_idx (vq q') = last_used_idx (vq qq) ∧ vr (vq q') = vr (vq qq) ∧ vq_index (vq q') = vq_index (vq qq).
Proof.
  destruct i; cbn [exec]; unfold set_desc; intros E; repeat (apply bind_ret_inv in E as (? & _ & E)); injection E as <-; done.
Qed.

Lemma exec_all_used l (qq q' : queue) : exec_all virt_to_phys l qq = Ret q' →
  used_ring (ring q') = used_ring (ring qq) ∧ used_idx (ring q') = used_idx (ring qq) ∧
  last_used_idx (vq q') = last_used_idx (vq qq) ∧ vr (vq q') = vr (vq qq) ∧ vq_index (vq q') = vq_index (vq qq).
Proof.
  revert qq. induction l as [|i l IH]; intros qq; cbn [exec_all]; [by intros [= <-]|].
  intros (q1 & (Hu & Hi & Hl & Hv & Hx)%exec_used & E)%bind_ret_inv. rewrite <- Hu, <- Hi, <- Hl, <- Hv, <- Hx. by apply IH.
Qed.

Lemma exec_all_avail l (qq q' : queue) : IncIdx ∉ l → exec_all virt_to_phys l qq = Ret q' → avail_idx (ring q') = avail_idx (ring qq).
Proof.
  revert qq. induction l as [|i l IH]; intros qq Hl; cbn [exec_all]; [by intros [= <-]|]. apply not_elem_of_cons in Hl as [Hi Hl].
  intros (q1 & E1 & E)%bind_ret_inv. rewrite (IH _ Hl E). clear E IH.
  destruct i; cbn [exec] in E1; unfold set_desc in E1; repeat (apply bind_ret_inv in E1 as (? & _ & E1)); try done; by injection E1 as <-.
Qed.

(** After a call the buffer is recorded behind its descriptor. *)
Lemma adding_run m s j h buf len : adding s j h buf len → (j + m = 7)%nat →
  post (exec_all virt_to_phys (take m (todo s)) (q s)) (λ q', adding (with_q s q' (drop m (todo s))) 7 h buf len).
Proof.
  revert s j. induction m as [|m IH]; intros s j Ha Hm.
  - assert (j = 7%nat) as -> by lia. cbn. by destruct s.
  - destruct (todo s) as [|i l] eqn:Htd.
    { destruct Ha as (Ht & _). rewrite Htd in Ht. by destruct j as [|[|[|[|[|[|[|j]]]]]]]; [..|lia]. }
    cbn [take drop exec_all]. apply post_bind. eapply post_mono; [eapply adding_step; [done|lia|done]|].
    intros q' Hq'. apply (IH (with_q s q' l) (S j)); [done|lia].
Qed.

Lemma exec_all_app l1 l2 qq : exec_all virt_to_phys (l1 ++ l2) qq = (let* q' := exec_all virt_to_phys l1 qq in exec_all virt_to_phys l2 q').
Proof. revert qq. induction l1 as [|i l1 IH]; intros qq; [done|]. cbn [app exec_all]. rewrite bind_assoc. destruct (exec virt_to_phys i qq); [apply IH|done..]. Qed.

Lemma add_spec s buf len : idle s → todo s = [] → buf ≠ 0 → 0 < len → num_free (vq (q s)) ≠ 0 →
  post (virtqueue_add_outbuf virt_to_phys (q s) buf len) (λ '(r, q'), r = 0 ∧
    data (vq q') !! Z.to_nat (free_head (vq (q s))) = Some buf ∧ Z.of_nat (length (data (vq q'))) = n ∧ 0 ≤ free_head (vq (q s)) < n ∧
    (∃ d, descs (ring q') !! Z.to_nat (free_head (vq (q s))) = Some d ∧ d_flags d = 0 ∧ d_addr d = virt_to_phys buf ∧ d_len d = len) ∧
    avail_idx (ring q') = u16 (avail_idx (ring (q s)) + 1) ∧
    avail_ring (ring q') !! Z.to_nat (avail_idx (ring (q s)) mod n) = Some (free_head (vq (q s))) ∧
    used_ring (ring q') = used_ring (ring (q s)) ∧ used_idx (ring q') = used_idx (ring (q s)) ∧
    last_used_idx (vq q') = last_used_idx (vq (q s)) ∧ vr (vq q') = vr (vq (q s)) ∧ vq_index (vq q') = vq_index (vq (q s))).
Proof.
  intros Hi Htd Hb Hlen Hnf. unfold virtqueue_add_outbuf. rewrite (proj2 (Z.eqb_neq buf 0)), (proj2 (Z.eqb_neq len 0)), (proj2 (Z.eqb_neq _ 0)) by (done || lia).
  cbn [negb]. set (h := free_head (vq (q s))). pose proof (inv_call s buf len Hi Htd Hb Hnf) as Ha. fold h in Ha.
  pose proof (adding_run 7 _ _ _ _ _ Ha eq_refl) as Hr. cbn [q todo] in Hr. apply post_inv in Hr as (q1 & E1 & H7).
  pose proof (exec_all_used _ _ _ E1) as (Hu1 & Hu2 & Hu3 & Hu4 & Hu5).
  change (add_instrs h buf len) with (take 7 (add_instrs h buf len) ++ [IncIdx; IncAdded]). rewrite exec_all_app, E1. cbn.
  assert (Hni : IncIdx ∉ take 7 (add_instrs h buf len)) by (cbn; repeat (apply not_elem_of_cons; split; [done|]); apply not_elem_of_nil).
  pose proof (exec_all_avail _ _ _ Hni E1) as Hav.
  destruct H7 as (_ & _ & _ & free & avq & usq & d & Hs & Hd & _ & _ & Hf & Ha7 & Hl7 & Hdt & Hr7 & _). cbn in *.
  pose proof (sp_avail_idx _ _ _ _ _ Hs) as [Hai _]. cbn in Hai.
  split_and!; try done; [by apply Hdt; lia|by destruct Hs|apply (pend_range _ _ _ _ _ Hs)|apply (pend_range _ _ _ _ _ Hs)| | |].
  - exists d. split_and!; [done|apply Hf; lia|apply Ha7; lia|apply Hl7; lia].
  - by rewrite Hav.
  - rewrite <- Hav, Hai, u16_mod. apply Hr7. lia.
Qed.
End system.

(** ** Theorems *)

(** C12: the device sees the requests of the driver.  Driver and device run in any
    interleaving of their accesses to a queue of 2^k descriptors, where the
    driver calls [virtqueue_get_buf] only when the used ring has a buffer for
    it (the function itself does not test this).  The device reads exactly the requests the driver makes, complete and in their order;
    all of them once it has caught up.  No access is out of bounds, and when the
    device has used a buffer, [virtqueue_get_buf] returns the address whose
    physical address the request had. *)
Theorem virtqueue_requests_delivered virt_to_phys k dat index align vdev pages notify cb name q0 s :
  0 ≤ k ≤ 15 → Z.of_nat (length dat) = 2 ^ k →
  vring_init_virtqueue (blank k dat) index (2 ^ k) align vdev pages notify cb name = Ret q0 →
  reachable virt_to_phys k when_used (Sys q0 [] 0 [] [] []) s →
  (∃ rest, sent s = seen s ++ rest) ∧
  (todo s = [] → last_avail s = avail_idx (ring (q s)) → seen s = sent s) ∧
  (∀ i l, todo s = i :: l → is_ret (exec virt_to_phys i (q s)) = true) ∧
  (last_avail s ≠ avail_idx (ring (q s)) →
     post (arr_get (avail_ring (ring (q s))) (pos k (last_avail s))) (λ h, is_ret (arr_get (descs (ring (q s))) h) = true)) ∧
  (todo s = [] → last_used_idx (vq (q s)) ≠ used_idx (ring (q s)) →
     post (virtqueue_get_buf (q s)) (λ '(b, len, _), b ≠ 0 ∧ ∃ h d,
       arr_get (used_ring (ring (q s))) (pos k (last_used_idx (vq (q s)))) = Ret (UsedElem h len) ∧
       arr_get (descs (ring (q s))) h = Ret d ∧ d_addr d = virt_to_phys b)).
Proof.
  intros Hk Hdat Hq0 Hreach. pose proof (init_spec virt_to_phys k Hk dat index align vdev pages notify cb name Hdat) as Hi.
  rewrite Hq0 in Hi. destruct Hi as [Hi _]. pose proof (inv_reachable _ _ Hk _ _ (or_introl Hi) Hreach) as Hinv.
  assert (Hpre : ∀ (a b : list (Z * Z)) (r : list (option (Z * Z))), map Some a = map Some b ++ r → ∃ rest, a = b ++ rest ∧ (r = [] → rest = [])).
  { induction a as [|x a IH]; intros [|y b] r; cbn; try done; [by exists []|by intros E; exists (x :: a); split; [|by intros ->]|].
    intros [= -> E]. destruct (IH b r E) as (rest & -> & ?). by exists rest. }
  split_and!.
  - destruct Hinv as [(_ & ? & ? & ? & _ & _ & _ & E)|(? & ? & ? & ? & _ & _ & _ & ? & ? & ? & ? & _ & _ & _ & _ & _ & _ & _ & _ & _ & E)];
      destruct (Hpre _ _ _ E) as (rest & ? & _); by exists rest.
  - intros Htd Hla. destruct (idle_todo _ _ _ Hinv Htd) as (_ & free & avq & usq & Hs & _ & _ & E). destruct (sp_avail_idx _ _ _ _ _ _ _ Hs) as [Hai Hr].
    destruct avq as [|h avq].
    + rewrite app_nil_r in E. destruct (Hpre _ _ [] ltac:(by rewrite app_nil_r)) as (rest & -> & Hrest). rewrite Hrest by done. by rewrite app_nil_r.
    + exfalso. pose proof (avq_length _ _ Hk _ _ _ _ _ Hs). rewrite Hai in Hla. 
      revert Hla. by apply (index_eq virt_to_phys k Hk); [|lia|].
  - intros i l Htd. pose proof (inv_exec _ _ Hk _ _ _ Hinv Htd) as H. by destruct (exec _ _ _).
  - intros Hne. assert (Hsp : ∃ free pend avq usq, split virt_to_phys k s free pend avq usq).
    { destruct Hinv as [(_ & ? & ? & ? & ? & _)|(? & ? & ? & ? & _ & _ & _ & ? & ? & ? & ? & ? & _)]; eauto. }
    destruct Hsp as (free & pend & avq & usq & Hs). destruct (fetch_head _ _ Hk _ _ _ _ _ Hs Hne) as (h & avq' & -> & ->). cbn [post].
    pose proof (sp_flight _ _ _ _ _ _ _ Hs) as Hf. pose proof (sp_range _ _ _ _ _ _ _ Hs) as Hr. rewrite Forall_forall in Hf, Hr.
    destruct (Hf h ltac:(set_solver)) as (d & b & Hd & _). by rewrite (arr_get_ok _ _ d) by (done || apply Hr; set_solver).
  - intros Htd Hne. eapply post_mono; [by apply (inv_get_buf virt_to_phys k Hk)|]. intros [[b len] q'] (? & _ & h & d & ? & _ & ? & ?). eauto 10.
Qed.

(** Concrete states for the witnesses: two descriptors. *)
Definition demo : queue := ret_or (blank 1 [0; 0]) (vring_init_virtqueue (blank 1 [0; 0]) 1 (2 ^ 1) 4096 0 8192 0 0 0).

(** The statements of a call, one after the other. *)
Lemma reach_exec_all virt_to_phys k may_get s0 l qq q' la t se sn :
  reachable virt_to_phys k may_get s0 (Sys qq l la t se sn) → exec_all virt_to_phys l qq = Ret q' →
  reachable virt_to_phys k may_get s0 (Sys q' [] la t se sn).
Proof.
  revert qq. induction l as [|i l IH]; intros qq Hr; cbn [exec_all]; [by intros [= <-]|].
  intros (q1 & E1 & E)%bind_ret_inv. apply (IH q1); [|done]. eapply Then; [exact Hr|]. by eapply (Exec _ _ _ (Sys qq (i :: l) la t se sn)).
Qed.

(** A request on the queue, and after the device has used its buffer. *)
Definition demo_added : queue := ret_or demo (exec_all (λ v, v) (add_instrs 0 5 6) demo).
Definition demo_used : queue := on_ring (set_used 1 [UsedElem 0 3; UsedElem 0 0]) demo_added.

Lemma reach_step virt_to_phys k may_get s0 s s1 s2 :
  reachable virt_to_phys k may_get s0 s → step virt_to_phys k may_get s s1 → s1 = s2 → reachable virt_to_phys k may_get s0 s2.
Proof. intros Hr Hs <-. by eapply Then. Qed.

Lemma demo_add_reach may_get : reachable (λ v, v) 1 may_get (Sys demo [] 0 [] [] []) (Sys demo_added [] 0 [] [(5, 6)] []).
Proof.
  apply (reach_exec_all _ _ _ _ (add_instrs 0 5 6) demo); [|by vm_compute].
  eapply reach_step; [apply Start|eapply (Call _ _ _ (Sys demo [] 0 [] [] []) 5 6); [done|lia|lia|by vm_compute]|by vm_compute].
Qed.

Lemma demo_used_reach : reachable (λ v, v) 1 when_used (Sys demo [] 0 [] [] []) (Sys demo_used [] 1 [] [(5, 6)] [(5, 6)]).
Proof.
  eapply reach_step; [eapply reach_step; [apply demo_add_reach|
    eapply (Fetch _ _ _ (Sys demo_added [] 0 [] [(5, 6)] []) 0 (Desc 5 6 0 1)); by vm_compute|
    instantiate (1 := Sys demo_added [] 1 [0] [(5, 6)] [(5, 6)]); by vm_compute]|
    eapply (Complete _ _ _ (Sys demo_added [] 1 [0] [(5, 6)] [(5, 6)]) [] 0 [] 3 [UsedElem 0 3; UsedElem 0 0]); by vm_compute|by vm_compute].
Qed.

Lemma virtqueue_requests_delivered_witness :
  post (virtqueue_get_buf demo_used) (λ '(b, len, _), b = 5 ∧ len = 3) ∧
  is_ret (exec (λ v, v) DecFree demo) = true.
Proof.
  pose proof (virtqueue_requests_delivered (λ v, v) 1 [0; 0] 1 4096 0 8192 0 0 0 demo _ ltac:(lia) eq_refl eq_refl demo_used_reach) as (_ & _ & _ & _ & H).
  pose proof (virtqueue_requests_delivered (λ v, v) 1 [0; 0] 1 4096 0 8192 0 0 0 demo
    (Sys demo (add_instrs 0 5 6) 0 [] [(5, 6)] []) ltac:(lia) eq_refl eq_refl
    (Then _ _ _ _ _ _ (Start _ _ _ _) (Call (λ v, v) 1 when_used (Sys demo [] 0 [] [] []) 5 6 eq_refl ltac:(lia) ltac:(lia) ltac:(by vm_compute)))) as (_ & _ & H2 & _).
  split; [|exact (H2 DecFree _ eq_refl)].
  eapply post_mono; [apply H; [done|by vm_compute]|]. intros [[b len] q'] (_ & h & d & E1 & E2 & E3).
  vm_compute in E1. injection E1 as <- <-. vm_compute in E2. injection E2 as <-. done.
Defined.

(** What the unchecked [virtqueue_get_buf] can do: the driver adds a request,
    calls it at once and adds another request, which gets the descriptor of the
    first one.  The device, which reads the available ring after that, sees the
    second request in place of the first. *)
Definition demo_early : queue := ret_or demo (let* '(_, _, q) := virtqueue_get_buf demo_added in Ret q).
Definition demo_again : queue := ret_or demo (exec_all (λ v, v) (add_instrs 0 7 8) demo_early).

Lemma demo_early_reach : reachable (λ v, v) 1 any_time (Sys demo [] 0 [] [] []) (Sys demo_early [] 0 [] [(5, 6)] []).
Proof.
  eapply reach_step; [apply demo_add_reach|eapply (GetBuf _ _ _ (Sys demo_added [] 0 [] [(5, 6)] []) 5 0 demo_early); [done|done|by vm_compute]|by vm_compute].
Qed.

Theorem virtqueue_request_overwritten :
  reachable (λ v, v) 1 any_time (Sys demo [] 0 [] [] []) (Sys demo_again [] 1 [0] [(5, 6); (7, 8)] [(7, 8)]).
Proof.
  eapply reach_step; [|eapply (Fetch _ _ _ (Sys demo_again [] 0 [] [(5, 6); (7, 8)] []) 0 (Desc 7 8 0 1)); by vm_compute|by vm_compute].
  apply (reach_exec_all _ _ _ _ (add_instrs 0 7 8) demo_early); [|by vm_compute].
  eapply reach_step; [apply demo_early_reach|eapply (Call _ _ _ (Sys demo_early [] 0 [] [(5, 6)] []) 7 8); [done|lia|lia|by vm_compute]|by vm_compute].
Qed.

(** The first request on a new queue, and what [virtqueue_get_buf] makes of it. *)
Lemma first_request virt_to_phys k dat index align vdev pages notify cb name q0 buf len :
  0 ≤ k ≤ 15 → Z.of_nat (length dat) = 2 ^ k → buf ≠ 0 → 0 < len →
  vring_init_virtqueue (blank k dat) index (2 ^ k) align vdev pages notify cb name = Ret q0 →
  post (virtqueue_add_outbuf virt_to_phys q0 buf len) (λ '(r, q1),
    r = 0 ∧ used_idx (ring q1) = last_used_idx (vq q1) ∧ vq_index (vq q1) = index ∧ avail_idx (ring q1) = 1 ∧ avail_ring (ring q1) !! 0%nat = Some 0 ∧
    (d_addr <$> descs (ring q1) !! 0%nat, d_len <$> descs (ring q1) !! 0%nat) = (Some (virt_to_phys buf), Some len) ∧
    post (virtqueue_get_buf q1) (λ '(b, l, q2), b = buf ∧ l = 0 ∧ avail_idx (ring q2) = 1 ∧ avail_ring (ring q2) = avail_ring (ring q1) ∧
      (d_addr <$> descs (ring q2) !! 0%nat, d_len <$> descs (ring q2) !! 0%nat) = (Some (virt_to_phys buf), Some len))).
Proof.
  intros Hk Hdat Hb Hlen Hq0. pose proof (n_range k Hk) as Hn.
  pose proof (init_spec virt_to_phys k Hk dat index align vdev pages notify cb name Hdat) as Hi.
  rewrite Hq0 in Hi. destruct Hi as (Hi & ds & dt & Eq). assert (Hnf : num_free (vq q0) ≠ 0) by (rewrite Eq; cbn; lia).
  pose proof (add_spec virt_to_phys k Hk _ buf len Hi eq_refl Hb ltac:(lia) Hnf) as Ha. cbn [q] in Ha. eapply post_mono; [exact Ha|].
  intros [r q1] (-> & Hd & Hdl & Hfh & (d & Hds & Hf & Hda & Hdn) & Hai & Hav & Hu & Hui & Hlu & Hvr & Hix). assert (Eh : free_head (vq q0) = 0) by (by rewrite Eq).
  assert (Ei : avail_idx (ring q0) = 0) by (by rewrite Eq). rewrite Eh, Ei, ?Z.mod_0_l in * by lia. change (Z.to_nat 0) with 0%nat in *. change (u16 (0 + 1)) with 1 in Hai.
  split; [done|]. split; [rewrite Hui, Hlu, Eq; done|]. split; [rewrite Hix, Eq; done|]. split; [done|]. split; [done|]. split; [by rewrite Hds; cbn; rewrite Hda, Hdn|].
  unfold virtqueue_get_buf. rewrite Hlu, Hu, Hvr, Eq. cbn.
  rewrite (arr_get_ok _ 0 (UsedElem 0 0)); [|done|apply lookup_replicate_2; lia]. cbn [bind u_id]. rewrite (arr_get_ok _ 0 buf) by done. cbn [bind].
  rewrite (detach_spec _ 0 d) by (done || lia). cbn. rewrite list_lookup_insert_eq by (by apply lookup_lt_Some in Hds). cbn. by rewrite Hda, Hdn.
Qed.

(** [virtqueue_get_buf] does not wait for the device.  It never looks at the
    index of the used ring; right after the first request on a new queue it
    returns the buffer, with length 0, although the device has not used it. *)
Theorem virtqueue_get_buf_early virt_to_phys k dat index align vdev pages notify cb name q0 buf len :
  0 ≤ k ≤ 15 → Z.of_nat (length dat) = 2 ^ k → buf ≠ 0 → 0 < len < 2 ^ 32 →
  vring_init_virtqueue (blank k dat) index (2 ^ k) align vdev pages notify cb name = Ret q0 →
  post (virtqueue_add_outbuf virt_to_phys q0 buf len) (λ '(r, q1),
    r = 0 ∧ used_idx (ring q1) = last_used_idx (vq q1) ∧
    post (virtqueue_get_buf q1) (λ '(b, l, _), b = buf ∧ l = 0)).
Proof.
  intros Hk Hdat Hb Hlen Hq0. eapply post_mono; [eapply first_request; done || lia|]. intros [r q1] (? & ? & _ & _ & _ & _ & Hg).
  split; [done|]. split; [done|]. eapply post_mono; [exact Hg|]. by intros [[b l] q2] (? & ? & _).
Qed.

Lemma virtqueue_get_buf_early_witness :
  post (virtqueue_add_outbuf (λ v, v) demo 5 6) (λ '(r, q1),
    r = 0 ∧ used_idx (ring q1) = last_used_idx (vq q1) ∧ post (virtqueue_get_buf q1) (λ '(b, l, _), b = 5 ∧ l = 0)).
Proof.
  exact (virtqueue_get_buf_early (λ v, v) 1 [0; 0] 1 4096 0 8192 0 0 0 demo 5 6 ltac:(lia) eq_refl ltac:(lia) ltac:(lia) eq_refl).
Defined.

Lemma land_lnot_ones x a : 0 ≤ a → Z.land x (Z.lnot (2 ^ a - 1)) = x - x mod 2 ^ a.
Proof.
  intros Ha. replace (2 ^ a - 1) with (Z.ones a) by (rewrite Z.ones_equiv; lia).
  rewrite <- Z.ldiff_land, Z.ldiff_ones_r, Z.shiftl_mul_pow2, Z.shiftr_div_pow2 by lia. pose proof (Z.div_mod x (2 ^ a)). pose proof (Z.pow_pos_nonneg 2 a). lia.
Qed.

Lemma for_app {S} (n1 n2 : nat) lo (body : Z → S → res S) s :
  for_ (n1 + n2) lo body s = (let* s := for_ n1 lo body s in for_ n2 (lo + Z.of_nat n1) body s).
Proof.
  revert lo s. induction n1 as [|n1 IH]; intros lo s; [by rewrite Z.add_0_r|]. cbn [for_ Nat.add]. rewrite bind_assoc.
  destruct (body lo s) as [s'| | |]; try done. cbn [bind]. rewrite IH. by replace (lo + 1 + Z.of_nat n1) with (lo + Z.of_nat (Datatypes.S n1)) by lia.
Qed.

(** With less room than descriptors a store goes beyond it. *)
Lemma init_no_room k dat index align vdev pages notify cb name : 0 ≤ k ≤ 15 → Z.of_nat (length dat) < 2 ^ k →
  vring_init_virtqueue (blank k dat) index (2 ^ k) align vdev pages notify cb name = Fault.
Proof.
  intros Hk Hl. pose proof (n_range k Hk) as Hn. unfold vring_init_virtqueue. set (v := Vq cb name vdev index _ _ 0 0 0 notify _). rewrite u32_small by lia.
  assert (H0 : init_inv k v 0 (Queue v (ring (blank k dat)))).
  { eexists (descs (zero_rings k)), dat. split; [done|]. split; [cbn; rewrite length_replicate; lia|]. split; [done|]. intros x Hx.
    exists (Desc 0 0 0 0). split; [apply lookup_replicate_2; lia|]. cbn. lia. }
  assert (Hfor : ∀ m, (m ≤ length dat)%nat → Z.of_nat m ≤ 2 ^ k - 1 → post (for_ m 0 init_desc (Queue v (ring (blank k dat)))) (init_inv k v (0 + Z.of_nat m))).
  { intros m Hm1 Hm2. apply for_inv; [done|]. intros i qq Hi Hq. apply init_desc_spec; [done|done|lia|cbn; lia]. }
  destruct (decide (Z.of_nat (length dat) = 2 ^ k - 1)) as [E|Hne].
  - specialize (Hfor (length dat) ltac:(lia) ltac:(lia)). replace (Z.to_nat (2 ^ k - 1)) with (length dat) by lia.
    apply post_inv in Hfor as (qq & -> & ds & dt & -> & _ & Hdt & _). cbn [bind vq data set_data]. cbn in Hdt. unfold arr_set.
    by rewrite (proj2 (Z.ltb_ge _ _)), andb_false_r by lia.
  - replace (Z.to_nat (2 ^ k - 1)) with (length dat + S (Z.to_nat (2 ^ k - 2) - length dat))%nat by lia. rewrite for_app.
    specialize (Hfor (length dat) ltac:(lia) ltac:(lia)). apply post_inv in Hfor as (qq & -> & ds & dt & -> & Hds & Hdt & Hx). cbn [bind for_]. cbn in Hdt.
    unfold init_desc at 1. destruct (Hx (Z.of_nat (length dat)) ltac:(lia)) as (d & Hd & _).
    rewrite (set_desc_ok _ _ d) by (done || lia). cbn [bind vq on_ring data set_data]. unfold arr_set at 1. by rewrite (proj2 (Z.ltb_ge _ (Z.of_nat (length dt)))), andb_false_r by lia.
Qed.

(** C35: the layout of the rings and of the structure.  The descriptors, the
    available ring and the used ring follow one another without overlap, the
    used ring at a multiple of the alignment; 128 entries with the alignment of
    a page fit into two pages.  The array behind the structure must have an
    entry per descriptor: [vring_init_virtqueue] writes all of them, beyond
    what the caller allocated if that is less. *)
Theorem vring_layout_bounds k a p dat index vdev notify cb name :
  0 ≤ k ≤ 15 → 0 ≤ a ≤ 32 → 0 < p < 2 ^ 62 → p mod 2 ^ a = 0 →
  let v := vring_init (2 ^ k) p (2 ^ a) in
  (desc v = p ∧ desc v + 16 * 2 ^ k = avail v ∧ avail v + 4 + 2 * 2 ^ k + 2 ≤ used v ∧
   used v mod 2 ^ a = 0 ∧ used v < avail v + 4 + 2 * 2 ^ k + 2 + 2 ^ a) ∧
  (k = 7 → a = 12 → used v + 4 + 8 * 2 ^ k + 2 ≤ p + 2 * 4096) ∧
  (Z.of_nat (length dat) < 2 ^ k → vring_init_virtqueue (blank k dat) index (2 ^ k) (2 ^ a) vdev p notify cb name = Fault).
Proof.
  intros Hk Ha Hp Hpa v. pose proof (n_range k Hk) as Hn. pose proof (Z.pow_le_mono_r 2 a 32 ltac:(lia) ltac:(lia)) as Hal. pose proof (Z.pow_pos_nonneg 2 a) as Hap.
  assert (Hv : avail v = p + 2 ^ k * 16 ∧ used v = avail v + 4 + 2 * 2 ^ k + 2 + 2 ^ a - 1 - (avail v + 4 + 2 * 2 ^ k + 2 + 2 ^ a - 1) mod 2 ^ a).
  { unfold v, vring_init. cbn [avail used]. rewrite (u64_small (p + _)) by lia. split; [done|]. rewrite land_lnot_ones by lia.
    rewrite u64_small; [done|]. pose proof (Z.mod_pos_bound (p + 2 ^ k * 16 + 4 + 2 * 2 ^ k + 2 + 2 ^ a - 1) (2 ^ a)). lia. }
  destruct Hv as [Hav Hus]. pose proof (Z.mod_pos_bound (avail v + 4 + 2 * 2 ^ k + 2 + 2 ^ a - 1) (2 ^ a)) as Hb. split_and!.
  - done.
  - cbn [desc v vring_init]. change (desc v) with p. lia.
  - lia.
  - rewrite Hus. rewrite Zminus_mod_idemp_r, Z.sub_diag. by apply Z.mod_0_l; lia.
  - lia.
  - intros -> ->. rewrite Hus, Hav. change (2 ^ 7) with 128. change (2 ^ 12) with 4096 in *. Z.div_mod_to_equations; lia.
  - by apply init_no_room.
Qed.

Lemma vring_layout_bounds_witness :
  used (vring_init (2 ^ 7) 8192 (2 ^ 12)) + 4 + 8 * 2 ^ 7 + 2 ≤ 8192 + 2 * 4096 ∧
  vring_init_virtqueue (blank 7 []) 0 (2 ^ 7) (2 ^ 12) 0 8192 0 0 0 = Fault.
Proof.
  destruct (vring_layout_bounds 7 12 8192 [] 0 0 0 0 0 ltac:(lia) ltac:(lia) ltac:(lia) eq_refl) as (_ & H1 & H2).
  exact (conj (H1 eq_refl eq_refl) (H2 ltac:(cbn; lia))).
Defined.

(** ** Machine types *)

Definition is_u (w x : Z) : Prop := 0 ≤ x < 2 ^ w.
Definition desc_typed (d : vring_desc) : Prop := is_u 64 (d_addr d) ∧ is_u 32 (d_len d) ∧ is_u 16 (d_flags d) ∧ is_u 16 (d_next d).
Definition used_typed (e : vring_used_elem) : Prop := is_u 32 (u_id e) ∧ is_u 32 (u_len e).
Record queue_typed (qq : queue) : Prop := {
  qt_descs : Forall desc_typed (descs (ring qq));
  qt_avail : is_u 16 (avail_idx (ring qq)) ∧ Forall (is_u 16) (avail_ring (ring qq));
  qt_used : is_u 16 (used_idx (ring qq)) ∧ Forall used_typed (used_ring (ring qq));
  qt_vq : is_u 32 (num_free (vq qq)) ∧ is_u 32 (free_head (vq qq)) ∧ is_u 32 (num_added (vq qq)) ∧ is_u 16 (last_used_idx (vq qq));
  qt_data : Forall (is_u 64) (data (vq qq));
}.
Definition instr_typed (i : instr) : Prop :=
  match i with
  | SetAddr _ b | SetData _ b => is_u 64 b
  | SetLen _ l => is_u 32 l
  | _ => True
  end.

Lemma arr_get_in {A} (l : list A) i x (P : A → Prop) : arr_get l i = Ret x → Forall P l → P x.
Proof.
  unfold arr_get. destruct (i <? 0); [done|]. destruct (l !! Z.to_nat i) as [y|] eqn:E; [|done]. intros [= <-] H. by eapply Forall_lookup_1 in H.
Qed.
Lemma arr_set_forall {A} (l l' : list A) i x (P : A → Prop) : arr_set l i x = Ret l' → Forall P l → P x → Forall P l'.
Proof. unfold arr_set. destruct (_ && _); [|done]. intros [= <-] Hl Hx. by apply Forall_insert. Qed.

Lemma set_desc_typed h f (qq q' : queue) : set_desc h f qq = Ret q' → queue_typed qq → (∀ d, desc_typed d → desc_typed (f d)) → queue_typed q'.
Proof.
  unfold set_desc. intros (d & Hd & (l & Hl & [= <-])%bind_ret_inv)%bind_ret_inv [Hds ? ? ? ?] Hf.
  split; cbn; try done. eapply arr_set_forall; [done..|]. apply Hf. by eapply (arr_get_in _ _ _ desc_typed) in Hd.
Qed.

Section typed.
Context (virt_to_phys : Z → Z) (Hv : ∀ b, is_u 64 b → is_u 64 (virt_to_phys b)).

Lemma exec_typed i qq q' : exec virt_to_phys i qq = Ret q' → queue_typed qq → instr_typed i → queue_typed q'.
Proof.
  intros E Hq Hi. pose proof Hq as [Hds [Hai Har] ? (? & ? & ? & ?) ?]. destruct i; cbn [exec instr_typed] in *.
  - injection E as <-. split; cbn; try done. split_and!; try done; apply u32_range.
  - eapply set_desc_typed; [done..|]. intros d (? & ? & ? & ?). by split_and!.
  - eapply set_desc_typed; [done..|]. intros d (? & ? & ? & ?). split_and!; try done. by apply Hv.
  - eapply set_desc_typed; [done..|]. intros d (? & ? & ? & ?). by split_and!.
  - apply bind_ret_inv in E as (d & Hd & [= <-]). apply (arr_get_in _ _ _ desc_typed) in Hd as (_ & _ & _ & Hn); [|done].
    split; cbn; try done. split_and!; try done. unfold is_u in *. lia.
  - apply bind_ret_inv in E as (l & Hl & [= <-]). split; cbn; try done. by eapply arr_set_forall.
  - apply bind_ret_inv in E as (l & Hl & [= <-]). split; cbn; try done. split; [done|]. eapply arr_set_forall; [done..|]. apply u16_range.
  - injection E as <-. split; cbn; try done. split; [apply u16_range|done].
  - injection E as <-. split; cbn; try done. split_and!; try done; apply u32_range.
Qed.

Lemma detach_loop_typed f qq i q' j : detach_loop f qq i = Ret (q', j) → queue_typed qq → queue_typed q'.
Proof.
  revert qq i. induction f as [|f IH]; intros qq i; [done|]. cbn [detach_loop]. intros (d & _ & E)%bind_ret_inv Hq. destruct (negb _); [|by injection E as <- <-].
  eapply IH; [done|]. destruct Hq as [? ? ? (? & ? & ? & ?) ?]. split; cbn; try done. split_and!; try done; apply u32_range.
Qed.

Lemma get_buf_typed qq b len q' : virtqueue_get_buf qq = Ret (b, len, q') → queue_typed qq → is_u 64 b ∧ is_u 32 len ∧ queue_typed q'.
Proof.
  unfold virtqueue_get_buf, detach_buf. intros (e & He & (r & Hr & (q1 & H1 & [= -> <- <-])%bind_ret_inv)%bind_ret_inv)%bind_ret_inv Hq.
  pose proof Hq as [? ? [? Hu] ? ?]. apply (arr_get_in _ _ _ used_typed) in He as [Hid Hlen]; [|done]. apply (arr_get_in _ _ _ (is_u 64)) in Hr; [|done].
  split; [done|]. split; [done|].
  apply bind_ret_inv in H1 as (l & Hl & ([q2 j] & H2 & (q3 & H3 & [= <-])%bind_ret_inv)%bind_ret_inv).
  apply detach_loop_typed in H2. 2:{ destruct Hq. split; cbn; try done. by eapply arr_set_forall. }
  eapply set_desc_typed in H3; [|done|]. 2:{ intros d (? & ? & ? & ?). split_and!; try done. apply u16_range. }
  destruct H3 as [? ? ? (? & ? & ? & ?) ?]. split; cbn; try done. split_and!; try done; [apply u32_range|apply u16_range].
Qed.
End typed.

Lemma init_desc_typed i qq q' : init_desc i qq = Ret q' → queue_typed qq → queue_typed q'.
Proof.
  unfold init_desc. intros (q1 & H1 & (l & Hl & [= <-])%bind_ret_inv)%bind_ret_inv Hq.
  eapply set_desc_typed in H1; [|done|]. 2:{ intros d (? & ? & ? & ?). split_and!; try done. apply u16_range. }
  destruct H1. split; cbn; try done. by eapply arr_set_forall.
Qed.

Lemma init_typed k dat index align vdev pages notify cb name q0 : 0 ≤ k ≤ 15 → Forall (is_u 64) dat →
  vring_init_virtqueue (blank k dat) index (2 ^ k) align vdev pages notify cb name = Ret q0 → queue_typed q0.
Proof.
  intros Hk Hd E. pose proof (n_range k Hk). unfold vring_init_virtqueue in E. apply bind_ret_inv in E as (q1 & Hf & (l & Hl & [= <-])%bind_ret_inv).
  assert (Ht : queue_typed q1).
  { revert Hf. set (q2 := Queue _ _). assert (Hq2 : queue_typed q2).
    { split; cbn; [apply Forall_replicate|split; [done|apply Forall_replicate]|split; [done|apply Forall_replicate]| |done]; unfold is_u, desc_typed, used_typed; cbn; unfold is_u; lia. }
    generalize 0 as lo. clearbody q2. revert q2 Hq2. generalize (Z.to_nat (u32 (2 ^ k - 1))) as m. induction m as [|m IH]; intros q2 Hq2 lo; cbn [for_]; [by intros [= <-]|].
    intros (q3 & H3 & Hf)%bind_ret_inv. eapply IH; [|done]. by eapply init_desc_typed. }
  destruct Ht. split; cbn; try done. by eapply arr_set_forall.
Qed.

(** ** Bounds *)

(** The rings and the array of the driver have an entry for each of the 2^k
    descriptors, and everything that is used as an index into them is one. *)
Section bounded.
Context (k : Z) (Hk : 0 ≤ k ≤ 15).
Local Abbreviation n := (2 ^ k).

Definition in_queue (h : Z) : Prop := 0 ≤ h < n.
Record queue_bounded (qq : queue) : Prop := {
  qb_num : num (vr (vq qq)) = n;
  qb_ndescs : Z.of_nat (length (descs (ring qq))) = n;
  qb_navail : Z.of_nat (length (avail_ring (ring qq))) = n;
  qb_nused : Z.of_nat (length (used_ring (ring qq))) = n;
  qb_ndata : n ≤ Z.of_nat (length (data (vq qq)));
  qb_head : in_queue (free_head (vq qq));
  qb_descs : Forall (λ d, d_flags d = 0 ∧ in_queue (d_next d)) (descs (ring qq));
  qb_avail : Forall in_queue (avail_ring (ring qq));
  qb_used : Forall (λ e, in_queue (u_id e)) (used_ring (ring qq));
}.
Definition instr_bounded (i : instr) : Prop :=
  match i with
  | SetFlags h | SetAddr h _ | SetLen h _ | PopFree h | SetData h _ | SetRing h => in_queue h
  | _ => True
  end.

Lemma arr_get_bounded {A} (l : list A) i (P : A → Prop) : 0 ≤ i < Z.of_nat (length l) → Forall P l → post (arr_get l i) P.
Proof.
  intros Hi Hl. destruct (lookup_lt_is_Some_2 l (Z.to_nat i)) as [x Hx]; [lia|]. rewrite (arr_get_ok _ _ x) by (done || lia).
  by eapply Forall_lookup_1 in Hl.
Qed.

Lemma pos_bounded i : in_queue (pos k i).
Proof. rewrite pos_mod by done. apply Z.mod_pos_bound. pose proof (n_range k Hk). lia. Qed.

Lemma in_queue_u16 h : in_queue h → u16 h = h.
Proof. pose proof (n_range k Hk). unfold in_queue. intros. apply u16_small. lia. Qed.

Lemma set_desc_bounded h f qq : queue_bounded qq → in_queue h →
  (∀ d, d_flags d = 0 ∧ in_queue (d_next d) → d_flags (f d) = 0 ∧ in_queue (d_next (f d))) → post (set_desc h f qq) queue_bounded.
Proof.
  intros [] Hh Hf. unfold in_queue in Hh. destruct (lookup_lt_is_Some_2 (descs (ring qq)) (Z.to_nat h)) as [d Hd]; [lia|].
  rewrite (set_desc_ok f h d) by (done || lia). split; cbn; try done; [by rewrite length_insert|].
  apply Forall_insert; [done|]. apply Hf. by eapply Forall_lookup_1 in Hd; [|done].
Qed.

Lemma exec_bounded virt_to_phys i qq : queue_bounded qq → instr_bounded i → post (exec virt_to_phys i qq) queue_bounded.
Proof.
  intros Hq Hi. pose proof (n_range k Hk) as Hn. pose proof Hq as [Hnum ? ? ? ? ? Hds ? ?]. destruct i; cbn [exec instr_bounded] in *.
  - by split.
  - apply set_desc_bounded; [done..|by intros d []].
  - apply set_desc_bounded; [done..|by intros d []].
  - apply set_desc_bounded; [done..|by intros d []].
  - apply post_bind. eapply post_mono; [eapply arr_get_bounded; [|exact Hds]; unfold in_queue in Hi; lia|]. intros d [_ Hd]. by split.
  - rewrite arr_set_ok by (unfold in_queue in Hi; lia). split; cbn; try done. by rewrite length_insert.
  - rewrite Hnum. fold (pos k (avail_idx (ring qq))). pose proof (pos_bounded (avail_idx (ring qq))) as Hp. unfold in_queue in Hp.
    rewrite arr_set_ok by lia. split; cbn; try done; [by rewrite length_insert|]. apply Forall_insert; [done|]. by rewrite in_queue_u16.
  - by split.
  - by split.
Qed.

Lemma get_buf_bounded qq : queue_bounded qq → post (virtqueue_get_buf qq) (λ '(_, _, q'), queue_bounded q').
Proof.
  intros Hq. pose proof Hq as [Hnum ? ? ? ? Hfh Hds ? Hus]. unfold virtqueue_get_buf. rewrite Hnum. fold (pos k (last_used_idx (vq qq))).
  pose proof (pos_bounded (last_used_idx (vq qq))) as Hp. unfold in_queue in Hp. apply post_bind.
  eapply post_mono; [eapply arr_get_bounded; [|exact Hus]; lia|]. intros e He. unfold in_queue in He. apply post_bind.
  destruct (lookup_lt_is_Some_2 (data (vq qq)) (Z.to_nat (u_id e))) as [b Hb]; [lia|]. rewrite (arr_get_ok _ _ b) by (done || lia). cbn [post].
  destruct (lookup_lt_is_Some_2 (descs (ring qq)) (Z.to_nat (u_id e))) as [d Hd]; [lia|].
  destruct (Forall_lookup_1 _ _ _ _ Hds Hd) as [Hf Hx]. rewrite (detach_spec _ _ d) by (done || lia). cbn [bind post].
  split; cbn; try done; [by rewrite length_insert|by rewrite length_insert|]. apply Forall_insert; [done|]. cbn. by rewrite in_queue_u16.
Qed.

Lemma init_desc_bounded i qq : queue_bounded qq → 0 ≤ i < n - 1 → post (init_desc i qq) queue_bounded.
Proof.
  intros Hq Hi. pose proof (n_range k Hk) as Hn. unfold init_desc. apply post_bind. eapply post_mono; [apply set_desc_bounded; [done|unfold in_queue; lia|]|].
  { intros d [Hf _]. split; [done|]. cbn. rewrite u16_small by lia. unfold in_queue. lia. }
  intros q' []. rewrite arr_set_ok by lia. split; cbn; try done. by rewrite length_insert.
Qed.

Lemma init_bounded dat index align vdev pages notify cb name : n ≤ Z.of_nat (length dat) →
  post (vring_init_virtqueue (blank k dat) index n align vdev pages notify cb name) queue_bounded.
Proof.
  intros Hd. pose proof (n_range k Hk) as Hn. unfold vring_init_virtqueue. rewrite u32_small by lia. apply post_bind. eapply post_mono.
  - apply (for_inv (λ _, queue_bounded)); [|intros i qq Hi Hq; apply init_desc_bounded; [done|lia]].
    split; cbn; rewrite ?length_replicate; try done; try lia; try (apply Forall_replicate; unfold in_queue; cbn); unfold in_queue; lia.
  - intros qq []. rewrite arr_set_ok by lia. split; cbn; try done. by rewrite length_insert.
Qed.

(** Types and bounds of driver and device together. *)
Record sys_ok (s : sys) : Prop := {
  so_typed : queue_typed (q s);
  so_bounded : queue_bounded (q s);
  so_last : is_u 16 (last_avail s);
  so_taken : Forall in_queue (taken s);
  so_todo : Forall (λ i, instr_typed i ∧ instr_bounded i) (todo s);
}.

Lemma step_ok virt_to_phys s s' : (∀ b, is_u 64 b → is_u 64 (virt_to_phys b)) →
  sys_ok s → step virt_to_phys k any_time s s' → sys_ok s'.
Proof.
  intros Hv [Hq Hb Hla Ht Hi] Hst. pose proof (n_range k Hk) as Hn. pose proof Hq as [Hds [Hai Har] [Hui Hur] ? ?]. pose proof Hb as [].
  destruct Hst as [buf len Htd Hbuf Hlen Hnf|i l q' Htd Hx|h d Hne Hh Hd'|t1 h t2 len l Ht' Hlen Hl|b len q' Htd _ Hg].
  - split; try done. cbn [todo]. unfold add_instrs. do 9 (apply Forall_cons; split; [split; cbn; unfold is_u; (done || lia)|]). apply Forall_nil_2.
  - rewrite Htd in Hi. apply Forall_cons in Hi as [[Hi Hi'] Hl]. split; try done; cbn; [by eapply exec_typed|].
    pose proof (exec_bounded virt_to_phys i (q s) Hb Hi') as H. by rewrite Hx in H.
  - split; try done; cbn; [apply u16_range|]. apply Forall_app. split; [done|]. constructor; [|done]. by eapply arr_get_in in Hh.
  - rewrite Ht' in Ht. apply Forall_app in Ht as [Ht1 Ht2]. apply Forall_cons in Ht2 as [Hh Ht2]. unfold in_queue in Hh. split; try done; cbn; [| |by apply Forall_app].
    + split; cbn; try done. split; [apply u16_range|]. eapply arr_set_forall; [done..|]. unfold used_typed, is_u in *. cbn. lia.
    + pose proof (pos_bounded (used_idx (ring (q s)))) as Hp. unfold in_queue in Hp. rewrite arr_set_ok in Hl by lia. injection Hl as <-.
      split; cbn; try done; [by rewrite length_insert|]. by apply Forall_insert.
  - pose proof (get_buf_bounded (q s) Hb) as H. rewrite Hg in H. apply get_buf_typed in Hg as (_ & _ & Hg); [|done]. by split.
Qed.
End bounded.

(** C34: machine types and bounds.  However driver and device are interleaved,
    and also when the driver calls [virtqueue_get_buf] before the device has
    given a buffer back: every field of the queue and of the rings holds a
    value of its C type; every number that is used as an index of a descriptor
    is below the size of the queue; so the next statement of the driver, a call
    of [virtqueue_get_buf], and every access of the device to the rings are
    within the arrays. *)
Theorem virtqueue_well_typed virt_to_phys k dat index align vdev pages notify cb name q0 s :
  0 ≤ k ≤ 15 → Forall (is_u 64) dat → (∀ b, is_u 64 b → is_u 64 (virt_to_phys b)) →
  vring_init_virtqueue (blank k dat) index (2 ^ k) align vdev pages notify cb name = Ret q0 →
  reachable virt_to_phys k any_time (Sys q0 [] 0 [] [] []) s →
  sys_ok k s ∧
  (∀ i l, todo s = i :: l → is_ret (exec virt_to_phys i (q s)) = true) ∧
  is_ret (virtqueue_get_buf (q s)) = true ∧
  post (arr_get (avail_ring (ring (q s))) (pos k (last_avail s))) (λ h, is_ret (arr_get (descs (ring (q s))) h) = true) ∧
  (∀ e, is_ret (arr_set (used_ring (ring (q s))) (pos k (used_idx (ring (q s)))) e) = true).
Proof.
  intros Hk Hd Hv Hq0 Hr. assert (Hok : sys_ok k s).
  { induction Hr as [|s s' _ IH Hst]; [|by apply (step_ok k Hk virt_to_phys s)].
    split; [by eapply init_typed in Hq0| |done|done|done]. destruct (decide (Z.of_nat (length dat) < 2 ^ k)) as [Hl|Hl]; [by rewrite init_no_room in Hq0|].
    pose proof (init_bounded k Hk dat index align vdev pages notify cb name ltac:(lia)) as H. by rewrite Hq0 in H. }
  pose proof Hok as [_ Hb _ _ Hi]. pose proof Hb as []. split_and!; [done|..].
  - intros i l Htd. rewrite Htd in Hi. apply Forall_cons in Hi as [[_ Hi] _]. pose proof (exec_bounded k Hk virt_to_phys i (q s) Hb Hi). by destruct (exec _ _ _).
  - pose proof (get_buf_bounded k Hk (q s) Hb). by destruct (virtqueue_get_buf _).
  - pose proof (pos_bounded k Hk (last_avail s)) as Hp. unfold in_queue in Hp. eapply post_mono; [apply (arr_get_bounded _ _ (in_queue k)); [lia|done]|].
    intros h Hh. unfold in_queue in Hh. destruct (lookup_lt_is_Some_2 (descs (ring (q s))) (Z.to_nat h)) as [d Hx]; [lia|]. by rewrite (arr_get_ok _ _ d) by (done || lia).
  - intros e. pose proof (pos_bounded k Hk (used_idx (ring (q s)))) as Hp. unfold in_queue in Hp. by rewrite arr_set_ok by lia.
Qed.

(** The state after an early call of [virtqueue_get_buf]. *)
Lemma virtqueue_well_typed_witness : sys_ok 1 (Sys demo_early [] 0 [] [(5, 6)] []) ∧ is_ret (virtqueue_get_buf demo_early) = true.
Proof.
  destruct (virtqueue_well_typed (λ v, v) 1 [0; 0] 1 4096 0 8192 0 0 0 demo _ ltac:(lia) ltac:(by repeat constructor) ltac:(done) eq_refl demo_early_reach) as (H1 & _ & H2 & _).
  exact (conj H1 H2).
Defined.
