(* ===== verification/VirtioMmio.v ===== *)
(** * lib/virtio-mmio.c and lib/chr-testdev.c: a device behind registers

    The device is a parameter: its state and what reads and writes of its
    registers do.  Memory for the structures comes from an allocator that is a
    parameter as well; [room] is how many entries of the array [data] fit into
    the block that [calloc] returns behind the structure. *)

From S2P Require Import Prelude.
From S2P Require Import Bitops.
From S2P Require Import Virtio.
From S2P Require Import VirtioProps.

(** ** lib/virtio-mmio.h *)

Definition VIRTIO_MMIO_MAGIC_VALUE : Z := 0x000.
Definition VIRTIO_MMIO_DEVICE_ID : Z := 0x008.
Definition VIRTIO_MMIO_VENDOR_ID : Z := 0x00c.
Definition VIRTIO_MMIO_GUEST_PAGE_SIZE : Z := 0x028.
Definition VIRTIO_MMIO_QUEUE_SEL : Z := 0x030.
Definition VIRTIO_MMIO_QUEUE_NUM_MAX : Z := 0x034.
Definition VIRTIO_MMIO_QUEUE_NUM : Z := 0x038.
Definition VIRTIO_MMIO_QUEUE_ALIGN : Z := 0x03c.
Definition VIRTIO_MMIO_QUEUE_PFN : Z := 0x040.
Definition VIRTIO_MMIO_QUEUE_NOTIFY : Z := 0x050.
Definition VIRTIO_MMIO_CONFIG : Z := 0x100.
Definition VIRTIO_MMIO_VRING_ALIGN : Z := 4096.
Definition VIRTIO_MMIO_QUEUE_SIZE_MIN : Z := 2 * VIRTIO_MMIO_VRING_ALIGN.
Definition VIRTIO_MMIO_QUEUE_NUM_MIN : Z := 128.

(** What the device driver knows of a device. *)
Record virtio_device := VirtioDevice { vd_device : Z; vd_vendor : Z; vd_base : Z }.

(** The registers of a device in the state [D]. *)
Class mmio (D : Type) := {
  readb : Z → D → Z * D;
  writeb : Z → Z → D → D;
  readl : Z → D → Z * D;
  writel : Z → Z → D → D;
}.

Section mmio.
Context {D : Type} {io : mmio D} (base : Z).

(** ** Configuration space *)

Fixpoint vm_get_loop (len : nat) (offset i : Z) (d : D) : list Z * D :=
  match len with
  | O => ([], d)
  | S len =>
      let '(b, d) := readb (base + VIRTIO_MMIO_CONFIG + offset + i) d in
      let '(l, d) := vm_get_loop len offset (i + 1) d in
      (b :: l, d)
  end.
Definition vm_get (offset len : Z) (d : D) : list Z * D := vm_get_loop (Z.to_nat len) offset 0 d.

Fixpoint vm_set_loop (buf : list Z) (offset i : Z) (d : D) : D :=
  match buf with
  | [] => d
  | b :: buf => vm_set_loop buf offset (i + 1) (writeb b (base + VIRTIO_MMIO_CONFIG + offset + i) d)
  end.
Definition vm_set (offset : Z) (buf : list Z) (d : D) : D := vm_set_loop buf offset 0 d.

Definition vm_notify (vq : vring_virtqueue) (d : D) : bool * D :=
  (true, writel (vq_index vq) (base + VIRTIO_MMIO_QUEUE_NOTIFY) d).

(** ** Queues *)

Section alloc.
Variables (virt_to_pfn : Z → Z) (vdev notify : Z).

(** [vqp], [pages]: what [calloc] and [alloc_pages] return; a null queue is
    [None]. *)
Definition vm_setup_vq (vqp pages : Z) (room : nat) (index callback name : Z) (d : D) : res (option queue * D) :=
  let n := VIRTIO_MMIO_QUEUE_NUM_MIN in
  assert! (VIRTIO_MMIO_QUEUE_SIZE_MIN <=? 2 * 4096);
  assert! (negb (vqp =? 0) && negb (pages =? 0));
  let d := writel index (base + VIRTIO_MMIO_QUEUE_SEL) d in
  let '(max, d) := readl (base + VIRTIO_MMIO_QUEUE_NUM_MAX) d in
  assert! (n <=? max);
  let '(pfn, d) := readl (base + VIRTIO_MMIO_QUEUE_PFN) d in
  if negb (pfn =? 0) then Ret (None, d) else
  let d := writel n (base + VIRTIO_MMIO_QUEUE_NUM) d in
  let d := writel VIRTIO_MMIO_VRING_ALIGN (base + VIRTIO_MMIO_QUEUE_ALIGN) d in
  let d := writel (virt_to_pfn pages) (base + VIRTIO_MMIO_QUEUE_PFN) d in
  let* q := vring_init_virtqueue (blank 7 (replicate room 0)) index n VIRTIO_MMIO_VRING_ALIGN vdev pages notify callback name in
  Ret (Some q, d).

(** [allocs]: the results of the allocations for each queue. *)
Fixpoint vm_find_vqs (allocs : list (Z * Z * nat)) (i : Z) (callbacks names : Z → Z) (d : D) : res (Z * list queue * D) :=
  match allocs with
  | [] => Ret (0, [], d)
  | (vqp, pages, room) :: allocs =>
      let* '(q, d) := vm_setup_vq vqp pages room i (callbacks i) (names i) d in
      match q with
      | None => Ret (-1, [], d)
      | Some q =>
          let* '(r, qs, d) := vm_find_vqs allocs (i + 1) callbacks names d in
          Ret (r, q :: qs, d)
      end
  end.
End alloc.

Definition vm_device_init (d : D) : virtio_device * D :=
  let '(dev, d) := readl (base + VIRTIO_MMIO_DEVICE_ID) d in
  let '(vendor, d) := readl (base + VIRTIO_MMIO_VENDOR_ID) d in
  (VirtioDevice dev vendor base, writel 4096 (base + VIRTIO_MMIO_GUEST_PAGE_SIZE) d).

(** ** lib/chr-testdev.c *)

(** [while (!virtqueue_get_buf(out_vq, &len))] *)
Fixpoint wait_buf (f : nat) (q : queue) : res queue :=
  match f with
  | O => Hang
  | S f =>
      let* '(b, _, q) := virtqueue_get_buf q in
      if b =? 0 then wait_buf f q else Ret q
  end.

Definition __testdev_send (f : nat) (virt_to_phys : Z → Z) (q : queue) (buf len : Z) (d : D) : res (queue * D) :=
  let* '(ret, q) := virtqueue_add_outbuf virt_to_phys q buf len in
  let '(_, d) := virtqueue_kick (λ _, vm_notify) q d in
  if ret <? 0 then Ret (q, d) else
  let* q := wait_buf f q in
  Ret (q, d).
End mmio.

(** ** Theorems *)

(** Setting up a queue.  For a device that offers at least 128 entries and has
    no queue at that index, [vm_setup_vq] announces size, alignment and page
    frame in this order and returns a queue in its initial state, if there is
    room for 128 entries behind the structure.  [calloc(1, sizeof( *vq))] asks
    for none: with less room the initialisation writes behind the block. *)
Theorem vm_setup_vq_correct {D} {io : mmio D} base virt_to_phys virt_to_pfn vdev notify vqp pages room index cb name (d d1 d2 : D) max :
  vqp ≠ 0 → pages ≠ 0 → 128 ≤ max →
  readl (base + VIRTIO_MMIO_QUEUE_NUM_MAX) (writel index (base + VIRTIO_MMIO_QUEUE_SEL) d) = (max, d1) →
  readl (base + VIRTIO_MMIO_QUEUE_PFN) d1 = (0, d2) →
  let r := vm_setup_vq base virt_to_pfn vdev notify vqp pages room index cb name d in
  (room = 128%nat → post r (λ '(q, d'),
     (∃ q0, q = Some q0 ∧ idle virt_to_phys 7 (Sys q0 [] 0 [] [] [])) ∧
     d' = writel (virt_to_pfn pages) (base + VIRTIO_MMIO_QUEUE_PFN)
            (writel 4096 (base + VIRTIO_MMIO_QUEUE_ALIGN) (writel 128 (base + VIRTIO_MMIO_QUEUE_NUM) d2)))) ∧
  ((room < 128)%nat → r = Fault).
Proof.
  intros Hv Hp Hm Hr1 Hr2 r. unfold r, vm_setup_vq. rewrite (proj2 (Z.eqb_neq vqp 0)), (proj2 (Z.eqb_neq pages 0)) by done.
  cbn [negb andb]. change (VIRTIO_MMIO_QUEUE_SIZE_MIN <=? 2 * 4096) with true. cbv match. rewrite Hr1.
  change VIRTIO_MMIO_QUEUE_NUM_MIN with (2 ^ 7). rewrite (proj2 (Z.leb_le (2 ^ 7) max)) by lia. rewrite Hr2. cbn [Z.eqb negb]. split.
  - intros Hroom. rewrite post_bind. eapply post_mono.
    + apply (init_spec virt_to_phys 7 ltac:(lia)). rewrite length_replicate. lia.
    + intros q0 [Hq0 _]. cbn [post]. split; [by exists q0|done].
  - intros Hroom. rewrite init_no_room; [done|lia|]. rewrite length_replicate. lia.
Qed.

(** A device that keeps a log of writes and offers 128 entries. *)
#[local] Instance log_device : mmio (list (Z * Z)) := {
  readb := λ a d, (0, d);
  writeb := λ v a d, d;
  readl := λ a d, (if a =? 4096 + VIRTIO_MMIO_QUEUE_NUM_MAX then 128 else 0, d);
  writel := λ v a d, d ++ [(a - 4096, v)];
}.

Lemma vm_setup_vq_correct_witness :
  post (vm_setup_vq (D := list (Z * Z)) 4096 (λ p, p / 4096) 0 0 8 8192 128 1 0 0 []) (λ '(q, d'),
    (∃ q0, q = Some q0 ∧ idle (λ v, v) 7 (Sys q0 [] 0 [] [] [])) ∧ d' = [(0x30, 1); (0x38, 128); (0x3c, 4096); (0x40, 2)]).
Proof.
  exact (proj1 (vm_setup_vq_correct (D := list (Z * Z)) 4096 (λ v, v) (λ p, p / 4096) 0 0 8 8192 128 1 0 0 [] [(0x30, 1)] [(0x30, 1)] 128
    ltac:(lia) ltac:(lia) ltac:(lia) eq_refl eq_refl) eq_refl).
Defined.
