(* ===== verification/VirtioBind.v ===== *)
(** * lib/virtio-mmio.c and lib/chr-testdev.c: binding a device

    Finding a virtio device in the device tree by its registers, and the device
    the guest reports its exit code to.  [ioremap] is a parameter, since it
    belongs to the architecture; the locks of chr-testdev are not modelled, each
    function runs alone. *)

From Stdlib Require Import String.
From S2P Require Import Prelude.
From S2P Require Import CMem.
From S2P Require Import CString.
From S2P Require Import CStringSpec.
From S2P Require Import CStringGlob.
From S2P Require Import CStringProps.
From S2P Require Import Printf.
From S2P Require Import PrintfOut.
From S2P Require Import PrintfFmt.
From S2P Require Import PrintfProps.
From S2P Require Import Fdt.
From S2P Require Import FdtRo.
From S2P Require Import FdtProps.
From S2P Require Import FdtTree.
From S2P Require Import FdtWalk.
From S2P Require Import FdtPath.
From S2P Require Import FdtThms.
From S2P Require Import FdtSearch.
From S2P Require Import DeviceTree.
From S2P Require Import DtProps.
From S2P Require Import DtExample.
From S2P Require Import DtFind.
From S2P Require Import Virtio.
From S2P Require Import VirtioProps.
From S2P Require Import VirtioMmio.

Definition VIRTIO_ID_CONSOLE : Z := 3.

Section bind.
Context {D : Type} {io : mmio D} (m : memory) (L : lits) (fdt s_virtio_mmio : Z) (ioremap : Z → Z → Z).

(** The state of the match: [info->base] and the device. *)
Definition vm_dt_match (devid : Z) (fdtnode : Z) (s : Z * D) : res (Z * (Z * D)) :=
  let dev := dt_device_bind_node (dt_device_init (dt_default_bus m L fdt) s) fdtnode in
  let* '(ret, base) := dt_pbus_get_base m L fdt dev in
  assert! (ret =? 0);
  match base with
  | None => Fault
  | Some r =>
      let base := ioremap (pr_addr r) (pr_size r) in
      let '(magic, d) := readl (base + VIRTIO_MMIO_MAGIC_VALUE) (snd s) in
      if negb (magic =? Z.lor (Z.lor (Z.lor 118 (Z.shiftl 105 8)) (Z.shiftl 114 16)) (Z.shiftl 116 24)) then Ret (0, (base, d)) else
      let '(id, d) := readl (base + VIRTIO_MMIO_DEVICE_ID) d in
      Ret (if id =? devid then 1 else 0, (base, d))
  end.

(** [vm_dev]: what [calloc] returns. *)
Definition virtio_mmio_dt_bind (vm_dev : Z) (devid : Z) (d : D) : res (option virtio_device * D) :=
  let* b := dt_available m fdt in
  if negb b then Ret (None, d) else
  let bus := DtBus (vm_dt_match devid) (translate (dt_default_bus m L fdt (S := Z * D))) in
  let* '(node, (base, d)) := dt_device_find_compatible m L fdt (dt_device_init bus (0, d)) s_virtio_mmio in
  assert! ((0 <=? node) || (node =? - FDT_ERR_NOTFOUND));
  if node =? - FDT_ERR_NOTFOUND then Ret (None, d) else
  assert! (negb (vm_dev =? 0));
  let '(vdev, d) := vm_device_init base d in
  Ret (Some vdev, d).

Definition virtio_mmio_bind (vm_dev : Z) (devid : Z) (d : D) : res (option virtio_device * D) := virtio_mmio_dt_bind vm_dev devid d.
Definition virtio_bind (vm_dev : Z) (devid : Z) (d : D) : res (option virtio_device * D) := virtio_mmio_bind vm_dev devid d.

(** ** lib/chr-testdev.c *)

(** [vcon], [in_vq] and [out_vq]; the base of the registers is in [vcon]. *)
Record chr_testdev := ChrTestdev { vcon : option virtio_device; in_vq : option queue; out_vq : option queue }.

Definition chr_testdev_init (virt_to_pfn : Z → Z) (vm_dev vdev notify : Z) (allocs : list (Z * Z * nat)) (names : Z → Z) (t : chr_testdev) (d : D) :
    res (chr_testdev * D) :=
  let* '(v, d) := virtio_bind vm_dev VIRTIO_ID_CONSOLE d in
  match v with
  | None => Ret (ChrTestdev None (in_vq t) (out_vq t), d)
  | Some v =>
      let* '(ret, vqs, d) := vm_find_vqs (vd_base v) virt_to_pfn vdev notify allocs 0 (λ _, 0) names d in
      if ret <? 0 then Ret (ChrTestdev None (in_vq t) (out_vq t), d) else
      Ret (ChrTestdev (Some v) (vqs !! 0%nat) (vqs !! 1%nat), d)
  end.

(** [buf] is the static array, [fmt] the address of the format, [sp] the stack
    below the call. *)
Definition chr_testdev_exit (f : nat) (virt_to_phys : Z → Z) (sp buf fmt : Z) (code : Z) (m : memory) (t : chr_testdev) (d : D) :
    res (memory * chr_testdev * D) :=
  match vcon t, out_vq t with
  | None, _ => Ret (m, t, d)
  | Some _, None => Fault
  | Some v, Some q =>
      let* '(_, m) := snprintf sp buf 8 fmt [u64 code] m in
      let* len := strlen m buf in
      let* '(q, d) := __testdev_send (vd_base v) f virt_to_phys q buf (u32 len) d in
      Ret (m, ChrTestdev (vcon t) (in_vq t) (Some q), d)
  end.
End bind.

(** ** Binding *)

(** The registers of the devices with a compatible string. *)
Definition device_regs (t : list Z) (l : list (option node * node)) : list (option dt_pbus_reg) :=
  omap (λ '(p, n), if compatible t n then Some (p ≫= λ p, reg_at p n 0) else None) l.

(** The first device whose registers show the magic value, the letters virt, at
    offset 0 and the device number at offset 8. *)
Fixpoint probe {D} {io : mmio D} (ioremap : Z → Z → Z) (devid : Z) (rs : list (option dt_pbus_reg)) (d : D) : res (option Z * D) :=
  match rs with
  | [] => Ret (None, d)
  | None :: _ => Abort
  | Some r :: rs =>
      let base := ioremap (pr_addr r) (pr_size r) in
      let '(magic, d) := readl base d in
      if magic =? 0x74726976 then
        let '(id, d) := readl (base + 8) d in
        if id =? devid then Ret (Some base, d) else probe ioremap devid rs d
      else probe ioremap devid rs d
  end.

(** What binding does to the device at [base]: it reads number and vendor and
    announces pages of 4 kB. *)
Definition bound {D} {io : mmio D} (base : Z) (d : D) : virtio_device * D :=
  let '(id, d) := readl (base + 8) d in
  let '(vendor, d) := readl (base + 12) d in
  (VirtioDevice id vendor base, writel 4096 (base + 0x28) d).

(** Devices whose registers can be read without effect: the first with the
    right contents. *)
Definition shows {D} {io : mmio D} (devid : Z) (d : D) (base : Z) : bool :=
  (fst (readl base d) =? 0x74726976) && (fst (readl (base + 8) d) =? devid).

Lemma readl_pure {D} {io : mmio D} (Hpure : ∀ a d, snd (readl a d) = d) a d : readl a d = (fst (readl a d), d).
Proof. rewrite <- (Hpure a d) at 3. by destruct (readl a d). Qed.

Lemma probe_pure {D} {io : mmio D} ioremap devid (Hpure : ∀ a d, snd (readl a d) = d) rs d :
  probe ioremap devid (map Some rs) d = Ret (List.find (shows devid d) (map (λ r, ioremap (pr_addr r) (pr_size r)) rs), d).
Proof.
  induction rs as [|r rs IH]; [done|]. cbn [map probe List.find]. unfold shows at 1.
  rewrite (readl_pure Hpure). destruct (_ =? _); [|exact IH]. rewrite (readl_pure Hpure). cbn [andb]. by destruct (_ =? _); [|exact IH].
Qed.

Section probe.
Context {D : Type} {io : mmio D} (m : memory) (L : lits) (fdt : Z) (ioremap : Z → Z → Z) (root : node) `{!fdt_tree m fdt root} (HL : lits_ok m L).
Context (t : list Z).

(** One node: its registers are read as the tree has them. *)
Lemma match_node_spec devid p n base d : (p, n) ∈ with_parents None root → (∀ q, p = Some q → cells_fit q) →
  vm_dt_match m L fdt ioremap devid (n_off n) (base, d) =
  match p ≫= λ p, reg_at p n 0 with
  | Some r =>
      let base := ioremap (pr_addr r) (pr_size r) in
      let '(magic, d) := readl base d in
      if magic =? 0x74726976 then let '(id, d) := readl (base + 8) d in Ret (if id =? devid then 1 else 0, (base, d)) else Ret (0, (base, d))
  | None => Abort
  end.
Proof.
  intros Hin Hc. unfold vm_dt_match, dt_pbus_get_base, dt_pbus_translate. cbn [fdtnode dt_device_bind_node snd].
  assert (Hn : n ∈ nodes root) by (rewrite <- (with_parents_nodes None); by apply (list_elem_of_fmap_2 snd) in Hin).
  destruct p as [p|]; cbn [mbind option_bind].
  - apply with_parents_kid in Hin as [[? _]|[Hp Hk]]; [done|]. pose proof (reg_count_nonneg p n (Hc p eq_refl)).
    rewrite (translate_count m L fdt root HL p) by (done || lia || by apply Hc). cbn [bind]. destruct (reg_at p n 0) as [r|]; [|done].
    cbn [bind Z.eqb]. change VIRTIO_MMIO_MAGIC_VALUE with 0. rewrite Z.add_0_r. destruct (readl _ d) as [magic d1].
    change (Z.lor _ _) with 0x74726976. by destruct (magic =? _).
  - apply with_parents_root in Hin as [_ ->]. unfold dt_pbus_translate_node. by rewrite ft_parent_root.
Qed.

Lemma first_match_probe {B} (k : option Z → D → res B) devid l : (∀ p n, (p, n) ∈ l → (p, n) ∈ with_parents None root) →
  (∀ p n, (Some p, n) ∈ l → compatible t n = true → cells_fit p) → ∀ base d,
  (let* '(node, (base, d)) := first_match (vm_dt_match m L fdt ioremap devid) (List.filter (compatible t) (map snd l)) (base, d) in
   assert! ((0 <=? node) || (node =? - FDT_ERR_NOTFOUND));
   if node =? - FDT_ERR_NOTFOUND then k None d else k (Some base) d) =
  let* '(b, d) := probe ioremap devid (device_regs t l) d in k b d.
Proof.
  induction l as [|[p n] l IH]; intros Hl Hc base d; [done|]. cbn [map snd List.filter]. unfold device_regs in *. cbn [omap list_omap].
  specialize (IH ltac:(set_solver) ltac:(set_solver)). destruct (compatible t n) eqn:Et; [|apply IH].
  assert (Hn : n ∈ nodes root) by (rewrite <- (with_parents_nodes None); apply (list_elem_of_fmap_2 snd) with (x := (p, n)), Hl; left).
  cbn [first_match probe]. rewrite (match_node_spec devid p n); [|apply Hl; left|intros q ->; apply (Hc q n); [left|done]].
  destruct (p ≫= _) as [r|]; [|done]. cbv zeta.
  destruct (readl _ d) as [magic d1]. destruct (magic =? _); [|cbn [bind Z.ltb Z.compare Z.eqb]; apply IH].
  destruct (readl _ d1) as [id d2]. destruct (id =? devid); cbn [bind Z.ltb Z.compare Z.eqb]; [|apply IH].
  pose proof (ft_off n Hn). rewrite (proj2 (Z.leb_le 0 (n_off n))), (proj2 (Z.eqb_neq (n_off n) _)) by (unfold FDT_ERR_NOTFOUND; lia). done.
Qed.
End probe.

(** [virtio_bind] on the nodes of the tree. *)
Lemma bind_spec {D} {io : mmio D} m L fdt root str ioremap vm_dev devid (d : D) : blob_tree m fdt root → lits_ok m L →
  (∀ n, n ∈ nodes root → compatible_ok n) → cstr m str (lit "virtio,mmio") → vm_dev ≠ 0 →
  (∀ p n, (Some p, n) ∈ with_parents None root → compatible (lit "virtio,mmio") n = true → cells_fit p) →
  virtio_bind m L fdt str ioremap vm_dev devid d =
  let* '(b, d) := probe ioremap devid (device_regs (lit "virtio,mmio") (with_parents None root)) d in
  match b with
  | Some base => let '(vdev, d) := bound base d in Ret (Some vdev, d)
  | None => Ret (None, d)
  end.
Proof.
  intros Hbt HL Hok Hstr Hv Hc. unfold virtio_bind, virtio_mmio_bind, virtio_mmio_dt_bind.
  assert (Ha : dt_available m fdt = Ret true).
  { destruct Hbt as (blob & _ & _ & (Hb & Hs & Hh & _) & _). unfold dt_available. destruct (bytes_range _ _ _ Hb) as [? _]; [by intros ->|].
    rewrite (proj2 (Z.eqb_neq fdt 0)) by lia. by rewrite Hh. }
  rewrite Ha. cbn [bind negb]. apply blob_tree_fdt_tree in Hbt.
  rewrite (find_compatible_spec m L fdt root HL Hok str (lit "virtio,mmio")) by done. cbn [bus info dt_device_init match_].
  rewrite <- (with_parents_nodes None). rewrite (proj2 (Z.eqb_neq vm_dev 0)) by done. cbn [negb].
  apply (first_match_probe m L fdt ioremap root HL (lit "virtio,mmio") (λ b d, match b with
    | Some base => let '(vdev, d) := bound base d in Ret (Some vdev, d) | None => Ret (None, d) end) devid (with_parents None root)); done.
Qed.

(** C24: binding a virtio device.  [virtio_bind] looks at the nodes compatible with
    "virtio,mmio" in the order of the tree, maps the registers each of them has
    and binds the first that shows the letters virt at offset 0 and the wanted
    device number at offset 8; it is null when there is none.  Binding reads
    number and vendor and announces the page size.  A node without registers
    aborts.  The second part spells this out for registers that can be read
    without effect. *)
Theorem virtio_bind_correct {D} {io : mmio D} m L fdt root str ioremap vm_dev devid (d : D) : blob_tree m fdt root → lits_ok m L →
  (∀ n, n ∈ nodes root → compatible_ok n) → cstr m str (lit "virtio,mmio") → vm_dev ≠ 0 →
  (∀ p n, (Some p, n) ∈ with_parents None root → compatible (lit "virtio,mmio") n = true → cells_fit p) →
  let rs := device_regs (lit "virtio,mmio") (with_parents None root) in
  (virtio_bind m L fdt str ioremap vm_dev devid d =
   let* '(b, d) := probe ioremap devid rs d in
   match b with
   | Some base => let '(vdev, d) := bound base d in Ret (Some vdev, d)
   | None => Ret (None, d)
   end) ∧
  ((∀ a d, snd (readl a d) = d) → ∀ regs, rs = map Some regs →
   virtio_bind m L fdt str ioremap vm_dev devid d =
   match List.find (shows devid d) (map (λ r, ioremap (pr_addr r) (pr_size r)) regs) with
   | Some base => Ret (Some (VirtioDevice devid (fst (readl (base + 12) d)) base), writel 4096 (base + 0x28) d)
   | None => Ret (None, d)
   end).
Proof.
  intros Hbt HL Hok Hstr Hv Hc rs. pose proof (bind_spec m L fdt root str ioremap vm_dev devid d Hbt HL Hok Hstr Hv Hc) as E.
  split; [exact E|]. intros Hpure regs Hrs. rewrite E. fold rs. rewrite Hrs, (probe_pure ioremap devid Hpure). cbn [bind].
  destruct (List.find _ _) as [base|] eqn:Ef; [|done]. apply List.find_some in Ef as [_ [_ Hid%Z.eqb_eq]%andb_true_iff].
  unfold bound. by rewrite (readl_pure Hpure), (readl_pure Hpure), Hid.
Qed.

(** ** The exit code *)

Definition c_q : Z := 113.

Lemma exit_renders buf size m code : - 2 ^ 31 ≤ code < 2 ^ 31 → renders buf size m [c_percent; c_d; c_q] [u64 code] (int_str code (-1) ++ [c_q]).
Proof.
  intros Hc. assert (Harg : signed_arg 0 (u64 code) = code).
  { unfold signed_arg, s32, sgn, u64. cbn [Z.eqb]. change (2 ^ (32 - 1)) with (2 ^ 31). Z.div_mod_to_equations. lia. }
  apply (renders_dir buf size m (mk_dir false NoWidth NoPrec 0 ConvD) [u64 code] (int_str code (-1)) [c_q] [] [c_q]); [done|done| |].
  - apply (dir_spec_intro _ _ _ _ [] [u64 code] props0); [constructor|].
    pose proof (conv_d buf size m 0 props0 (u64 code)) as Hd. rewrite Harg, pad_str_plain in Hd. apply Hd; cbn; lia.
  - apply renders_lit; [done|done|constructor].
Qed.

Lemma rev_digits_longer f n (k : nat) : (k < f)%nat → 10 ^ Z.of_nat k ≤ n → (k < length (rev_digits f n 10))%nat.
Proof.
  revert n k. induction f as [|f IH]; intros n k Hf Hn; [lia|]. cbn [rev_digits]. pose proof (Z.pow_pos_nonneg 10 (Z.of_nat k)).
  rewrite (proj2 (Z.eqb_neq n 0)) by lia. cbn [length]. destruct k as [|k]; [lia|]. apply -> Nat.succ_lt_mono. apply IH; [lia|].
  apply Z.div_le_lower_bound; [lia|]. rewrite <- Z.pow_succ_r by lia. by replace (Z.succ (Z.of_nat k)) with (Z.of_nat (S k)) by lia.
Qed.

(** Numerals that leave room for the letter and the terminator in 8 bytes. *)
Lemma exit_length code : - 2 ^ 31 ≤ code < 2 ^ 31 →
  (- 10 ^ 5 < code < 10 ^ 6 → (length (int_str code (-1)) ≤ 6)%nat) ∧ (¬ (- 10 ^ 5 < code < 10 ^ 6) → (7 ≤ length (int_str code (-1)) ≤ 11)%nat).
Proof.
  intros Hc. unfold int_str, numeral. rewrite !length_app, length_reverse. pose proof (zeros_length (-1) (rev_digits 65 (Z.abs code) 10)) as Hz.
  assert (Hb : ∀ k, 0 ≤ k → Z.abs code < 10 ^ k → len (rev_digits 65 (Z.abs code) 10) ≤ k) by (intros k Hk H; apply rev_digits_length; lia).
  assert (Hl : ∀ k : nat, (k < 65)%nat → 10 ^ Z.of_nat k ≤ Z.abs code → (k < length (rev_digits 65 (Z.abs code) 10))%nat) by (intros k; apply rev_digits_longer).
  pose proof (Hb 10 ltac:(lia) ltac:(lia)). split; intros Hr; destruct (Z.ltb_spec code 0); cbn [length].
  - pose proof (Hb 5 ltac:(lia) ltac:(lia)). lia.
  - pose proof (Hb 6 ltac:(lia) ltac:(lia)). lia.
  - pose proof (Hl 5%nat ltac:(lia) ltac:(change (10 ^ Z.of_nat 5) with (10 ^ 5); lia)). lia.
  - pose proof (Hl 6%nat ltac:(lia) ltac:(change (10 ^ Z.of_nat 6) with (10 ^ 6); lia)). lia.
Qed.

(** What fits into the buffer of [chr_testdev_exit]. *)
Definition exit_text (code : Z) : list Z := take 7 (int_str code (-1) ++ [c_q]).

Lemma exit_text_spec code : - 2 ^ 31 ≤ code < 2 ^ 31 →
  exit_text code = (if decide (- 10 ^ 5 < code < 10 ^ 6) then int_str code (-1) ++ [c_q] else take 7 (int_str code (-1))) ∧
  chars (exit_text code) ∧ 0 < len (exit_text code) ≤ 7.
Proof.
  intros Hc. destruct (exit_length code Hc) as [H1 H2]. unfold exit_text. split_and!.
  - case_decide as E; [specialize (H1 E)|specialize (H2 E)]; [by rewrite take_ge by (rewrite length_app; cbn; lia)|by rewrite take_app_le by lia].
  - apply Forall_take, Forall_app. split; [apply int_str_chars; lia|by repeat constructor].
  - rewrite length_take, length_app. cbn [length]. lia.
  - rewrite length_take. lia.
Qed.

(** C25: reporting the exit code.  With a device bound and a new queue,
    [chr_testdev_exit] sends the decimal numeral of the code followed by the
    letter q: the text lies in the buffer, descriptor 0 has its address and
    length, the available ring holds that descriptor, and the device has been
    notified of queue 1; the call returns.  The buffer has 8 bytes: for codes
    from 10^6 on and from -10^5 down, the first 7 characters of the numeral
    are sent, without the letter.  Without a device nothing happens. *)
Theorem chr_testdev_exit_correct {D} {io : mmio D} f virt_to_phys sp buf fmt code m v inq dat align vdev pages notify cb name q0 (d : D) :
  Z.of_nat (length dat) = 128 → vring_init_virtqueue (blank 7 dat) 1 128 align vdev pages notify cb name = Ret q0 →
  mapped m buf 8 → fresh_region m sp UINT_BUF → cstr m fmt [c_percent; c_d; c_q] → disjoint_regions buf 8 fmt 4 → - 2 ^ 31 ≤ code < 2 ^ 31 →
  let text := if decide (- 10 ^ 5 < code < 10 ^ 6) then int_str code (-1) ++ [c_q] else take 7 (int_str code (-1)) in
  post (chr_testdev_exit (S f) virt_to_phys sp buf fmt code m (ChrTestdev (Some v) inq (Some q0)) d) (λ '(m', t', d'),
    cstr m' buf text ∧ d' = writel 1 (vd_base v + VIRTIO_MMIO_QUEUE_NOTIFY) d ∧
    ∃ q', out_vq t' = Some q' ∧ avail_idx (ring q') = 1 ∧ avail_ring (ring q') !! 0%nat = Some 0 ∧
      (d_addr <$> descs (ring q') !! 0%nat, d_len <$> descs (ring q') !! 0%nat) = (Some (virt_to_phys buf), Some (len text))) ∧
  chr_testdev_exit (S f) virt_to_phys sp buf fmt code m (ChrTestdev None inq (Some q0)) d = Ret (m, ChrTestdev None inq (Some q0), d).
Proof.
  intros Hdat Hq0 Hm Hsp Hfmt Hdis Hcode text. destruct (exit_text_spec code Hcode) as (Et & Hch & Hlen). fold text in Et. rewrite Et in Hch, Hlen.
  split; [|done]. unfold chr_testdev_exit, snprintf. cbn [vcon out_vq in_vq]. destruct (exit_length code Hcode) as [Hl1 Hl2].
  rewrite post_bind. eapply post_mono.
  { eapply vsnprintf_spec; try done; [by apply exit_renders|rewrite length_app; cbn [length]; lia]. }
  intros [r m'] (_ & Hb & _). change (Z.to_nat (8 - 1)) with 7%nat in Hb. fold (exit_text code) in Hb. rewrite Et in Hb.
  assert (Hs : cstr m' buf text) by (by split). clearbody text.
  rewrite (strlen_spec _ _ _ Hs). cbn [bind]. rewrite u32_small by lia.
  unfold __testdev_send. rewrite bind_assoc. destruct (cstr_range _ _ _ Hs) as [Hbuf _].
  pose proof (first_request virt_to_phys 7 dat 1 align vdev pages notify cb name q0 buf (len text) ltac:(lia) Hdat ltac:(lia) ltac:(lia) Hq0) as Hf.
  rewrite post_bind. eapply post_mono; [exact Hf|]. intros [r0 q1] (-> & _ & Hix & _ & Hav & _ & Hg). cbn [Z.ltb Z.compare virtqueue_kick vm_notify wait_buf].
  rewrite Hix. apply post_inv in Hg as ([[b l] q2] & -> & (-> & -> & Hi & Hr & Hd)). cbn [bind]. rewrite (proj2 (Z.eqb_neq buf 0)) by lia. cbn [bind post out_vq].
  split; [done|]. split; [done|]. exists q2. split; [done|]. split; [done|]. split; [by rewrite Hr|done].
Qed.

(** A device that shows the magic value and the number of a console at 4096. *)
#[local] Instance console_device : mmio (list (Z * Z)) := {
  readb := λ a d, (0, d);
  writeb := λ v a d, d;
  readl := λ a d, (if a =? 4096 + VIRTIO_MMIO_MAGIC_VALUE then 1953655158 else if a =? 4096 + VIRTIO_MMIO_DEVICE_ID then 3 else 0, d);
  writel := λ v a d, d ++ [(a - 4096, v)];
}.

Lemma machine_virtio_fits p n : (Some p, n) ∈ with_parents None (Machine.root 2) → compatible (lit "virtio,mmio") n = true → cells_fit p.
Proof.
  intros Hin Ht. cbn [with_parents Machine.root Machine.memory_node Machine.chosen_node Machine.v_node Machine.cpus_node Machine.cpu_node flat_map app] in Hin.
  repeat (apply elem_of_cons in Hin as [Hin|Hin]); [..|by apply not_elem_of_nil in Hin];
  (try discriminate Hin); injection Hin as -> ->; try (by vm_compute in Ht). exact Machine.root_fits.
Qed.

(** The same registers without the magic value. *)
Definition silent_device : mmio (list (Z * Z)) := {|
  readb := λ a d, (0, d);
  writeb := λ v a d, d;
  readl := λ a d, (if a =? 4096 + VIRTIO_MMIO_DEVICE_ID then 3 else 0, d);
  writel := λ v a d, d ++ [(a - 4096, v)];
|}.

Lemma virtio_bind_correct_witness :
  virtio_bind (D := list (Z * Z)) (Machine.mem 2) Machine.L 4096 Machine.s_virtio_mmio (λ a _, a) 8 VIRTIO_ID_CONSOLE [] = Ret (Some (VirtioDevice 3 0 4096), [(0x28, 4096)]) ∧
  virtio_bind (D := list (Z * Z)) (Machine.mem 2) Machine.L 4096 Machine.s_virtio_mmio (λ a _, a) 8 2 [] = Ret (None, []) ∧
  virtio_bind (io := silent_device) (Machine.mem 2) Machine.L 4096 Machine.s_virtio_mmio (λ a _, a) 8 VIRTIO_ID_CONSOLE [] = Ret (None, []).
Proof.
  pose proof (λ io devid, virtio_bind_correct (D := list (Z * Z)) (io := io) (Machine.mem 2) Machine.L 4096 (Machine.root 2) Machine.s_virtio_mmio (λ a _, a) 8 devid []
    Machine.machine_blob (Machine.mem_lits 2 (or_introl eq_refl)) machine_compatible Machine.mem_virtio_mmio ltac:(done) machine_virtio_fits) as H.
  split; [exact (proj1 (H console_device VIRTIO_ID_CONSOLE))|]. split; [exact (proj1 (H console_device 2))|exact (proj1 (H silent_device VIRTIO_ID_CONSOLE))].
Defined.

Definition exit_queue : queue := ret_or (blank 7 []) (vring_init_virtqueue (blank 7 (replicate 128 0)) 1 128 4096 0 8192 0 0 0).
Definition exit_mem : memory := blocks [(100, replicate 8 7); (200, [c_percent; c_d; c_q; 0])].
Lemma exit_queue_eq : vring_init_virtqueue (blank 7 (replicate 128 0)) 1 128 4096 0 8192 0 0 0 = Ret exit_queue.
Proof. by vm_compute. Qed.

Lemma chr_testdev_exit_correct_witness :
  post (chr_testdev_exit (D := list (Z * Z)) 1 (λ v, v) 400 100 200 3 exit_mem (ChrTestdev (Some (VirtioDevice 3 0 4096)) None (Some exit_queue)) []) (λ '(m', t', d'),
    cstr m' 100 [51; c_q] ∧ d' = [(0x50, 1)] ∧
    ∃ q', out_vq t' = Some q' ∧ avail_idx (ring q') = 1 ∧ avail_ring (ring q') !! 0%nat = Some 0 ∧
      (d_addr <$> descs (ring q') !! 0%nat, d_len <$> descs (ring q') !! 0%nat) = (Some 100, Some 2)) ∧
  post (chr_testdev_exit (D := list (Z * Z)) 1 (λ v, v) 400 100 200 12345678 exit_mem (ChrTestdev (Some (VirtioDevice 3 0 4096)) None (Some exit_queue)) [])
    (λ '(m', t', d'), cstr m' 100 [49; 50; 51; 52; 53; 54; 55]).
Proof.
  assert (Hm : mapped exit_mem 100 8).
  { intros i Hi. split; [apply addr_ok_iff; lia|]. unfold exit_mem, blocks. cbn [foldr].
    rewrite upd_lookup, decide_True by (cbn [length replicate]; lia). apply lookup_lt_is_Some. cbn [length replicate]. lia. }
  assert (Hs : fresh_region exit_mem 400 UINT_BUF).
  { split; [lia|]. split; [by vm_compute|]. intros q Hq. unfold UINT_BUF in Hq.
    unfold exit_mem, blocks. cbn [foldr]. rewrite !upd_outside by (cbn [length replicate]; lia). done. }
  assert (Hf : cstr exit_mem 200 [c_percent; c_d; c_q]) by (unfold exit_mem; concrete_cstr).
  pose proof (λ code Hc, chr_testdev_exit_correct (D := list (Z * Z)) 0 (λ v, v) 400 100 200 code exit_mem (VirtioDevice 3 0 4096) None (replicate 128 0) 4096 0 8192 0 0 0 exit_queue []
    eq_refl exit_queue_eq Hm Hs Hf ltac:(left; lia) Hc) as H.
  split; [exact (proj1 (H 3 ltac:(lia)))|]. eapply post_mono; [exact (proj1 (H 12345678 ltac:(lia)))|]. by intros [[m' t'] d'] (Hc & _).
Defined.
