(* ===== verification/Sieve.v ===== *)
(** * common/sieve.c: the sieve of Eratosthenes

    The loops of the test program over an array of bytes, and that they leave
    the prime numbers marked and return how many there are. *)

From S2P Require Import Prelude.
From Stdlib Require Import Znumtheory.

(** An operation on [int] that must not overflow. *)
Definition int_ok (x : Z) : bool := (- 2 ^ 31 <=? x) && (x <? 2 ^ 31).

(** [for (j = i*2; j < size; j += i) data[j] = 0;] from [j] on. *)
Fixpoint strike (f : nat) (i j size : Z) (data : list Z) : res (list Z) :=
  match f with
  | O => Hang
  | S f =>
      if j <? size then
        let* data := arr_set data j 0 in
        valid! (int_ok (j + i));
        strike f i (j + i) size data
      else Ret data
  end.

(** The body of the second loop; [r] counts the primes. *)
Definition sieve_step (size i : Z) (s : Z * list Z) : res (Z * list Z) :=
  let '(r, data) := s in
  let* c := arr_get data i in
  if c =? 0 then Ret (r, data) else
  valid! (int_ok (i * 2));
  let* data := strike (S (Z.to_nat size)) i (i * 2) size data in
  Ret (r + 1, data).

Definition sieve (data : list Z) (size : Z) : res (Z * list Z) :=
  let* data := for_ (Z.to_nat size) 0 (λ i data, arr_set data i 1) data in
  let* data := arr_set data 1 0 in
  let* data := arr_set data 0 0 in
  for_ (Z.to_nat (size - 2)) 2 (sieve_step size) (0, data).

(** ** Correctness *)

#[global] Instance prime_decision p : Decision (prime p) := prime_dec p.

(** How many primes are below [n]. *)
Definition primes_below (n : Z) : Z := Z.of_nat (length (filter prime (seqZ 0 n))).

Section sieve.
Context (size : Z) (Hsize : 2 ≤ size ≤ 2 ^ 30).

(** Before the number [i] is looked at, exactly the numbers without a divisor
    below [i] are marked. *)
Definition struck (i x : Z) : Prop := x < 2 ∨ ∃ d, 2 ≤ d < i ∧ d < x ∧ (d | x).
Definition marks (P : Z → Prop) (data : list Z) : Prop :=
  Z.of_nat (length data) = size ∧ ∀ x, 0 ≤ x < size → ∃ b, data !! Z.to_nat x = Some b ∧ (b = 0 ∨ b = 1) ∧ (b = 0 ↔ P x).

Lemma marks_set P data j : marks P data → 0 ≤ j < size → post (arr_set data j 0) (marks (λ x, P x ∨ x = j)).
Proof.
  intros [Hl Hm] Hj. rewrite arr_set_ok by lia. cbn [post]. split; [by rewrite length_insert|]. intros x Hx.
  destruct (decide (x = j)) as [->|Hne].
  - exists 0. rewrite list_lookup_insert_eq by lia. split_and!; [done|by left|]. split; [by right|done].
  - rewrite list_lookup_insert_ne by lia. destruct (Hm x Hx) as (b & ? & ? & Hb). exists b. split_and!; [done..|]. rewrite Hb. split; [by left|by intros [?|?]].
Qed.

Lemma marks_ext P Q data : (∀ x, 0 ≤ x < size → P x ↔ Q x) → marks P data → marks Q data.
Proof. intros H [Hl Hm]. split; [done|]. intros x Hx. destruct (Hm x Hx) as (b & ? & ? & Hb). exists b. split_and!; [done..|]. rewrite Hb. by apply H. Qed.

(** All multiples from [j] on are struck out. *)
Lemma strike_spec f i j P data : marks P data → 2 ≤ i < size → 0 ≤ j → j < size + i → (i | j) → Z.max 0 (size - j) < Z.of_nat f →
  post (strike f i j size data) (marks (λ x, P x ∨ j ≤ x ∧ (i | x))).
Proof.
  revert j P data. induction f as [|f IH]; intros j P data Hm Hi Hj Hji Hd Hf; [lia|]. cbn [strike].
  destruct (Z.ltb_spec j size).
  - apply post_bind. eapply post_mono; [apply marks_set; done|]. intros data' Hm'. cbn beta.
    replace (int_ok (j + i)) with true by (symmetry; apply andb_true_iff; rewrite Z.leb_le, Z.ltb_lt; lia).
    eapply post_mono; [apply IH; [exact Hm'|done|lia|lia|by apply Z.divide_add_r|lia]|]. cbn beta. intros data''. apply marks_ext. intros x Hx. split.
    + intros [[?| ->]|[? ?]]; [by left|by right|right; split; [lia|done]].
    + intros [?|[Hjx Hdx]]; [by left; left|]. destruct (decide (x = j)) as [->|Hne]; [left; by right|]. right. split; [|done].
      destruct Hd as [a Ha], Hdx as [b Hb]. assert (a < b) by nia. nia.
  - cbn [post]. eapply marks_ext; [|exact Hm]. cbn beta. intros x Hx. split; [by left|]. intros [?|[? _]]; [done|lia].
Qed.

(** Looking at [i]: it is marked exactly when it is prime. *)
Lemma struck_prime i : 2 ≤ i → ¬ struck i i ↔ prime i.
Proof.
  intros Hi. rewrite <- prime_alt. split.
  - intros Hs. split; [lia|]. intros d Hd Hdiv. apply Hs. right. exists d. split_and!; [lia|lia|lia|done].
  - intros [_ Hp] [?|(d & Hd & _ & Hdiv)]; [lia|]. by apply (Hp d); [lia|].
Qed.

Lemma struck_next i x : 2 ≤ i → 0 ≤ x → struck (i + 1) x ↔ struck i x ∨ i < x ∧ (i | x).
Proof.
  intros Hi Hx. unfold struck. split.
  - intros [?|(d & Hd & Hdx & Hdiv)]; [by left; left|]. destruct (decide (d = i)) as [->|]; [by right|]. left. right. exists d. split_and!; [lia|lia|lia|done].
  - intros [[?|(d & Hd & Hdx & Hdiv)]|[? ?]]; [by left|right; exists d; split_and!; [lia|lia|lia|done]|right; exists i; split_and!; [lia|lia|lia|done]].
Qed.

Lemma sieve_step_spec i r data : 2 ≤ i < size → marks (struck i) data → r = primes_below i →
  post (sieve_step size i (r, data)) (λ '(r', data'), marks (struck (i + 1)) data' ∧ r' = primes_below (i + 1)).
Proof.
  intros Hi Hm Hr. cbn [sieve_step]. pose proof Hm as [Hl Hx]. destruct (Hx i ltac:(lia)) as (b & Hb & Hb01 & Hbs).
  rewrite (arr_get_ok _ _ b) by (done || lia). cbn [bind].
  assert (Hc : primes_below (i + 1) = primes_below i + (if decide (prime i) then 1 else 0)).
  { unfold primes_below. rewrite seqZ_app, filter_app, length_app by lia. cbn [seqZ Z.to_nat]. rewrite Nat2Z.inj_add. f_equal.
    change (seqZ (0 + i) 1) with [0 + i]. rewrite Z.add_0_l, filter_cons. by destruct (decide (prime i)). }
  destruct (Z.eqb_spec b 0) as [E|E].
  - cbn [post]. split.
    + eapply marks_ext; [|exact Hm]. intros x Hx'. rewrite struck_next by lia. split; [by left|]. intros [?|[? Hd]]; [done|].
      destruct (proj1 Hbs E) as [?|(d & ? & ? & ?)]; [lia|]. right. exists d. split_and!; [lia|lia|lia|by etrans].
    + rewrite Hc, decide_False; [lia|]. rewrite <- struck_prime by lia. intros Hn. by apply Hn, Hbs.
  - replace (int_ok (i * 2)) with true by (symmetry; apply andb_true_iff; rewrite Z.leb_le, Z.ltb_lt; lia).
    apply post_bind. eapply post_mono; [apply (strike_spec _ i (i * 2) (struck i)); [done|done|lia|lia|by exists 2; lia|lia]|].
    cbn beta. intros data' Hm'. cbn [post]. split.
    + eapply marks_ext; [|exact Hm']. cbn beta. intros x Hx'. rewrite struck_next by lia. split.
      * intros [?|[? ?]]; [by left|right; split; [lia|done]].
      * intros [?|[? Hd]]; [by left|right; split; [|done]]. destruct Hd as [k Hk]. assert (2 ≤ k) by nia. nia.
    + rewrite Hc, decide_True; [lia|]. apply struck_prime; [lia|]. intros Hn. by apply E, Hbs.
Qed.
End sieve.

(** C39: the sieve.  For an array of [size] bytes, [sieve] marks exactly the prime
    numbers below [size] and returns how many there are; no access is out of
    bounds and no index overflows. *)
Theorem sieve_correct data size : 2 ≤ size ≤ 2 ^ 30 → Z.of_nat (length data) = size →
  post (sieve data size) (λ '(r, data'), r = primes_below size ∧ Z.of_nat (length data') = size ∧
    ∀ x, 0 ≤ x < size → data' !! Z.to_nat x = Some (if decide (prime x) then 1 else 0)).
Proof.
  intros Hs Hl. unfold sieve. apply post_bind. eapply post_mono.
  { apply (for_inv (λ i data, Z.of_nat (length data) = size ∧ ∀ x, 0 ≤ x < i → data !! Z.to_nat x = Some 1)); [by split; [|lia]|].
    intros i d Hi [Hld Hd]. rewrite arr_set_ok by lia. cbn [post]. split; [by rewrite length_insert|]. intros x Hx.
    destruct (decide (x = i)) as [->|]; [by rewrite list_lookup_insert_eq by lia|]. rewrite list_lookup_insert_ne by lia. apply Hd. lia. }
  cbn beta. rewrite Z.add_0_l, Z2Nat.id by lia. intros d1 [Hl1 Hd1]. rewrite arr_set_ok by lia. cbn [bind].
  rewrite arr_set_ok by (rewrite length_insert; lia). cbn [bind]. set (d2 := <[_ := _]> _).
  assert (Hm : marks size (struck 2) d2).
  { split; [by unfold d2; rewrite !length_insert|]. intros x Hx. unfold d2. destruct (decide (x = 0)) as [->|]; [|destruct (decide (x = 1)) as [->|]].
    - exists 0. rewrite list_lookup_insert_eq by (rewrite length_insert; lia). split_and!; [done|by left|]. split; [by left|done].
    - exists 0. rewrite list_lookup_insert_ne, list_lookup_insert_eq by lia. split_and!; [done|by left|]. split; [by left|done].
    - exists 1. rewrite !list_lookup_insert_ne by lia. split_and!; [by apply Hd1|by right|]. split; [done|]. intros [?|(d & ? & _)]; lia. }
  eapply post_mono.
  { apply (for_inv (λ i '(r, data), marks size (struck i) data ∧ r = primes_below i)).
    - split; [exact Hm|by vm_compute].
    - intros i [r d] Hi [Hmi Hri]. apply sieve_step_spec; [done|lia|done|done]. }
  cbn beta. replace (2 + Z.of_nat (Z.to_nat (size - 2))) with size by lia. intros [r d] [[Hld Hmd] ->]. split_and!; [done..|].
  intros x Hx. destruct (Hmd x Hx) as (b & -> & Hb01 & Hb). f_equal.
  assert (Hp : ¬ struck size x ↔ prime x).
  { destruct (decide (x < 2)) as [|Hx2]; [split; [intros Hn; destruct Hn; by left|intros Hp%prime_ge_2; lia]|]. rewrite <- struck_prime by lia.
    unfold struck. split; intros Hn Hx'; apply Hn; destruct Hx' as [?|(e & ? & ? & ?)]; [by left|right; exists e; split_and!; [lia|lia|lia|done]|by left|right; exists e; split_and!; [lia|lia|lia|done]]. }
  destruct (decide (prime x)) as [Hpx|Hpx]; rewrite <- Hp in Hpx; destruct Hb01 as [->| ->]; try done; exfalso; [by apply Hpx, Hb|].
  apply Hpx. intros Hn%Hb. done.
Qed.

Lemma sieve_correct_witness : post (sieve [7; 7; 7; 7; 7; 7; 7; 7] 8) (λ '(r, data'), r = primes_below 8 ∧ Z.of_nat (length data') = 8 ∧
  ∀ x, 0 ≤ x < 8 → data' !! Z.to_nat x = Some (if decide (prime x) then 1 else 0)).
Proof. exact (sieve_correct [7; 7; 7; 7; 7; 7; 7; 7] 8 ltac:(lia) eq_refl). Defined.
